(* ===== verification/_CoqProject ===== *)
-Q . S2P
Prelude.v
RustStd.v
Net.v
NetText.v
Proto.v
IpUtil.v
Validation.v
Ipc.v
Tunnel.v
Os.v
Platform.v
Command.v
PlatformLinux.v
PlatformWindows.v
Nrpt.v
EndpointWindows.v
RtMsg.v
EndpointMacos.v
Snapshot.v
SessionRoutes.v
DnsMacos.v
PlatformMacos.v
MacosRoutes.v
Wintun.v
Session.v
SessionMacos.v
EndpointLinux.v
LinuxRoutes.v
LinuxDns.v
WindowsRoutes.v
Server.v
SessionLoop.v
Connection.v
Service.v
Owner.v
OwnerIdentity.v
Logging.v
Listener.v
ListenerWindows.v
Daemon.v
TestDaemon.v
