(* ===== verification/Prelude.v ===== *)
(** * Verification of the wg-kotlin Rust code

    wg-kotlin is a WireGuard client. Two parts of it are written in Rust: the
    privileged daemon, which owns the TUN device, routes and DNS settings of a
    session (wg-kotlin-daemon-rust), and the binding through which the Kotlin
    side drives BoringTun (wg-kotlin-uniffi-boringtun). This library models
    both and proves what makes them correct.

    ** The program's parts and the files that model them

    Paths are relative to src/wg-kotlin-daemon-rust/daemon/src unless said
    otherwise.

    - [Prelude], [RustStd], [Net], [NetText]: shared notation ([result], [let?], [;?]),
      automation (hint databases [wg], [wg_simp]), list and byte lemmas; the
      [str] methods, integer parsing and [IpAddr] of the Rust library, whose
      text is shown to be read back.
    - [Proto]: the messages of src/daemon-protocol/*.proto.
    - [IpUtil], [Validation]: ip_util.rs and validation.rs, the gate every
      configuration passes before the daemon acts on it.
    - [Ipc]: ipc/mod.rs, length-prefixed frames over a segmented byte stream.
      [Listener]: ipc/unix.rs, the socket a root daemon opens to one user.
      [ListenerWindows]: ipc/windows.rs, the named pipe.
    - [Tunnel]: wg-kotlin-uniffi-boringtun/src/commonMain/rust/lib.rs, keys and
      the [TunnelSession] object with its mutex-guarded buffer.
    - [Os]: programs that send requests to the operating system. A run is
      taken against an [os], a function from the history of requests and the
      next request to its reply; theorems quantify over all of them, so every
      failure at every point and every change over time is covered.
    - [Platform]: platform/mod.rs, route selection, installation, teardown and
      the cleanup hook. [Command]: its [command_output], the supervision of a
      child process over the events of its pipes. [PlatformLinux],
      [PlatformWindows], [PlatformMacos]: [configure_session] of linux.rs,
      windows.rs, macos.rs. [Nrpt]: the PowerShell scripts of windows.rs as
      programs over the table of DNS rules and the processes that own them.
    - [RtMsg], [EndpointMacos]: platform/endpoint_macos.rs, BSD routing
      messages byte by byte and the conversation over the routing socket.
      [Snapshot], [SessionRoutes]: platform/routes_macos.rs, reading the
      kernel's table and the transactional route changes. [MacosRoutes]: what
      the table holds once macos.rs has configured a session.
      [DnsMacos]: platform/dns_macos.rs, the resolver entries.
    - [EndpointLinux], [EndpointWindows]: platform/endpoint_linux.rs, the netlink
      counterpart, and endpoint_windows.rs, over the route library.
      [LinuxRoutes], [LinuxDns]: what the routing tables of Linux and the
      resolver settings of a link hold once a session was started, and after it.
      [WindowsRoutes]: what the route table of Windows then holds.
    - [Wintun]: wintun.rs, the extraction of the driver library as a sequence
      of file operations, and the references of session.rs that keep it.
    - [Session]: session.rs, [start] and [close] of a TUN session, its packets.
      [SessionMacos]: the same on macOS, whose platform keeps its own state.
    - [Server], [SessionLoop], [Connection], [Service]: server.rs, the decisions
      about one connection, the tasks of a running session and their
      interleavings, the two halves of a connection over the frame transport,
      and the service as a transition system over all connections.
    - [Owner], [Daemon], [Logging]: owner.rs, main.rs and logging.rs.
      [OwnerIdentity]: owner.rs against a process table that changes while it
      is read.
    - [TestDaemon]: ../examples/ipc_test_daemon.rs, the transport fixture.

    How they interact: [Daemon.main] opens the owner ([Owner]) and the log
    ([Logging]); [Daemon.run] extracts the driver library ([Wintun]), binds the
    listener ([Listener], [ListenerWindows]), and hands each accepted
    connection of the owner to the service ([Connection], [Service]), which reads frames ([Ipc]), validates the
    first ([Validation]), reserves the interface name and starts a session
    ([Session]). Starting it looks up the peers' routes, builds the device and
    calls [configure_session] of the platform.

    ** Conventions

    Names are those of the source. A fallible function returns [result]; one
    that can panic returns an [option] of it ([None] is the panic), and theorems
    show the panic away where callers rely on that. Integers are kept in [Z] or
    [N] with explicit width checks or wrap-around; bytes are [Byte.byte].
    Code compiled for one target takes the target as an argument. Loops over
    input bytes take the length of the input as fuel: every turn removes at
    least one byte (a routing or netlink message is never shorter than its
    header), and [parse_dump_fuel], [scan_fuel] and [scan_replies_fuel] show
    that more fuel gives the same result; [TestDaemon.echo_terminates] shows it
    for the fixture's loop. Loops over events or replies from
    outside are recursion over the list of those events; a [None] result then
    says that the events ended before the loop did.

    ** Interfaces

    Crates outside the repository are classes of operations with, where
    needed, a class of laws: prost ([Ipc.Message],
    [Ipc.MessageLaws]), base64 and x25519 ([Tunnel.Base64], [Tunnel.KeyLib]),
    BoringTun ([Tunnel.TunnLib]), of which nothing is assumed but that a slice
    keeps its length, route_manager
    ([Platform.RouteLib], and [EndpointWindows.WindowsRoute] for the fields
    Windows adds), the kernel's choice among routes on Windows
    ([WindowsRoutes.KernelLaws], [kernel_ok]) and on Linux ([LinuxRoutes.Fib]
    with [FibLaws], which also has what route_manager makes of a route there),
    the name tun_rs gives a device ([Service.device_named]: on macOS by its unit
    number, so without leading zeros), [resolvectl]
    ([LinuxDns.resolved]), the process table and process calls of the
    three systems ([OwnerIdentity]), the DNS cmdlets, processes and case folding
    of Windows ([Nrpt.Machine], [Nrpt.Culture]). Each has a concrete instance against which the
    witnesses of the theorems are evaluated. Inside the repository,
    [SessionRoutes.RouteTable] is the trait of that name, which the kernel
    model [Kernel] implements, and [Session.Platform] with [PlatformLaws] is
    what [start] needs of a platform, implemented by Linux and Windows; macOS,
    whose routes are kept in a state of their own, composes the same parts of
    [start] in [SessionMacos].

    ** What the theorems show

    - Configurations (C1, C39): the validator decides the declarative
      [valid_config]; names are compared by device.
    - Routes on macOS (C2, C9, C10, C26): a configured session routes the
      peers around the tunnel, the other allowed prefixes into it and nothing
      else; after any sequence of refused requests and lost replies a restore
      brings the original table back; a restore that says so has done so;
      routes of others are left alone.
    - Routes and DNS on Linux (C27, C28, C29): once a session was started the
      kernel sends the peers' packets where it sent them before, and the link
      has exactly the servers and domains of the configuration; a teardown
      that reports success leaves nothing of either. Two examples show the
      limits: [main_table_first], rules that lead to the main table before the
      peer's, and [host_route_lost], a host route to the peer that existed.
    - Routing messages (C31, C32, C38): what is written is read back, the
      right reply is found among others, whatever is read is well-formed.
    - Platforms (C7, C16, C35): every run of [configure_session]
      either issues all its requests and returns the teardown, or tears down
      everything itself; teardown attempts everything; once a session was
      started on Windows the kernel chooses for each peer the exception made
      from the route it chose before.
    - DNS on Windows (C23, C24, C25): a session has the rules its configuration
      asks for and none after its teardown; its scripts touch no rule of
      another session; clearing stale rules takes nothing from the living.
    - Commands (C12): the supervision of a child ends at the deadline, returns
      its output exactly when it is complete, and otherwise tells the child to
      end and waits for it, for which there is no deadline.
    - Sessions (C5, C6, C21, C22): no device survives a failed start; on macOS a
      session is undone completely when it is closed; under every interleaving
      the tasks of a session do what their sequential definitions say, and its
      teardown never waits for the client, and for the device only if it cannot
      be interrupted.
    - Wintun (C17, C18): whatever fails, the library is never writable by
      others, nothing is left of a failed extraction, and it outlives devices,
      whose sessions let go of their fields in their order.
    - Service (C3, C4, C30): reservations match live sessions under every
      interleaving, at most sixteen, and a stopping daemon drains; both rest on
      the normalisation of names, because a session releases the name of its
      device.
    - Protocol (C8, C13, C14, C15): frames round-trip however they are segmented;
      a connection carries whole responses in order, and packets pass between
      client and device unchanged in both directions.
    - Tunnel (C33, C34, C40): an operation panics only where BoringTun does, on
      a slice that is long enough; errors change nothing; a tunnel is created
      exactly from keys of 32 bytes.
    - Process (C11, C19, C20, C36, C37): the owner is opened only if it is the
      process the launcher described, and an authorized peer is that process,
      even when PIDs are used again; only the living owner
      is served; the daemon starts and ends in order and leaves neither socket
      nor directory unless the system refuses to remove them, no pipe, and no
      library when it returns and no session holds it;
      the socket is never reachable by others before it is restricted, the
      pipe's name is never given up and its descriptor lets in the owner's
      account, the system and administrators only; a log line cannot be forged.

    ** What is not modelled

    The generated protobuf code, whose encoding is the parameter [Ipc.Message];
    the PowerShell interpreter, of which [Nrpt] has the constructs its three
    scripts use; the lengths of timeouts, which appear as events that may happen
    at any moment (the one of [command_output] is a number of whole seconds);
    what other processes do to the route tables while a session is started; the command line and the installation of signal handlers in
    main.rs; logging inside a connection's task is a separate definition,
    because its moment is not determined. The calls into Win32, the kernel and
    other crates are outcomes or parameters, over which the theorems quantify. *)

From stdpp Require Export base list strings pretty gmap.
From Stdlib Require Export ZArith.
From Stdlib Require Import Lia.
From Stdlib Require Strings.Byte.

(** ** Scope, databases *)

Declare Scope rust_scope.
Delimit Scope rust_scope with rust.
Open Scope rust_scope.

(** [wg_simp] holds the rewriting rules that normalise the byte and string
    helpers; [wg] the facts [eauto] uses to close side conditions. *)
Create Rewrite HintDb wg_simp.
Create HintDb wg discriminated.

(** ** [Result] and the [?] operator *)

Inductive result (A E : Type) : Type :=
| Ok (a : A)
| Err (e : E).
Arguments Ok {A E} a.
Arguments Err {A E} e.

Definition rbind {A B E} (r : result A E) (f : A -> result B E) : result B E :=
  match r with Ok a => f a | Err e => Err e end.

Notation "'let?' x ':=' e 'in' k" := (rbind e (fun x => k))
  (at level 10, x pattern, k at level 200) : rust_scope.

Notation "e ';?' k" := (rbind e (fun _ => k))
  (at level 95, right associativity) : rust_scope.

Definition map_err {A E F} (f : E -> F) (r : result A E) : result A F :=
  match r with Ok a => Ok a | Err e => Err (f e) end.

Definition rmap {A B E} (f : A -> B) (r : result A E) : result B E :=
  match r with Ok a => Ok (f a) | Err e => Err e end.

Definition ok_or {A E} (o : option A) (e : E) : result A E :=
  match o with Some a => Ok a | None => Err e end.

Definition ok {A E} (r : result A E) : option A :=
  match r with Ok a => Some a | Err _ => None end.

Definition err {A E} (r : result A E) : option E :=
  match r with Ok _ => None | Err e => Some e end.

Definition is_ok {A E} (r : result A E) : bool :=
  match r with Ok _ => true | Err _ => false end.

(** The guard [if c { return Err(e) }]. *)
Definition fail_if {E} (c : bool) (e : E) : result unit E :=
  if c then Err e else Ok tt.

Lemma rbind_ok_inv {A B E} (r : result A E) (f : A -> result B E) b :
  rbind r f = Ok b <-> exists a, r = Ok a /\ f a = Ok b.
Proof. destruct r; simpl; naive_solver. Qed.

Lemma rbind_err_inv {A B E} (r : result A E) (f : A -> result B E) e :
  rbind r f = Err e <-> r = Err e \/ exists a, r = Ok a /\ f a = Err e.
Proof. destruct r; simpl; naive_solver. Qed.

Lemma rbind_unit_ok {B E} (r : result unit E) (k : result B E) b :
  rbind r (fun _ => k) = Ok b <-> r = Ok tt /\ k = Ok b.
Proof. destruct r as [[]|]; simpl; naive_solver. Qed.

Lemma ok_or_ok {A E} (o : option A) (e : E) a : ok_or o e = Ok a <-> o = Some a.
Proof. destruct o; simpl; naive_solver. Qed.

Lemma map_err_ok {A E F} (f : E -> F) (r : result A E) a :
  map_err f r = Ok a <-> r = Ok a.
Proof. destruct r; simpl; naive_solver. Qed.

Lemma fail_if_ok {E} c (e : E) : fail_if c e = Ok tt <-> c = false.
Proof. destruct c; simpl; naive_solver. Qed.

Lemma fail_if_err {E} c (e e' : E) : fail_if c e = Err e' <-> c = true /\ e = e'.
Proof. destruct c; simpl; naive_solver. Qed.

Lemma is_ok_true {A E} (r : result A E) : is_ok r = true <-> exists a, r = Ok a.
Proof. destruct r; simpl; naive_solver. Qed.

#[global] Instance result_eq_dec {A E} `{EqDecision A, EqDecision E} :
  EqDecision (result A E).
Proof. solve_decision. Defined.

Lemma Ok_inj {A E} (a b : A) : @Ok A E a = Ok b -> a = b.
Proof. by intros [= ->]. Qed.

Lemma Err_inj {A E} (a b : E) : @Err A E a = Err b -> a = b.
Proof. by intros [= ->]. Qed.

(** [Forall P [x1; ..; xn]], with [tac] for each [P xi]. *)
Ltac forall_each tac := repeat (apply List.Forall_cons; [tac|]); try apply List.Forall_nil.

(** [simplify_result] inverts every successful or failed chain of [?]. *)
Ltac simplify_result :=
  repeat match goal with
  | H : rbind _ (fun _ => _) = Ok _ |- _ => apply rbind_ok_inv in H as (? & ? & H)
  | H : ok_or _ _ = Ok _ |- _ => apply ok_or_ok in H
  | H : map_err _ _ = Ok _ |- _ => apply map_err_ok in H
  | H : fail_if _ _ = Ok _ |- _ => apply fail_if_ok in H
  | H : fail_if _ _ = Err _ |- _ => apply fail_if_err in H as [H ?]
  | H : Ok _ = Ok _ |- _ => apply Ok_inj in H
  | H : Err _ = Err _ |- _ => apply Err_inj in H
  | H : Ok _ = Err _ |- _ => discriminate H
  | H : Err _ = Ok _ |- _ => discriminate H
  | x : unit |- _ => destruct x
  end.

(** Fallible iteration over a slice: the body's first error stops it. *)
Fixpoint try_for {A E} (f : nat -> A -> result unit E) (idx : nat) (l : list A)
    : result unit E :=
  match l with
  | [] => Ok tt
  | x :: r => f idx x ;? try_for f (S idx) r
  end.

(** [collect::<Result<Vec<_>, _>>()]. *)
Fixpoint try_map {A B E} (f : A -> result B E) (l : list A) : result (list B) E :=
  match l with
  | [] => Ok []
  | x :: r => let? y := f x in let? ys := try_map f r in Ok (y :: ys)
  end.

Lemma try_for_ok {A E} (f : nat -> A -> result unit E) idx l :
  try_for f idx l = Ok tt <-> (forall i x, l !! i = Some x -> f (idx + i) x = Ok tt).
Proof.
  revert idx; induction l as [|x l IH]; intros idx; simpl.
  - split; [intros _ i x H; by rewrite lookup_nil in H | done].
  - rewrite rbind_unit_ok, IH. split.
    + intros [H1 H2] [|i] y; simpl; intros Hi; simplify_eq.
      * by rewrite Nat.add_0_r.
      * rewrite <- Nat.add_succ_comm. by apply H2.
    + intros H. split.
      * rewrite <- (Nat.add_0_r idx). by apply H.
      * intros i y Hi. rewrite Nat.add_succ_comm. by apply H.
Qed.

Lemma try_for_err {A E} (f : nat -> A -> result unit E) idx l e :
  try_for f idx l = Err e <->
  exists i x, l !! i = Some x /\ f (idx + i) x = Err e /\
    (forall j y, j < i -> l !! j = Some y -> f (idx + j) y = Ok tt).
Proof.
  revert idx; induction l as [|x l IH]; intros idx; simpl.
  - split; [done | intros (i & y & H & _); by rewrite lookup_nil in H].
  - rewrite rbind_err_inv. setoid_rewrite IH. split.
    + intros [H | ([] & H & i & y & Hi & He & Hlt)].
      * exists 0, x. rewrite Nat.add_0_r. repeat split; [done | intros; lia].
      * exists (S i), y. rewrite Nat.add_succ_r. repeat split; [done..|].
        intros [|j] z Hj Hz; simplify_eq/=; [by rewrite Nat.add_0_r|].
        rewrite Nat.add_succ_r. apply Hlt; [lia|done].
    + intros ([|i] & y & Hi & He & Hlt); simplify_eq/=.
      * left. by rewrite Nat.add_0_r in He.
      * right. exists tt. split.
        { specialize (Hlt 0 x). rewrite Nat.add_0_r in Hlt. apply Hlt; [lia|done]. }
        exists i, y. rewrite Nat.add_succ_r in He. repeat split; [done..|].
        intros j z Hj Hz. rewrite <- Nat.add_succ_r. apply Hlt; [lia|done].
Qed.

Lemma try_map_ok {A B E} (f : A -> result B E) l l' :
  try_map f l = Ok l' <-> Forall2 (fun x y => f x = Ok y) l l'.
Proof.
  revert l'; induction l as [|x l IH]; intros l'; simpl.
  - split; intros H; [by simplify_eq | by inversion H].
  - rewrite rbind_ok_inv. split.
    + intros (y & Hy & H). apply rbind_ok_inv in H as (ys & Hys & H).
      simplify_eq. constructor; [done | by apply IH].
    + intros H; inversion H as [|? y ? ys Hy Hys]; subst.
      exists y. split; [done|]. apply IH in Hys. by rewrite Hys.
Qed.

(** ** Bytes and machine integers *)

Abbreviation byte := Byte.byte.

#[global] Instance byte_eq_dec : EqDecision byte := Byte.byte_eq_dec.
#[global] Program Instance byte_countable : Countable byte :=
  inj_countable Byte.to_N Byte.of_N Byte.of_to_N.
#[global] Instance byte_inhabited : Inhabited byte := populate Byte.x00.

(** A [u8] read as an integer, and the truncating cast [as u8]. *)
Definition u8z (b : byte) : Z := Z.of_N (Byte.to_N b).

Definition z_u8 (z : Z) : byte := default Byte.x00 (Byte.of_N (Z.to_N (z mod 256))).

Lemma u8z_range b : (0 <= u8z b < 256)%Z.
Proof. unfold u8z. pose proof (Byte.to_N_bounded b). lia. Qed.

Lemma u8z_z_u8 z : u8z (z_u8 z) = (z mod 256)%Z.
Proof.
  unfold u8z, z_u8. pose proof (Z.mod_pos_bound z 256 ltac:(lia)) as Hz.
  destruct (Byte.of_N (Z.to_N (z mod 256))) as [b|] eqn:E; simpl.
  - apply Byte.to_of_N in E. rewrite E. lia.
  - apply Byte.of_N_None_iff in E. lia.
Qed.

Lemma z_u8_u8z b : z_u8 (u8z b) = b.
Proof.
  unfold z_u8, u8z. pose proof (Byte.to_N_bounded b).
  rewrite Z.mod_small by lia. rewrite N2Z.id, Byte.of_to_N. done.
Qed.

#[global] Instance u8z_inj : Inj (=) (=) u8z.
Proof. intros a b H. by rewrite <- (z_u8_u8z a), H, z_u8_u8z. Qed.

#[export] Hint Rewrite u8z_z_u8 z_u8_u8z : wg_simp.

Definition u8_max : Z := 2 ^ 8 - 1.
Definition u16_max : Z := 2 ^ 16 - 1.
Definition u32_max : Z := 2 ^ 32 - 1.
Definition u64_max : Z := 2 ^ 64 - 1.
Definition i32_max : Z := 2 ^ 31 - 1.

(** [slice.len()] as a [usize]. *)
Definition len {A} (l : list A) : N := N.of_nat (length l).

(** [to_le_bytes], [from_le_bytes] and the big-endian pair, for an unsigned
    integer of [n] bytes; [to_ne_bytes] is the little-endian one on every
    platform the daemon builds for. *)
Fixpoint le_bytes (n : nat) (z : Z) : list byte :=
  match n with
  | O => []
  | S m => z_u8 z :: le_bytes m (z / 256)
  end.

Fixpoint le_value (l : list byte) : Z :=
  match l with
  | [] => 0
  | b :: r => u8z b + 256 * le_value r
  end%Z.

Definition be_bytes (n : nat) (z : Z) : list byte := rev (le_bytes n z).
Definition be_value (l : list byte) : Z := le_value (rev l).

Lemma length_le_bytes n z : length (le_bytes n z) = n.
Proof. revert z; induction n; intros; simpl; congruence. Qed.

Lemma length_be_bytes n z : length (be_bytes n z) = n.
Proof. unfold be_bytes. by rewrite length_rev, length_le_bytes. Qed.

Lemma le_value_le_bytes n z : le_value (le_bytes n z) = (z mod 256 ^ Z.of_nat n)%Z.
Proof.
  revert z; induction n as [|n IH]; intros z; simpl.
  - by rewrite Z.mod_1_r.
  - rewrite IH, u8z_z_u8, Nat2Z.inj_succ, Z.pow_succ_r by lia.
    rewrite Z.rem_mul_r by lia. lia.
Qed.

Lemma le_value_range l : (0 <= le_value l < 256 ^ Z.of_nat (length l))%Z.
Proof.
  induction l as [|b l IH]; simpl; [lia|].
  rewrite Nat2Z.inj_succ, Z.pow_succ_r by lia. pose proof (u8z_range b). lia.
Qed.

Lemma le_bytes_le_value l : le_bytes (length l) (le_value l) = l.
Proof.
  induction l as [|b l IH]; simpl; [done|]. pose proof (u8z_range b). f_equal.
  - rewrite <- (z_u8_u8z b) at 2. unfold z_u8. do 3 f_equal.
    rewrite Z.mul_comm, Z.mod_add by lia. reflexivity.
  - rewrite (Z.mul_comm 256), Z.div_add by lia. rewrite Z.div_small by lia. apply IH.
Qed.

Lemma be_value_be_bytes n z : be_value (be_bytes n z) = (z mod 256 ^ Z.of_nat n)%Z.
Proof. unfold be_value, be_bytes. by rewrite rev_involutive, le_value_le_bytes. Qed.

Lemma be_bytes_be_value n l : length l = n -> be_bytes n (be_value l) = l.
Proof.
  intros <-. unfold be_bytes, be_value. rewrite <- (length_rev l), le_bytes_le_value.
  apply rev_involutive.
Qed.

Lemma be_value_range l : (0 <= be_value l < 256 ^ Z.of_nat (length l))%Z.
Proof. unfold be_value. rewrite <- (length_rev l). apply le_value_range. Qed.

#[export] Hint Rewrite length_le_bytes length_be_bytes : wg_simp.

#[global] Arguments le_bytes : simpl never.
#[global] Arguments be_bytes : simpl never.
#[global] Arguments be_value : simpl never.

(** ** Strings

    A Rust [String] or [&str] is a [string] whose characters are the bytes of
    its UTF-8 encoding, so [len()] is [String.length]. *)

Definition str_bytes (s : string) : list byte := String.list_byte_of_string s.
Definition bytes_str (l : list byte) : string := String.string_of_list_byte l.

Lemma str_bytes_str l : str_bytes (bytes_str l) = l.
Proof. apply String.list_byte_of_string_of_list_byte. Qed.

Lemma bytes_str_bytes s : bytes_str (str_bytes s) = s.
Proof. apply String.string_of_list_byte_of_string. Qed.

#[global] Instance str_bytes_inj : Inj (=) (=) str_bytes.
Proof. intros a b H. by rewrite <- (bytes_str_bytes a), H, bytes_str_bytes. Qed.

Lemma str_bytes_cons a s : str_bytes (String a s) = Ascii.byte_of_ascii a :: str_bytes s.
Proof. done. Qed.

Lemma str_bytes_app s t : str_bytes (s +:+ t) = str_bytes s ++ str_bytes t.
Proof.
  induction s as [|a s IH]; [done|].
  change (String a s +:+ t) with (String a (s +:+ t)). by rewrite !str_bytes_cons, IH.
Qed.

Lemma str_bytes_nil s : str_bytes s = [] <-> s = "".
Proof. destruct s; split; intros H; by inversion H. Qed.

Lemma length_str_bytes s : length (str_bytes s) = String.length s.
Proof. induction s as [|a s IH]; [done|]. rewrite str_bytes_cons. simpl. by rewrite IH. Qed.

Lemma bytes_str_app l m : bytes_str (l ++ m) = bytes_str l +:+ bytes_str m.
Proof. apply (inj str_bytes). by rewrite str_bytes_app, !str_bytes_str. Qed.

#[export] Hint Rewrite str_bytes_str bytes_str_bytes str_bytes_app length_str_bytes
  : wg_simp.

Lemma string_app_assoc (a b c : string) : a +:+ (b +:+ c) = (a +:+ b) +:+ c.
Proof. apply (inj str_bytes). by rewrite !str_bytes_app, app_assoc. Qed.

(** [slice.join(sep)]. *)
Fixpoint join (sep : string) (l : list string) : string :=
  match l with
  | [] => ""
  | [x] => x
  | x :: r => x +:+ sep +:+ join sep r
  end.

(** [iter.any] and [Vec::contains] on types with decidable equality. *)
Definition contains {A} `{EqDecision A} (x : A) (l : list A) : bool :=
  bool_decide (x ∈ l).

Lemma contains_true {A} `{EqDecision A} (x : A) l : contains x l = true <-> x ∈ l.
Proof. apply bool_decide_eq_true. Qed.

Lemma contains_false {A} `{EqDecision A} (x : A) l : contains x l = false <-> x ∉ l.
Proof. apply bool_decide_eq_false. Qed.

Lemma forallb_Forall {A} (f : A -> bool) l :
  forallb f l = true <-> Forall (fun x => f x = true) l.
Proof. rewrite forallb_forall, Forall_forall. by setoid_rewrite list_elem_of_In. Qed.

Lemma rev_replicate {A} n (x : A) : rev (replicate n x) = replicate n x.
Proof. induction n as [|n IH]; [done|]. simpl. by rewrite IH, <- replicate_S_end. Qed.

(** ** Separators in strings *)

Fixpoint lacks (c : Ascii.ascii) (s : string) : Prop :=
  match s with
  | EmptyString => True
  | String a r => a <> c /\ lacks c r
  end.

(** A separator that does not occur in the first parts determines the split. *)
Lemma split_at_separator c a b x y :
  lacks c a -> lacks c b -> a +:+ String c x = b +:+ String c y -> a = b /\ x = y.
Proof.
  revert b. induction a as [|d a IH]; intros [|e b]; cbn; intros Ha Hb Heq.
  - by injection Heq.
  - injection Heq as E1 E2. destruct Hb as [Hb _]. congruence.
  - injection Heq as E1 E2. destruct Ha as [Ha _]. congruence.
  - injection Heq as -> E2. destruct (IH b) as [-> ->]; tauto.
Qed.

Lemma pretty_N_lacks c (x : N) : (forall d, pretty_N_char d <> c) -> lacks c (pretty x).
Proof.
  intros Hc. assert (forall y s, lacks c s -> lacks c (pretty_N_go y s)) as Hgo.
  { intros y. induction (N.lt_wf_0 y) as [y _ IH]; intros s Hs.
    destruct (N.eq_dec y 0) as [->|Hy]; [by rewrite pretty_N_go_0|].
    rewrite pretty_N_go_step by lia. apply IH; [apply N.div_lt; lia|]. by split. }
  unfold pretty, pretty_N. case_decide; [split; [apply (Hc 0%N) | done] | by apply Hgo].
Qed.

Lemma fmap_rev {A B} (f : A -> B) (l : list A) : f <$> rev l = rev (f <$> l).
Proof. induction l as [|a l IH]; [done|]. cbn [rev]. rewrite fmap_app, IH. done. Qed.

Lemma NoDup_rev {A} (l : list A) : NoDup l -> NoDup (rev l).
Proof. by rewrite <- (Permutation_rev l). Qed.

Lemma filter_none {A} (P : A -> Prop) `{forall x, Decision (P x)} (l : list A) :
  Forall (fun x => ~ P x) l -> filter P l = [].
Proof. induction 1 as [|x l Hx _ IH]; [done|]. by rewrite filter_cons_False. Qed.

Lemma filter_every {A} (P : A -> Prop) `{forall x, Decision (P x)} (l : list A) :
  Forall P l -> filter P l = l.
Proof. induction 1 as [|x l Hx _ IH]; [done|]. by rewrite filter_cons_True, IH. Qed.

Lemma elem_of_rev {A} (x : A) l : x ∈ rev l <-> x ∈ l.
Proof. rewrite !list_elem_of_In. symmetry. apply in_rev. Qed.
