(* ===== verification/RustStd.v ===== *)
(** * The parts of the Rust standard library the daemon calls

    [str] methods ([strip_prefix], [trim], [trim_start_matches], [split],
    [parse::<uN>]) over the UTF-8 bytes of a string, and [std::net::IpAddr] with
    its [Display] implementation. Each function follows the documented
    behaviour of the library; nothing here is code of the repository. *)

From S2P Require Import Prelude.
From Stdlib Require Import Lia.

(** ** [std::io::Error] *)

Inductive ErrorKind : Type :=
| Interrupted | InvalidData | InvalidInput | UnexpectedEof | TimedOut | PermissionDenied | AddrInUse
| OtherKind.

Record io_error : Type := mkIoError {
  io_kind : ErrorKind;
  raw_os_error : option Z;
  io_message : string;
}.

#[global] Instance ErrorKind_eq_dec : EqDecision ErrorKind.
Proof. solve_decision. Defined.
#[global] Instance io_error_eq_dec : EqDecision io_error.
Proof. solve_decision. Defined.

(** [io::Error::new] and [io::Error::other]. *)
Definition io_new (kind : ErrorKind) (msg : string) : io_error := mkIoError kind None msg.
Definition io_other (msg : string) : io_error := io_new OtherKind msg.

(** ** Byte classes *)

Definition in_range (lo hi : Z) (b : byte) : bool := ((lo <=? u8z b) && (u8z b <=? hi))%Z.

Definition is_ascii_digit (b : byte) : bool := in_range 48 57 b.
Definition is_ascii_alphabetic (b : byte) : bool := in_range 65 90 b || in_range 97 122 b.
Definition is_ascii_alphanumeric (b : byte) : bool := is_ascii_digit b || is_ascii_alphabetic b.

Definition dot : byte := Byte.x2e.
Definition hyphen : byte := Byte.x2d.

(** ** [str] methods *)

Fixpoint strip_prefix_bytes (p l : list byte) : option (list byte) :=
  match p, l with
  | [], _ => Some l
  | a :: p', b :: l' => if decide (a = b) then strip_prefix_bytes p' l' else None
  | _ :: _, [] => None
  end.

Definition strip_prefix (p s : string) : option string :=
  bytes_str <$> strip_prefix_bytes (str_bytes p) (str_bytes s).

Definition starts_with (p s : string) : bool :=
  match strip_prefix p s with Some _ => true | None => false end.

Lemma strip_prefix_bytes_spec p l r : strip_prefix_bytes p l = Some r <-> l = p ++ r.
Proof.
  revert l; induction p as [|a p IH]; intros l; simpl; [naive_solver|].
  destruct l as [|b l]; [naive_solver|]. case_decide; subst.
  - rewrite IH. naive_solver.
  - naive_solver.
Qed.

Lemma strip_prefix_spec p s r : strip_prefix p s = Some r <-> s = p +:+ r.
Proof.
  unfold strip_prefix. rewrite fmap_Some. setoid_rewrite strip_prefix_bytes_spec. split.
  - intros (l & Hl & ->). apply (inj str_bytes). by rewrite str_bytes_app, str_bytes_str.
  - intros ->. exists (str_bytes r). by rewrite str_bytes_app, bytes_str_bytes.
Qed.

(** [haystack.contains(pattern)]. *)
Fixpoint contains_bytes (p l : list byte) : bool :=
  match strip_prefix_bytes p l with
  | Some _ => true
  | None => match l with [] => false | _ :: r => contains_bytes p r end
  end.

Definition str_contains (haystack pattern : string) : bool :=
  contains_bytes (str_bytes pattern) (str_bytes haystack).

(** The [White_Space] characters of Unicode by the length of their UTF-8
    encoding. *)
Definition ws1 (a : byte) : bool := in_range 9 13 a || (u8z a =? 32)%Z.
Definition ws2 (a b : byte) : bool :=
  (u8z a =? 194)%Z && ((u8z b =? 133)%Z || (u8z b =? 160)%Z).
Definition ws3 (a b c : byte) : bool :=
  match u8z a, u8z b with
  | 225, 154 => u8z c =? 128
  | 226, 128 => in_range 128 138 c || (u8z c =? 168) || (u8z c =? 169) || (u8z c =? 175)
  | 226, 129 => u8z c =? 159
  | 227, 128 => u8z c =? 128
  | _, _ => false
  end%Z.

(** Drop leading characters, given which one-, two- and three-byte sequences
    to drop. *)
Fixpoint drop_chars (p1 : byte -> bool) (p2 : byte -> byte -> bool)
    (p3 : byte -> byte -> byte -> bool) (l : list byte) : list byte :=
  match l with
  | [] => []
  | a :: l1 =>
    if p1 a then drop_chars p1 p2 p3 l1
    else match l1 with
    | [] => l
    | b :: l2 =>
      if p2 a b then drop_chars p1 p2 p3 l2
      else match l2 with
      | [] => l
      | c :: l3 => if p3 a b c then drop_chars p1 p2 p3 l3 else l
      end
    end
  end.

Definition trim_start_bytes : list byte -> list byte := drop_chars ws1 ws2 ws3.

(** UTF-8 is self-synchronising: the last character of a valid string is
    white space exactly when its last bytes, read backwards, spell one. *)
Definition trim_end_bytes (l : list byte) : list byte :=
  rev (drop_chars ws1 (fun b a => ws2 a b) (fun c b a => ws3 a b c) (rev l)).

Definition trim_bytes (l : list byte) : list byte := trim_end_bytes (trim_start_bytes l).
Definition trim (s : string) : string := bytes_str (trim_bytes (str_bytes s)).

Fixpoint trim_start_matches_bytes (c : byte) (l : list byte) : list byte :=
  match l with
  | [] => []
  | b :: r => if decide (b = c) then trim_start_matches_bytes c r else l
  end.

Definition trim_start_matches (c : byte) (s : string) : string :=
  bytes_str (trim_start_matches_bytes c (str_bytes s)).

(** [str::split(char)] with an ASCII separator. *)
Fixpoint split_bytes (c : byte) (l : list byte) : list (list byte) :=
  match l with
  | [] => [[]]
  | b :: r =>
    if decide (b = c) then [] :: split_bytes c r
    else match split_bytes c r with
    | [] => [[b]]
    | h :: t => (b :: h) :: t
    end
  end.

Definition split (c : byte) (s : string) : list string :=
  bytes_str <$> split_bytes c (str_bytes s).

(** [<uN as FromStr>::from_str]: an optional [+], then at least one digit, and
    a value that fits. *)
Fixpoint digits_value (acc : Z) (l : list byte) : option Z :=
  match l with
  | [] => Some acc
  | b :: r => if is_ascii_digit b then digits_value (acc * 10 + (u8z b - 48))%Z r else None
  end.

Definition parse_uint_bytes (max : Z) (l : list byte) : option Z :=
  let l := match l with a :: r => if decide (a = Byte.x2b) then r else l | [] => l end in
  match l with
  | [] => None
  | _ => v ← digits_value 0 l; if (v <=? max)%Z then Some v else None
  end.

Definition parse_uint (max : Z) (s : string) : option Z := parse_uint_bytes max (str_bytes s).

(** [u32::checked_add]. *)
Definition checked_add (max a b : Z) : option Z :=
  if (a + b <=? max)%Z then Some (a + b)%Z else None.

(** *** Lemmas *)

Lemma split_bytes_ne c l : split_bytes c l <> [].
Proof. destruct l as [|b l]; simpl; [done|]. case_decide; [done|]. by destruct (split_bytes c l). Qed.

(** Joining the pieces with the separator gives the string back. *)
Fixpoint join_bytes (c : byte) (ls : list (list byte)) : list byte :=
  match ls with
  | [] => []
  | [x] => x
  | x :: r => x ++ c :: join_bytes c r
  end.

Lemma join_bytes_cons c x r : r <> [] -> join_bytes c (x :: r) = x ++ c :: join_bytes c r.
Proof. by destruct r. Qed.

Lemma join_split_bytes c l : join_bytes c (split_bytes c l) = l.
Proof.
  induction l as [|b l IH]; simpl; [done|]. pose proof (split_bytes_ne c l).
  destruct (decide (b = c)) as [->|].
  - rewrite join_bytes_cons by done. simpl. by rewrite IH.
  - destruct (split_bytes c l) as [|h [|h' t]]; simpl in *; by rewrite <- IH.
Qed.

Lemma split_bytes_no_sep c l : Forall (fun x => c ∉ x) (split_bytes c l).
Proof.
  induction l as [|b l IH]; simpl.
  - repeat constructor. apply not_elem_of_nil.
  - case_decide.
    + constructor; [apply not_elem_of_nil | done].
    + destruct (split_bytes c l) as [|h t].
      * repeat constructor. by apply not_elem_of_cons; split; [|apply not_elem_of_nil].
      * inversion IH; subst. constructor; [|done]. apply not_elem_of_cons. auto.
Qed.

(** [split_bytes] is the only decomposition into separator-free pieces. *)
Lemma split_bytes_app c x r : c ∉ x -> split_bytes c (x ++ c :: r) = x :: split_bytes c r.
Proof.
  induction x as [|b x IH]; simpl; intros H.
  - by rewrite decide_True.
  - rewrite decide_False by set_solver. rewrite IH by set_solver. done.
Qed.

Lemma split_bytes_nosep c x : c ∉ x -> split_bytes c x = [x].
Proof.
  induction x as [|b x IH]; simpl; intros H; [done|].
  rewrite decide_False by set_solver. by rewrite IH by set_solver.
Qed.

Lemma split_join_bytes c ls :
  ls <> [] -> Forall (fun x => c ∉ x) ls -> split_bytes c (join_bytes c ls) = ls.
Proof.
  induction ls as [|x [|y r] IH]; intros Hne HF; [done|..].
  - simpl. apply split_bytes_nosep. by inversion HF.
  - inversion HF; subst. rewrite join_bytes_cons by done.
    rewrite split_bytes_app by done. by rewrite IH.
Qed.

Lemma trim_start_matches_bytes_suffix c l :
  exists p, l = p ++ trim_start_matches_bytes c l /\ Forall (fun b => b = c) p.
Proof.
  induction l as [|b l (p & Hp & HF)]; simpl; [by exists []|].
  case_decide; subst; [|by exists []]. exists (c :: p). simpl. split; [by rewrite <- Hp|auto].
Qed.

Lemma drop_chars_suffix p1 p2 p3 l : drop_chars p1 p2 p3 l `suffix_of` l.
Proof.
  remember (length l) as n eqn:Hn. revert l Hn.
  induction n as [n IH] using lt_wf_ind; intros l ->.
  assert (forall l', length l' < length l -> drop_chars p1 p2 p3 l' `suffix_of` l') as IH'
    by eauto. clear IH.
  destruct l as [|a l1]; [done|]. simpl.
  destruct (p1 a); [apply suffix_cons_r, IH'; simpl; lia|].
  destruct l1 as [|b l2]; [done|].
  destruct (p2 a b); [do 2 apply suffix_cons_r; apply IH'; simpl; lia|].
  destruct l2 as [|c l3]; [done|].
  destruct (p3 a b c); [do 3 apply suffix_cons_r; apply IH'; simpl; lia | done].
Qed.

Lemma trim_bytes_infix l : exists p s, l = p ++ trim_bytes l ++ s.
Proof.
  destruct (drop_chars_suffix ws1 ws2 ws3 l) as [p Hp].
  destruct (drop_chars_suffix ws1 (fun b a => ws2 a b) (fun c b a => ws3 a b c)
              (rev (trim_start_bytes l))) as [s Hs].
  exists p, (rev s). rewrite Hp at 1. f_equal.
  unfold trim_bytes, trim_end_bytes.
  rewrite <- rev_app_distr, <- Hs, rev_involutive. done.
Qed.
