(* ===== verification/Net.v ===== *)
(** * [std::net::IpAddr]

    The two address families with their octets, the predicates the daemon uses
    and the textual form [Display] gives them: dotted decimal for IPv4, and for
    IPv6 the longest run of two or more zero groups (the first one on a tie)
    written as [::], with IPv4-mapped addresses shown as [::ffff:a.b.c.d]. *)

From S2P Require Import Prelude.
From Stdlib Require Import Lia.

Inductive IpAddr : Type :=
| V4 (octets : list byte)
| V6 (octets : list byte).

#[global] Instance IpAddr_eq_dec : EqDecision IpAddr.
Proof. solve_decision. Defined.

(** An [Ipv4Addr] has four octets and an [Ipv6Addr] sixteen. *)
Definition ip_wf (ip : IpAddr) : Prop :=
  match ip with
  | V4 o => length o = 4
  | V6 o => length o = 16
  end.

#[global] Instance ip_wf_dec ip : Decision (ip_wf ip).
Proof. destruct ip; simpl; apply _. Defined.

Definition is_ipv4 (ip : IpAddr) : bool := match ip with V4 _ => true | V6 _ => false end.
Definition is_ipv6 (ip : IpAddr) : bool := negb (is_ipv4 ip).

(** The number of bits of an address: the prefix length of a host route. *)
Definition addr_bits (ip : IpAddr) : N := if is_ipv4 ip then 32 else 128.

Definition octets (ip : IpAddr) : list byte := match ip with V4 o | V6 o => o end.

(** The first [p] bits of [d] and of [ip] agree. *)
Definition prefix_covers (d : IpAddr) (p : N) (ip : IpAddr) : Prop :=
  is_ipv4 d = is_ipv4 ip /\
  let shift := Z.of_N (addr_bits ip - p) in
  Z.shiftr (be_value (octets d)) shift = Z.shiftr (be_value (octets ip)) shift.

#[global] Instance prefix_covers_dec d p ip : Decision (prefix_covers d p ip).
Proof. unfold prefix_covers. apply _. Defined.

Lemma octets_inj ip ip' :
  ip_wf ip -> ip_wf ip' -> is_ipv4 ip = is_ipv4 ip' ->
  be_value (octets ip) = be_value (octets ip') -> ip = ip'.
Proof.
  destruct ip as [o|o], ip' as [o'|o']; cbn; intros Hw Hw' Hf E; try done; f_equal;
    rewrite <- (be_bytes_be_value _ o Hw), E; by apply be_bytes_be_value.
Qed.

(** A host prefix covers its own address only. *)
Lemma prefix_covers_host d ip :
  ip_wf d -> ip_wf ip -> prefix_covers d (addr_bits ip) ip -> d = ip.
Proof.
  intros Hd Hi [Hf E]. cbn zeta in E. rewrite N.sub_diag, !Z.shiftr_0_r in E. by apply octets_inj.
Qed.

Lemma prefix_covers_self ip p : prefix_covers ip p ip.
Proof. by split. Qed.

(** The network mask of a prefix length, one octet at a time. *)
Fixpoint mask_octets (octets : nat) (p : N) : list byte :=
  match octets with
  | O => []
  | S n => z_u8 (256 - 2 ^ (8 - Z.min 8 (Z.of_N p))) :: mask_octets n (p - 8)
  end.

Definition prefix_mask (ip : IpAddr) (p : N) : IpAddr :=
  match ip with
  | V4 _ => V4 (mask_octets 4 p)
  | V6 _ => V6 (mask_octets 16 p)
  end.

Example prefix_mask_20 : prefix_mask (V4 (replicate 4 Byte.x00)) 20 = V4 [Byte.xff; Byte.xff; Byte.xf0; Byte.x00].
Proof. reflexivity. Qed.

(** ** [Display] *)

Definition hex_digit (d : Z) : string :=
  bytes_str [z_u8 (if (d <? 10)%Z then 48 + d else 87 + d)%Z].

(** [{:x}] of a [u16]. *)
Definition hex16 (z : Z) : string :=
  (if z <? 16 then hex_digit z
   else if z <? 256 then hex_digit (z / 16) +:+ hex_digit (z mod 16)
   else if z <? 4096 then
     hex_digit (z / 256) +:+ hex_digit (z / 16 mod 16) +:+ hex_digit (z mod 16)
   else
     hex_digit (z / 4096) +:+ hex_digit (z / 256 mod 16) +:+ hex_digit (z / 16 mod 16)
       +:+ hex_digit (z mod 16))%Z.

Definition display_v4 (o : list byte) : string :=
  join "." ((fun b => pretty (u8z b)) <$> o).

(** [Ipv6Addr::segments]. *)
Fixpoint segments (o : list byte) : list Z :=
  match o with
  | a :: b :: r => (256 * u8z a + u8z b)%Z :: segments r
  | _ => []
  end.

(** The scan for the longest run of zero groups; [start] and [len] are the
    current run, [best] the longest one so far. *)
Fixpoint longest_zeroes (i : nat) (cur best : nat * nat) (l : list Z) : nat * nat :=
  match l with
  | [] => best
  | s :: r =>
    if (s =? 0)%Z then
      let cur := (if decide (cur.2 = 0) then i else cur.1, S cur.2) in
      longest_zeroes (S i) cur (if best.2 <? cur.2 then cur else best) r
    else longest_zeroes (S i) (0, 0) best r
  end.

Definition fmt_subslice (l : list Z) : string := join ":" (hex16 <$> l).

(** [Ipv6Addr::to_ipv4_mapped]. *)
Definition to_ipv4_mapped (o : list byte) : option (list byte) :=
  if decide (take 12 o = replicate 10 Byte.x00 ++ [Byte.xff; Byte.xff])
  then Some (drop 12 o) else None.

Definition display_v6 (o : list byte) : string :=
  match to_ipv4_mapped o with
  | Some v4 => "::ffff:" +:+ display_v4 v4
  | None =>
    let segs := segments o in
    let '(start, len) := longest_zeroes 0 (0, 0) (0, 0) segs in
    if 1 <? len then
      fmt_subslice (take start segs) +:+ "::" +:+ fmt_subslice (drop (start + len) segs)
    else fmt_subslice segs
  end.

Definition ip_to_string (ip : IpAddr) : string :=
  match ip with V4 o => display_v4 o | V6 o => display_v6 o end.

(** Known renderings. *)
Example display_v4_ex :
  ip_to_string (V4 [Byte.x0a; Byte.x00; Byte.x00; Byte.xff]) = "10.0.0.255".
Proof. vm_compute. reflexivity. Qed.

Example display_v6_ex :
  ip_to_string (V6 ([Byte.x20; Byte.x01; Byte.x0d; Byte.xb8] ++ replicate 11 Byte.x00 ++ [Byte.x01]))
  = "2001:db8::1" /\
  ip_to_string (V6 (replicate 16 Byte.x00)) = "::" /\
  ip_to_string (V6 (replicate 10 Byte.x00 ++ [Byte.xff; Byte.xff; Byte.x01; Byte.x02; Byte.x03; Byte.x04]))
  = "::ffff:1.2.3.4".
Proof. vm_compute. auto. Qed.

(** ** [FromStr]

    The recursive-descent parser of [core::net::parser]: each reader takes the
    remaining bytes and returns a value with the bytes it left, or fails
    without consuming anything. *)

Definition to_digit (radix : Z) (b : byte) : option Z :=
  let z := u8z b in
  let d := (if (48 <=? z) && (z <=? 57) then Some (z - 48)
            else if (97 <=? z) && (z <=? 122) then Some (z - 87)
            else if (65 <=? z) && (z <=? 90) then Some (z - 55)
            else None)%Z in
  d ≫= fun d => if (d <? radix)%Z then Some d else None.

(** The digit loop of [read_number]; [None] when [max_digits] is exceeded. *)
Fixpoint read_digits (radix : Z) (max_digits count : nat) (acc : Z) (l : list byte)
    : option (nat * Z * list byte) :=
  match l with
  | [] => Some (count, acc, [])
  | b :: r =>
    match to_digit radix b with
    | None => Some (count, acc, l)
    | Some d =>
      if max_digits <? S count then None
      else read_digits radix max_digits (S count) (acc * radix + d)%Z r
    end
  end.

Definition read_number (radix : Z) (max_digits : nat) (max_value : Z) (allow_zero_prefix : bool)
    (l : list byte) : option (Z * list byte) :=
  let has_leading_zero := bool_decide (head l = Some Byte.x30) in
  '(count, v, r) ← read_digits radix max_digits 0 0 l;
  if (count =? 0) || (negb allow_zero_prefix && has_leading_zero && (1 <? count))
     || (max_value <? v)%Z
  then None else Some (v, r).

Definition read_given_char (c : byte) (l : list byte) : option (list byte) :=
  match l with
  | b :: r => if decide (b = c) then Some r else None
  | [] => None
  end.

Definition read_separator {A} (sep : byte) (index : nat)
    (inner : list byte -> option (A * list byte)) (l : list byte) : option (A * list byte) :=
  if decide (index = 0) then inner l
  else r ← read_given_char sep l; inner r.

Definition read_octet (i : nat) : list byte -> option (Z * list byte) :=
  read_separator Byte.x2e i (read_number 10 3 255 false).

Definition read_ipv4_addr (l : list byte) : option (list byte * list byte) :=
  '(a, l) ← read_octet 0 l;
  '(b, l) ← read_octet 1 l;
  '(c, l) ← read_octet 2 l;
  '(d, l) ← read_octet 3 l;
  Some ([z_u8 a; z_u8 b; z_u8 c; z_u8 d], l).

(** [read_groups]: up to [limit] groups from index [i]; the octets read, the
    number of groups, and whether an embedded IPv4 address ended them. *)
Fixpoint read_groups (limit i : nat) (l : list byte) : list byte * nat * bool * list byte :=
  match limit with
  | O => ([], 0, false, l)
  | S rest =>
    match (if 0 <? rest then read_separator Byte.x3a i read_ipv4_addr l else None) with
    | Some (v4, l') => (v4, 2, true, l')
    | None =>
      match read_separator Byte.x3a i (read_number 16 4 65535 true) l with
      | Some (g, l') =>
        let '(o, n, v4, l'') := read_groups rest (S i) l' in
        (be_bytes 2 g ++ o, S n, v4, l'')
      | None => ([], 0, false, l)
      end
    end
  end.

Definition read_ipv6_addr (l : list byte) : option (list byte * list byte) :=
  let '(head, head_size, head_ipv4, l1) := read_groups 8 0 l in
  if decide (head_size = 8) then Some (head, l1)
  else if head_ipv4 then None
  else
    l2 ← read_given_char Byte.x3a l1;
    l3 ← read_given_char Byte.x3a l2;
    let limit := 8 - (head_size + 1) in
    let '(tail, tail_size, _, l4) := read_groups limit 0 l3 in
    Some (head ++ replicate (2 * (8 - head_size - tail_size)) Byte.x00 ++ tail, l4).

(** [<IpAddr as FromStr>::from_str]. *)
Definition parse_ip (s : string) : option IpAddr :=
  match read_ipv4_addr (str_bytes s) with
  | Some (o, []) => Some (V4 o)
  | Some (_, _ :: _) => None
  | None =>
    match read_ipv6_addr (str_bytes s) with
    | Some (o, []) => Some (V6 o)
    | _ => None
    end
  end.

Example parse_ip_ex :
  parse_ip "192.0.2.1" = Some (V4 [Byte.xc0; Byte.x00; Byte.x02; Byte.x01]) /\
  parse_ip "2001:db8::1" =
    Some (V6 ([Byte.x20; Byte.x01; Byte.x0d; Byte.xb8] ++ replicate 11 Byte.x00 ++ [Byte.x01])) /\
  parse_ip "::" = Some (V6 (replicate 16 Byte.x00)) /\
  parse_ip "not-an-ip" = None /\ parse_ip "1.2.3.04" = None /\ parse_ip "1.2.3.256" = None /\
  parse_ip "::ffff:1.2.3.4" =
    Some (V6 (replicate 10 Byte.x00 ++ [Byte.xff; Byte.xff; Byte.x01; Byte.x02; Byte.x03; Byte.x04])).
Proof. vm_compute. auto 10. Qed.
