(* ===== verification/NetText.v ===== *)
(** * [std::net::IpAddr]: what is written can be read

    The daemon passes addresses as text to the tools that configure a system,
    and the tunnel binding receives them as text. Here the parser of [FromStr]
    reads every text that [Display] produces back to the address it came from,
    so that the text determines the address. *)

From S2P Require Import Prelude Net.
From Stdlib Require Import Lia.

(** ** Numbers *)

Definition digit_values (radix : Z) (l : list byte) : option (list Z) := mapM (to_digit radix) l.

Definition number_value (radix : Z) (acc : Z) (ds : list Z) : Z :=
  foldl (fun v d => v * radix + d)%Z acc ds.

(** What follows a number does not continue it. *)
Definition ends_number (radix : Z) (l : list byte) : Prop :=
  match l with b :: _ => to_digit radix b = None | [] => True end.

Lemma read_digits_app radix max l ds rest count acc :
  digit_values radix l = Some ds -> count + length l <= max -> ends_number radix rest ->
  read_digits radix max count acc (l ++ rest) = Some (count + length l, number_value radix acc ds, rest).
Proof.
  intros Hds%mapM_Some_1 Hmax Hend. revert count acc Hmax.
  induction Hds as [|b d l ds Hb _ IH]; intros count acc Hmax; cbn [app read_digits length number_value foldl].
  - rewrite Nat.add_0_r. destruct rest as [|b r]; [done|]. cbn in *. by rewrite Hend.
  - rewrite Hb. cbn in Hmax. destruct (Nat.ltb_spec max (S count)); [lia|].
    rewrite IH by lia. by rewrite Nat.add_succ_r.
Qed.

Lemma read_number_app radix max maxv zero l ds rest :
  digit_values radix l = Some ds -> 0 < length l <= max -> ends_number radix rest ->
  (number_value radix 0 ds <= maxv)%Z ->
  zero = true \/ length l = 1 \/ head l <> Some Byte.x30 ->
  read_number radix max maxv zero (l ++ rest) = Some (number_value radix 0 ds, rest).
Proof.
  intros Hds [Hpos Hmax] Hend Hv Hzero. unfold read_number.
  rewrite (read_digits_app _ _ _ ds) by done. cbn [Nat.add mbind option_bind].
  destruct (Nat.eqb_spec (length l) 0); [lia|]. destruct (Z.ltb_spec maxv (number_value radix 0 ds)); [lia|].
  destruct (Nat.ltb_spec 1 (length l)); rewrite ?andb_false_r; [|done].
  destruct Hzero as [->|[?|Hz]]; [done | lia |]. rewrite bool_decide_false; [by rewrite andb_false_r|].
  destruct l; [cbn in *; lia | done].
Qed.

(** Without a digit there is no number. *)
Lemma read_number_none radix max maxv zero l : ends_number radix l -> read_number radix max maxv zero l = None.
Proof. intros He. unfold read_number. destruct l as [|b l]; [done|]. cbn in *. by rewrite He. Qed.

(** [{}] of an octet. *)
Definition dec (b : byte) : list byte := str_bytes (pretty (u8z b)).

Lemma dec_spec b :
  exists ds, digit_values 10 (dec b) = Some ds /\ number_value 10 0 ds = u8z b /\
    0 < length (dec b) <= 3 /\ (length (dec b) = 1 \/ head (dec b) <> Some Byte.x30).
Proof.
  destruct b; (eexists; split; [vm_compute; reflexivity|]; split; [reflexivity|]; split;
    [vm_compute; lia | first [left; reflexivity | right; discriminate]]).
Qed.

Lemma read_dec b rest :
  ends_number 10 rest -> read_number 10 3 255 false (dec b ++ rest) = Some (u8z b, rest).
Proof.
  intros He. destruct (dec_spec b) as (ds & Hds & <- & Hlen & Hz). pose proof (u8z_range b).
  rewrite (read_number_app _ _ _ _ _ ds); auto. destruct (dec_spec b) as (ds' & Hds' & E & _).
  assert (ds' = ds) as -> by congruence. lia.
Qed.

(** [{:x}] of a group. *)
Definition hex (z : Z) : list byte := str_bytes (hex16 z).

Lemma hex_digit_value d : (0 <= d < 16)%Z -> digit_values 16 (str_bytes (hex_digit d)) = Some [d].
Proof.
  intros Hd. assert (d ∈ seqZ 0 16) as Hin by (apply elem_of_seqZ; lia). clear Hd. revert d Hin.
  apply Forall_forall. repeat (constructor; [vm_compute; reflexivity|]). constructor.
Qed.

Lemma digit_values_app radix l l' ds ds' :
  digit_values radix l = Some ds -> digit_values radix l' = Some ds' ->
  digit_values radix (l ++ l') = Some (ds ++ ds').
Proof.
  unfold digit_values. intros H%mapM_Some_1 H'%mapM_Some_1. apply mapM_Some_2. by apply Forall2_app.
Qed.

Lemma hex_spec z :
  (0 <= z < 65536)%Z ->
  exists ds, digit_values 16 (hex z) = Some ds /\ number_value 16 0 ds = z /\ 0 < length (hex z) <= 4.
Proof.
  intros Hz. unfold hex, hex16. repeat case_match; rewrite ?str_bytes_app;
    (eexists; split; [repeat (apply digit_values_app; [|]); apply hex_digit_value;
       Z.to_euclidean_division_equations; lia|]);
    (split; [cbn [number_value foldl app]; Z.to_euclidean_division_equations; lia | vm_compute; lia]).
Qed.

Lemma read_hex z rest :
  (0 <= z < 65536)%Z -> ends_number 16 rest ->
  read_number 16 4 65535 true (hex z ++ rest) = Some (z, rest).
Proof.
  intros Hz He. destruct (hex_spec z Hz) as (ds & Hds & E & Hlen).
  rewrite (read_number_app _ _ _ _ _ ds); [by rewrite E | done.. | lia | by left].
Qed.

(** ** Dotted addresses *)

Lemma read_octet_first b rest : ends_number 10 rest -> read_octet 0 (dec b ++ rest) = Some (u8z b, rest).
Proof. apply read_dec. Qed.

Lemma read_octet_next i b rest :
  ends_number 10 rest -> read_octet (S i) (Byte.x2e :: dec b ++ rest) = Some (u8z b, rest).
Proof. apply read_dec. Qed.

Lemma read_display_v4 o rest :
  length o = 4 -> ends_number 10 rest -> read_ipv4_addr (str_bytes (display_v4 o) ++ rest) = Some (o, rest).
Proof.
  intros Hlen He. destruct o as [|a [|b [|c [|d [|]]]]]; try done. clear Hlen.
  assert (str_bytes (display_v4 [a; b; c; d]) ++ rest =
    dec a ++ Byte.x2e :: dec b ++ Byte.x2e :: dec c ++ Byte.x2e :: dec d ++ rest) as ->.
  { unfold display_v4, dec. cbn [fmap list_fmap join]. rewrite !str_bytes_app, <- !app_assoc. done. }
  unfold read_ipv4_addr.
  rewrite (read_octet_first a); [|done]. cbn [mbind option_bind].
  rewrite (read_octet_next 0 b); [|done]. cbn [mbind option_bind].
  rewrite (read_octet_next 1 c); [|done]. cbn [mbind option_bind].
  rewrite (read_octet_next 2 d); [|done]. cbn [mbind option_bind]. by rewrite !z_u8_u8z.
Qed.

(** Numbers are read off the front. *)
Lemma read_digits_suffix radix max count acc l n v r :
  read_digits radix max count acc l = Some (n, v, r) -> r `suffix_of` l.
Proof.
  revert count acc. induction l as [|b l IH]; intros count acc; cbn [read_digits]; [by intros [= _ _ <-]|].
  case_match; [|by intros [= _ _ <-]]. case_match; [done|]. intros Hs%IH. by apply suffix_cons_r.
Qed.

Lemma read_number_suffix radix max maxv zero l v r :
  read_number radix max maxv zero l = Some (v, r) -> r `suffix_of` l.
Proof.
  unfold read_number. intros ([[n v'] r'] & Hd & Hr)%bind_Some. case_match; [done|].
  injection Hr as <- <-. by eapply read_digits_suffix.
Qed.

(** Without a dot there is no dotted address. *)
Lemma read_ipv4_undotted l : Byte.x2e ∉ l -> read_ipv4_addr l = None.
Proof.
  intros Hl. unfold read_ipv4_addr. destruct (read_octet 0 l) as [[a r]|] eqn:Ea; [|done]. cbn [mbind option_bind].
  apply read_number_suffix in Ea as [p ->].
  assert (read_octet 1 r = None) as ->; [|done]. unfold read_octet, read_separator. cbn.
  destruct r as [|b r]; [done|]. cbn. destruct (decide (b = Byte.x2e)) as [->|]; [|done]. set_solver.
Qed.

Lemma read_given_char_same c l : read_given_char c (c :: l) = Some l.
Proof. cbn. by rewrite decide_True. Qed.

(** ** Groups *)

(** The groups from index [i] on, each but the first after its colon. *)
Fixpoint group_text (i : nat) (gs : list Z) : list byte :=
  match gs with
  | [] => []
  | g :: r => (if decide (i = 0) then [] else [Byte.x3a]) ++ hex g ++ group_text (S i) r
  end.

Lemma fmt_subslice_later i gs : gs <> [] -> group_text (S i) gs = Byte.x3a :: str_bytes (fmt_subslice gs).
Proof.
  revert i. induction gs as [|g [|g' gs] IH]; intros i Hne; [done | cbn; by rewrite app_nil_r|].
  change (group_text (S i) (g :: g' :: gs)) with (Byte.x3a :: hex g ++ group_text (S (S i)) (g' :: gs)).
  rewrite IH by done. unfold fmt_subslice. cbn [fmap list_fmap join]. by rewrite !str_bytes_app.
Qed.

Lemma fmt_subslice_text gs : str_bytes (fmt_subslice gs) = group_text 0 gs.
Proof.
  destruct gs as [|g [|g' gs]]; [done | cbn; by rewrite app_nil_r|].
  change (group_text 0 (g :: g' :: gs)) with (hex g ++ group_text 1 (g' :: gs)).
  rewrite fmt_subslice_later by done. unfold fmt_subslice. cbn [fmap list_fmap join]. by rewrite !str_bytes_app.
Qed.

(** What ends a sequence of groups: the end of the text or a double colon. *)
Definition ends_groups (l : list byte) : Prop := l = [] \/ exists r, l = Byte.x3a :: Byte.x3a :: r.

Lemma ends_groups_none i l : ends_groups l -> read_separator Byte.x3a i (read_number 16 4 65535 true) l = None.
Proof.
  intros [->|[r ->]]; unfold read_separator; destruct (decide (i = 0)); cbn; try done; by apply read_number_none.
Qed.

Definition groups_wf (gs : list Z) : Prop := Forall (fun g => 0 <= g < 65536)%Z gs.

Lemma group_text_ends i gs rest : i <> 0 -> ends_groups rest -> ends_number 16 (group_text i gs ++ rest).
Proof.
  intros Hi Hr. destruct gs as [|g gs]; cbn [group_text app].
  - by destruct Hr as [->|[r ->]].
  - by destruct (decide (i = 0)).
Qed.

Lemma hex_undotted g : (0 <= g < 65536)%Z -> Byte.x2e ∉ hex g.
Proof.
  intros Hg Hin. destruct (hex_spec g Hg) as (ds & Hds%mapM_Some_1 & _).
  apply list_elem_of_lookup in Hin as [k Hk].
  destruct (Forall2_lookup_l _ _ _ _ _ Hds Hk) as (d & _ & Hd). discriminate Hd.
Qed.

Lemma group_text_undotted i gs : groups_wf gs -> Byte.x2e ∉ group_text i gs.
Proof.
  intros Hgs. revert i. induction Hgs as [|g gs Hg _ IH]; intros i; cbn [group_text]; [by apply not_elem_of_nil|].
  rewrite !elem_of_app. intros [Hs|[Hs|Hs]]; [|by apply (hex_undotted g Hg) | by apply (IH (S i))].
  destruct (decide (i = 0)); set_solver.
Qed.

Lemma ends_groups_ipv4 i l : Byte.x2e ∉ l -> read_separator Byte.x3a i read_ipv4_addr l = None.
Proof.
  intros Hl. unfold read_separator. destruct (decide (i = 0)); [by apply read_ipv4_undotted|].
  destruct l as [|b l]; [done|]. cbn. destruct (decide (b = Byte.x3a)); [|done]. cbn.
  apply read_ipv4_undotted. set_solver.
Qed.

Lemma read_group_text limit i gs rest :
  groups_wf gs -> length gs <= limit -> ends_groups rest -> Byte.x2e ∉ rest ->
  read_groups limit i (group_text i gs ++ rest) = (gs ≫= be_bytes 2, length gs, false, rest).
Proof.
  intros Hgs. revert limit i.
  induction Hgs as [|g gs Hg Hgs IH]; intros limit i Hlen He Hd; (destruct limit as [|limit]; [cbn in *; try lia; done|]).
  - cbn [group_text app read_groups].
    rewrite ends_groups_ipv4, ends_groups_none by done. by destruct (0 <? limit).
  - assert (Byte.x2e ∉ group_text i (g :: gs) ++ rest) as Hdot.
    { rewrite elem_of_app. intros [Hs|Hs]; [|done]. by eapply (group_text_undotted i (g :: gs)); [constructor|]. }
    cbn [read_groups]. rewrite ends_groups_ipv4 by done.
    assert (read_separator Byte.x3a i (read_number 16 4 65535 true) (group_text i (g :: gs) ++ rest)
            = Some (g, group_text (S i) gs ++ rest)) as ->.
    { cbn [group_text]. rewrite <- !app_assoc. unfold read_separator.
      destruct (decide (i = 0)); cbn [app]; [|cbn [read_given_char]; rewrite decide_True by done; cbn [mbind option_bind]];
        (apply read_hex; [done|]; by apply group_text_ends). }
    rewrite IH by (cbn in Hlen; done || lia). by destruct (0 <? limit).
Qed.

(** ** The run of zero groups *)

Definition zero_run (l : list Z) (run : nat * nat) : Prop :=
  forall k, run.1 <= k < run.1 + run.2 -> l !! k = Some 0%Z.

Lemma zero_run_app l l' run : zero_run l run -> zero_run (l ++ l') run.
Proof. intros H k Hk. apply lookup_app_l_Some, H, Hk. Qed.

(** The scan returns a run that is there, and its end is that of a group. *)
Lemma longest_zeroes_run l l0 cur best :
  zero_run l0 cur -> zero_run l0 best -> (cur.2 = 0 \/ cur.1 + cur.2 = length l0) ->
  zero_run (l0 ++ l) (longest_zeroes (length l0) cur best l).
Proof.
  revert l0 cur best. induction l as [|z l IH]; intros l0 cur best Hc Hb Hend; cbn [longest_zeroes].
  { by apply zero_run_app. }
  rewrite cons_middle, app_assoc. rewrite (eq_sym (last_length l0 z)) in *.
  destruct (Z.eqb_spec z 0) as [->|].
  - set (cur' := (_, S cur.2)). assert (zero_run (l0 ++ [0%Z]) cur' /\ cur'.1 + cur'.2 = length (l0 ++ [0%Z])) as [Hc' He'].
    { rewrite length_app. unfold cur'. cbn [fst snd length]. destruct (decide (cur.2 = 0)) as [E|E].
      - split; [|lia]. intros k Hk. cbn in Hk. assert (k = length l0) as -> by lia. by apply list_lookup_middle.
      - split; [|lia]. intros k Hk. cbn in Hk. destruct (decide (k = length l0)) as [->|].
        + by apply list_lookup_middle.
        + apply lookup_app_l_Some, Hc. lia. }
    apply IH; [done | | by right]. destruct (best.2 <? cur'.2); [done | by apply zero_run_app].
  - apply IH; [|by apply zero_run_app | by left]. intros k Hk. cbn in Hk. lia.
Qed.

Lemma zero_run_split l start len :
  zero_run l (start, len) -> 0 < len ->
  start + len <= length l /\ l = take start l ++ replicate len 0%Z ++ drop (start + len) l.
Proof.
  intros Hr Hlen. assert (start + len <= length l) as Hle.
  { assert (is_Some (l !! (start + len - 1))) as ?%lookup_lt_is_Some by (eexists; apply Hr; cbn; lia). lia. }
  split; [done|]. rewrite <- (take_drop start l) at 1. f_equal.
  rewrite <- (take_drop len (drop start l)) at 1. rewrite drop_drop. f_equal.
  apply list_eq_same_length with len; [by rewrite length_replicate | rewrite length_take, length_drop; lia |].
  intros k x y Hk. rewrite lookup_take_lt, lookup_drop by done. rewrite lookup_replicate_2 by done.
  rewrite Hr by (cbn; lia). congruence.
Qed.

(** ** Segments *)

Lemma segments_wf o : groups_wf (segments o).
Proof.
  induction o as [o IH] using (induction_ltof1 _ length). destruct o as [|a [|b o]]; [constructor..|].
  cbn [segments]. constructor; [pose proof (u8z_range a); pose proof (u8z_range b); lia|].
  apply IH. unfold ltof. cbn. lia.
Qed.

Lemma segments_octets o n : length o = 2 * n -> segments o ≫= be_bytes 2 = o /\ length (segments o) = n.
Proof.
  revert o. induction n as [|n IH]; intros o Hlen; destruct o as [|a [|b o]]; cbn in Hlen; try lia; [done|].
  destruct (IH o ltac:(lia)) as [E El]. cbn [segments]. cbn [mbind list_bind length]. rewrite El.
  split; [|done]. assert (be_bytes 2 (256 * u8z a + u8z b) = [a; b]) as ->.
  { rewrite <- (be_bytes_be_value 2 [a; b]) by done. f_equal. unfold be_value. cbn. lia. }
  by rewrite E.
Qed.

Lemma zeroes_octets n : replicate n 0%Z ≫= be_bytes 2 = replicate (2 * n) Byte.x00.
Proof.
  induction n as [|n IH]; [done|]. replace (2 * S n) with (S (S (2 * n))) by lia.
  cbn [replicate]. by rewrite bind_cons, IH.
Qed.

(** ** The round trip *)

Lemma display_v6_undotted o : to_ipv4_mapped o = None -> Byte.x2e ∉ str_bytes (display_v6 o).
Proof.
  intros Hm. unfold display_v6. rewrite Hm. pose proof (segments_wf o) as Hs.
  destruct (longest_zeroes _ _ _ _) as [start len]. case_match.
  - rewrite !str_bytes_app, !fmt_subslice_text, !elem_of_app. change (str_bytes "::") with [Byte.x3a; Byte.x3a].
    intros [Hd|[Hd|Hd]]; [|set_solver|]; eapply group_text_undotted in Hd; try done;
      by (apply Forall_take || apply Forall_drop).
  - rewrite fmt_subslice_text. by apply group_text_undotted.
Qed.

(** Eight groups in full. *)
Lemma read_ipv6_full gs : groups_wf gs -> length gs = 8 -> read_ipv6_addr (group_text 0 gs) = Some (gs ≫= be_bytes 2, []).
Proof.
  intros Hgs Hlen. unfold read_ipv6_addr. rewrite <- (app_nil_r (group_text 0 gs)).
  rewrite read_group_text; [|done | lia | by left | by apply not_elem_of_nil].
  by rewrite Hlen.
Qed.

(** Groups around a double colon that stands for at least one zero group. *)
Lemma read_ipv6_compressed gs1 n gs2 :
  groups_wf gs1 -> groups_wf gs2 -> 0 < n -> length gs1 + n + length gs2 = 8 ->
  read_ipv6_addr (group_text 0 gs1 ++ [Byte.x3a; Byte.x3a] ++ group_text 0 gs2) =
  Some ((gs1 ++ replicate n 0%Z ++ gs2) ≫= be_bytes 2, []).
Proof.
  intros H1 H2 Hn Hlen. unfold read_ipv6_addr. rewrite read_group_text; [|done | lia | right; eauto|].
  2:{ intros [?|[?|Hd]%elem_of_cons]%elem_of_cons; try done. by apply group_text_undotted in Hd. }
  rewrite decide_False by lia. cbn [app]. do 2 (rewrite read_given_char_same; cbn [mbind option_bind]).
  rewrite <- (app_nil_r (group_text 0 gs2)).
  rewrite read_group_text; [|done | lia | by left | by apply not_elem_of_nil].
  rewrite !bind_app, zeroes_octets. by replace (8 - length gs1 - length gs2) with n by lia.
Qed.

Lemma read_display_v6 o :
  length o = 16 -> to_ipv4_mapped o = None -> read_ipv6_addr (str_bytes (display_v6 o)) = Some (o, []).
Proof.
  intros Hlen Hm. unfold display_v6. rewrite Hm. destruct (segments_octets o 8 Hlen) as [Eo El].
  pose proof (segments_wf o) as Hs. pose proof (longest_zeroes_run (segments o) [] (0, 0) (0, 0)) as Hrun.
  cbn [length app] in Hrun. destruct (longest_zeroes _ _ _ _) as [start len].
  destruct (Nat.ltb_spec 1 len).
  - destruct (zero_run_split (segments o) start len) as [Hle E]; [|lia|].
    { apply Hrun; [..|by left]; intros k Hk; cbn in Hk; lia. }
    rewrite !str_bytes_app, !fmt_subslice_text. change (str_bytes "::") with [Byte.x3a; Byte.x3a].
    rewrite (read_ipv6_compressed _ len); [|by apply Forall_take | by apply Forall_drop | lia
      | rewrite length_take, length_drop; lia].
    by rewrite <- E, Eo.
  - rewrite fmt_subslice_text, read_ipv6_full by done. by rewrite Eo.
Qed.

Lemma read_display_mapped v4 :
  length v4 = 4 ->
  let l := str_bytes ("::ffff:" +:+ display_v4 v4) in
  read_ipv4_addr l = None /\
  read_ipv6_addr l = Some (replicate 10 Byte.x00 ++ [Byte.xff; Byte.xff] ++ v4, []).
Proof.
  intros Hlen. cbn zeta. rewrite str_bytes_app. set (d := str_bytes (display_v4 v4)).
  change (str_bytes "::ffff:") with [Byte.x3a; Byte.x3a; Byte.x66; Byte.x66; Byte.x66; Byte.x66; Byte.x3a].
  split; [done|]. unfold read_ipv6_addr.
  change (read_groups 8 0 _) with (@nil byte, 0, false, [Byte.x3a; Byte.x3a; Byte.x66; Byte.x66; Byte.x66; Byte.x66; Byte.x3a] ++ d).
  cbv beta iota zeta. rewrite decide_False by lia. cbn [app]. do 2 (rewrite read_given_char_same; cbn [mbind option_bind]).
  assert (read_groups 7 0 (hex 65535 ++ Byte.x3a :: d) = ([Byte.xff; Byte.xff] ++ v4, 3, true, [])) as E.
  { rewrite <- (app_nil_r d). unfold read_groups at 1. fold read_groups.
    change (read_separator Byte.x3a 0 read_ipv4_addr _) with (@None (list byte * list byte)). cbn [Nat.ltb Nat.leb].
    unfold read_separator at 1. rewrite decide_True, read_hex by done.
    unfold read_groups, read_separator. cbn [Nat.ltb Nat.leb]. rewrite decide_False, read_given_char_same by done.
    cbn [mbind option_bind]. unfold d. by rewrite read_display_v4. }
  change (hex 65535 ++ Byte.x3a :: d) with (Byte.x66 :: Byte.x66 :: Byte.x66 :: Byte.x66 :: Byte.x3a :: d) in E.
  change (8 - (0 + 1)) with 7. by rewrite E.
Qed.

(** Every address is read back from its text. *)
Lemma parse_ip_to_string ip : ip_wf ip -> parse_ip (ip_to_string ip) = Some ip.
Proof.
  unfold parse_ip. destruct ip as [o|o]; cbn [ip_wf ip_to_string]; intros Hlen.
  - rewrite <- (app_nil_r (str_bytes _)). by rewrite read_display_v4.
  - destruct (to_ipv4_mapped o) as [v4|] eqn:Hm.
    + unfold display_v6. rewrite Hm. unfold to_ipv4_mapped in Hm. case_decide as Ht; [|done].
      injection Hm as <-. destruct (read_display_mapped (drop 12 o)) as [-> ->]; [rewrite length_drop; lia|].
      by rewrite app_assoc, <- Ht, take_drop.
    + rewrite read_ipv4_undotted by by apply display_v6_undotted. by rewrite read_display_v6.
Qed.

Lemma ip_to_string_inj ip ip' : ip_wf ip -> ip_wf ip' -> ip_to_string ip = ip_to_string ip' -> ip = ip'.
Proof.
  intros Hw Hw' E. apply (f_equal parse_ip) in E. rewrite !parse_ip_to_string in E by done. by injection E.
Qed.
