(* ===== verification/Proto.v ===== *)
(** * The protobuf messages (daemon-protocol/*.proto)

    The types [daemon_proto::pb] exposes for the messages of the IPC protocol.
    A [oneof] is an option of an inductive type, [bytes] a list of bytes,
    [uint32] a natural number below 2^32 and [int32] an integer of 32 bits. *)

From S2P Require Import Prelude.

(** ip_addr.proto *)
Inductive ip_value : Type :=
| IpV4 (v4 : list byte)
| IpV6 (v6 : list byte).

Record Ip : Type := mkIp { Ip_value : option ip_value }.

Record Cidr : Type := mkCidr { Cidr_ip : option Ip; Cidr_prefix : N }.

(** dns_config.proto *)
Record DnsConfig : Type := mkDns { servers : list Ip; search_domains : list string }.

Definition DnsConfig_default : DnsConfig := mkDns [] [].

(** tun_session_config.proto *)
Record TunSessionConfig : Type := mkConfig {
  interface_name : string;
  mtu : Z;
  addresses : list Cidr;
  peer_allowed_ips : list Cidr;
  peer_endpoints : list Ip;
  dns : option DnsConfig;
}.

(** daemon.proto *)
Inductive ClientPayload : Type :=
| Config (config : TunSessionConfig)
| OutgoingPacket (data : list byte)
| Shutdown (shutdown : bool).

Record ClientMessage : Type := mkClient { client_payload : option ClientPayload }.

Inductive ServerPayload : Type :=
| Started (interface_name : string)
| IncomingPacket (data : list byte)
| Error (code message : string)
| Ready (protocol_version pid : N).

Record ServerMessage : Type := mkServer { server_payload : option ServerPayload }.

#[global] Instance ip_value_eq_dec : EqDecision ip_value.
Proof. solve_decision. Defined.
#[global] Instance Ip_eq_dec : EqDecision Ip.
Proof. solve_decision. Defined.
#[global] Instance Cidr_eq_dec : EqDecision Cidr.
Proof. solve_decision. Defined.
#[global] Instance DnsConfig_eq_dec : EqDecision DnsConfig.
Proof. solve_decision. Defined.
#[global] Instance TunSessionConfig_eq_dec : EqDecision TunSessionConfig.
Proof. solve_decision. Defined.
#[global] Instance ClientPayload_eq_dec : EqDecision ClientPayload.
Proof. solve_decision. Defined.
#[global] Instance ClientMessage_eq_dec : EqDecision ClientMessage.
Proof. solve_decision. Defined.
#[global] Instance ServerPayload_eq_dec : EqDecision ServerPayload.
Proof. solve_decision. Defined.
#[global] Instance ServerMessage_eq_dec : EqDecision ServerMessage.
Proof. solve_decision. Defined.
