(* ===== verification/IpUtil.v ===== *)
(** * ip_util.rs: reading the protocol's addresses

    [parse_proto_ip] accepts exactly the byte strings of the right length for
    their family; the [_to_string] functions panic on anything else, which
    the model shows as [None]. *)

From S2P Require Import Prelude Net Proto.

Definition parse_proto_ip (addr : Ip) : option IpAddr :=
  v ← Ip_value addr;
  match v with
  | IpV4 bytes => if decide (length bytes = 4) then Some (V4 bytes) else None
  | IpV6 bytes => if decide (length bytes = 16) then Some (V6 bytes) else None
  end.

Definition parse_proto_cidr (addr : Cidr) : option (IpAddr * N) :=
  a ← Cidr_ip addr;
  ip ← parse_proto_ip a;
  Some (ip, Cidr_prefix addr).

Definition proto_ip_to_string (addr : Ip) : option string :=
  ip ← parse_proto_ip addr;
  Some (ip_to_string ip).

Definition proto_cidr_to_string (addr : Cidr) : option string :=
  '(ip, prefix) ← parse_proto_cidr addr;
  Some (ip_to_string ip +:+ "/" +:+ pretty prefix).

(** The encoding a client uses for an address. *)
Definition ip_to_proto (ip : IpAddr) : Ip :=
  mkIp (Some match ip with V4 o => IpV4 o | V6 o => IpV6 o end).

Lemma parse_proto_ip_wf addr ip : parse_proto_ip addr = Some ip -> ip_wf ip.
Proof.
  unfold parse_proto_ip. destruct addr as [[[b|b]|]]; simpl; try done;
    case_decide; intros; by simplify_eq.
Qed.

Lemma parse_proto_ip_inv addr ip : parse_proto_ip addr = Some ip -> addr = ip_to_proto ip.
Proof.
  unfold parse_proto_ip. destruct addr as [[[b|b]|]]; simpl; try done;
    case_decide; intros; by simplify_eq.
Qed.

Lemma parse_proto_ip_to_proto ip : ip_wf ip -> parse_proto_ip (ip_to_proto ip) = Some ip.
Proof. unfold parse_proto_ip. destruct ip; simpl; intros; by rewrite decide_True. Qed.

#[export] Hint Resolve parse_proto_ip_wf : wg.

Lemma proto_ip_to_string_to_proto ip :
  ip_wf ip -> proto_ip_to_string (ip_to_proto ip) = Some (ip_to_string ip).
Proof. intros Hw. unfold proto_ip_to_string. by rewrite parse_proto_ip_to_proto. Qed.
