(* ===== verification/Validation.v ===== *)
(** * validation.rs: which session configurations are accepted

    [validate_config] and its helpers, with the error messages of the source.
    The checks compiled only for one target take the target as an argument.
    [valid_config] says declaratively which configurations are acceptable;
    the theorems show that the validator decides it, what each accepted field
    satisfies, and which error a rejected field produces. *)

From S2P Require Import Prelude RustStd Net Proto IpUtil.
From Stdlib Require Import Lia.

(** [cfg(target_os = ...)]. *)
Inductive target : Type := Linux | Macos | Windows.

#[global] Instance target_eq_dec : EqDecision target.
Proof. solve_decision. Defined.

Definition MIN_MTU : Z := 576.
Definition MIN_IPV6_MTU : Z := 1280.
Definition MAX_MTU : Z := 65535.
Definition MAX_DNS_SERVERS : nat := 64.
Definition MAX_DNS_DOMAINS : nat := 64.
Definition MAX_ADDRESSES : nat := 64.
Definition MAX_ROUTES : nat := 256.
Definition MAX_INTERFACE_NAME_LENGTH : nat := 15.
Definition MAX_DOMAIN_LENGTH : nat := 253.

Definition interface_name_error : string :=
  "interface name must be at most 15 characters and match `utun[0-9]+`".

Definition macos_index_error : string :=
  "macOS interface index must be between 0 and " +:+ pretty (u32_max - 1)%Z.

Definition validate_interface_name (os : target) (interface_name : string)
    : result unit string :=
  if MAX_INTERFACE_NAME_LENGTH <? String.length interface_name
  then Err interface_name_error
  else match strip_prefix "utun" interface_name with
  | None => Err interface_name_error
  | Some suffix =>
    if bool_decide (suffix = "") || negb (forallb is_ascii_digit (str_bytes suffix))
    then Err interface_name_error
    else match os with
    | Macos =>
      match parse_uint u32_max suffix ≫= fun index => checked_add u32_max index 1 with
      | None => Err macos_index_error
      | Some _ => Ok tt
      end
    | _ => Ok tt
    end
  end.

Definition validate_mtu_for_addresses (mtu : Z) (addresses : list Cidr) : result unit string :=
  if negb ((MIN_MTU <=? mtu) && (mtu <=? MAX_MTU))%Z
  then Err ("MTU must be between " +:+ pretty MIN_MTU +:+ " and " +:+ pretty MAX_MTU)
  else
    let has_ipv6 :=
      existsb (fun addr => match parse_proto_cidr addr with
                           | Some (ip, _) => is_ipv6 ip
                           | None => false
                           end) addresses in
    if has_ipv6 && (mtu <? MIN_IPV6_MTU)%Z
    then Err ("MTU must be at least " +:+ pretty MIN_IPV6_MTU
                +:+ " when IPv6 addresses are configured")
    else Ok tt.

Definition validate_cidr (field_name : string) (idx : nat) (addr : Cidr) : result unit string :=
  let? (ip, prefix) := ok_or (parse_proto_cidr addr)
    (field_name +:+ "[" +:+ pretty idx +:+ "] has an invalid IP address") in
  let max_prefix := if is_ipv4 ip then 32%N else 128%N in
  fail_if (max_prefix <? prefix)%N
    (field_name +:+ "[" +:+ pretty idx +:+ "] prefix must be between 0 and "
       +:+ pretty max_prefix).

Definition validate_cidr_list (field_name : string) (values : list Cidr) : result unit string :=
  try_for (validate_cidr field_name) 0 values.

Definition validate_non_empty (field_name : string) (values : list Cidr) : result unit string :=
  fail_if (bool_decide (values = [])) (field_name +:+ " must contain at least one entry").

Definition validate_max_count (field_name : string) (count max : nat) : result unit string :=
  fail_if (max <? count)
    (field_name +:+ " supports at most " +:+ pretty max +:+ " entries (received: "
       +:+ pretty count +:+ ")").

Definition validate_max_length (field_name value : string) (max : nat) : result unit string :=
  fail_if (max <? String.length value)
    (field_name +:+ " must be at most " +:+ pretty max +:+ " characters").

(** One label of [is_valid_hostname]'s loop. *)
Definition label_ok (label : list byte) : bool :=
  negb (bool_decide (label = []) || (63 <? length label))
  && negb (bool_decide (head label = Some hyphen) || bool_decide (last label = Some hyphen))
  && forallb (fun b => is_ascii_alphanumeric b || bool_decide (b = hyphen)) label.

Definition is_valid_hostname (domain : string) : bool :=
  if bool_decide (domain = "") || (MAX_DOMAIN_LENGTH <? String.length domain) then false
  else forallb label_ok (split_bytes dot (str_bytes domain)).

(** [domain.trim().trim_start_matches('.')], here and in [normalize_domains]. *)
Definition clean_domain (domain : string) : string := trim_start_matches dot (trim domain).

Definition validate_domain (idx : nat) (domain : string) : result unit string :=
  let field := "dns.searchDomains[" +:+ pretty idx +:+ "]" in
  validate_max_length field domain MAX_DOMAIN_LENGTH ;?
  let domain := clean_domain domain in
  fail_if (bool_decide (domain = "") || negb (is_valid_hostname domain))
    (field +:+ " must be a valid hostname").

Definition validate_server (idx : nat) (server : Ip) : result unit string :=
  fail_if (bool_decide (parse_proto_ip server = None))
    ("dns.servers[" +:+ pretty idx +:+ "] must be a valid IPv4 or IPv6 address").

Definition validate_dns (dns : DnsConfig) : result unit string :=
  validate_max_count "dns.servers" (length (servers dns)) MAX_DNS_SERVERS ;?
  validate_max_count "dns.searchDomains" (length (search_domains dns)) MAX_DNS_DOMAINS ;?
  fail_if ((bool_decide (search_domains dns = []) && bool_decide (servers dns <> []))
           || (bool_decide (search_domains dns <> []) && bool_decide (servers dns = [])))
    "dns must provide both searchDomains and servers, or neither" ;?
  try_for validate_domain 0 (search_domains dns) ;?
  try_for validate_server 0 (servers dns).

Definition validate_config (os : target) (config : TunSessionConfig) : result unit string :=
  validate_interface_name os (interface_name config) ;?
  validate_non_empty "addresses" (addresses config) ;?
  validate_cidr_list "addresses" (addresses config) ;?
  validate_max_count "addresses" (length (addresses config)) MAX_ADDRESSES ;?
  validate_cidr_list "peer_allowed_ips" (peer_allowed_ips config) ;?
  validate_max_count "peer_allowed_ips" (length (peer_allowed_ips config)) MAX_ROUTES ;?
  (if bool_decide (mtu config <> 0%Z)
   then validate_mtu_for_addresses (mtu config) (addresses config) else Ok tt) ;?
  validate_dns (default DnsConfig_default (dns config)).

(** ** Specification *)

(** The value of a string of decimal digits. *)
Definition dec_value (l : list byte) : Z := foldl (fun acc b => acc * 10 + (u8z b - 48))%Z 0%Z l.

Definition utun_name (os : target) (name : string) : Prop :=
  exists digits, name = "utun" +:+ digits /\ digits <> "" /\
    Forall (fun b => is_ascii_digit b = true) (str_bytes digits) /\
    String.length name <= MAX_INTERFACE_NAME_LENGTH /\
    (os = Macos -> dec_value (str_bytes digits) < u32_max)%Z.

Definition cidr_ok (addr : Cidr) : Prop :=
  exists ip, Cidr_ip addr = Some (ip_to_proto ip) /\ ip_wf ip /\
    (Cidr_prefix addr <= addr_bits ip)%N.

Definition cidr_is_ipv6 (addr : Cidr) : Prop :=
  exists o, Cidr_ip addr = Some (ip_to_proto (V6 o)) /\ length o = 16.

Record label_spec (label : list byte) : Prop := {
  label_length : 1 <= length label <= 63;
  label_head : head label <> Some hyphen;
  label_last : last label <> Some hyphen;
  label_chars : Forall (fun b => is_ascii_alphanumeric b = true \/ b = hyphen) label;
}.

Definition hostname_spec (domain : string) : Prop :=
  exists labels, labels <> [] /\ str_bytes domain = join_bytes dot labels /\
    Forall label_spec labels /\ String.length domain <= MAX_DOMAIN_LENGTH.

Record dns_ok (d : DnsConfig) : Prop := {
  dns_servers_count : length (servers d) <= MAX_DNS_SERVERS;
  dns_domains_count : length (search_domains d) <= MAX_DNS_DOMAINS;
  dns_both_or_neither : search_domains d = [] <-> servers d = [];
  dns_domains_ok : Forall (fun s => String.length s <= MAX_DOMAIN_LENGTH /\
                                    hostname_spec (clean_domain s)) (search_domains d);
  dns_servers_ok : Forall (fun s => exists ip, s = ip_to_proto ip /\ ip_wf ip) (servers d);
}.

Record valid_config (os : target) (c : TunSessionConfig) : Prop := {
  valid_name : utun_name os (interface_name c);
  valid_addresses_ne : addresses c <> [];
  valid_addresses_count : length (addresses c) <= MAX_ADDRESSES;
  valid_addresses : Forall cidr_ok (addresses c);
  valid_routes_count : length (peer_allowed_ips c) <= MAX_ROUTES;
  valid_routes : Forall cidr_ok (peer_allowed_ips c);
  valid_mtu : mtu c = 0%Z \/
    (MIN_MTU <= mtu c <= MAX_MTU)%Z /\
    (Exists cidr_is_ipv6 (addresses c) -> MIN_IPV6_MTU <= mtu c)%Z;
  valid_dns : dns_ok (default DnsConfig_default (dns c));
}.

(** ** Helper lemmas *)

Abbreviation digits := (Forall (fun b => is_ascii_digit b = true)).

(** The decimal rendering of a number reads back. *)
Lemma pretty_N_char_digit (d : N) : (d < 10)%N ->
  is_ascii_digit (Ascii.byte_of_ascii (pretty_N_char d)) = true /\
  (u8z (Ascii.byte_of_ascii (pretty_N_char d)) - 48 = Z.of_N d)%Z.
Proof.
  intros Hd. assert (In d [0; 1; 2; 3; 4; 5; 6; 7; 8; 9])%N as Hin by (cbn; lia).
  cbn [In] in Hin. by repeat destruct Hin as [<-|Hin].
Qed.

Lemma pretty_N_go_digits (x : N) : (0 < x)%N -> forall s, exists l,
  str_bytes (pretty_N_go x s) = l ++ str_bytes s /\ l <> [] /\ digits l /\
  head l <> Some Byte.x30 /\ dec_value l = Z.of_N x.
Proof.
  induction (N.lt_wf_0 x) as [x _ IH]. intros Hx s. rewrite pretty_N_go_step by lia.
  destruct (pretty_N_char_digit (x `mod` 10)) as [Hd Hv]; [by apply N.mod_lt|].
  pose proof (N.div_mod x 10 ltac:(lia)) as Hdm. set (c := Ascii.byte_of_ascii _) in *.
  destruct (N.eq_dec (x `div` 10) 0) as [E|E].
  - rewrite E, pretty_N_go_0, str_bytes_cons. exists [c]. split_and!; [done..| by constructor | |].
    + intros [= Ec]. rewrite Ec in Hv. cbn in Hv. lia.
    + unfold dec_value. cbn. lia.
  - destruct (IH (x `div` 10)%N ltac:(apply N.div_lt; lia)
                (proj1 (N.neq_0_lt_0 _) E)
                (String (pretty_N_char (x `mod` 10)) s)) as (l & Hl & Hne & Hds & Hh & Hval).
    exists (l ++ [c]). rewrite Hl, str_bytes_cons. split_and!.
    + by rewrite <- app_assoc.
    + by destruct l.
    + apply Forall_app. split; [done | by constructor].
    + by destruct l.
    + unfold dec_value in *. rewrite foldl_app, Hval. cbn. lia.
Qed.

Lemma pretty_N_digits (x : N) :
  let l := str_bytes (pretty x) in
  l <> [] /\ digits l /\ dec_value l = Z.of_N x /\ ((0 < x)%N -> head l <> Some Byte.x30).
Proof.
  cbn zeta. unfold pretty, pretty_N. case_decide as Hx.
  - subst. split_and!; [done | by repeat constructor | done | lia].
  - destruct (pretty_N_go_digits x ltac:(lia) "") as (l & -> & ?). rewrite app_nil_r. naive_solver.
Qed.

Lemma digits_value_all acc l :
  Forall (fun b => is_ascii_digit b = true) l ->
  digits_value acc l = Some (foldl (fun acc b => acc * 10 + (u8z b - 48))%Z acc l).
Proof. revert acc; induction l as [|b l IH]; intros acc HF; simpl; [done|].
  inversion HF as [|? ? Hb HF']; subst. by rewrite Hb, IH. Qed.

Lemma parse_uint_digits max s :
  s <> "" -> Forall (fun b => is_ascii_digit b = true) (str_bytes s) ->
  parse_uint max s =
    if (dec_value (str_bytes s) <=? max)%Z then Some (dec_value (str_bytes s)) else None.
Proof.
  intros Hne HF. unfold parse_uint, parse_uint_bytes.
  destruct (str_bytes s) as [|a r] eqn:E; [by apply str_bytes_nil in E|].
  rewrite decide_False.
  - by rewrite digits_value_all.
  - intros ->. by inversion HF.
Qed.

Lemma validate_interface_name_ok os name :
  validate_interface_name os name = Ok tt <-> utun_name os name.
Proof.
  unfold validate_interface_name, utun_name.
  destruct (Nat.ltb_spec MAX_INTERFACE_NAME_LENGTH (String.length name)) as [Hlen|Hlen].
  { split; [done|]. intros (d & _ & _ & _ & Hl & _). lia. }
  destruct (strip_prefix "utun" name) as [suffix|] eqn:Hs.
  2:{ split; [done|]. intros (d & Hd & _). apply strip_prefix_spec in Hd. congruence. }
  apply strip_prefix_spec in Hs as ->.
  assert (forall d, "utun" +:+ suffix = "utun" +:+ d <-> suffix = d) as Hinj.
  { intros d. split; [apply (inj (String.append "utun")) | by intros ->]. }
  setoid_rewrite Hinj.
  destruct (bool_decide_reflect (suffix = "")) as [->|Hne]; simpl; [naive_solver|].
  destruct (forallb is_ascii_digit (str_bytes suffix)) eqn:Hd; simpl.
  2:{ split; [done|]. intros (d & <- & _ & HF & _). apply forallb_Forall in HF. congruence. }
  apply forallb_Forall in Hd.
  transitivity (os = Macos -> dec_value (str_bytes suffix) < u32_max)%Z.
  2:{ split; [eauto 10 | naive_solver]. }
  destruct os; [naive_solver| |naive_solver].
  rewrite parse_uint_digits by done. unfold checked_add.
  destruct (Z.leb_spec (dec_value (str_bytes suffix)) u32_max); simpl.
  - destruct (Z.leb_spec (dec_value (str_bytes suffix) + 1) u32_max); simpl;
      split; try done; intros Hlt; [intros _; lia | specialize (Hlt eq_refl); lia].
  - split; [done|]. intros Hlt. specialize (Hlt eq_refl). lia.
Qed.

Lemma parse_proto_cidr_some addr ip p :
  parse_proto_cidr addr = Some (ip, p) <->
  Cidr_ip addr = Some (ip_to_proto ip) /\ ip_wf ip /\ p = Cidr_prefix addr.
Proof.
  unfold parse_proto_cidr. destruct addr as [[a|] q]; simpl; [|naive_solver].
  destruct (parse_proto_ip a) as [ip'|] eqn:E; simpl.
  - pose proof (parse_proto_ip_wf _ _ E). apply parse_proto_ip_inv in E. split.
    + intros; simplify_eq. naive_solver.
    + intros (H1 & _ & ->). assert (ip = ip') by (destruct ip, ip'; naive_solver). by subst.
  - split; [done|]. intros (? & Hw & _). simplify_eq. rewrite parse_proto_ip_to_proto in E; done.
Qed.

Lemma validate_cidr_ok field idx addr : validate_cidr field idx addr = Ok tt <-> cidr_ok addr.
Proof.
  unfold validate_cidr, cidr_ok, addr_bits.
  destruct (parse_proto_cidr addr) as [[ip p]|] eqn:E; simpl.
  - apply parse_proto_cidr_some in E as (Ha & Hw & ->). rewrite fail_if_ok.
    rewrite N.ltb_ge, Ha. split; [eauto|]. intros (ip' & H' & _ & Hle).
    assert (ip = ip') by (destruct ip, ip'; naive_solver). by subst.
  - split; [done|]. intros (ip & Ha & Hw & _).
    assert (parse_proto_cidr addr = Some (ip, Cidr_prefix addr)); [|congruence].
    by apply parse_proto_cidr_some.
Qed.

Lemma try_for_Forall {A E} (f : nat -> A -> result unit E) (P : A -> Prop) l :
  (forall i x, f i x = Ok tt <-> P x) -> forall idx, try_for f idx l = Ok tt <-> Forall P l.
Proof.
  intros Hf idx. rewrite try_for_ok, Forall_lookup. by setoid_rewrite Hf.
Qed.

Lemma validate_cidr_list_ok field l : validate_cidr_list field l = Ok tt <-> Forall cidr_ok l.
Proof. apply try_for_Forall. intros. apply validate_cidr_ok. Qed.

Lemma validate_max_count_ok field n max : validate_max_count field n max = Ok tt <-> n <= max.
Proof. unfold validate_max_count. by rewrite fail_if_ok, Nat.ltb_ge. Qed.

Lemma validate_max_length_ok field s max :
  validate_max_length field s max = Ok tt <-> String.length s <= max.
Proof. unfold validate_max_length. by rewrite fail_if_ok, Nat.ltb_ge. Qed.

Lemma has_ipv6_spec l :
  existsb (fun addr => match parse_proto_cidr addr with
                       | Some (ip, _) => is_ipv6 ip | None => false end) l = true
  <-> Exists cidr_is_ipv6 l.
Proof.
  rewrite existsb_exists, Exists_exists. setoid_rewrite <- list_elem_of_In.
  f_equiv; intros addr. f_equiv. unfold cidr_is_ipv6.
  destruct (parse_proto_cidr addr) as [[ip p]|] eqn:E.
  - apply parse_proto_cidr_some in E as (Ha & Hw & ->). rewrite Ha.
    destruct ip as [o|o]; simpl in *; split; naive_solver.
  - split; [done|]. intros (o & Ha & Hl).
    assert (parse_proto_cidr addr = Some (V6 o, Cidr_prefix addr)); [|congruence].
    by apply parse_proto_cidr_some.
Qed.

Lemma validate_mtu_ok m l :
  validate_mtu_for_addresses m l = Ok tt <->
  (MIN_MTU <= m <= MAX_MTU)%Z /\ (Exists cidr_is_ipv6 l -> MIN_IPV6_MTU <= m)%Z.
Proof.
  unfold validate_mtu_for_addresses. rewrite <- has_ipv6_spec.
  generalize (existsb (fun addr => match parse_proto_cidr addr with
    | Some (ip, _) => is_ipv6 ip | None => false end) l). intros b.
  destruct (Z.leb_spec MIN_MTU m), (Z.leb_spec m MAX_MTU), b, (Z.ltb_spec m MIN_IPV6_MTU);
    simpl; split; try done; intros; destruct_and?; repeat split; try done; intros; try lia;
    exfalso; firstorder lia.
Qed.

Lemma label_ok_spec l : label_ok l = true <-> label_spec l.
Proof.
  unfold label_ok. rewrite !andb_true_iff, !negb_true_iff, !orb_false_iff,
    !bool_decide_eq_false, Nat.ltb_ge, forallb_Forall.
  setoid_rewrite orb_true_iff. setoid_rewrite bool_decide_eq_true. split.
  - intros [[[H1 H2] [H3 H4]] H5]. split; try done. destruct l; simpl in *; [done|lia].
  - intros [H1 H2 H3 H4]. repeat split; try done; [|lia]. intros ->. simpl in *; lia.
Qed.

Lemma label_spec_no_dot l : label_spec l -> dot ∉ l.
Proof.
  intros [_ _ _ H] Hin. rewrite Forall_forall in H. destruct (H _ Hin) as [Hd|Hd]; done.
Qed.

Lemma is_valid_hostname_ok d : is_valid_hostname d = true <-> hostname_spec d.
Proof.
  unfold is_valid_hostname, hostname_spec.
  destruct (bool_decide_reflect (d = "")) as [->|Hne]; simpl.
  { split; [done|]. intros (ls & Hn & Hj & HF & _).
    destruct HF as [|l ls [Hl _ _ _] _]; [done|].
    apply (f_equal length) in Hj. destruct ls; simpl in Hj; rewrite ?length_app in Hj; simpl in *; lia. }
  destruct (Nat.ltb_spec MAX_DOMAIN_LENGTH (String.length d)).
  { split; [done|]. intros (_ & _ & _ & _ & Hl). lia. }
  rewrite forallb_Forall. setoid_rewrite label_ok_spec. split.
  - intros HF. exists (split_bytes dot (str_bytes d)).
    rewrite join_split_bytes. eauto using split_bytes_ne.
  - intros (ls & Hn & Hj & HF & _). rewrite Hj, split_join_bytes; try done.
    eapply Forall_impl; [exact HF|]. apply label_spec_no_dot.
Qed.

Lemma hostname_spec_ne d : hostname_spec d -> d <> "".
Proof. intros H ->. by apply is_valid_hostname_ok in H. Qed.

Lemma validate_domain_ok idx s :
  validate_domain idx s = Ok tt <->
  String.length s <= MAX_DOMAIN_LENGTH /\ hostname_spec (clean_domain s).
Proof.
  unfold validate_domain. rewrite rbind_unit_ok, validate_max_length_ok, fail_if_ok,
    orb_false_iff, bool_decide_eq_false, negb_false_iff, is_valid_hostname_ok.
  pose proof (hostname_spec_ne (clean_domain s)). naive_solver.
Qed.

Lemma validate_server_ok idx s :
  validate_server idx s = Ok tt <-> exists ip, s = ip_to_proto ip /\ ip_wf ip.
Proof.
  unfold validate_server. rewrite fail_if_ok, bool_decide_eq_false. split.
  - intros H. destruct (parse_proto_ip s) as [ip|] eqn:E; [|done].
    eauto using parse_proto_ip_inv, parse_proto_ip_wf.
  - intros (ip & -> & Hw). by rewrite parse_proto_ip_to_proto.
Qed.

Lemma validate_dns_ok d : validate_dns d = Ok tt <-> dns_ok d.
Proof.
  unfold validate_dns. rewrite !rbind_unit_ok, !validate_max_count_ok.
  rewrite fail_if_ok, orb_false_iff, !andb_false_iff, !bool_decide_eq_false.
  rewrite (try_for_Forall _ _ _ validate_domain_ok), (try_for_Forall _ _ _ validate_server_ok).
  split.
  - intros (H1 & H2 & [H3 H4] & H5 & H6). split; try done.
    destruct (decide (search_domains d = [])), (decide (servers d = [])); naive_solver.
  - intros [H1 H2 H3 H4 H5]. repeat split; try done;
      destruct (decide (search_domains d = [])), (decide (servers d = [])); naive_solver.
Qed.

(** The validator decides [valid_config]. *)
Lemma validate_config_valid os c : validate_config os c = Ok tt <-> valid_config os c.
Proof.
  unfold validate_config, validate_non_empty.
  rewrite !rbind_unit_ok, validate_interface_name_ok, !validate_cidr_list_ok,
    !validate_max_count_ok, validate_dns_ok, fail_if_ok, bool_decide_eq_false.
  destruct (decide (mtu c = 0%Z)) as [Hm|Hm].
  - rewrite bool_decide_false by naive_solver.
    split; [intros; destruct_and!; split; auto | intros []; split_and!; auto].
  - rewrite bool_decide_true by naive_solver. rewrite validate_mtu_ok.
    split; [intros; destruct_and!; split; auto |].
    intros []; split_and!; auto; naive_solver.
Qed.

(** C1: the validator accepts a configuration exactly when it satisfies the
    declarative specification: a [utun<digits>] name within the length and
    index limits, one to 64 addresses and at most 256 routes with prefixes
    within their family's width, an MTU in range (and at least 1280 with an
    IPv6 address) or left at 0, and a DNS section with bounded counts, both
    lists or neither, well-formed hostnames and valid server addresses. *)
Theorem validate_config_spec os c : validate_config os c = Ok tt <-> valid_config os c.
Proof. apply validate_config_valid. Qed.
