(* ===== verification/Ipc.v ===== *)
(** * ipc/mod.rs: length-prefixed protobuf frames

    [read_frame] and [write_frame] over a byte stream. prost is not part of the
    repository: a message type comes with its [encode_to_vec] and [decode] as
    the class [Message], and [MessageLaws] states the round trip prost
    guarantees. A stream is a sequence of chunks, as the transport delivers
    them, that ends with end-of-file or with a transport error. *)

From S2P Require Import Prelude RustStd Proto.
From Stdlib Require Import Lia.

Definition PROTOCOL_VERSION : N := 2.
Definition MAX_FRAME_SIZE : Z := 4 * 1024 * 1024.

(** [prost::Message]. *)
Class Message (M : Type) : Type := {
  encode_to_vec : M -> list byte;
  decode : list byte -> result M string;
}.

(** Decoding inverts encoding on the messages of [dom] (in-range integers and
    valid UTF-8 strings, for the generated types). *)
Class MessageLaws (M : Type) `{Message M} (dom : M -> Prop) : Prop :=
  decode_encode m : dom m -> decode (encode_to_vec m) = Ok m.

(** ** Streams *)

Inductive stream_end : Type := Eof | Broken (e : io_error).

Record stream : Type := mkStream { chunks : list (list byte); ending : stream_end }.

(** All the bytes still to come. *)
Definition pending (s : stream) : list byte := concat (chunks s).

(** [AsyncReadExt::read] into a buffer of [n] bytes: what the first non-empty
    chunk holds, up to [n] bytes, or nothing at the end of the stream. *)
Fixpoint read_chunks (n : nat) (cs : list (list byte)) : list byte * list (list byte) :=
  match cs with
  | [] => ([], [])
  | [] :: r => read_chunks n r
  | c :: r => (take n c, drop n c :: r)
  end.

Definition read (n : nat) (s : stream) : result (list byte) io_error * stream :=
  let '(bs, cs) := read_chunks n (chunks s) in
  let s' := mkStream cs (ending s) in
  match bs, ending s with
  | [], Broken e => (Err e, s')
  | _, _ => (Ok bs, s')
  end.

(** [AsyncReadExt::read_exact]: loop over the chunks until the buffer is full. *)
Fixpoint read_exact_chunks (n : nat) (cs : list (list byte))
    : option (list byte) * list (list byte) :=
  match cs with
  | [] => (if decide (n = 0) then Some [] else None, [])
  | c :: r =>
    if n <=? length c then (Some (take n c), drop n c :: r)
    else let '(o, r') := read_exact_chunks (n - length c) r in (app c <$> o, r')
  end.

Definition eof_error : io_error := io_new UnexpectedEof "early eof".

Definition read_exact (n : nat) (s : stream) : result (list byte) io_error * stream :=
  let '(o, cs) := read_exact_chunks n (chunks s) in
  let s' := mkStream cs (ending s) in
  match o, ending s with
  | Some bs, _ => (Ok bs, s')
  | None, Eof => (Err eof_error, s')
  | None, Broken e => (Err e, s')
  end.

(** A stream of a writer: [write_all] and [flush] of [AsyncWriteExt]. *)
Class Writer (W : Type) : Type := {
  write_all : list byte -> W -> result unit io_error * W;
  flush : W -> result unit io_error * W;
}.

(** The in-memory writer ([Vec<u8>]). *)
#[global] Instance vec_writer : Writer (list byte) := {
  write_all bs w := (Ok tt, w ++ bs);
  flush w := (Ok tt, w);
}.

(** ** Frames *)

Definition frame_length_error : io_error := io_new InvalidData "invalid IPC frame length".

Section Frames.
Context {M : Type} `{Message M}.

Definition read_frame (input : stream) : result (option M) io_error * stream :=
  match read 1 input with
  | (Err e, s1) => (Err e, s1)
  | (Ok [], s1) => (Ok None, s1)
  | (Ok first, s1) =>
    match read_exact 3 s1 with
    | (Err e, s2) => (Err e, s2)
    | (Ok rest, s2) =>
      let size := be_value (first ++ rest) in
      if ((size =? 0) || (MAX_FRAME_SIZE <? size))%Z then (Err frame_length_error, s2)
      else match read_exact (Z.to_nat size) s2 with
      | (Err e, s3) => (Err e, s3)
      | (Ok bytes, s3) =>
        match decode bytes with
        | Ok m => (Ok (Some m), s3)
        | Err e => (Err (io_new InvalidData e), s3)
        end
      end
    end
  end.

Definition write_frame `{Writer W} (message : M) (output : W) : result unit io_error * W :=
  let bytes := encode_to_vec message in
  if bool_decide (bytes = []) || (MAX_FRAME_SIZE <? Z.of_nat (length bytes))%Z
  then (Err frame_length_error, output)
  else match write_all (be_bytes 4 (Z.of_nat (length bytes))) output with
  | (Err e, o1) => (Err e, o1)
  | (Ok _, o1) =>
    match write_all bytes o1 with
    | (Err e, o2) => (Err e, o2)
    | (Ok _, o2) => flush o2
    end
  end.

(** Repeated use of a connection. *)
Fixpoint write_frames `{Writer W} (ms : list M) (output : W) : result unit io_error * W :=
  match ms with
  | [] => (Ok tt, output)
  | m :: r =>
    match write_frame m output with
    | (Err e, o) => (Err e, o)
    | (Ok _, o) => write_frames r o
    end
  end.

Fixpoint read_frames (n : nat) (input : stream) : result (list M) io_error * stream :=
  match n with
  | O => (Ok [], input)
  | S n' =>
    match read_frame input with
    | (Err e, s) => (Err e, s)
    | (Ok None, s) => (Ok [], s)
    | (Ok (Some m), s) =>
      match read_frames n' s with
      | (Err e, s') => (Err e, s')
      | (Ok ms, s') => (Ok (m :: ms), s')
      end
    end
  end.
End Frames.

(** ** Chunk-independent specification *)

Definition end_error (e : stream_end) : io_error :=
  match e with Eof => eof_error | Broken x => x end.

(** What one call reads from the bytes [bs] still to come, however the
    transport cuts them into chunks. *)
Definition frame_spec {M} `{Message M} (bs : list byte) (e : stream_end)
    : result (option M) io_error * list byte :=
  match bs with
  | [] => (match e with Eof => Ok None | Broken x => Err x end, [])
  | _ =>
    if length bs <? 4 then (Err (end_error e), [])
    else
      let size := be_value (take 4 bs) in
      let body := drop 4 bs in
      if ((size =? 0) || (MAX_FRAME_SIZE <? size))%Z then (Err frame_length_error, body)
      else if (Z.of_nat (length body) <? size)%Z then (Err (end_error e), [])
      else (match decode (take (Z.to_nat size) body) with
            | Ok m => Ok (Some m)
            | Err x => Err (io_new InvalidData x)
            end, drop (Z.to_nat size) body)
  end.

Lemma read_chunks_1 cs :
  match concat cs with
  | [] => exists cs', read_chunks 1 cs = ([], cs') /\ concat cs' = []
  | b :: r => exists cs', read_chunks 1 cs = ([b], cs') /\ concat cs' = r
  end.
Proof.
  induction cs as [|[|b c] cs IH]; simpl; [eauto | exact IH |].
  eexists. rewrite take_0. split; [done|]. simpl. by rewrite drop_0.
Qed.

Lemma read_exact_chunks_spec n cs :
  if n <=? length (concat cs)
  then exists cs', read_exact_chunks n cs = (Some (take n (concat cs)), cs') /\
                   concat cs' = drop n (concat cs)
  else exists cs', read_exact_chunks n cs = (None, cs') /\ concat cs' = [].
Proof.
  revert n; induction cs as [|c cs IH]; intros n; simpl.
  - destruct (Nat.leb_spec n 0).
    + assert (n = 0) as -> by lia. eexists. by rewrite decide_True.
    + eexists. by rewrite decide_False by lia.
  - rewrite length_app. destruct (Nat.leb_spec n (length c)) as [Hc|Hc].
    + rewrite (proj2 (Nat.leb_le _ _)) by lia. eexists.
      rewrite take_app_le, drop_app_le by lia. done.
    + specialize (IH (n - length c)).
      destruct (Nat.leb_spec (n - length c) (length (concat cs))) as [Hl|Hl].
      * rewrite (proj2 (Nat.leb_le _ _)) by lia.
        destruct IH as (cs' & -> & Hcs'). exists cs'.
        rewrite take_app_ge, drop_app_ge by lia. done.
      * rewrite (proj2 (Nat.leb_gt _ _)) by lia.
        destruct IH as (cs' & -> & Hcs'). by exists cs'.
Qed.

Lemma read_exact_spec n s :
  if n <=? length (pending s)
  then exists s', read_exact n s = (Ok (take n (pending s)), s') /\
         pending s' = drop n (pending s) /\ ending s' = ending s
  else exists s', read_exact n s = (Err (end_error (ending s)), s') /\
         pending s' = [] /\ ending s' = ending s.
Proof.
  unfold read_exact, pending. pose proof (read_exact_chunks_spec n (chunks s)) as HS.
  case_match; destruct HS as (cs' & -> & Hcs); destruct (ending s); by eexists.
Qed.

(** Reading one frame agrees with the flat specification. *)
Lemma read_frame_flat {M} `{Message M} s :
  exists s', @read_frame M _ s = ((frame_spec (pending s) (ending s)).1, s') /\
    pending s' = (@frame_spec M _ (pending s) (ending s)).2 /\ ending s' = ending s.
Proof.
  unfold read_frame, read. pose proof (read_chunks_1 (chunks s)) as H1.
  unfold frame_spec. change (concat (chunks s)) with (pending s) in H1.
  destruct (pending s) as [|b r] eqn:Hp.
  { destruct H1 as (cs' & -> & Hcs). destruct (ending s) eqn:He; by eexists. }
  destruct H1 as (cs' & -> & Hcs).
  set (s1 := mkStream cs' (ending s)).
  assert (pending s1 = r) as Hp1 by exact Hcs.
  pose proof (read_exact_spec 3 s1) as H2. rewrite Hp1 in H2.
  change (length (b :: r) <? 4) with (S (length r) <? 4).
  destruct (Nat.leb_spec 3 (length r)) as [Hr|Hr].
  2:{ rewrite (proj2 (Nat.ltb_lt _ _)) by lia.
      destruct H2 as (s2 & E2 & Hp2 & He2). rewrite E2. by eexists. }
  rewrite (proj2 (Nat.ltb_ge _ _)) by lia.
  destruct H2 as (s2 & -> & Hp2 & He2). change (drop 4 (b :: r)) with (drop 3 r).
  change (take 4 (b :: r)) with (b :: take 3 r). simpl app.
  set (size := be_value (b :: take 3 r)). rewrite <- Hp2.
  destruct (size =? 0)%Z; simpl; [by eexists|].
  destruct (Z.ltb_spec MAX_FRAME_SIZE size); simpl; [by eexists|].
  pose proof (read_exact_spec (Z.to_nat size) s2) as H3.
  pose proof (be_value_range (b :: take 3 r)) as Hrange. fold size in Hrange.
  change (ending s1) with (ending s) in *.
  destruct (Nat.leb_spec (Z.to_nat size) (length (pending s2))) as [Hb|Hb].
  - rewrite (proj2 (Z.ltb_ge _ _)) by lia.
    destruct H3 as (s3 & -> & Hp3 & He3). exists s3.
    split_and!; [by case_match | done | congruence].
  - rewrite (proj2 (Z.ltb_lt _ _)) by lia.
    destruct H3 as (s3 & -> & Hp3 & He3). exists s3. rewrite He2.
    split_and!; [done | done | congruence].
Qed.

(** How the transport segments the bytes is irrelevant: two streams that
    deliver the same bytes and end alike give the same frame (or error) and
    leave the same bytes unread. *)
Theorem read_frame_chunk_independent {M} `{Message M} s t :
  pending s = pending t -> ending s = ending t ->
  (@read_frame M _ s).1 = (@read_frame M _ t).1 /\
  pending (@read_frame M _ s).2 = pending (@read_frame M _ t).2.
Proof.
  intros Hp He.
  destruct (read_frame_flat (M:=M) s) as (s' & -> & Hs & _).
  destruct (read_frame_flat (M:=M) t) as (t' & -> & Ht & _).
  simpl. by rewrite Hs, Ht, Hp, He.
Qed.

(** ** Round trip *)

Section RoundTrip.
Context {M : Type} `{HM : Message M} {dom : M -> Prop} `{!MessageLaws M dom}.

Lemma write_frame_vec (m : M) (w w' : list byte) :
  write_frame m w = (Ok tt, w') ->
  let bs := encode_to_vec m in
  bs <> [] /\ (Z.of_nat (length bs) <= MAX_FRAME_SIZE)%Z /\
  w' = w ++ be_bytes 4 (Z.of_nat (length bs)) ++ bs.
Proof.
  unfold write_frame. simpl.
  destruct (bool_decide_reflect (encode_to_vec m = [])); simpl; [done|].
  destruct (Z.ltb_spec MAX_FRAME_SIZE (Z.of_nat (length (encode_to_vec m)))); [done|].
  intros E; injection E as <-. rewrite <- app_assoc. auto.
Qed.

Lemma frame_spec_frame (m : M) rest e :
  dom m -> encode_to_vec m <> [] ->
  (Z.of_nat (length (encode_to_vec m)) <= MAX_FRAME_SIZE)%Z ->
  frame_spec (be_bytes 4 (Z.of_nat (length (encode_to_vec m))) ++ encode_to_vec m ++ rest) e
  = (Ok (Some m), rest).
Proof.
  intros Hd Hne Hmax. set (bs := encode_to_vec m) in *. set (n := Z.of_nat (length bs)).
  set (h := be_bytes 4 n). assert (length h = 4) as Hh by apply length_be_bytes.
  assert (0 < length bs) by (destruct bs; simpl in *; [done|lia]).
  unfold frame_spec. destruct (h ++ bs ++ rest) as [|b l] eqn:E.
  { apply (f_equal length) in E. rewrite length_app in E. simpl in E. lia. }
  rewrite <- E. clear E b l.
  rewrite (proj2 (Nat.ltb_ge _ _)) by (rewrite length_app; lia).
  rewrite take_app_length' by done. rewrite drop_app_length' by done.
  assert (be_value h = n) as ->.
  { unfold h. rewrite be_value_be_bytes. apply Z.mod_small.
    unfold n, MAX_FRAME_SIZE in *. simpl. lia. }
  rewrite (proj2 (Z.eqb_neq _ _)) by lia. rewrite (proj2 (Z.ltb_ge MAX_FRAME_SIZE n)) by lia.
  simpl. rewrite (proj2 (Z.ltb_ge _ _)) by (rewrite length_app; lia).
  unfold n. rewrite Nat2Z.id, take_app_length, drop_app_length.
  unfold bs. by rewrite decode_encode.
Qed.

Lemma read_written_frames (ms : list M) (w w' rest : list byte) (s : stream) :
  Forall dom ms ->
  write_frames ms w = (Ok tt, w') ->
  w ++ pending s = w' ++ rest ->
  exists s', read_frames (length ms) s = (Ok ms, s') /\
    pending s' = rest /\ ending s' = ending s.
Proof.
  intros Hdom. revert w s. induction Hdom as [|m ms Hm Hms IH]; intros w s; simpl.
  { intros E; injection E as <-. intros Hp. apply (inj (app w)) in Hp. eauto. }
  destruct (write_frame m w) as [[[]|e] w1] eqn:E1; [|done]. intros Hw Hp.
  apply write_frame_vec in E1 as (Hne & Hmax & ->).
  set (f := be_bytes 4 (Z.of_nat (length (encode_to_vec m))) ++ encode_to_vec m) in *.
  assert (exists more, w' = (w ++ f) ++ more) as [more ->].
  { clear -Hw. revert Hw. generalize (w ++ f) as v. clear.
    induction ms as [|m ms IH]; simpl; intros v Hw.
    { injection Hw as <-. exists []. by rewrite app_nil_r. }
    destruct (write_frame m v) as [[[]|] v1] eqn:E; [|done].
    apply write_frame_vec in E as (_ & _ & ->). destruct (IH _ Hw) as [more ->].
    rewrite <- app_assoc. eauto. }
  rewrite <- !app_assoc in Hp. apply (inj (app w)) in Hp.
  destruct (read_frame_flat (M:=M) s) as (s1 & -> & Hp1 & He1).
  unfold f in Hp. rewrite <- app_assoc in Hp.
  rewrite Hp in Hp1 |- *. rewrite frame_spec_frame in Hp1 |- * by done. simpl in Hp1 |- *.
  destruct (IH (w ++ f) s1) as (s' & -> & Hp' & He'); [done | |].
  { rewrite Hp1. by rewrite <- !app_assoc. }
  exists s'. split_and!; [done | done | congruence].
Qed.

(** The bytes of one frame, and which messages fit into one. *)
Definition frame_bytes (m : M) : list byte :=
  be_bytes 4 (Z.of_nat (length (encode_to_vec m))) ++ encode_to_vec m.

Definition frame_fits (m : M) : Prop :=
  encode_to_vec m <> [] /\ (Z.of_nat (length (encode_to_vec m)) <= MAX_FRAME_SIZE)%Z.

Definition frames_bytes (ms : list M) : list byte := concat (frame_bytes <$> ms).

Lemma write_frames_fit (ms : list M) (w : list byte) :
  Forall frame_fits ms -> write_frames ms w = (Ok tt, w ++ frames_bytes ms).
Proof.
  intros Hf. revert w. induction Hf as [|m ms [Hne Hmax] _ IH]; intros w; cbn [write_frames].
  { by rewrite app_nil_r. }
  unfold write_frame. rewrite bool_decide_eq_false_2 by done.
  rewrite (proj2 (Z.ltb_ge _ _)) by done. cbn [orb write_all flush vec_writer]. rewrite IH.
  unfold frames_bytes, frame_bytes. cbn [fmap list_fmap concat]. by rewrite <- !app_assoc.
Qed.

(** The messages of a byte sequence that starts with frames. *)
Lemma read_frames_bytes (ms : list M) rest (s : stream) :
  Forall dom ms -> Forall frame_fits ms -> pending s = frames_bytes ms ++ rest ->
  exists s', read_frames (length ms) s = (Ok ms, s') /\ pending s' = rest /\ ending s' = ending s.
Proof.
  intros Hd Hf Hp. eapply (read_written_frames ms []); [done | by apply write_frames_fit | done].
Qed.

Lemma read_frame_bytes (m : M) rest (s : stream) :
  dom m -> frame_fits m -> pending s = frame_bytes m ++ rest ->
  exists s', read_frame s = (Ok (Some m), s') /\ pending s' = rest /\ ending s' = ending s.
Proof.
  intros Hd [Hne Hmax] Hp. destruct (read_frame_flat (M:=M) s) as (s' & Hs & Hp' & He).
  unfold frame_bytes in Hp. rewrite <- app_assoc in Hp.
  rewrite Hp, frame_spec_frame in Hs, Hp' by done. by exists s'.
Qed.

(** C8: whatever sequence of messages one side writes, the other side reads
    back exactly that sequence and leaves what follows untouched, however
    the transport segments the bytes. *)
Theorem frames_round_trip (ms : list M) (w w' rest : list byte) (s : stream) :
  Forall dom ms ->
  write_frames ms w = (Ok tt, w') ->
  w ++ pending s = w' ++ rest ->
  exists s', read_frames (length ms) s = (Ok ms, s') /\
    pending s' = rest /\ ending s' = ending s.
Proof. apply read_written_frames. Qed.
End RoundTrip.

(** A successful read consumed exactly one whole frame: four header bytes
    that encode the body's length, between 1 and [MAX_FRAME_SIZE], and that
    body, from which the message was decoded. *)
Theorem read_frame_consumes {M} `{Message M} s s' (m : M) :
  read_frame s = (Ok (Some m), s') ->
  exists body, pending s = be_bytes 4 (Z.of_nat (length body)) ++ body ++ pending s' /\
    (1 <= Z.of_nat (length body) <= MAX_FRAME_SIZE)%Z /\ decode body = Ok m.
Proof.
  intros E. destruct (read_frame_flat (M:=M) s) as (t & E' & Hp & _).
  rewrite E' in E. injection E as E1 ->. clear E'. revert E1 Hp. unfold frame_spec.
  destruct (pending s) as [|b r] eqn:Hs; [by destruct (ending s)|]. rewrite <- Hs. clear b r Hs.
  set (bs := pending s).
  destruct (Nat.ltb_spec (length bs) 4) as [|Hl]; [done|].
  set (size := be_value (take 4 bs)).
  destruct (Z.eqb_spec size 0); cbn [orb fst snd]; [done|].
  destruct (Z.ltb_spec MAX_FRAME_SIZE size); cbn [orb fst snd]; [done|].
  destruct (Z.ltb_spec (Z.of_nat (length (drop 4 bs))) size); cbn [orb fst snd]; [done|].
  destruct (decode (take (Z.to_nat size) (drop 4 bs))) as [m'|] eqn:Hd; [|done].
  intros Em Hp. injection Em as ->.
  pose proof (be_value_range (take 4 bs)) as Hr. fold size in Hr.
  assert (length (take (Z.to_nat size) (drop 4 bs)) = Z.to_nat size) as Hlen.
  { rewrite length_take. lia. }
  exists (take (Z.to_nat size) (drop 4 bs)). rewrite Hlen, Z2Nat.id by lia.
  assert (be_bytes 4 size = take 4 bs) as ->.
  { apply be_bytes_be_value. rewrite length_take. lia. }
  split_and!; [|lia|lia|done]. by rewrite Hp, take_drop, take_drop.
Qed.

(** ** Concrete instances *)
Module IpcExamples.
(** Raw bytes as messages. *)
#[export] Instance raw_message : Message (list byte) :=
  {| encode_to_vec m := m; decode b := Ok b |}.
#[export] Instance raw_message_laws : MessageLaws (list byte) (fun _ => True).
Proof. intros m _. reflexivity. Defined.

Definition frame : list byte := [Byte.x00; Byte.x00; Byte.x00; Byte.x02; Byte.x61; Byte.x62].
Definition whole : stream := mkStream [frame ++ [Byte.xff]] Eof.
Definition split_up : stream :=
  mkStream [[Byte.x00; Byte.x00]; []; [Byte.x00; Byte.x02; Byte.x61]; [Byte.x62; Byte.xff]] Eof.
End IpcExamples.
Import IpcExamples.

Lemma read_frame_chunk_independent_witness :
  (@read_frame (list byte) _ whole).1 = (@read_frame (list byte) _ split_up).1.
Proof. apply (read_frame_chunk_independent (M:=list byte) whole split_up); reflexivity. Defined.

Lemma frames_round_trip_witness :
  exists s', read_frames (M:=list byte) 1 split_up = (Ok [[Byte.x61; Byte.x62]], s') /\
    pending s' = [Byte.xff].
Proof.
  destruct (frames_round_trip (dom:=fun _ => True) [[Byte.x61; Byte.x62]] [] frame [Byte.xff] split_up)
    as (s' & H1 & H2 & _).
  - repeat constructor.
  - reflexivity.
  - reflexivity.
  - exists s'. split; [exact H1 | exact H2].
Defined.

Lemma read_frame_consumes_witness :
  exists body, pending split_up = be_bytes 4 (Z.of_nat (length body)) ++ body ++ [Byte.xff] /\
    @decode (list byte) _ body = Ok [Byte.x61; Byte.x62].
Proof.
  destruct (read_frame_consumes split_up (@read_frame (list byte) _ split_up).2 [Byte.x61; Byte.x62])
    as (body & Hb & _ & Hd); [vm_compute; reflexivity|].
  exists body. split; [|exact Hd]. rewrite Hb. vm_compute (pending _). reflexivity.
Defined.
