(* ===== verification/Tunnel.v ===== *)
(** * The BoringTun binding (wg-kotlin-uniffi-boringtun, lib.rs)

    Key conversion and the [TunnelSession] object the Kotlin side drives. Three
    crates are outside the repository and appear as classes: base64
    ([Base64]), x25519 and hex ([KeyLib]), and the WireGuard state machine
    itself ([TunnLib]), any call of which may panic: BoringTun says when
    [encapsulate] does, for a destination slice that is too short, and nothing
    about the others. [TunnelState] is behind a mutex that a panic poisons. The
    theorems show how long the slices are that the binding passes, that they are
    within its buffer, and what a session does after a panic of BoringTun. *)

From S2P Require Import Prelude RustStd Net.
From Stdlib Require Import Lia.

Definition MAX_IP_PACKET_SIZE : N := Z.to_N u16_max.
Definition DATA_PACKET_OVERHEAD : N := 32.
Definition MIN_PACKET_BUFFER_SIZE : N := 148.
Definition MAX_PACKET_BUFFER_SIZE : N := MAX_IP_PACKET_SIZE + DATA_PACKET_OVERHEAD.
Definition MAX_PEER_INDEX : N := 0x00ffffff.

(** ** External crates *)

(** [BASE64_ENGINE.encode] and [BASE64_ENGINE.decode_slice] into a slice of the
    given capacity: the bytes written. *)
Class Base64 : Type := {
  b64_encode : list byte -> string;
  b64_decode_slice : string -> nat -> option (list byte);
}.

Class Base64Laws `{Base64} : Prop := {
  b64_encode_length k : String.length (b64_encode k) = 4 * ((length k + 2) / 3);
  b64_decode_encode k cap : length k <= cap -> b64_decode_slice (b64_encode k) cap = Some k;
}.

Class KeyLib : Type := {
  x25519_public : list byte -> list byte;
  x25519_public_length k : length (x25519_public k) = 32;
  hex_encode : list byte -> string;
}.

Inductive TunnResult : Type :=
| TunnDone
| TunnErr (code : N)
| TunnWriteToNetwork (packet : list byte)
| TunnWriteToTunnelV4 (packet : list byte) (addr : IpAddr)
| TunnWriteToTunnelV6 (packet : list byte) (addr : IpAddr).

(** [None] is a panic. The destination slice is updated in place, so it comes
    back with the length it had. *)
Class TunnLib : Type := {
  Tunn : Type;
  Tunn_new : list byte -> list byte -> option (list byte) -> option N -> N -> Tunn;
  encapsulate : Tunn -> list byte -> list byte -> option (TunnResult * Tunn * list byte);
  decapsulate : Tunn -> option IpAddr -> list byte -> list byte
                -> option (TunnResult * Tunn * list byte);
  update_timers : Tunn -> list byte -> option (TunnResult * Tunn * list byte);
}.

(** A slice that is written in place keeps its length. *)
Class TunnSlices `{TunnLib} : Prop := {
  encapsulate_in_place t src dst r : encapsulate t src dst = Some r -> length r.2 = length dst;
  decapsulate_in_place t ip src dst r : decapsulate t ip src dst = Some r -> length r.2 = length dst;
  update_timers_in_place t dst r : update_timers t dst = Some r -> length r.2 = length dst;
}.

(** ** Keys *)

Definition generate_secret_key (random : list byte) : list byte := random.

Definition generate_public_key `{KeyLib} (secret_key : list byte) : option (list byte) :=
  if negb (length secret_key =? 32) then None else Some (x25519_public secret_key).

Definition convert_x25519_key_to_hex `{KeyLib} (key : list byte) : option string :=
  if negb (length key =? 32) then None else Some (hex_encode key).

Definition convert_x25519_key_to_base64 `{Base64} (key : list byte) : option string :=
  if negb (length key =? 32) then None else Some (b64_encode key).

Definition parse_key_bytes `{Base64} (encoded : string) : option (list byte) :=
  if negb ((43 <=? String.length encoded) && (String.length encoded <=? 44)) then None
  else
    key ← b64_decode_slice encoded 32;
    if negb (length key =? 32) then None else Some key.

(** ** Sessions *)

Inductive TunnelError : Type :=
| InvalidIndex | InvalidBase64Key | PacketTooLarge | BufferTooLarge | InvalidSourceIp | Internal.

Inductive TunnelPacketResult : Type :=
| Done
| PacketError (code : N)
| WriteToNetwork (packet : list byte)
| WriteToTunnelV4 (packet : list byte)
| WriteToTunnelV6 (packet : list byte).

#[global] Instance TunnelError_eq_dec : EqDecision TunnelError.
Proof. solve_decision. Defined.
#[global] Instance TunnelPacketResult_eq_dec : EqDecision TunnelPacketResult.
Proof. solve_decision. Defined.

Definition map_tunn_result (r : TunnResult) : TunnelPacketResult :=
  match r with
  | TunnDone => Done
  | TunnErr code => PacketError code
  | TunnWriteToNetwork packet => WriteToNetwork packet
  | TunnWriteToTunnelV4 packet _ => WriteToTunnelV4 packet
  | TunnWriteToTunnelV6 packet _ => WriteToTunnelV6 packet
  end.

Definition packet_buffer_size (requested_size minimum_size : N) : result N TunnelError :=
  if (MAX_PACKET_BUFFER_SIZE <? requested_size)%N then Err BufferTooLarge
  else Ok (requested_size `max` minimum_size)%N.

Section Session.
Context `{TunnLib, Base64}.

(** [TunnelSession]: the mutex's poison flag and the [TunnelState] it holds. *)
Record TunnelSession : Type := mkSession {
  poisoned : bool;
  tunnel : Tunn;
  buffer : list byte;
}.

(** How a call of the foreign interface ends. *)
Inductive outcome : Type :=
| Returned (r : result TunnelPacketResult TunnelError)
| Panicked.

Definition create_new_tunnel (arg_secret_key arg_public_key : string)
    (arg_preshared_key : option string) (keep_alive index : N)
    : result TunnelSession TunnelError :=
  if (MAX_PEER_INDEX <? index)%N then Err InvalidIndex
  else
    let? private := ok_or (parse_key_bytes arg_secret_key) InvalidBase64Key in
    let? public := ok_or (parse_key_bytes arg_public_key) InvalidBase64Key in
    let? preshared :=
      match arg_preshared_key with
      | Some v => let? k := ok_or (parse_key_bytes v) InvalidBase64Key in Ok (Some k)
      | None => Ok None
      end in
    Ok (mkSession false
          (Tunn_new private public preshared
             (if (keep_alive =? 0)%N then None else Some keep_alive) index)
          (replicate (N.to_nat MAX_PACKET_BUFFER_SIZE) Byte.x00)).

(** [self.state.lock()], then a call of [f] on the tunnel and
    [&mut buffer[..dst_size]]. A panic while the lock is held poisons it. *)
Definition with_buffer (s : TunnelSession) (dst_size : N)
    (f : Tunn -> list byte -> option (TunnResult * Tunn * list byte))
    : outcome * TunnelSession :=
  if poisoned s then (Returned (Err Internal), s)
  else if (len (buffer s) <? dst_size)%N
  then (Panicked, mkSession true (tunnel s) (buffer s))
  else match f (tunnel s) (take (N.to_nat dst_size) (buffer s)) with
  | None => (Panicked, mkSession true (tunnel s) (buffer s))
  | Some (r, t', dst') =>
    (Returned (Ok (map_tunn_result r)),
     mkSession false t' (dst' ++ drop (N.to_nat dst_size) (buffer s)))
  end.

Definition encrypt_raw_packet (src : list byte) (dst_size : N) (s : TunnelSession)
    : outcome * TunnelSession :=
  if (MAX_IP_PACKET_SIZE <? len src)%N then (Returned (Err PacketTooLarge), s)
  else
    let minimum_size := ((len src + DATA_PACKET_OVERHEAD) `max` MIN_PACKET_BUFFER_SIZE)%N in
    match packet_buffer_size dst_size minimum_size with
    | Err e => (Returned (Err e), s)
    | Ok dst_size => with_buffer s dst_size (fun t dst => encapsulate t src dst)
    end.

Definition decrypt_to_raw_packet (src : list byte) (dst_size : N) (source_ip : string)
    (s : TunnelSession) : outcome * TunnelSession :=
  if (MAX_PACKET_BUFFER_SIZE <? len src)%N then (Returned (Err PacketTooLarge), s)
  else match parse_ip source_ip with
  | None => (Returned (Err InvalidSourceIp), s)
  | Some source_ip =>
    let minimum_size :=
      if bool_decide (src = []) then MAX_PACKET_BUFFER_SIZE
      else (len src `max` MIN_PACKET_BUFFER_SIZE)%N in
    match packet_buffer_size dst_size minimum_size with
    | Err e => (Returned (Err e), s)
    | Ok dst_size => with_buffer s dst_size (fun t dst => decapsulate t (Some source_ip) src dst)
    end
  end.

Definition run_periodic_task (dst_size : N) (s : TunnelSession) : outcome * TunnelSession :=
  match packet_buffer_size dst_size MIN_PACKET_BUFFER_SIZE with
  | Err e => (Returned (Err e), s)
  | Ok dst_size => with_buffer s dst_size update_timers
  end.

(** The calls of the interface, for sequences of them. *)
Inductive op : Type :=
| Encrypt (src : list byte) (dst_size : N)
| Decrypt (src : list byte) (dst_size : N) (source_ip : string)
| Periodic (dst_size : N).

Definition run_op (o : op) (s : TunnelSession) : outcome * TunnelSession :=
  match o with
  | Encrypt src n => encrypt_raw_packet src n s
  | Decrypt src n ip => decrypt_to_raw_packet src n ip s
  | Periodic n => run_periodic_task n s
  end.

Fixpoint run_ops (os : list op) (s : TunnelSession) : list outcome * TunnelSession :=
  match os with
  | [] => ([], s)
  | o :: r =>
    let '(x, s1) := run_op o s in
    let '(xs, s2) := run_ops r s1 in (x :: xs, s2)
  end.

(** The session invariant: the mutex is sound and the buffer keeps its fixed
    allocation. *)
Definition session_ok (s : TunnelSession) : Prop :=
  poisoned s = false /\ len (buffer s) = MAX_PACKET_BUFFER_SIZE.
End Session.
Arguments op : clear implicits.

(** ** Lemmas *)

Lemma packet_buffer_size_ok n m d :
  packet_buffer_size n m = Ok d <-> (n <= MAX_PACKET_BUFFER_SIZE /\ d = n `max` m)%N.
Proof.
  unfold packet_buffer_size. destruct (N.ltb_spec MAX_PACKET_BUFFER_SIZE n).
  - split; [done | lia].
  - naive_solver.
Qed.

Lemma packet_buffer_size_err n m e :
  packet_buffer_size n m = Err e <-> (MAX_PACKET_BUFFER_SIZE < n)%N /\ e = BufferTooLarge.
Proof.
  unfold packet_buffer_size. destruct (N.ltb_spec MAX_PACKET_BUFFER_SIZE n).
  - naive_solver.
  - split; [done | lia].
Qed.

(** The concrete sizes, for [lia]. *)
Ltac tunnel_sizes :=
  unfold MAX_PACKET_BUFFER_SIZE, MIN_PACKET_BUFFER_SIZE, DATA_PACKET_OVERHEAD in *;
  change MAX_IP_PACKET_SIZE with 65535%N in *; lia.

Section SessionLemmas.
Context `{TunnLib, Base64}.

(** A call on a slice within the buffer returns, or BoringTun panics on it; the
    buffer keeps its length, and the lock is poisoned by a panic only. *)
Lemma with_buffer_cases s d f :
  len (buffer s) = MAX_PACKET_BUFFER_SIZE -> (d <= MAX_PACKET_BUFFER_SIZE)%N ->
  (forall dst r, f (tunnel s) dst = Some r -> length r.2 = length dst) ->
  let '(x, s') := with_buffer s d f in
  len (buffer s') = MAX_PACKET_BUFFER_SIZE /\
  (poisoned s' = true <-> poisoned s = true \/ x = Panicked) /\
  (poisoned s = true -> x = Returned (Err Internal)) /\
  (x = Panicked -> exists dst, len dst = d /\ f (tunnel s) dst = None).
Proof.
  intros Hb Hd Hf. unfold with_buffer. destruct (poisoned s) eqn:Hp; [by split_and!; auto; naive_solver|].
  rewrite (proj2 (N.ltb_ge _ _)) by lia.
  assert (len (take (N.to_nat d) (buffer s)) = d) as Hl by (unfold len in *; rewrite length_take; lia).
  destruct (f (tunnel s) _) as [[[r t'] dst']|] eqn:E.
  - apply Hf in E. cbn [snd] in E. cbn [buffer poisoned].
    split_and!; [|naive_solver|done|done].
    unfold len in *. rewrite length_app, length_drop, E, length_take. lia.
  - split_and!; [done | naive_solver | done |]. intros _. by eexists.
Qed.

Lemma tunnel_created sk pk psk ka idx s :
  create_new_tunnel sk pk psk ka idx = Ok s -> session_ok s.
Proof.
  intros Hc. unfold create_new_tunnel in Hc. case_match; [done|].
  simplify_result. subst. split; [done|].
  unfold len. cbn [buffer]. rewrite length_replicate. lia.
Qed.

Inductive rejected : op -> TunnelError -> Prop :=
| rejected_packet src n :
    (MAX_IP_PACKET_SIZE < len src)%N -> rejected (Encrypt src n) PacketTooLarge
| rejected_buffer src n :
    (len src <= MAX_IP_PACKET_SIZE)%N -> (MAX_PACKET_BUFFER_SIZE < n)%N ->
    rejected (Encrypt src n) BufferTooLarge
| rejected_datagram src n ip :
    (MAX_PACKET_BUFFER_SIZE < len src)%N -> rejected (Decrypt src n ip) PacketTooLarge
| rejected_source src n ip :
    (len src <= MAX_PACKET_BUFFER_SIZE)%N -> parse_ip ip = None ->
    rejected (Decrypt src n ip) InvalidSourceIp
| rejected_decrypt_buffer src n ip a :
    (len src <= MAX_PACKET_BUFFER_SIZE)%N -> parse_ip ip = Some a ->
    (MAX_PACKET_BUFFER_SIZE < n)%N -> rejected (Decrypt src n ip) BufferTooLarge
| rejected_periodic n :
    (MAX_PACKET_BUFFER_SIZE < n)%N -> rejected (Periodic n) BufferTooLarge.

(** BoringTun panics on a call for [o] although its slice holds what the call
    can produce: an encrypted packet or a handshake message, which has up to 148
    bytes; a decrypted packet, which is no longer than the datagram; or, for an
    empty datagram, any packet that was given to [encapsulate] before and may be
    waiting for a handshake. For [encapsulate] this is a slice of the length
    that BoringTun asks for. *)
Inductive panics (t : Tunn) (before : list op) : op -> Prop :=
| panics_encrypt src n dst :
    encapsulate t src dst = None ->
    (len src + 32 <= len dst)%N -> (148 <= len dst)%N -> panics t before (Encrypt src n)
| panics_decrypt src n ip a dst :
    src <> [] -> parse_ip ip = Some a -> decapsulate t (Some a) src dst = None ->
    (len src <= len dst)%N -> (148 <= len dst)%N -> panics t before (Decrypt src n ip)
| panics_drain n ip a dst :
    parse_ip ip = Some a -> decapsulate t (Some a) [] dst = None ->
    (forall src m, Encrypt src m ∈ before -> (forall e, ~ rejected (Encrypt src m) e) ->
       (len src + 32 <= len dst)%N) ->
    (148 <= len dst)%N -> panics t before (Decrypt [] n ip)
| panics_periodic n dst :
    update_timers t dst = None -> (148 <= len dst)%N -> panics t before (Periodic n).

Lemma accepted_packet src m : (forall e, ~ rejected (Encrypt src m) e) -> (len src <= MAX_IP_PACKET_SIZE)%N.
Proof.
  intros Hr. destruct (N.le_gt_cases (len src) MAX_IP_PACKET_SIZE); [done|].
  destruct (Hr PacketTooLarge). by constructor.
Qed.

(** What every operation does, on a session with a sound buffer. *)
Definition step_ok (before : list op) (o : op) (s : TunnelSession) (x : outcome) (s' : TunnelSession) : Prop :=
  len (buffer s') = MAX_PACKET_BUFFER_SIZE /\
  (poisoned s' = true <-> poisoned s = true \/ x = Panicked) /\
  (x = Panicked -> panics (tunnel s) before o) /\
  (poisoned s = true -> x = Returned (Err Internal) \/ exists e, rejected o e /\ x = Returned (Err e)).

Lemma step_rejected before o s e :
  len (buffer s) = MAX_PACKET_BUFFER_SIZE -> rejected o e -> step_ok before o s (Returned (Err e)) s.
Proof. intros Hb Hr. split_and!; [done | naive_solver | done | eauto]. Qed.

Context `{!TunnSlices}.

Lemma step_called before o s d f :
  len (buffer s) = MAX_PACKET_BUFFER_SIZE -> (d <= MAX_PACKET_BUFFER_SIZE)%N ->
  (forall dst r, f (tunnel s) dst = Some r -> length r.2 = length dst) ->
  (forall dst, len dst = d -> f (tunnel s) dst = None -> panics (tunnel s) before o) ->
  step_ok before o s (with_buffer s d f).1 (with_buffer s d f).2.
Proof.
  intros Hb Hd Hf Hp. pose proof (with_buffer_cases s d f Hb Hd Hf) as Hw.
  destruct (with_buffer s d f) as [x s']. destruct Hw as (Hw1 & Hw2 & Hw3 & Hw4).
  split_and!; [done | done | | auto]. intros Hx. destruct (Hw4 Hx) as (dst & Hl & E). by eapply Hp.
Qed.

Lemma run_op_ok before o s :
  len (buffer s) = MAX_PACKET_BUFFER_SIZE -> step_ok before o s (run_op o s).1 (run_op o s).2.
Proof.
  intros Hb. destruct o as [src n|src n ip|n]; cbn [run_op];
    unfold encrypt_raw_packet, decrypt_to_raw_packet, run_periodic_task.
  - destruct (N.ltb_spec MAX_IP_PACKET_SIZE (len src)); [by apply step_rejected; [|constructor]|].
    destruct packet_buffer_size as [d|e] eqn:E;
      [apply packet_buffer_size_ok in E as [Hn ->] | apply packet_buffer_size_err in E as [Hn ->];
         by apply step_rejected; [|constructor]].
    apply step_called; [done | tunnel_sizes | by apply encapsulate_in_place |].
    intros dst Hl Hp. eapply panics_encrypt; [done | tunnel_sizes..].
  - destruct (N.ltb_spec MAX_PACKET_BUFFER_SIZE (len src)); [by apply step_rejected; [|constructor]|].
    destruct (parse_ip ip) as [a|] eqn:Ea; [|by apply step_rejected; [|constructor]].
    destruct packet_buffer_size as [d|e] eqn:E;
      [apply packet_buffer_size_ok in E as [Hn ->] | apply packet_buffer_size_err in E as [Hn ->];
         by apply step_rejected; [|econstructor]].
    apply step_called; [done | case_bool_decide; tunnel_sizes | by apply decapsulate_in_place |].
    intros dst Hl Hp. case_bool_decide; subst.
    + eapply panics_drain; [done | done | | tunnel_sizes]. intros src m _ Hr%accepted_packet. tunnel_sizes.
    + eapply panics_decrypt; [done | done | done | tunnel_sizes..].
  - destruct packet_buffer_size as [d|e] eqn:E;
      [apply packet_buffer_size_ok in E as [Hn ->] | apply packet_buffer_size_err in E as [Hn ->];
         by apply step_rejected; [|constructor]].
    apply step_called; [done | tunnel_sizes | by apply update_timers_in_place |].
    intros dst Hl Hp. eapply panics_periodic; [done | tunnel_sizes].
Qed.

Lemma run_ops_buffer ops s :
  len (buffer s) = MAX_PACKET_BUFFER_SIZE -> len (buffer (run_ops ops s).2) = MAX_PACKET_BUFFER_SIZE.
Proof.
  revert s. induction ops as [|o ops IH]; intros s Hb; [done|]. cbn [run_ops].
  destruct (run_op_ok [] o s Hb) as [Hb' _]. destruct (run_op o s) as [x s1].
  specialize (IH s1 Hb'). by destruct (run_ops ops s1).
Qed.

(** C33: whatever was done with a session before, and whatever the packet, the
    size hint and the address: an operation panics only where BoringTun itself
    panics, on a slice within the session's buffer that has the length BoringTun
    asks for in [encapsulate], room for the decrypted packet in [decapsulate],
    also for every packet that an earlier [encapsulate] may have left waiting,
    and room for a handshake message in each. Only such a panic poisons the
    session, which from then on answers every operation that is not rejected
    with [Internal]; the buffer is never resized. *)
Theorem tunnel_panics_only_in_boringtun sk pk psk ka idx s before o :
  create_new_tunnel sk pk psk ka idx = Ok s ->
  let s1 := (run_ops before s).2 in
  let '(x, s2) := run_op o s1 in
  len (buffer s2) = MAX_PACKET_BUFFER_SIZE /\
  (poisoned s2 = true <-> poisoned s1 = true \/ x = Panicked) /\
  (x = Panicked -> panics (tunnel s1) before o) /\
  (poisoned s1 = true -> x = Returned (Err Internal) \/ exists e, rejected o e /\ x = Returned (Err e)).
Proof.
  intros [_ Hb]%tunnel_created s1. apply (run_ops_buffer before) in Hb. fold s1 in Hb.
  pose proof (run_op_ok before o s1 Hb) as Hs. by destruct (run_op o s1).
Qed.

(** C34: on a sound session an operation reports an error exactly in the
    cases of [rejected], with that error, and then leaves the session
    exactly as it was. *)
Theorem tunnel_errors_are_harmless o s e :
  session_ok s ->
  ((run_op o s).1 = Returned (Err e) <-> rejected o e) /\
  (rejected o e -> (run_op o s).2 = s).
Proof.
  intros Hs.
  assert (forall d f, (with_buffer s d f).1 <> Returned (Err e)) as Hwb.
  { intros d f. unfold with_buffer. destruct Hs as [-> _]. repeat case_match; done. }
  assert (rejected o e -> run_op o s = (Returned (Err e), s)) as Hrej.
  { intros []; simpl; unfold encrypt_raw_packet, decrypt_to_raw_packet, run_periodic_task.
    all: repeat match goal with
      | H : (?a < ?b)%N |- context [(?a <? ?b)%N] => rewrite (proj2 (N.ltb_lt _ _) H)
      | H : (?b <= ?a)%N |- context [(?a <? ?b)%N] => rewrite (proj2 (N.ltb_ge _ _) H)
      | H : parse_ip _ = _ |- _ => rewrite H
      | H : (MAX_PACKET_BUFFER_SIZE < ?n)%N |- context [packet_buffer_size ?n ?m] =>
        rewrite (proj2 (packet_buffer_size_err n m BufferTooLarge)) by auto
      end; done. }
  split; [split; [|intros Hr; by rewrite Hrej] | intros Hr; by rewrite Hrej].
  destruct o as [src n|src n ip|n]; simpl;
    unfold encrypt_raw_packet, decrypt_to_raw_packet, run_periodic_task;
    repeat match goal with
    | |- context [(?a <? len ?b)%N] => destruct (N.ltb_spec a (len b))
    | |- context [parse_ip ?x] => destruct (parse_ip x) eqn:?
    | |- context [packet_buffer_size ?n ?m] => destruct (packet_buffer_size n m) eqn:Hsz
    end; simpl; intros Hr;
    try (apply packet_buffer_size_err in Hsz as [Hsz ->]);
    solve [exfalso; eapply Hwb; exact Hr | simplify_eq; econstructor; eauto].
Qed.
End SessionLemmas.

(** The textual form of a key that the binding exports is read back as the
    same key, and every key it reads has 32 bytes. *)
Theorem key_base64_round_trip `{Base64Laws} :
  (forall key text, convert_x25519_key_to_base64 key = Some text -> parse_key_bytes text = Some key) /\
  (forall text key, parse_key_bytes text = Some key -> length key = 32).
Proof.
  unfold convert_x25519_key_to_base64, parse_key_bytes. split.
  - intros key text. destruct (Nat.eqb_spec (length key) 32) as [Hl|]; [|done].
    simpl. intros E; injection E as <-. rewrite b64_encode_length, Hl. simpl.
    rewrite b64_decode_encode by lia. simpl. by rewrite Hl.
  - intros text key. case_match; [done|].
    destruct (b64_decode_slice text 32) as [k|]; simpl; [|done].
    destruct (Nat.eqb_spec (length k) 32); simpl; naive_solver.
Qed.

(** [text] is a key: of the length of 32 bytes in Base64 with or without the
    padding, and decoded to 32 bytes. *)
Definition encodes `{Base64} (text : string) (key : list byte) : Prop :=
  (String.length text = 43 \/ String.length text = 44) /\
  b64_decode_slice text 32 = Some key /\ length key = 32.

Lemma parse_key_bytes_some `{Base64} text key : parse_key_bytes text = Some key <-> encodes text key.
Proof.
  unfold parse_key_bytes, encodes.
  destruct (Nat.leb_spec 43 (String.length text)), (Nat.leb_spec (String.length text) 44); cbn [andb negb];
    try (split; [done | intros ([?|?] & _); lia]).
  destruct (b64_decode_slice text 32) as [k|]; cbn; [|naive_solver].
  destruct (Nat.eqb_spec (length k) 32) as [Hk|Hk]; cbn.
  - split; [intros [= <-]; split_and!; [lia | done | done] | by intros (_ & [= ->] & _)].
  - split; [done | by intros (_ & [= ->] & ?)].
Qed.

(** C40: a tunnel is created exactly when the peer index, shifted by the eight
    bits BoringTun reserves, still fits in 32 bits and each key given has the 43
    or 44 characters of a key and decodes to 32 bytes; it is then made from the
    decoded keys, without a keep-alive when that is zero, and its session has a
    zeroed buffer and a sound lock. *)
Theorem create_new_tunnel_spec `{TunnLib, Base64} sk pk psk ka idx s :
  create_new_tunnel sk pk psk ka idx = Ok s <->
  (N.shiftl idx 8 <= Z.to_N u32_max)%N /\
  exists private public preshared, encodes sk private /\ encodes pk public /\
    match psk, preshared with
    | Some text, Some key => encodes text key
    | None, None => True
    | _, _ => False
    end /\
    s = mkSession false
          (Tunn_new private public preshared (if (ka =? 0)%N then None else Some ka) idx)
          (replicate (N.to_nat MAX_PACKET_BUFFER_SIZE) Byte.x00).
Proof.
  assert ((N.shiftl idx 8 <= Z.to_N u32_max)%N <-> (idx <= MAX_PEER_INDEX)%N) as ->.
  { rewrite N.shiftl_mul_pow2. unfold u32_max, MAX_PEER_INDEX.
    change (Z.to_N (2 ^ 32 - 1)) with 4294967295%N. change (2 ^ 8)%N with 256%N. lia. }
  unfold create_new_tunnel. generalize (replicate (N.to_nat MAX_PACKET_BUFFER_SIZE) Byte.x00).
  intros buf. destruct (N.ltb_spec MAX_PEER_INDEX idx) as [Hi|Hi]; [split; [done | intros [? _]; lia]|].
  setoid_rewrite <- parse_key_bytes_some.
  destruct (parse_key_bytes sk) as [a|]; cbn [ok_or rbind]; [|naive_solver].
  destruct (parse_key_bytes pk) as [b|]; cbn [ok_or rbind]; [|naive_solver].
  destruct psk as [v|]; cbn [ok_or rbind].
  - destruct (parse_key_bytes v) as [c|] eqn:E; cbn [ok_or rbind].
    + split; [intros [= <-]; split; [done|]; exists a, b, (Some c); by rewrite <- parse_key_bytes_some|].
      intros (_ & a' & b' & [c'|] & [= <-] & [= <-] & Hc & ->); [|done].
      apply parse_key_bytes_some in Hc. by simplify_eq.
    + split; [done|]. intros (_ & a' & b' & [c'|] & _ & _ & Hc & _); [|done].
      apply parse_key_bytes_some in Hc. congruence.
  - split; [intros [= <-]; split; [done|]; by exists a, b, None|].
    intros (_ & a' & b' & [c'|] & [= <-] & [= <-] & Hc & ->); done.
Qed.

(** ** Concrete instances

    The standard Base64 alphabet with padding, and a WireGuard state machine
    that only counts packets but panics on a destination that is too short. *)
Module Instances.

Definition b64_char (z : Z) : byte :=
  z_u8 (if z <? 26 then 65 + z else if z <? 52 then 71 + z else if z <? 62 then z - 4
        else if z =? 62 then 43 else 47)%Z.

Definition b64_value (b : byte) : option Z :=
  let c := u8z b in
  (if (65 <=? c) && (c <=? 90) then Some (c - 65)
   else if (97 <=? c) && (c <=? 122) then Some (c - 71)
   else if (48 <=? c) && (c <=? 57) then Some (c + 4)
   else if c =? 43 then Some 62 else if c =? 47 then Some 63 else None)%Z.

Definition pad : byte := Byte.x3d.

(** The digits of an encoding, without its padding. *)
Fixpoint b64_enc (l : list byte) : list byte :=
  match l with
  | a :: b :: c :: r =>
    let n := (65536 * u8z a + 256 * u8z b + u8z c)%Z in
    b64_char (n / 262144) :: b64_char (n / 4096 mod 64) :: b64_char (n / 64 mod 64)
      :: b64_char (n mod 64) :: b64_enc r
  | [a; b] =>
    let n := (1024 * u8z a + 4 * u8z b)%Z in
    [b64_char (n / 4096); b64_char (n / 64 mod 64); b64_char (n mod 64)]
  | [a] => let n := (16 * u8z a)%Z in [b64_char (n / 64); b64_char (n mod 64)]
  | [] => []
  end.

Fixpoint b64_dec (l : list byte) : option (list byte) :=
  match l with
  | [] => Some []
  | [_] => None
  | [w; x] =>
    w ← b64_value w; x ← b64_value x; let n := (64 * w + x)%Z in
    if (n mod 16 =? 0)%Z then Some [z_u8 (n / 16)] else None
  | [w; x; y] =>
    w ← b64_value w; x ← b64_value x; y ← b64_value y; let n := (4096 * w + 64 * x + y)%Z in
    if (n mod 4 =? 0)%Z then Some [z_u8 (n / 1024); z_u8 (n / 4)] else None
  | w :: x :: y :: z :: r =>
    w ← b64_value w; x ← b64_value x; y ← b64_value y; z ← b64_value z;
    let n := (262144 * w + 4096 * x + 64 * y + z)%Z in
    rest ← b64_dec r; Some (z_u8 (n / 65536) :: z_u8 (n / 256) :: z_u8 n :: rest)
  end.

(** Padding to a multiple of four digits, and its removal wherever it is
    present ([DecodePaddingMode::Indifferent]). *)
Definition add_pad (l : list byte) : list byte :=
  l ++ replicate (match length l mod 4 with 2 => 2 | 3 => 1 | _ => 0 end) pad.

Definition strip_pad (l : list byte) : list byte :=
  rev (trim_start_matches_bytes pad (rev l)).

#[export] Instance std_base64 : Base64 := {
  b64_encode k := bytes_str (add_pad (b64_enc k));
  b64_decode_slice s cap :=
    l ← b64_dec (strip_pad (str_bytes s)); if decide (length l <= cap) then Some l else None;
}.

Lemma b64_value_char z : (0 <= z < 64)%Z -> b64_value (b64_char z) = Some z /\ b64_char z <> Byte.x3d.
Proof.
  intros Hz.
  assert (forallb (fun n => bool_decide (b64_value (b64_char (Z.of_nat n)) = Some (Z.of_nat n) /\
                       b64_char (Z.of_nat n) <> Byte.x3d)) (seq 0 64) = true) as HF
    by (vm_compute; reflexivity).
  apply forallb_Forall in HF. rewrite Forall_forall in HF.
  specialize (HF (Z.to_nat z)). rewrite Z2Nat.id in HF by lia.
  eapply bool_decide_eq_true, HF. apply elem_of_seq. lia.
Qed.

Lemma z_u8_eq z b : (z mod 256 = u8z b)%Z -> z_u8 z = b.
Proof. intros H. apply (inj u8z). by rewrite u8z_z_u8. Qed.

(** Induction by groups of three bytes. *)
Lemma list_ind3 {A} (P : list A -> Prop) :
  P [] -> (forall a, P [a]) -> (forall a b, P [a; b]) ->
  (forall a b c l, P l -> P (a :: b :: c :: l)) -> forall l, P l.
Proof.
  intros H0 H1 H2 H3. fix IH 1. intros [|a [|b [|c l]]]; [done|done|done|]. apply H3, IH.
Qed.

Ltac Zify.zify_post_hook ::= Z.to_euclidean_division_equations.

Lemma b64_dec_enc l : b64_dec (b64_enc l) = Some l.
Proof.
  induction l as [|a|a b|a b c l IH] using list_ind3; [done|..]; cbn [b64_enc b64_dec].
  - pose proof (u8z_range a).
    rewrite !(fun z H => proj1 (b64_value_char z H)) by lia. simpl.
    case_match; [|lia]. do 2 f_equal. apply z_u8_eq. lia.
  - pose proof (u8z_range a). pose proof (u8z_range b).
    rewrite !(fun z H => proj1 (b64_value_char z H)) by lia. simpl.
    case_match; [|lia]. do 2 f_equal; [|f_equal]; apply z_u8_eq; lia.
  - pose proof (u8z_range a). pose proof (u8z_range b). pose proof (u8z_range c).
    rewrite !(fun z H => proj1 (b64_value_char z H)) by lia. simpl. rewrite IH. simpl.
    do 2 f_equal; [|f_equal; [|f_equal]]; apply z_u8_eq; lia.
Qed.

Lemma b64_enc_no_pad l : pad ∉ b64_enc l.
Proof.
  assert (forall z, (0 <= z < 64)%Z -> pad <> b64_char z) as Hc.
  { intros z Hz. apply b64_value_char in Hz as [_ Hz]. done. }
  induction l as [|a|a b|a b c l IH] using list_ind3; cbn [b64_enc];
    [apply not_elem_of_nil|..];
    pose proof (u8z_range a); try pose proof (u8z_range b); try pose proof (u8z_range c);
    rewrite !not_elem_of_cons; split_and!; try apply not_elem_of_nil; try done; apply Hc; lia.
Qed.

Ltac Zify.zify_post_hook ::= idtac.

Lemma b64_enc_length l :
  length (add_pad (b64_enc l)) = 4 * ((length l + 2) / 3).
Proof.
  unfold add_pad. rewrite length_app, length_replicate.
  induction l as [|a|a b|a b c l IH] using list_ind3; [done..|]. cbn [b64_enc length].
  replace (S (S (S (length l))) + 2) with (length l + 2 + 1 * 3) by lia.
  rewrite Nat.div_add by lia.
  replace (S (S (S (S (length (b64_enc l)))))) with (length (b64_enc l) + 1 * 4) by lia.
  rewrite Nat.Div0.mod_add. lia.
Qed.

Lemma trim_start_replicate c n l :
  c ∉ l -> trim_start_matches_bytes c (replicate n c ++ l) = l.
Proof.
  intros H. induction n as [|n IH]; simpl; [|by rewrite decide_True].
  destruct l as [|b l]; simpl; [done|]. rewrite decide_False; [done|]. set_solver.
Qed.

Lemma strip_add_pad l : pad ∉ l -> strip_pad (add_pad l) = l.
Proof.
  intros H. unfold strip_pad, add_pad. rewrite rev_app_distr.
  rewrite rev_replicate, trim_start_replicate; [apply rev_involutive|]. by rewrite elem_of_rev.
Qed.

#[export] Instance std_base64_laws : Base64Laws.
Proof.
  split.
  - intros k. simpl. by rewrite <- length_str_bytes, str_bytes_str, b64_enc_length.
  - intros k cap Hk. simpl. rewrite str_bytes_str, strip_add_pad by apply b64_enc_no_pad.
    rewrite b64_dec_enc. simpl. by rewrite decide_True.
Qed.

(** A tunnel that hands packets through and counts them; like BoringTun it
    panics on a destination that is too short. *)
Definition counting_step (need : N) (r : TunnResult) (t : nat) (dst : list byte)
    : option (TunnResult * nat * list byte) :=
  if (len dst <? need)%N then None else Some (r, S t, dst).

#[export] Instance counting_tunn : TunnLib := {
  Tunn := nat;
  Tunn_new _ _ _ _ _ := 0;
  encapsulate t src dst :=
    counting_step ((len src + 32) `max` 148)%N (TunnWriteToNetwork src) t dst;
  decapsulate t _ src dst :=
    counting_step (if bool_decide (src = []) then MAX_PACKET_BUFFER_SIZE else len src `max` 148)%N
      (match src with [] => TunnDone | _ => TunnErr 3 end) t dst;
  update_timers t dst := counting_step 148 TunnDone t dst;
}.

#[export] Instance counting_tunn_slices : TunnSlices.
Proof.
  split; simpl; unfold counting_step; intros;
    match goal with H : context [(?a <? ?b)%N] |- _ => destruct (a <? b)%N end; by simplify_eq.
Qed.
End Instances.

Import Instances.

Definition zero_key : string := "AAAAAAAAAAAAAAAAAAAAAAAAAAAAAAAAAAAAAAAAAAA=".

Definition zero_session : TunnelSession :=
  mkSession false 0 (replicate (N.to_nat MAX_PACKET_BUFFER_SIZE) Byte.x00).

Lemma zero_session_created : create_new_tunnel zero_key zero_key None 25 0xffffff = Ok zero_session.
Proof.
  unfold create_new_tunnel.
  assert (parse_key_bytes zero_key = Some (replicate 32 Byte.x00)) as ->
    by (vm_compute; reflexivity).
  reflexivity.
Qed.

Lemma zero_session_ok : session_ok zero_session.
Proof.
  split; [done|]. unfold len, zero_session. cbn [buffer]. rewrite length_replicate.
  apply N2Nat.id.
Qed.

Lemma tunnel_panics_only_in_boringtun_witness :
  create_new_tunnel zero_key zero_key None 25 0xffffff = Ok zero_session /\
  let s1 := (run_ops [Encrypt [Byte.x45] 0; Periodic 1] zero_session).2 in
  len (buffer (run_op (Decrypt [] 7 "10.0.0.1") s1).2) = MAX_PACKET_BUFFER_SIZE.
Proof.
  split; [exact zero_session_created|]. intros s1.
  pose proof (tunnel_panics_only_in_boringtun zero_key zero_key None 25 0xffffff zero_session
    [Encrypt [Byte.x45] 0; Periodic 1] (Decrypt [] 7 "10.0.0.1") zero_session_created) as Ht.
  cbv zeta in Ht. fold s1 in Ht. destruct (run_op (Decrypt [] 7 "10.0.0.1") s1) as [x s2].
  exact (proj1 Ht).
Defined.

Lemma tunnel_errors_are_harmless_witness :
  rejected (Periodic 70000) BufferTooLarge /\
  (run_op (Periodic 70000) zero_session).1 = Returned (Err BufferTooLarge).
Proof.
  assert (rejected (Periodic 70000) BufferTooLarge) as Hr by (constructor; reflexivity).
  split; [exact Hr|].
  exact (proj2 (proj1 (tunnel_errors_are_harmless (Periodic 70000) zero_session BufferTooLarge
    zero_session_ok)) Hr).
Defined.

Lemma key_base64_round_trip_witness :
  convert_x25519_key_to_base64 (replicate 32 Byte.x00) = Some zero_key /\
  parse_key_bytes zero_key = Some (replicate 32 Byte.x00).
Proof.
  assert (convert_x25519_key_to_base64 (replicate 32 Byte.x00) = Some zero_key) as E
    by (vm_compute; reflexivity).
  split; [exact E|]. exact (proj1 key_base64_round_trip _ _ E).
Defined.
