(* ===== verification/Os.v ===== *)
(** * Programs that talk to the operating system

    The platform code issues requests (route changes, commands, lookups) and
    reacts to the replies. A program runs against an [os], a function from the
    history of requests issued so far and the next request to its reply, so
    that a theorem for every [os] covers every behaviour the system can show,
    failures at any point and changes over time included. The history a run
    leaves is the trace of its requests. *)

From S2P Require Import Prelude RustStd Net.

(** What a finished child process leaves: [std::process::Output]. *)
Record Output : Type := mkOutput {
  success : bool;
  code : option Z;
  stdout : list byte;
  stderr : list byte;
}.

(** The arguments of a spawned command. *)
Record command : Type := mkCommand {
  program : string;
  arguments : list string;
  stdin : option string;
  environment : list (string * string);
}.

#[global] Instance command_eq_dec : EqDecision command.
Proof. solve_decision. Defined.

(** What [DeviceBuilder] is told before [build_sync]. *)
Record device_spec : Type := mkDevice {
  dev_name : string;
  dev_addresses : list (IpAddr * N);
  dev_mtu : option Z;
  dev_wintun_file : option string;
}.

Section Os.
(** Routes of the route_manager crate and endpoint routes of the platform. *)
Context {Route Endpoint : Type}.

Inductive call : Type :=
| RouteManagerNew
| RouteAdd (r : Route)
| RouteDelete (r : Route)
| RouteFind (ip : IpAddr)
| EndpointLookup (ip : IpAddr)
| EndpointReplace (e : Endpoint)
| EndpointDelete (e : Endpoint)
| Which (binary : string)
| CommandOutput (c : command)
| DeviceBuild (d : device_spec)
| DeviceSetNonblocking
| DeviceName
| DeviceDrop
| InterruptNew
| InterruptTrigger.

Definition reply (c : call) : Type :=
  match c with
  | RouteFind _ => result (option Route) io_error
  | EndpointLookup _ => result Endpoint io_error
  | CommandOutput _ => result Output string
  | DeviceName => result string io_error
  | _ => result unit io_error
  end.

Definition os : Type := forall (h : list call) (c : call), reply c.

Definition prog (A : Type) : Type := os -> list call -> A * list call.

Definition pret {A} (a : A) : prog A := fun _ h => (a, h).

Definition pbind {A B} (p : prog A) (k : A -> prog B) : prog B :=
  fun o h => let '(a, h1) := p o h in k a o h1.

Definition perform (c : call) : prog (reply c) := fun o h => (o h c, h ++ [c]).

(** The [?] operator inside an effectful function. *)
Definition ptry {A B E} (p : prog (result A E)) (k : A -> prog (result B E))
    : prog (result B E) :=
  pbind p (fun r => match r with Ok a => k a | Err e => pret (Err e) end).

Definition pmap {A B} (f : A -> B) (p : prog A) : prog B := pbind p (fun a => pret (f a)).

(** The reply a request receives in a run, and the requests a program adds. *)
Definition value {A} (p : prog A) (o : os) (h : list call) : A := (p o h).1.
Definition trace {A} (p : prog A) (o : os) (h : list call) : list call := (p o h).2.
End Os.
Arguments call : clear implicits.
Arguments os : clear implicits.
Arguments prog : clear implicits.

Notation "'let!' x ':=' p 'in' k" := (pbind p (fun x => k))
  (at level 10, x pattern, k at level 200) : rust_scope.
Notation "'let!?' x ':=' p 'in' k" := (ptry p (fun x => k))
  (at level 10, x pattern, k at level 200) : rust_scope.

Section Lemmas.
Context {Route Endpoint : Type}.
Implicit Types (o : os Route Endpoint) (h : list (call Route Endpoint)).

Lemma pbind_run {A B} (p : prog Route Endpoint A) (k : A -> prog Route Endpoint B) o h :
  pbind p k o h = k (value p o h) o (trace p o h).
Proof. unfold pbind, value, trace. by destruct (p o h). Qed.

(** For a loop that issues one request per element, whatever the replies:
    the requests it issues and the replies it sees. *)
Fixpoint replies (cs : list (call Route Endpoint)) o h
    : list { c : call Route Endpoint & reply c } :=
  match cs with
  | [] => []
  | c :: r => existT c (o h c) :: replies r o (h ++ [c])
  end.
End Lemmas.
