(* ===== verification/Platform.v ===== *)
(** * platform/mod.rs: what the three platforms share

    DNS argument lists, command execution and its result, route selection,
    installation and teardown. The route_manager crate is outside the
    repository: [RouteLib] is the part of its interface the code uses, with the
    accessor laws of its builder. The endpoint type is whichever of the
    endpoint_*.rs files is compiled in. *)

From S2P Require Import Prelude RustStd Net Proto IpUtil Validation Os.
From Stdlib Require Import Lia.

(** [route_manager::Route]. *)
Class RouteLib (Route : Type) : Type := {
  Route_new : IpAddr -> N -> Route;
  with_if_name : string -> Route -> Route;
  destination : Route -> IpAddr;
  prefix : Route -> N;
  if_name : Route -> option string;
  mask : Route -> IpAddr;
  destination_new ip p : destination (Route_new ip p) = ip;
  prefix_new ip p : prefix (Route_new ip p) = p;
  destination_with_if_name n r : destination (with_if_name n r) = destination r;
  prefix_with_if_name n r : prefix (with_if_name n r) = prefix r;
  if_name_with_if_name n r : if_name (with_if_name n r) = Some n;
  mask_new ip p : ip_wf ip -> (p <= addr_bits ip)%N -> mask (Route_new ip p) = prefix_mask ip p;
  mask_with_if_name n r : mask (with_if_name n r) = mask r;
}.

Definition required_binaries (t : target) : list string :=
  match t with
  | Linux => ["resolvectl"]
  | Macos => []
  | Windows => ["powershell"]
  end.

(** ** DNS arguments *)

(** The loop of [ips_to_args]; [None] is the panic of [proto_ip_to_string]. *)
Fixpoint ips_to_args_loop (seen : list string) (values : list Ip) : option (list string) :=
  match values with
  | [] => Some seen
  | addr :: r =>
    ip ← proto_ip_to_string addr;
    ips_to_args_loop (if contains ip seen then seen else seen ++ [ip]) r
  end.

Definition ips_to_args (values : list Ip) : option (list string) := ips_to_args_loop [] values.

(** The loop of [normalize_domains]; [seen] is its [HashSet]. *)
Fixpoint normalize_loop (seen : gset string) (normalized : list string) (values : list string)
    : list string :=
  match values with
  | [] => normalized
  | value :: r =>
    let domain := clean_domain value in
    if bool_decide (domain = "") || bool_decide (domain ∈ seen)
    then normalize_loop seen normalized r
    else normalize_loop ({[domain]} ∪ seen) (normalized ++ [domain]) r
  end.

Definition normalize_domains (values : list string) : list string := normalize_loop ∅ [] values.

(** ** Commands *)

Definition MAX_COMMAND_OUTPUT_BYTES : nat := Z.to_nat (1024 * 1024).

(** [read_capped]: every chunk is read, at most [max_bytes] are kept. *)
Fixpoint read_capped (max_bytes : nat) (output : list byte) (chunks : list (list byte))
    : list byte :=
  match chunks with
  | [] => output
  | chunk :: r =>
    let remaining := max_bytes - length output in
    read_capped max_bytes
      (if 0 <? remaining then output ++ take (remaining `min` length chunk) chunk else output) r
  end.

Section Commands.
Context {Route Endpoint : Type}.
Abbreviation prog := (prog Route Endpoint).

(** Text decoding and lower-casing only shape messages: no property depends
    on them. *)
Context (from_utf8_lossy : list byte -> string) (to_lowercase : string -> string).

Fixpoint ensure_required_binaries (binaries : list string) : prog (result unit string) :=
  match binaries with
  | [] => pret (Ok tt)
  | binary :: r =>
    let! found := perform (Which binary) in
    match found with
    | Ok _ => ensure_required_binaries r
    | Err _ => pret (Err ("required binary '" +:+ binary +:+ "' not found in PATH"))
    end
  end.

Definition exit_code_text (c : option Z) : string :=
  match c with Some z => "Some(" +:+ pretty z +:+ ")" | None => "None" end.

Definition run_command (operation_label program : string) (arguments : list string)
    (stdin : option string) (environment : list (string * string))
    (ignored_failure_patterns : list string) : prog (result string string) :=
  let! output := perform (CommandOutput (mkCommand program arguments stdin environment)) in
  match output with
  | Err error =>
    pret (Err (operation_label +:+ ": command '" +:+ program +:+ "': " +:+ error))
  | Ok output =>
    let out := from_utf8_lossy (stdout output) in
    let err := from_utf8_lossy (stderr output) in
    if success output then pret (Ok out)
    else
      let output_detail := to_lowercase out +:+ bytes_str [Byte.x0a] +:+ to_lowercase err in
      if existsb (fun pattern => str_contains output_detail pattern) ignored_failure_patterns
      then pret (Ok out)
      else pret (Err (operation_label +:+ ": command '" +:+ program +:+ "' failed (code "
             +:+ exit_code_text (code output) +:+ ")" +:+ bytes_str [Byte.x0a]
             +:+ "stdout: " +:+ trim out +:+ bytes_str [Byte.x0a]
             +:+ "stderr: " +:+ trim err))
  end.
End Commands.

(** ** Routes *)

Section Routes.
Context {Route Endpoint : Type} `{RouteLib Route}.
Abbreviation prog := (prog Route Endpoint).

(** [FnOnce() -> Result<(), String>]. *)
Definition CleanupHook : Type := prog (result unit string).

Fixpoint resolve_loop (endpoints : list Ip) : prog (result (list Endpoint) string) :=
  match endpoints with
  | [] => pret (Ok [])
  | addr :: r =>
    match parse_proto_ip addr with
    | None => pret (Err "invalid peer endpoint address")
    | Some ip =>
      let! found := perform (EndpointLookup ip) in
      match found with
      | Err error =>
        pret (Err ("failed to resolve route for endpoint " +:+ ip_to_string ip +:+ ": "
                     +:+ io_message error))
      | Ok e => let!? es := resolve_loop r in pret (Ok (e :: es))
      end
    end
  end.

Definition resolve_endpoint_routes (config : TunSessionConfig)
    : prog (result (list Endpoint) string) := resolve_loop (peer_endpoints config).

(** [u8::try_from(prefix).ok()]. *)
Definition u8_try_from (n : N) : option N := if (n <=? 255)%N then Some n else None.

Definition allowed_ip_route (interface_name : string) (addr : Cidr) : option Route :=
  '(ip, prefix) ← parse_proto_cidr addr;
  p ← u8_try_from prefix;
  Some (with_if_name interface_name (Route_new ip p)).

Definition keep_route (endpoint_ips : list IpAddr) (route : Route) : bool :=
  let host_prefix := if is_ipv4 (destination route) then 32%N else 128%N in
  negb (prefix route =? host_prefix)%N || negb (contains (destination route) endpoint_ips).

Definition filtered_routes (config : TunSessionConfig) (interface_name : string) : list Route :=
  let routes := omap (allowed_ip_route interface_name) (peer_allowed_ips config) in
  let endpoint_ips := omap parse_proto_ip (peer_endpoints config) in
  List.filter (keep_route endpoint_ips) routes.

Definition build_and_filter_routes (config : TunSessionConfig) (interface_name : string)
    (endpoint_routes : list Endpoint) : prog (result (list Route * list Endpoint) string) :=
  let! mgr := perform RouteManagerNew in
  match mgr with
  | Err e => pret (Err ("route manager: " +:+ io_message e))
  | Ok _ => pret (Ok (filtered_routes config interface_name, endpoint_routes))
  end.

Fixpoint replace_endpoints (endpoint_routes : list Endpoint) : prog (result unit string) :=
  match endpoint_routes with
  | [] => pret (Ok tt)
  | route :: r =>
    let! x := perform (EndpointReplace route) in
    match x with
    | Ok _ => replace_endpoints r
    | Err error => pret (Err ("failed to add endpoint route: " +:+ io_message error))
    end
  end.

Fixpoint predelete_and_add (filtered_routes : list Route) : prog (result unit string) :=
  match filtered_routes with
  | [] => pret (Ok tt)
  | route :: r =>
    let! _ := perform (RouteDelete route) in
    let! x := perform (RouteAdd route) in
    match x with
    | Ok _ => predelete_and_add r
    | Err e => pret (Err ("failed to add route: " +:+ io_message e))
    end
  end.

Definition add_routes_with_predelete (filtered_routes : list Route)
    (endpoint_routes : list Endpoint) : prog (result unit string) :=
  let!? _ := replace_endpoints endpoint_routes in predelete_and_add filtered_routes.

(** The closure [capture_error] over [cleanup_error]. *)
Definition capture_error (cleanup_error : option string) (r : result unit string)
    : option string :=
  match r with
  | Ok _ => cleanup_error
  | Err error =>
    Some match cleanup_error with
         | Some existing => existing +:+ "; " +:+ error
         | None => error
         end
  end.

(** One deletion after the other, every failure captured. *)
Fixpoint delete_routes (acc : option string) (routes : list Route) : prog (option string) :=
  match routes with
  | [] => pret acc
  | route :: r =>
    let! x := perform (RouteDelete route) in
    delete_routes (capture_error acc (map_err io_message x)) r
  end.

Fixpoint delete_endpoints (acc : option string) (routes : list Endpoint) : prog (option string) :=
  match routes with
  | [] => pret acc
  | route :: r =>
    let! x := perform (EndpointDelete route) in
    delete_endpoints (capture_error acc (map_err io_message x)) r
  end.

Definition cleanup_routes (filtered_routes : list Route) (endpoint_routes : list Endpoint)
    (dns_teardown : prog (result unit string)) : prog (result unit string) :=
  let! mgr := perform RouteManagerNew in
  let! acc := match mgr with
              | Ok _ => delete_routes None (rev filtered_routes)
              | Err e => pret (capture_error None (Err (io_message e)))
              end in
  let! acc := delete_endpoints acc (rev endpoint_routes) in
  let! dns := dns_teardown in
  pret match capture_error acc dns with
       | Some error => Err error
       | None => Ok tt
       end.

Definition into_cleanup_hook (setup_result : result unit string) (filtered_routes : list Route)
    (endpoint_routes : list Endpoint) (interface_name : string)
    (dns_teardown : string -> prog (result unit string)) : prog (result CleanupHook string) :=
  match setup_result with
  | Ok _ => pret (Ok (cleanup_routes filtered_routes endpoint_routes (dns_teardown interface_name)))
  | Err setup_error =>
    let! cleanup :=
      cleanup_routes filtered_routes endpoint_routes (dns_teardown interface_name) in
    match cleanup with
    | Ok _ => pret (Err setup_error)
    | Err cleanup_error =>
      pret (Err (setup_error +:+ "; cleanup failed: " +:+ cleanup_error))
    end
  end.
End Routes.

(** ** Lemmas *)

(** The message of a failed reply. *)
Definition failure {Route Endpoint} (c : call Route Endpoint) : reply c -> option string :=
  match c with
  | EndpointLookup _ => fun r => io_message <$> err r
  | CommandOutput _ => fun r => err r
  | RouteManagerNew => fun r => io_message <$> err r
  | RouteAdd _ => fun r => io_message <$> err r
  | RouteDelete _ => fun r => io_message <$> err r
  | RouteFind _ => fun r => io_message <$> err r
  | EndpointReplace _ => fun r => io_message <$> err r
  | EndpointDelete _ => fun r => io_message <$> err r
  | Which _ => fun r => io_message <$> err r
  | DeviceBuild _ => fun r => io_message <$> err r
  | DeviceSetNonblocking => fun r => io_message <$> err r
  | DeviceName => fun r => io_message <$> err r
  | DeviceDrop => fun r => io_message <$> err r
  | InterruptNew => fun r => io_message <$> err r
  | InterruptTrigger => fun r => io_message <$> err r
  end.

(** The messages of the requests of [cs] that fail, in order, when they are
    issued one after the other from the history [h]. *)
Fixpoint failures {Route Endpoint} (cs : list (call Route Endpoint)) (o : os Route Endpoint)
    (h : list (call Route Endpoint)) : list string :=
  match cs with
  | [] => []
  | c :: r => option_list (failure c (o h c)) ++ failures r o (h ++ [c])
  end.

(** No error gives [Ok], otherwise all messages joined. *)
Definition errors_result (errors : list string) : result unit string :=
  match errors with [] => Ok tt | _ => Err (join "; " errors) end.

(** The accumulator [capture_error] keeps after the given errors. *)
Definition captured (errors : list string) : option string :=
  match errors with [] => None | _ => Some (join "; " errors) end.

Lemma join_snoc sep l x : l <> [] -> join sep (l ++ [x]) = join sep l +:+ sep +:+ x.
Proof.
  induction l as [|a [|b l] IH]; intros Hne; [done|done|].
  change (join sep ((a :: b :: l) ++ [x])) with (a +:+ sep +:+ join sep ((b :: l) ++ [x])).
  rewrite IH by done. change (join sep (a :: b :: l)) with (a +:+ sep +:+ join sep (b :: l)).
  by rewrite !string_app_assoc.
Qed.

Lemma capture_error_captured errors r :
  capture_error (captured errors) r = captured (errors ++ option_list (err r)).
Proof.
  destruct r as [[]|e]; simpl; [by rewrite app_nil_r|].
  destruct errors as [|x l]; [done|]. unfold captured.
  destruct ((x :: l) ++ [e]) eqn:E; [by destruct l|]. rewrite <- E.
  by rewrite join_snoc.
Qed.

Section RouteLemmas.
Context {Route Endpoint : Type} `{RouteLib Route}.
Implicit Types (o : os Route Endpoint) (h : list (call Route Endpoint)).

Lemma failures_app cs ds o h : failures (cs ++ ds) o h = failures cs o h ++ failures ds o (h ++ cs).
Proof.
  revert h; induction cs as [|c cs IH]; intros h; simpl; [by rewrite app_nil_r|].
  by rewrite IH, <- !app_assoc.
Qed.

Lemma failures_nil cs o h :
  failures cs o h = [] <->
  forall i c, cs !! i = Some c -> failure c (o (h ++ take i cs) c) = None.
Proof.
  revert h; induction cs as [|c cs IH]; intros h; simpl; [split; [done|]; done|].
  rewrite app_nil, IH. split.
  - intros [H1 H2] [|i] d; simpl; intros Hd; simplify_eq.
    + rewrite app_nil_r. by destruct (failure _ _).
    + specialize (H2 i d Hd). by rewrite <- app_assoc in H2.
  - intros Hall. split.
    + specialize (Hall 0 c eq_refl). simpl in Hall. rewrite app_nil_r in Hall. by rewrite Hall.
    + intros i d Hd. specialize (Hall (S i) d Hd). simpl in Hall.
      by rewrite <- app_assoc.
Qed.

Lemma err_map_err (r : result unit io_error) : err (map_err io_message r) = io_message <$> err r.
Proof. by destruct r. Qed.

Lemma delete_routes_run errors l o h :
  delete_routes (captured errors) l o h =
  (captured (errors ++ failures (RouteDelete <$> l) o h), h ++ (RouteDelete <$> l)).
Proof.
  revert errors h; induction l as [|r l IH]; intros errors h; cbn.
  - by rewrite !app_nil_r.
  - unfold pbind, perform. rewrite capture_error_captured, IH, err_map_err, <- !app_assoc. done.
Qed.

Lemma delete_endpoints_run errors l o h :
  delete_endpoints (captured errors) l o h =
  (captured (errors ++ failures (EndpointDelete <$> l) o h), h ++ (EndpointDelete <$> l)).
Proof.
  revert errors h; induction l as [|r l IH]; intros errors h; cbn.
  - by rewrite !app_nil_r.
  - unfold pbind, perform. rewrite capture_error_captured, IH, err_map_err, <- !app_assoc. done.
Qed.

Lemma replace_endpoints_ok er o h :
  value (replace_endpoints er) o h = Ok tt -> failures (EndpointReplace <$> er) o h = [].
Proof.
  revert h. induction er as [|e er IH]; intros h; [done|]. unfold value. cbn. unfold pbind, perform.
  destruct (o h (EndpointReplace e)) as [[]|]; [|done]. cbn. apply IH.
Qed.

(** The requests of a teardown: every route of the session, newest first,
    unless no route manager can be opened, then every endpoint exception. *)
Definition cleanup_calls (opened : bool) (fr : list Route) (er : list Endpoint)
    : list (call Route Endpoint) :=
  RouteManagerNew :: (if opened then RouteDelete <$> rev fr else [])
    ++ (EndpointDelete <$> rev er).

Lemma cleanup_routes_run fr er td o h :
  let calls := cleanup_calls (is_ok (o h RouteManagerNew)) fr er in
  let '(dns, h') := td o (h ++ calls) in
  cleanup_routes fr er td o h =
  (errors_result (failures calls o h ++ option_list (err dns)), h').
Proof.
  cbn zeta. unfold cleanup_routes, cleanup_calls, pbind, perform. cbn [failures failure].
  assert (forall errors (r : result unit string),
    match capture_error (captured errors) r with Some e => Err e | None => Ok tt end =
    errors_result (errors ++ option_list (err r))) as Hfin.
  { intros errors r. rewrite capture_error_captured. unfold captured, errors_result.
    by destruct (errors ++ _). }
  destruct (o h RouteManagerNew) as [[]|e] eqn:E; cbn [is_ok].
  - change None with (captured []). rewrite delete_routes_run. cbn [app].
    rewrite delete_endpoints_run. rewrite failures_app.
    cbn [option_list option_map err fmap option_fmap app].
    rewrite <- !app_assoc. cbn [app].
    destruct (td o _) as [dns h']. by rewrite Hfin.
  - change (capture_error None (Err (io_message e))) with (captured [io_message e]).
    cbn [pret]. rewrite delete_endpoints_run. cbn [app option_list fmap option_fmap option_map err].
    rewrite <- !app_assoc. cbn [app].
    destruct (td o _) as [dns h']. by rewrite Hfin.
Qed.
End RouteLemmas.

(** ** Programs that issue a fixed sequence until a failure

    [steps_through p cs]: whatever the replies, [p] issues a prefix of [cs], and
    all of [cs] when it succeeds. *)
Section StepsThrough.
Context {Route Endpoint : Type}.
Implicit Types (o : os Route Endpoint) (h : list (call Route Endpoint)).

Definition steps_through {A E} (p : prog Route Endpoint (result A E))
    (cs : list (call Route Endpoint)) : Prop :=
  forall o h, exists ds, trace p o h = h ++ ds /\ ds `prefix_of` cs /\
    (is_ok (value p o h) = true -> ds = cs).

Lemma steps_ret {A E} (r : result A E) : steps_through (pret r) [].
Proof. intros o h. exists []. rewrite app_nil_r. done. Qed.

(** One request, then an answer computed from its reply. *)
Lemma steps_perform {A E} c (f : reply c -> result A E) :
  steps_through (let! x := perform c in pret (f x)) [c].
Proof. intros o h. by exists [c]. Qed.

Lemma steps_try {A B E} (p : prog Route Endpoint (result A E))
    (k : A -> prog Route Endpoint (result B E)) cs ds :
  steps_through p cs -> (forall a, steps_through (k a) ds) ->
  steps_through (ptry p k) (cs ++ ds).
Proof.
  intros Hp Hk o h. unfold trace, value, ptry. rewrite pbind_run.
  destruct (Hp o h) as (es & Ht & Hpre & Hok). rewrite Ht.
  destruct (value p o h) as [a|e] eqn:Ev; simpl in *.
  - destruct (Hk a o (h ++ es)) as (fs & Ht' & Hpre' & Hok').
    rewrite (Hok eq_refl) in *. exists (cs ++ fs). unfold trace in Ht'.
    rewrite Ht', <- app_assoc. split_and!; [done | by apply prefix_app |].
    intros Hv. by rewrite Hok'.
  - exists es. split_and!; [done | by apply prefix_app_r | done].
Qed.

Lemma steps_ext {A E} (p q : prog Route Endpoint (result A E)) cs :
  (forall o h, p o h = q o h) -> steps_through p cs -> steps_through q cs.
Proof. intros Heq Hp o h. unfold trace, value. rewrite <- Heq. apply Hp. Qed.

Lemma steps_map {A B E F} (p : prog Route Endpoint (result A E)) (f : result A E -> result B F) cs :
  (forall r, is_ok (f r) = is_ok r) -> steps_through p cs -> steps_through (pmap f p) cs.
Proof.
  intros Hf Hp o h. destruct (Hp o h) as (ds & Ht & Hpre & Hok). exists ds.
  unfold trace, value, pmap in *. rewrite pbind_run. simpl. unfold trace, value.
  by rewrite Hf.
Qed.

Lemma replace_endpoints_steps (er : list Endpoint) :
  steps_through (replace_endpoints (Route:=Route) er) (EndpointReplace <$> er).
Proof.
  induction er as [|e er IH]; [apply steps_ret|].
  set (msg := fun x => "failed to add endpoint route: " +:+ io_message x).
  eapply steps_ext; [|apply (steps_try
    (let! x := perform (EndpointReplace e) in pret (map_err msg x))
    (fun _ => replace_endpoints er) [EndpointReplace e]);
    [apply (steps_perform (EndpointReplace e)) | done]].
  intros o h. unfold ptry, pbind, perform. cbn. unfold pbind, perform.
  by destruct (o h (EndpointReplace e)) as [[]|].
Qed.

(** The requests that install the VPN routes. *)
Definition route_calls (fr : list Route) : list (call Route Endpoint) :=
  fr ≫= fun r => [RouteDelete r; RouteAdd r].

Lemma predelete_and_add_steps (fr : list Route) :
  steps_through (predelete_and_add (Endpoint:=Endpoint) fr) (route_calls fr).
Proof.
  induction fr as [|r fr IH]; [apply steps_ret|].
  change (route_calls (r :: fr)) with ([RouteDelete r] ++ [RouteAdd r] ++ route_calls fr).
  eapply steps_ext; [|apply (steps_try (let! _ := perform (RouteDelete r) in pret (Ok tt))
     (fun _ => let!? _ := (let! x := perform (RouteAdd r) in
                           pret (map_err (fun e => "failed to add route: " +:+ io_message e) x)) in
               predelete_and_add fr))].
  - intros o h. unfold ptry, pbind, perform. cbn. unfold pbind, perform.
    by destruct (o (h ++ [RouteDelete r]) (RouteAdd r)) as [[]|].
  - apply (steps_perform (RouteDelete r) (fun _ => Ok tt)).
  - intros _. apply steps_try; [apply (steps_perform (RouteAdd r)) | done].
Qed.

(** On Linux and Windows the endpoint exceptions are all installed
    before the first VPN route is touched; each VPN route is deleted just
    before it is added; the first failure stops the installation. *)
Theorem add_routes_order (fr : list Route) (er : list Endpoint) :
  steps_through (add_routes_with_predelete fr er) ((EndpointReplace <$> er) ++ route_calls fr).
Proof. apply steps_try; [apply replace_endpoints_steps | intros; apply predelete_and_add_steps]. Qed.

(** C35: teardown deletes every route of the session, newest first, and then
    every endpoint exception, whichever of these requests fail (only when no
    route manager can be opened are the route deletions skipped), runs the
    DNS teardown last in any case, succeeds exactly when nothing failed and
    otherwise reports every failure in order. *)
Theorem cleanup_attempts_everything (fr : list Route) (er : list Endpoint) td o h :
  let calls := cleanup_calls (is_ok (o h RouteManagerNew)) fr er in
  trace (cleanup_routes fr er td) o h = trace td o (h ++ calls) /\
  value (cleanup_routes fr er td) o h =
    errors_result (failures calls o h ++ option_list (err (value td o (h ++ calls)))).
Proof.
  pose proof (cleanup_routes_run fr er td o h) as Hrun. cbn zeta in *.
  unfold trace, value. destruct (td o _) as [dns h']. by rewrite Hrun.
Qed.
End StepsThrough.

(** ** Route selection *)

Section Selection.
Context {Route : Type} `{RouteLib Route}.

Lemma allowed_ip_route_spec name addr r :
  allowed_ip_route name addr = Some r <->
  exists ip, parse_proto_cidr addr = Some (ip, Cidr_prefix addr) /\
    (Cidr_prefix addr <= 255)%N /\ r = with_if_name name (Route_new ip (Cidr_prefix addr)).
Proof.
  unfold allowed_ip_route, u8_try_from.
  destruct (parse_proto_cidr addr) as [[ip p]|] eqn:E; simpl; [|naive_solver].
  assert (p = Cidr_prefix addr) as ->.
  { by apply parse_proto_cidr_some in E as (_ & _ & ->). }
  destruct (N.leb_spec (Cidr_prefix addr) 255); simpl; [|naive_solver lia].
  naive_solver.
Qed.

Lemma keep_route_spec eps r :
  keep_route eps r = true <-> ~ (prefix r = addr_bits (destination r) /\ destination r ∈ eps).
Proof.
  unfold keep_route, addr_bits. rewrite orb_true_iff, !negb_true_iff, N.eqb_neq, contains_false.
  destruct (decide (destination r ∈ eps)),
    (decide (prefix r = if is_ipv4 (destination r) then 32%N else 128%N)); tauto.
Qed.

(** The route of an allowed prefix. *)
Definition cidr_route (name : string) (addr : Cidr) : option Route :=
  '(ip, p) ← parse_proto_cidr addr; Some (with_if_name name (Route_new ip p)).

(** The installed routes are well formed, and none of them is a host route to a
    peer. *)
Lemma filtered_host_free t config name :
  validate_config t config = Ok tt ->
  Forall (fun r : Route => ip_wf (destination r) /\ (prefix r <= addr_bits (destination r))%N)
    (filtered_routes config name) /\
  forall r : Route, r ∈ filtered_routes config name -> prefix r = addr_bits (destination r) ->
    destination r ∉ omap parse_proto_ip (peer_endpoints config).
Proof.
  intros Hv%validate_config_valid. pose proof (valid_routes _ _ Hv) as HF. rewrite Forall_forall in HF.
  rewrite Forall_forall. split; intros r [Hin Hkeep]%list_elem_of_In%filter_In.
  - apply list_elem_of_In, list_elem_of_omap in Hin as (addr & Ha & Hr).
    apply allowed_ip_route_spec in Hr as (ip & Hp & _ & ->).
    destruct (HF _ Ha) as (ip' & E & Hw & Hle). apply parse_proto_cidr_some in Hp as (E' & Hw' & _).
    rewrite E in E'. apply (inj Some), (f_equal parse_proto_ip) in E'.
    rewrite !parse_proto_ip_to_proto in E' by done. injection E' as ->.
    by rewrite destination_with_if_name, prefix_with_if_name, destination_new, prefix_new.
  - intros Hp Hd. apply keep_route_spec in Hkeep. tauto.
Qed.

(** For a validated configuration the installed routes are, in order,
    one per allowed prefix, on the session's interface, leaving out exactly
    the host routes to a peer endpoint. *)
Theorem filtered_routes_spec t config name :
  validate_config t config = Ok tt ->
  let eps := omap parse_proto_ip (peer_endpoints config) in
  filtered_routes config name =
    List.filter (fun r : Route => bool_decide (~ (prefix r = addr_bits (destination r) /\
                                          destination r ∈ eps)))
      (omap (cidr_route name) (peer_allowed_ips config)) /\
  length (omap (cidr_route name) (peer_allowed_ips config)) = length (peer_allowed_ips config) /\
  Forall (fun r : Route => if_name r = Some name) (filtered_routes config name).
Proof.
  intros Hv. apply validate_config_valid in Hv. cbn zeta.
  assert (forall addr, cidr_ok addr ->
    exists r, allowed_ip_route name addr = Some r /\ cidr_route name addr = Some r /\
              if_name r = Some name) as Hr.
  { intros addr (ip & Ha & Hw & Hp).
    assert (parse_proto_cidr addr = Some (ip, Cidr_prefix addr)) as E
      by by apply parse_proto_cidr_some.
    eexists. split_and!.
    - apply allowed_ip_route_spec. exists ip. split_and!; [done | | done].
      unfold addr_bits in Hp. destruct (is_ipv4 ip); lia.
    - unfold cidr_route. by rewrite E.
    - apply if_name_with_if_name. }
  pose proof (valid_routes _ _ Hv) as HF.
  assert (omap (allowed_ip_route name) (peer_allowed_ips config) =
          omap (cidr_route name) (peer_allowed_ips config) /\
          length (omap (cidr_route name) (peer_allowed_ips config)) =
          length (peer_allowed_ips config) /\
          Forall (fun r => if_name r = Some name)
            (omap (cidr_route name) (peer_allowed_ips config))) as (E1 & E2 & E3).
  { induction HF as [|addr l Ha _ IH]; [done|]. destruct (Hr _ Ha) as (r & H1 & H2 & H3).
    cbn. rewrite H1, H2. destruct IH as (-> & IH2 & IH3). split_and!; [done | simpl; lia | auto]. }
  unfold filtered_routes. rewrite E1. split_and!; [| done |].
  - apply List.filter_ext. intros r. apply eq_true_iff_eq. rewrite keep_route_spec.
    symmetry. apply bool_decide_eq_true.
  - rewrite Forall_forall in *. intros r Hin. apply E3.
    apply list_elem_of_In in Hin. apply filter_In in Hin as [Hin _]. by apply list_elem_of_In.
Qed.
End Selection.

(** ** DNS arguments *)

Lemma normalize_loop_spec seen normalized values :
  (forall x, x ∈ seen <-> x ∈ normalized) -> NoDup normalized -> "" ∉ normalized ->
  let r := normalize_loop seen normalized values in
  exists added, r = normalized ++ added /\ NoDup r /\
    added `sublist_of` (clean_domain <$> values) /\
    (forall x, x ∈ r <-> x ∈ normalized \/ x <> "" /\ x ∈ (clean_domain <$> values)).
Proof.
  revert seen normalized. induction values as [|v values IH]; intros seen nm Hs Hnd Hne; cbn.
  { exists []. rewrite app_nil_r. split_and!; [done | done | constructor |].
    intros x. rewrite elem_of_nil. naive_solver. }
  set (d := clean_domain v).
  destruct (bool_decide_reflect (d = "")) as [E|E]; simpl.
  { destruct (IH seen nm Hs Hnd Hne) as (added & -> & Hnd' & Hsub & Hin).
    exists added. split_and!; [done | done | by constructor |].
    intros x. rewrite Hin, elem_of_cons. naive_solver. }
  destruct (bool_decide_reflect (d ∈ seen)) as [Hd|Hd].
  { destruct (IH seen nm Hs Hnd Hne) as (added & -> & Hnd' & Hsub & Hin).
    exists added. split_and!; [done | done | by constructor |].
    intros x. rewrite Hin, elem_of_cons. apply Hs in Hd. naive_solver. }
  destruct (IH ({[d]} ∪ seen) (nm ++ [d])) as (added & -> & Hnd' & Hsub & Hin).
  - intros x. rewrite elem_of_union, elem_of_singleton, elem_of_app, list_elem_of_singleton, Hs.
    tauto.
  - apply NoDup_app. split_and!; [done | | apply NoDup_singleton].
    intros x Hx. rewrite list_elem_of_singleton. intros ->. by apply Hd, Hs.
  - rewrite elem_of_app, list_elem_of_singleton. naive_solver.
  - exists (d :: added). rewrite <- app_assoc in *.
    split_and!; [done | done | by constructor |].
    intros x. rewrite Hin, elem_of_app, list_elem_of_singleton, elem_of_cons. naive_solver.
Qed.

(** [normalize_domains] keeps, in order of first appearance and without
    repetition, exactly the non-empty cleaned domains. *)
Theorem normalize_domains_spec values :
  NoDup (normalize_domains values) /\
  normalize_domains values `sublist_of` (clean_domain <$> values) /\
  (forall x, x ∈ normalize_domains values <-> x <> "" /\ exists v, v ∈ values /\ clean_domain v = x).
Proof.
  destruct (normalize_loop_spec ∅ [] values) as (added & E & Hnd & Hsub & Hin);
    [set_solver | constructor | apply not_elem_of_nil |].
  unfold normalize_domains. split_and!; [done | by rewrite E |].
  intros x. rewrite Hin, list_elem_of_fmap, elem_of_nil. naive_solver.
Qed.

Lemma ips_to_args_loop_spec seen values r :
  NoDup seen -> ips_to_args_loop seen values = Some r ->
  NoDup r /\ (forall x, x ∈ r <-> x ∈ seen \/ exists v, v ∈ values /\ proto_ip_to_string v = Some x).
Proof.
  revert seen. induction values as [|v values IH]; intros seen Hnd; cbn.
  { intros [= <-]. split; [done|]. intros x. setoid_rewrite elem_of_nil. naive_solver. }
  destruct (proto_ip_to_string v) as [ip|] eqn:Ev; [|done]. cbn. intros Hr.
  destruct (contains ip seen) eqn:Hc.
  - apply contains_true in Hc. destruct (IH _ Hnd Hr) as [Hnd' Hin]. split; [done|].
    intros x. rewrite Hin. setoid_rewrite elem_of_cons. naive_solver.
  - apply contains_false in Hc. destruct (IH (seen ++ [ip])) as [Hnd' Hin]; [|done|].
    { apply NoDup_app. split_and!; [done | | apply NoDup_singleton].
      intros x Hx. rewrite list_elem_of_singleton. by intros ->. }
    split; [done|]. intros x.
    rewrite Hin, elem_of_app, list_elem_of_singleton. setoid_rewrite elem_of_cons. naive_solver.
Qed.

Lemma ips_to_args_loop_total seen values :
  Forall (fun s => exists ip, s = ip_to_proto ip /\ ip_wf ip) values ->
  exists r, ips_to_args_loop seen values = Some r.
Proof.
  intros HF. revert seen. induction HF as [|v values (ip & -> & Hw) _ IH]; intros seen;
    cbn [ips_to_args_loop]; [eauto|].
  rewrite proto_ip_to_string_to_proto by done. apply IH.
Qed.

(** The DNS section [configure_session] works with. *)
Definition config_servers (config : TunSessionConfig) : list Ip :=
  match dns config with Some d => servers d | None => [] end.
Definition config_domains (config : TunSessionConfig) : list string :=
  match dns config with Some d => search_domains d | None => [] end.

(** For an accepted configuration the DNS arguments can be computed and are
    present together or not at all. *)
Lemma valid_dns_args t config :
  validate_config t config = Ok tt ->
  exists args, ips_to_args (config_servers config) = Some args /\
    (args = [] <-> normalize_domains (config_domains config) = []).
Proof.
  intros Hv. apply validate_config_valid, valid_dns in Hv.
  assert (servers (default DnsConfig_default (dns config)) = config_servers config /\
          search_domains (default DnsConfig_default (dns config)) = config_domains config)
    as [Es Ed] by (unfold config_servers, config_domains; by destruct (dns config)).
  destruct Hv as [_ _ Hboth Hdom Hsrv]. rewrite Es, Ed in *.
  destruct (ips_to_args_loop_total [] (config_servers config) Hsrv) as [args Ha].
  exists args. split; [done|].
  destruct (ips_to_args_loop_spec [] _ _ (NoDup_nil_2) Ha) as [_ Hin].
  assert (args = [] <-> config_servers config = []) as ->.
  { split; intros E; subst.
    - destruct Hsrv as [|s l (ip & -> & Hw) _]; [done|]. exfalso.
      apply (not_elem_of_nil (ip_to_string ip)). apply Hin. right.
      exists (ip_to_proto ip). split; [apply list_elem_of_here|].
      by apply proto_ip_to_string_to_proto.
    - rewrite E in Ha. by injection Ha. }
  rewrite <- Hboth. split.
  - by intros ->.
  - intros E. destruct Hdom as [|s l [_ Hh] _]; [done|]. exfalso.
    destruct (normalize_loop_spec ∅ [] (s :: l)) as (added & Er & _ & _ & Hn);
      [set_solver | constructor | apply not_elem_of_nil |].
    unfold normalize_domains in E. rewrite E in Hn. apply (not_elem_of_nil (clean_domain s)).
    apply Hn. right. split; [by apply hostname_spec_ne|]. cbn. apply list_elem_of_here.
Qed.

Lemma valid_domains t config :
  validate_config t config = Ok tt -> Forall hostname_spec (normalize_domains (config_domains config)).
Proof.
  intros [_ _ _ Hdom _]%validate_config_valid%valid_dns. apply Forall_forall.
  intros d (_ & v & Hv & <-)%normalize_domains_spec. rewrite Forall_forall in Hdom. apply Hdom.
  unfold config_domains in Hv. by destruct (dns config).
Qed.

(** ** Commands *)

Lemma read_capped_spec max output chunks :
  length output <= max ->
  read_capped max output chunks = take max (output ++ concat chunks).
Proof.
  revert output; induction chunks as [|c r IH]; intros output Hlen; cbn [read_capped concat].
  { rewrite app_nil_r. symmetry. by apply take_ge. }
  destruct (Nat.ltb_spec 0 (max - length output)) as [Hlt|Hge].
  - cbv iota. set (k := max - length output) in *.
    replace (take (k `min` length c) c) with (take k c)
      by (rewrite <- take_take; by rewrite (take_ge c (length c))).
    rewrite IH by (rewrite length_app, length_take; lia).
    rewrite <- app_assoc, !(take_app output). fold k. f_equal.
    rewrite !take_app, take_take, length_take. f_equal; f_equal; lia.
  - cbv iota. rewrite IH by done. rewrite !take_app. replace (max - length output) with 0 by lia.
    by rewrite !take_0.
Qed.

(** In whatever chunks a child's pipe delivers its output, exactly the first
    [max_bytes] bytes of it are retained. *)
Lemma read_capped_keeps_prefix max chunks :
  read_capped max [] chunks = take max (concat chunks).
Proof. apply read_capped_spec. simpl. lia. Qed.

(** ** Setup with rollback *)

Section Setup.
Context {Route Endpoint : Type} `{RouteLib Route}.
Implicit Types (o : os Route Endpoint) (h : list (call Route Endpoint)).

Lemma build_and_filter_routes_run config name (er : list Endpoint) o h :
  build_and_filter_routes config name er o h =
  (match o h RouteManagerNew with
   | Ok _ => Ok (filtered_routes config name, er)
   | Err e => Err ("route manager: " +:+ io_message e)
   end, h ++ [RouteManagerNew]).
Proof.
  unfold build_and_filter_routes, pbind, perform. by destruct (o h RouteManagerNew) as [[]|].
Qed.

(** What a platform's [configure_session] does once its requests [cs] are
    known: on success all of them were issued and the hook is the teardown;
    on failure a prefix of them was issued, followed by the whole teardown,
    which deletes the routes unless the route manager cannot be opened again. *)
Definition configured (fr : list Route) (er : list Endpoint) (td : prog Route Endpoint (result unit string))
    (cs : list (call Route Endpoint)) o h (r : result CleanupHook string) h' : Prop :=
  match r with
  | Ok hook => h' = h ++ cs /\ hook = cleanup_routes fr er td
  | Err _ => exists ds, ds `prefix_of` cs /\
      h' = trace td o (h ++ ds ++ cleanup_calls (is_ok (o (h ++ ds) RouteManagerNew)) fr er)
  end.

Lemma setup_or_rollback (p : prog Route Endpoint (result unit string)) cs fr er name td o h :
  steps_through p cs ->
  let q := (let! setup := p in into_cleanup_hook setup fr er name td) in
  configured fr er (td name) cs o h (value q o h) (trace q o h).
Proof.
  intros Hp. cbn zeta. unfold trace, value. rewrite pbind_run.
  destruct (Hp o h) as (ds & Ht & Hpre & Hok). rewrite Ht.
  destruct (value p o h) as [[]|e] eqn:Ev; cbn.
  - by rewrite (Hok eq_refl).
  - rewrite pbind_run.
    pose proof (cleanup_routes_run fr er (td name) o (h ++ ds)) as Hrun. cbn zeta in Hrun.
    set (b := is_ok (o (h ++ ds) RouteManagerNew)) in *.
    assert (trace (cleanup_routes fr er (td name)) o (h ++ ds) =
            trace (td name) o (h ++ ds ++ cleanup_calls b fr er)) as ->.
    { rewrite app_assoc. unfold trace. destruct (td name o _). by rewrite Hrun. }
    destruct (value (cleanup_routes fr er (td name)) o (h ++ ds)); cbn; by exists ds.
Qed.
End Setup.

Section RunCommandLemmas.
Context {Route Endpoint : Type} (from_utf8_lossy : list byte -> string)
  (to_lowercase : string -> string).

(** A command is one request, whatever comes of it. *)
Lemma run_command_trace l p args sin env ign (o : os Route Endpoint) h :
  trace (run_command from_utf8_lossy to_lowercase l p args sin env ign) o h =
  h ++ [CommandOutput (mkCommand p args sin env)].
Proof.
  unfold trace, run_command, pbind, perform. by repeat case_match.
Qed.

Lemma run_command_steps l p args sin env ign :
  steps_through (Route:=Route) (Endpoint:=Endpoint)
    (run_command from_utf8_lossy to_lowercase l p args sin env ign)
    [CommandOutput (mkCommand p args sin env)].
Proof. intros o h. eexists. rewrite run_command_trace. done. Qed.

Definition completed (r : result Output string) : bool :=
  match r with Ok output => success output | Err _ => false end.

Lemma run_command_completed l p args sin env (o : os Route Endpoint) h :
  is_ok (value (run_command from_utf8_lossy to_lowercase l p args sin env [])  o h) =
  completed (o h (CommandOutput (mkCommand p args sin env))).
Proof.
  unfold value, run_command, pbind, perform, completed. cbn [existsb].
  destruct (o h _) as [out|e]; [|done]. by destruct (success out).
Qed.

Lemma ptry_ok {A B E} (p : prog Route Endpoint (result A E))
    (k : A -> prog Route Endpoint (result B E)) (o : os Route Endpoint) h b :
  value (ptry p k) o h = Ok b ->
  exists a, value p o h = Ok a /\ value (k a) o (trace p o h) = Ok b /\
    trace (ptry p k) o h = trace (k a) o (trace p o h).
Proof.
  unfold ptry, value at 1, trace at 2. rewrite pbind_run.
  destruct (value p o h) as [a|e]; [|done]. intros Hk. by exists a.
Qed.

(** Requests that run no command. *)
Definition quiet_call (c : call Route Endpoint) : Prop := forall cmd, c <> CommandOutput cmd.

Lemma add_routes_quiet (fr : list Route) (er : list Endpoint) :
  Forall quiet_call ((EndpointReplace <$> er) ++ route_calls fr).
Proof.
  apply Forall_app. split; [by apply Forall_fmap, Forall_forall|].
  unfold route_calls. apply Forall_bind, Forall_forall. intros r _. by repeat constructor.
Qed.

Lemma cleanup_calls_quiet opened (fr : list Route) (er : list Endpoint) :
  Forall quiet_call (cleanup_calls opened fr er).
Proof.
  unfold cleanup_calls. constructor; [done|]. apply Forall_app.
  split; [destruct opened; [|constructor]|]; by apply Forall_fmap, Forall_forall.
Qed.

(** A teardown that is one command ends the clean-up, which reports it. *)
Lemma cleanup_ends (fr : list Route) (er : list Endpoint) td cmd (o : os Route Endpoint) h :
  let c := CommandOutput cmd in
  (forall h', trace td o h' = h' ++ [c] /\ is_ok (value td o h') = completed (o h' c)) ->
  let p := cleanup_routes fr er td in
  exists h1, trace p o h = h1 ++ [c] /\ (value p o h = Ok tt -> completed (o h1 c) = true).
Proof.
  intros c Htd p. pose proof (cleanup_routes_run fr er td o h) as Hrun.
  cbn zeta in *. set (h1 := h ++ _) in *. exists h1. destruct (Htd h1) as [Ht Hv].
  destruct (td o h1) as [r h2] eqn:E. unfold p, trace, value in *. rewrite E in Ht, Hv. cbn in Ht, Hv.
  rewrite Hrun. cbn [fst snd]. split; [done|]. rewrite <- Hv. unfold errors_result.
  destruct r; [done|]. cbn [err option_list]. by destruct (failures (cleanup_calls _ _ _) o h).
Qed.
End RunCommandLemmas.

(** ** A concrete route library and configuration *)
Module PlatformExamples.
Record route : Type := mkRoute { r_destination : IpAddr; r_prefix : N; r_if_name : option string }.

#[export] Instance route_lib : RouteLib route.
Proof.
  refine {| Route_new := fun ip p => mkRoute ip p None;
            with_if_name := fun n r => mkRoute (r_destination r) (r_prefix r) (Some n);
            destination := r_destination; prefix := r_prefix; if_name := r_if_name;
            mask := fun r => prefix_mask (r_destination r) (r_prefix r) |}; done.
Defined.

(** 10.0.0.2/24 with a default route, a host route to the peer and DNS. *)
Definition ip4 (a b c d : Z) : Ip := mkIp (Some (IpV4 (z_u8 <$> [a; b; c; d]))).
Definition vpn_config : TunSessionConfig :=
  mkConfig "utun4" 1420 [mkCidr (Some (ip4 10 0 0 2)) 24]
    [mkCidr (Some (ip4 0 0 0 0)) 0; mkCidr (Some (ip4 198 51 100 1)) 32]
    [ip4 198 51 100 1] (Some (mkDns [ip4 10 0 0 1] ["corp.example"])).

(** A system on which everything works. *)
Definition working : os route unit := fun _ c =>
  match c as c return reply c with
  | EndpointLookup _ => Ok tt
  | RouteFind _ => Ok None
  | CommandOutput _ => Ok (mkOutput true (Some 0%Z) [] [])
  | DeviceName => Ok "utun4"
  | RouteManagerNew | RouteAdd _ | RouteDelete _ | EndpointReplace _ | EndpointDelete _ | Which _
  | DeviceBuild _ | DeviceSetNonblocking | DeviceDrop | InterruptNew | InterruptTrigger => Ok tt
  end.
End PlatformExamples.
Import PlatformExamples.

Lemma filtered_routes_spec_witness :
  validate_config Linux vpn_config = Ok tt /\
  length (omap (cidr_route "utun4") (peer_allowed_ips vpn_config)) = 2 /\
  Forall (fun r : route => if_name r = Some "utun4") (filtered_routes vpn_config "utun4").
Proof.
  assert (validate_config Linux vpn_config = Ok tt) as Hv by (vm_compute; reflexivity).
  destruct (filtered_routes_spec Linux vpn_config "utun4" Hv) as (_ & H2 & H3).
  split; [exact Hv|]. split; [exact H2 | exact H3].
Defined.
