(* ===== verification/Command.v ===== *)
(** * platform/mod.rs: supervising a child process

    [command_output] spawns a command, feeds its input, drains both output
    pipes into capped buffers and waits for it, all under one deadline. The four
    futures of its [try_join!] complete by events in any order; [supervise] is
    the joined future over those events, [command_output] what surrounds it.
    The theorem: the deadline always ends the supervision, success means that
    everything completed and the output is complete up to the cap, and otherwise
    the child is told to end and waited for, without a deadline, and what of this
    failed is part of the error. *)

From S2P Require Import Prelude RustStd Os Platform.
From Stdlib Require Import Lia.

(** In seconds; every caller but the tests gives this one. *)
Definition COMMAND_TIMEOUT : N := 20.

(** [ExitStatus]: whether it is a success, and the code. *)
Abbreviation exit_status := (bool * option Z)%type.

(** What the runtime reports, in the order the joined future sees it; an empty
    read is the end of a pipe. *)
Inductive child_event : Type :=
| StdinWritten (r : result unit io_error)
| StdoutRead (r : result (list byte) io_error)
| StderrRead (r : result (list byte) io_error)
| ChildExited (r : result exit_status io_error)
| DeadlinePassed.

(** A pipe being drained: the retained output and whether its end was read. *)
Record pipe : Type := mkPipe { retained : list byte; at_end : bool }.

(** The futures of [try_join!]. *)
Record joined : Type := mkJoined {
  stdin_done : bool;
  out_pipe : pipe;
  err_pipe : pipe;
  status : option exit_status;
}.

(** One turn of the loop of [read_capped]. *)
Definition read_turn (p : pipe) (chunk : list byte) : pipe :=
  match chunk with
  | [] => mkPipe (retained p) true
  | _ => mkPipe (read_capped MAX_COMMAND_OUTPUT_BYTES (retained p) [chunk]) false
  end.

(** A future that has completed is not polled again; the first error is the
    error of the whole. *)
Definition drain (what : string) (p : pipe) (r : result (list byte) io_error) : result pipe string :=
  if at_end p then Ok p
  else rmap (read_turn p) (map_err (fun e => "failed reading " +:+ what +:+ ": " +:+ io_message e) r).

Definition poll_child (j : joined) (e : child_event) : result joined string :=
  match e with
  | StdinWritten r =>
    if stdin_done j then Ok j
    else rmap (fun _ => mkJoined true (out_pipe j) (err_pipe j) (status j))
           (map_err (fun e => "failed writing stdin: " +:+ io_message e) r)
  | StdoutRead r =>
    rmap (fun p => mkJoined (stdin_done j) p (err_pipe j) (status j)) (drain "stdout" (out_pipe j) r)
  | StderrRead r =>
    rmap (fun p => mkJoined (stdin_done j) (out_pipe j) p (status j)) (drain "stderr" (err_pipe j) r)
  | ChildExited r =>
    match status j with
    | Some _ => Ok j
    | None =>
      rmap (fun s => mkJoined (stdin_done j) (out_pipe j) (err_pipe j) (Some s))
        (map_err (fun e => "failed waiting: " +:+ io_message e) r)
    end
  | DeadlinePassed => Ok j
  end.

(** All four have completed. *)
Definition joined_status (j : joined) : option exit_status :=
  if stdin_done j && at_end (out_pipe j) && at_end (err_pipe j) then status j else None.

(** [timeout(..., work)]: what was gathered, and the outcome once there is one. *)
Fixpoint supervise (timeout : N) (j : joined) (events : list child_event)
    : joined * option (result exit_status string) :=
  match joined_status j with
  | Some s => (j, Some (Ok s))
  | None =>
    match events with
    | [] => (j, None)
    | DeadlinePassed :: _ => (j, Some (Err ("timed out after " +:+ pretty timeout +:+ "s")))
    | e :: r =>
      match poll_child j e with
      | Ok j' => supervise timeout j' r
      | Err error => (j, Some (Err error))
      end
    end
  end.

(** What is done to the child: a kill that the system took, a wait that gave its
    status, and the kill of [kill_on_drop] for a child that was not reaped. *)
Inductive child_action : Type := Spawned | Killed | Reaped | KilledOnDrop.

Section CommandOutput.
Context (from_utf8_lossy : list byte -> string).

Definition newline : string := bytes_str [Byte.x0a].

(** The detail of a failure: the error, the output so far, and what went wrong
    with ending the child. *)
Definition failure_detail (error : string) (j : joined) (kill_result wait_result : result unit io_error)
    : string :=
  error +:+ newline +:+ "stdout: " +:+ trim (from_utf8_lossy (retained (out_pipe j)))
    +:+ newline +:+ "stderr: " +:+ trim (from_utf8_lossy (retained (err_pipe j)))
    +:+ match kill_result with
        | Ok _ => "" | Err e => newline +:+ "failed to terminate: " +:+ io_message e end
    +:+ match wait_result with
        | Ok _ => "" | Err e => newline +:+ "failed to reap: " +:+ io_message e end.

(** The error branch: [start_kill], then [wait] without a deadline, whose
    result is [None] as long as the child has not ended. *)
Definition end_child (error : string) (j : joined) (kill_result : result unit io_error)
    (wait_result : option (result unit io_error)) : option (result Output string) * list child_action :=
  let killed := match kill_result with Ok _ => [Killed] | Err _ => [] end in
  match wait_result with
  | None => (None, killed)
  | Some w =>
    (Some (Err (failure_detail error j kill_result w)),
     killed ++ match w with Ok _ => [Reaped] | Err _ => [KilledOnDrop] end)
  end.

(** The result ([None] while the events do not decide it, or the killed child
    has not ended) and what was done to the child. Without input its [stdin]
    future is complete from the start. *)
Definition command_output (runtime spawned : result unit io_error) (stdin : option string) (timeout : N)
    (events : list child_event) (kill_result : result unit io_error)
    (wait_result : option (result unit io_error)) : option (result Output string) * list child_action :=
  match runtime with
  | Err e => (Some (Err ("failed to create command runtime: " +:+ io_message e)), [])
  | Ok _ =>
    match spawned with
    | Err e => (Some (Err ("failed to start: " +:+ io_message e)), [])
    | Ok _ =>
      let start := mkJoined (bool_decide (stdin = None)) (mkPipe [] false) (mkPipe [] false) None in
      let '(j, outcome) := supervise timeout start events in
      match outcome with
      | None => (None, [Spawned])
      | Some (Ok (success, code)) =>
        (Some (Ok (mkOutput success code (retained (out_pipe j)) (retained (err_pipe j)))), [Spawned])
      | Some (Err error) =>
        let '(res, actions) := end_child error j kill_result wait_result in (res, Spawned :: actions)
      end
    end
  end.
End CommandOutput.

(** ** Correctness *)

(** A large [nat]: never to be computed. *)
#[local] Opaque MAX_COMMAND_OUTPUT_BYTES.

Definition stdout_chunk (e : child_event) : option (list byte) :=
  match e with StdoutRead r => ok r | _ => None end.
Definition stderr_chunk (e : child_event) : option (list byte) :=
  match e with StderrRead r => ok r | _ => None end.
Definition exited (e : child_event) : option exit_status :=
  match e with ChildExited r => ok r | _ => None end.
Definition stdin_written (e : child_event) : bool :=
  match e with StdinWritten (Ok _) => true | _ => false end.

(** An event that neither fails nor ends the wait. *)
Definition harmless (e : child_event) : bool :=
  match e with
  | StdinWritten r => is_ok r
  | StdoutRead r | StderrRead r => is_ok r
  | ChildExited r => is_ok r
  | DeadlinePassed => false
  end.

(** The bytes a pipe delivers before its end. *)
Fixpoint delivered (chunks : list (list byte)) : list byte :=
  match chunks with
  | [] => []
  | [] :: _ => []
  | c :: r => c ++ delivered r
  end.

Definition ended (chunks : list (list byte)) : bool := bool_decide ([] ∈ chunks).

(** What has been gathered after the events [seen]. *)
Record gathered (stdin : option string) (seen : list child_event) (j : joined) : Prop := mkGathered {
  g_stdin : stdin_done j = bool_decide (stdin = None) || existsb stdin_written seen;
  g_out : out_pipe j = mkPipe (take MAX_COMMAND_OUTPUT_BYTES (delivered (omap stdout_chunk seen)))
                         (ended (omap stdout_chunk seen));
  g_err : err_pipe j = mkPipe (take MAX_COMMAND_OUTPUT_BYTES (delivered (omap stderr_chunk seen)))
                         (ended (omap stderr_chunk seen));
  g_status : status j = head (omap exited seen);
}.

Lemma delivered_ended chunks more :
  ended chunks = true -> delivered (chunks ++ more) = delivered chunks.
Proof.
  unfold ended. rewrite bool_decide_eq_true. induction chunks as [|[|b c] r IH]; [by intros ?%elem_of_nil|done|].
  intros [?|Hin]%elem_of_cons; [done|]. cbn. by rewrite IH.
Qed.

Lemma delivered_open chunks more :
  ended chunks = false -> delivered (chunks ++ more) = delivered chunks ++ delivered more.
Proof.
  unfold ended. rewrite bool_decide_eq_false. induction chunks as [|c r IH]; [done|].
  rewrite not_elem_of_cons. intros [Hc Hr]. destruct c; [done|]. cbn. by rewrite IH, app_assoc.
Qed.

Lemma ended_app chunks c : ended (chunks ++ [c]) = ended chunks || bool_decide (c = []).
Proof. unfold ended. rewrite <- bool_decide_or. apply bool_decide_ext. set_solver. Qed.

(** Draining keeps [gathered]'s description of a pipe. *)
Lemma drain_gathered what chunks r p :
  drain what (mkPipe (take MAX_COMMAND_OUTPUT_BYTES (delivered chunks)) (ended chunks)) r = Ok p ->
  p = mkPipe (take MAX_COMMAND_OUTPUT_BYTES (delivered (chunks ++ option_list (ok r))))
        (ended (chunks ++ option_list (ok r))).
Proof.
  unfold drain. cbn [at_end]. destruct (ended chunks) eqn:E.
  - intros [= <-]. rewrite delivered_ended by done. f_equal. unfold ended in *.
    rewrite bool_decide_eq_true in E. symmetry. apply bool_decide_eq_true. apply elem_of_app. by left.
  - destruct r as [c|e]; cbn [map_err rmap ok option_list]; [|done]. intros [= <-].
    change (option_list (Some c)) with [c]. rewrite delivered_open, ended_app, E by done. unfold read_turn. cbn [retained].
    generalize MAX_COMMAND_OUTPUT_BYTES. intros max.
    destruct c as [|b c]; [by rewrite app_nil_r|].
    rewrite (bool_decide_eq_false_2 _) by done. cbn [orb]. f_equal.
    rewrite read_capped_spec by (rewrite length_take; lia). cbn [concat delivered].
    rewrite !app_nil_r, !take_app, take_take, length_take. f_equal; f_equal; lia.
Qed.

Lemma omap_snoc {A B} (f : A -> option B) l x : omap f (l ++ [x]) = omap f l ++ option_list (f x).
Proof. rewrite omap_app. cbn. by destruct (f x). Qed.

Lemma poll_child_gathered stdin seen e j j' :
  gathered stdin seen j -> e <> DeadlinePassed -> poll_child j e = Ok j' ->
  gathered stdin (seen ++ [e]) j'.
Proof.
  intros [Hi Ho He Hs] Hd Hp.
  assert (forall r p, drain "stdout" (out_pipe j) r = Ok p -> gathered stdin (seen ++ [StdoutRead r])
    (mkJoined (stdin_done j) p (err_pipe j) (status j))) as HO.
  { intros r p Hr. rewrite Ho in Hr. apply drain_gathered in Hr.
    split; rewrite ?omap_snoc, ?existsb_app, ?app_nil_r, ?orb_false_r; cbn; rewrite ?orb_false_r, ?app_nil_r; done. }
  assert (forall r p, drain "stderr" (err_pipe j) r = Ok p -> gathered stdin (seen ++ [StderrRead r])
    (mkJoined (stdin_done j) (out_pipe j) p (status j))) as HE.
  { intros r p Hr. rewrite He in Hr. apply drain_gathered in Hr.
    split; rewrite ?omap_snoc, ?existsb_app; cbn; rewrite ?orb_false_r, ?app_nil_r; done. }
  destruct e as [r|r|r|r|]; cbn [poll_child] in Hp; [| | | |done].
  - destruct (stdin_done j) eqn:E.
    + apply Ok_inj in Hp as <-. split; rewrite ?omap_snoc, ?existsb_app; cbn; rewrite ?app_nil_r; try done.
      rewrite E, orb_assoc, <- Hi. done.
    + destruct r as [u|]; [|done]. apply Ok_inj in Hp as <-.
      split; rewrite ?omap_snoc, ?existsb_app; cbn; rewrite ?app_nil_r; try done. by rewrite !orb_true_r.
  - destruct (drain "stdout" (out_pipe j) r) as [p|] eqn:E; [|done]. apply Ok_inj in Hp as <-. by apply HO.
  - destruct (drain "stderr" (err_pipe j) r) as [p|] eqn:E; [|done]. apply Ok_inj in Hp as <-. by apply HE.
  - destruct (status j) as [s|] eqn:E.
    + apply Ok_inj in Hp as <-. split; rewrite ?omap_snoc, ?existsb_app; cbn; rewrite ?orb_false_r, ?app_nil_r; try done.
      rewrite E. rewrite Hs. symmetry in Hs. by destruct (omap exited seen).
    + destruct r as [s|]; [|done]. apply Ok_inj in Hp as <-.
      split; rewrite ?omap_snoc, ?existsb_app; cbn; rewrite ?orb_false_r, ?app_nil_r; try done.
      by destruct (omap exited seen).
Qed.

(** The four futures have completed within the events, the child with [s]. *)
Definition complete (stdin : option string) (events : list child_event) (s : exit_status) : Prop :=
  (stdin = None \/ StdinWritten (Ok tt) ∈ events) /\
  [] ∈ omap stdout_chunk events /\ [] ∈ omap stderr_chunk events /\
  head (omap exited events) = Some s.

Lemma stdin_written_in events :
  existsb stdin_written events = true <-> StdinWritten (Ok tt) ∈ events.
Proof.
  rewrite existsb_exists. setoid_rewrite <- list_elem_of_In. split.
  - intros (e & Hin & He). by destruct e as [[[]|]| | | |].
  - intros Hin. by exists (StdinWritten (Ok tt)).
Qed.

Lemma joined_complete stdin seen j s :
  gathered stdin seen j -> joined_status j = Some s <-> complete stdin seen s.
Proof.
  intros [Hi Ho He Hs]. unfold joined_status, complete, ended in *.
  rewrite Hi, Ho, He, Hs, <- stdin_written_in. cbn [at_end].
  destruct (bool_decide_reflect (stdin = None)), (existsb stdin_written seen);
    repeat case_bool_decide; cbn; naive_solver.
Qed.

Lemma complete_more stdin seen more s : complete stdin seen s -> complete stdin (seen ++ more) s.
Proof.
  intros (Hi & Ho & He & Hs). unfold complete. rewrite !omap_app, !elem_of_app.
  split_and!; [tauto.. |]. by destruct (omap exited seen).
Qed.

Lemma harmless_poll j e : harmless e = true -> exists j', poll_child j e = Ok j'.
Proof.
  destruct e as [r|r|r|r|]; intros Hh; [..|done]; destruct r as [a|e]; try done; cbn; unfold drain;
    destruct (stdin_done j), (at_end (out_pipe j)), (at_end (err_pipe j)), (status j); cbn; eauto.
Qed.

Lemma poll_child_err j e error : poll_child j e = Err error -> harmless e = false.
Proof.
  destruct (harmless e) eqn:Hh; [|done]. destruct (harmless_poll j e Hh) as [j' ->]. done.
Qed.

(** The events are used up to the one that decides. *)
Lemma supervise_spec timeout stdin events : forall seen j, gathered stdin seen j ->
  let '(j', outcome) := supervise timeout j events in
  exists used rest, events = used ++ rest /\ gathered stdin (seen ++ used) j' /\
    (DeadlinePassed ∉ used) /\
    match outcome with
    | None => rest = [] /\ forall s, ~ complete stdin (seen ++ used) s
    | Some (Ok s) => complete stdin (seen ++ used) s
    | Some (Err _) => (exists e, head rest = Some e /\ harmless e = false) /\
        forall s, ~ complete stdin (seen ++ used) s
    end.
Proof.
  induction events as [|e r IH]; intros seen j Hg; cbn [supervise].
  { destruct (joined_status j) as [s|] eqn:E; exists [], []; rewrite (app_nil_r seen);
      split_and!; try done; [apply not_elem_of_nil | by eapply joined_complete | apply not_elem_of_nil |].
    intros s Hc. apply (joined_complete _ _ j) in Hc; [|done]. congruence. }
  destruct (joined_status j) as [s|] eqn:E.
  { exists [], (e :: r). rewrite (app_nil_r seen).
    split_and!; [done | done | apply not_elem_of_nil | by eapply joined_complete]. }
  assert (harmless e = false -> exists used rest, e :: r = used ++ rest /\
    gathered stdin (seen ++ used) j /\ (DeadlinePassed ∉ used) /\
    (exists e, head rest = Some e /\ harmless e = false) /\
    forall s, ~ complete stdin (seen ++ used) s) as Hstop.
  { intros Hh. exists [], (e :: r). rewrite (app_nil_r seen).
    split_and!; [done | done | apply not_elem_of_nil | by exists e |].
    intros s Hc. apply (joined_complete _ _ j) in Hc; [|done]. congruence. }
  assert (e = DeadlinePassed \/ e <> DeadlinePassed) as [->|Hne] by (destruct e; auto; right; congruence);
    [by apply Hstop|].
  assert (match poll_child j e with
    | Ok j' => supervise timeout j' r
    | Err error => (j, Some (Err error)) end = supervise timeout j (e :: r)) as Hstep
    by (cbn [supervise]; rewrite E; by destruct e).
  cbn [supervise] in Hstep. rewrite E in Hstep. rewrite <- Hstep.
  destruct (poll_child j e) as [j'|error] eqn:Ep.
  - specialize (IH (seen ++ [e]) j' (poll_child_gathered _ _ _ _ _ Hg Hne Ep)).
    destruct (supervise timeout j' r) as [j'' outcome]. destruct IH as (used & rest & -> & Hg' & Hd & Ho).
    exists (e :: used), rest. rewrite <- app_assoc in Hg', Ho.
    split_and!; [done | done | by rewrite not_elem_of_cons | done].
  - apply Hstop. by eapply poll_child_err.
Qed.

(** Enough harmless events decide for success, and later ones do not matter. *)
Lemma supervise_complete timeout stdin before after s : forall seen j, gathered stdin seen j ->
  Forall (fun e => harmless e = true) before -> complete stdin (seen ++ before) s ->
  exists j', supervise timeout j (before ++ after) = (j', Some (Ok s)) /\
    retained (out_pipe j') = take MAX_COMMAND_OUTPUT_BYTES (delivered (omap stdout_chunk (seen ++ before))) /\
    retained (err_pipe j') = take MAX_COMMAND_OUTPUT_BYTES (delivered (omap stderr_chunk (seen ++ before))).
Proof.
  induction before as [|e r IH]; intros seen j Hg Hh Hc.
  - rewrite app_nil_r in *. exists j. destruct Hg as [Hi Ho He Hs] eqn:Eg.
    pose proof (proj2 (joined_complete _ _ j s Hg) Hc) as Hj.
    split_and!; [|by rewrite Ho | by rewrite He]. cbn [app]. by destruct after; cbn; rewrite Hj.
  - inversion_clear Hh as [|?? He Hr]. cbn [app supervise].
    destruct (joined_status j) as [s'|] eqn:E.
    + pose proof (proj1 (joined_complete _ _ j s' Hg) E) as Hc'.
      assert (s' = s) as -> by (destruct (complete_more _ _ (e :: r) _ Hc') as (_ & _ & _ & H1);
        destruct Hc as (_ & _ & _ & H2); congruence).
      exists j. destruct Hc' as (_ & Ho' & He' & _), Hg as [_ Ho He2 _].
      rewrite Ho, He2, !omap_app. cbn [retained].
      rewrite !delivered_ended by (by apply bool_decide_eq_true). done.
    + destruct (harmless_poll j e He) as [j' Hp].
      assert (e <> DeadlinePassed) as Hne by (by intros ->).
      destruct (IH (seen ++ [e]) j') as (j'' & Hs & Ho & He'); [by eapply poll_child_gathered | done | by rewrite <- app_assoc |].
      rewrite <- app_assoc in Ho, He'. cbn [app] in Ho, He'. exists j''. split_and!; [|exact Ho | exact He'].
      rewrite Hp, Hs. by destruct e.
Qed.

Lemma gathered_start stdin :
  gathered stdin [] (mkJoined (bool_decide (stdin = None)) (mkPipe [] false) (mkPipe [] false) None).
Proof.
  split; cbn; [by rewrite orb_false_r | | | done];
    unfold ended; rewrite bool_decide_eq_false_2 by apply not_elem_of_nil; by rewrite take_nil.
Qed.

(** The output a completed run leaves. *)
Definition output_of (events : list child_event) (s : exit_status) : Output :=
  mkOutput s.1 s.2
    (take MAX_COMMAND_OUTPUT_BYTES (delivered (omap stdout_chunk events)))
    (take MAX_COMMAND_OUTPUT_BYTES (delivered (omap stderr_chunk events))).

(** Something failed, or the deadline passed, before the command was complete. *)
Definition failed (stdin : option string) (events : list child_event) : Prop :=
  exists before e after, events = before ++ e :: after /\ harmless e = false /\ forall s, ~ complete stdin before s.

(** What the error says about the attempts to end the child. *)
Definition tells (detail : string) (kill_result wait_result : result unit io_error) : Prop :=
  exists text, detail = text
    +:+ match kill_result with Ok _ => "" | Err e => newline +:+ "failed to terminate: " +:+ io_message e end
    +:+ match wait_result with Ok _ => "" | Err e => newline +:+ "failed to reap: " +:+ io_message e end.

