(* ===== verification/PlatformLinux.v ===== *)
(** * platform/linux.rs: session configuration on Linux

    Routes first, then [resolvectl]. The theorem describes every run, for
    every behaviour of the system: success leaves all requests issued, failure
    rolls everything back. *)

From S2P Require Import Prelude RustStd Net Proto IpUtil Validation Os Platform.

Section Linux.
Context {Route Endpoint : Type} `{RouteLib Route}.
Context (from_utf8_lossy : list byte -> string) (to_lowercase : string -> string).
Abbreviation prog := (prog Route Endpoint).
Abbreviation run_command := (run_command from_utf8_lossy to_lowercase).

Definition revert_dns (interface_name : string) : prog (result unit string) :=
  pmap (rmap (fun _ => tt))
    (run_command "revert-dns" "resolvectl" ["revert"; interface_name] None [] []).

(** The closure whose result is [setup_result]. *)
Definition linux_setup (fr : list Route) (er : list Endpoint) (interface_name : string)
    (dns_servers dns_domains : list string) : prog (result unit string) :=
  let!? _ := add_routes_with_predelete fr er in
  let!? _ := revert_dns interface_name in
  if bool_decide (dns_servers <> []) && bool_decide (dns_domains <> []) then
    let!? _ := run_command "set-dns" "resolvectl"
                 (["dns"; interface_name] ++ dns_servers) None [] [] in
    let!? _ := run_command "set-domains" "resolvectl"
                 (["domain"; interface_name] ++ dns_domains) None [] [] in
    pret (Ok tt)
  else pret (Ok tt).

(** [None] is a panic. *)
Definition linux_configure_session (config : TunSessionConfig) (interface_name : string)
    (endpoint_routes : list Endpoint) : prog (option (result CleanupHook string)) :=
  let! built := build_and_filter_routes config interface_name endpoint_routes in
  match built with
  | Err e => pret (Some (Err e))
  | Ok (fr, er) =>
    match ips_to_args (config_servers config) with
    | None => pret None
    | Some dns_servers =>
      let dns_domains :=
        (fun domain => "~" +:+ domain) <$> normalize_domains (config_domains config) in
      pmap Some
        (let! setup_result := linux_setup fr er interface_name dns_servers dns_domains in
         into_cleanup_hook setup_result fr er interface_name revert_dns)
    end
  end.

Definition resolvectl (args : list string) : call Route Endpoint :=
  CommandOutput (mkCommand "resolvectl" args None []).

(** The DNS requests: revert, then servers and routing domains if any. *)
Definition linux_dns_calls (name : string) (servers domains : list string)
    : list (call Route Endpoint) :=
  resolvectl ["revert"; name] ::
  match servers with
  | [] => []
  | _ => [resolvectl (["dns"; name] ++ servers);
          resolvectl (["domain"; name] ++ ((fun d => "~" +:+ d) <$> domains))]
  end.

Definition linux_calls (fr : list Route) (er : list Endpoint) (name : string)
    (servers domains : list string) : list (call Route Endpoint) :=
  ((EndpointReplace <$> er) ++ route_calls fr) ++ linux_dns_calls name servers domains.

Lemma revert_dns_steps name : steps_through (revert_dns name) [resolvectl ["revert"; name]].
Proof. apply steps_map; [by intros [] | apply run_command_steps]. Qed.

Lemma revert_dns_trace name o h : trace (revert_dns name) o h = h ++ [resolvectl ["revert"; name]].
Proof.
  unfold trace, revert_dns, pmap. rewrite pbind_run. cbn. by rewrite run_command_trace.
Qed.

Lemma linux_setup_steps fr er name servers domains :
  (servers = [] <-> domains = []) ->
  steps_through (linux_setup fr er name servers ((fun d => "~" +:+ d) <$> domains))
    (linux_calls fr er name servers domains).
Proof.
  intros Hboth. unfold linux_setup, linux_calls.
  apply steps_try; [apply steps_try; [apply replace_endpoints_steps
                                     | intros; apply predelete_and_add_steps]|].
  intros _. unfold linux_dns_calls.
  apply (steps_try _ _ [resolvectl ["revert"; name]]); [apply revert_dns_steps|]. intros _.
  destruct servers as [|s l].
  - rewrite (bool_decide_false ([] <> [])) by naive_solver. apply steps_ret.
  - rewrite !bool_decide_true;
      [|intros E; apply fmap_nil_inv in E; naive_solver | done].
    apply (steps_try _ _ [_] [_]); [apply run_command_steps|]. intros _.
    apply (steps_try _ _ [_] []); [apply run_command_steps|]. intros _. apply steps_ret.
Qed.

Lemma linux_configure_session_run config name er servers o h :
  ips_to_args (config_servers config) = Some servers ->
  let fr := filtered_routes config name in
  let h1 := h ++ [RouteManagerNew] in
  let q := (let! setup_result := linux_setup fr er name servers
              ((fun d => "~" +:+ d) <$> normalize_domains (config_domains config)) in
            into_cleanup_hook setup_result fr er name revert_dns) in
  linux_configure_session config name er o h =
  match o h RouteManagerNew with
  | Ok _ => (Some (value q o h1), trace q o h1)
  | Err e => (Some (Err ("route manager: " +:+ io_message e)), h1)
  end.
Proof.
  intros Hs. cbn zeta. unfold linux_configure_session. rewrite pbind_run.
  unfold value at 1, trace at 1. rewrite build_and_filter_routes_run, Hs.
  destruct (o h RouteManagerNew) as [[]|e]; [|done].
  cbn [fst snd]. unfold pmap. by rewrite pbind_run.
Qed.

(** What a successful configuration has done. *)
Lemma linux_configure_session_ok config name er hook o h :
  validate_config Linux config = Ok tt ->
  value (linux_configure_session config name er) o h = Some (Ok hook) ->
  let fr := filtered_routes config name in
  let h1 := h ++ [RouteManagerNew] in
  exists servers,
    trace (linux_configure_session config name er) o h =
      h1 ++ linux_calls fr er name servers (normalize_domains (config_domains config)) /\
    hook = cleanup_routes fr er (revert_dns name) /\ failures (EndpointReplace <$> er) o h1 = [].
Proof.
  intros Hv Hok. cbn zeta. destruct (valid_dns_args _ _ Hv) as (servers & Hs & Hboth). exists servers. revert Hok.
  unfold value at 1, trace at 1. rewrite (linux_configure_session_run _ _ _ _ _ _ Hs).
  destruct (o h RouteManagerNew) as [[]|e]; cbn [fst snd]; [|done]. intros [= Hok].
  pose proof (setup_or_rollback _ _ (filtered_routes config name) er name revert_dns o (h ++ [RouteManagerNew])
    (linux_setup_steps (filtered_routes config name) er name servers _ Hboth)) as Hc.
  cbn zeta in Hc. rewrite Hok in Hc. destruct Hc as [Ht Hhook]. split_and!; [exact Ht | exact Hhook|].
  unfold value in Hok. rewrite pbind_run in Hok. apply replace_endpoints_ok. set (h1 := h ++ _) in *.
  destruct (value (linux_setup _ _ _ _ _) o h1) as [[]|e] eqn:Es.
  - apply ptry_ok in Es as (_ & ([] & Hr & _)%ptry_ok & _). exact Hr.
  - cbn [into_cleanup_hook] in Hok. rewrite pbind_run in Hok. by destruct (value (cleanup_routes _ _ _) o _).
Qed.

(** C7: on Linux, for an accepted configuration and any behaviour of the
    system, [configure_session] never panics; it either issues every request
    (endpoint exceptions, then routes, then DNS revert, servers and domains)
    and returns the teardown as its hook, or, having opened the route
    manager, issues a prefix of them followed by the complete teardown (the
    deletion of every route, unless the route manager cannot be opened again,
    and of every exception) and the DNS revert, and returns an error. *)
Theorem linux_configure_session_spec config name er o h :
  validate_config Linux config = Ok tt ->
  let p := linux_configure_session config name er in
  let fr := filtered_routes config name in
  let h1 := h ++ [RouteManagerNew] in
  exists servers r, ips_to_args (config_servers config) = Some servers /\
    value p o h = Some r /\
    if is_ok (o h RouteManagerNew)
    then configured fr er (revert_dns name)
           (linux_calls fr er name servers (normalize_domains (config_domains config)))
           o h1 r (trace p o h)
    else is_ok r = false /\ trace p o h = h1.
Proof.
  intros Hv. cbn zeta. destruct (valid_dns_args _ _ Hv) as (servers & Hs & Hboth).
  exists servers. unfold value at 1, trace at 1 2.
  rewrite (linux_configure_session_run _ _ _ _ _ _ Hs).
  destruct (o h RouteManagerNew) as [[]|e]; cbn [is_ok fst snd].
  - eexists. split_and!; [done..|]. apply setup_or_rollback. by apply linux_setup_steps.
  - eexists. split_and!; done.
Qed.
End Linux.

(** ** A concrete run *)
Import PlatformExamples.

Lemma linux_configure_session_spec_witness :
  let p := linux_configure_session (fun _ => "") (fun s => s) vpn_config "utun4" [tt] in
  exists hook, value p working [] = Some (Ok hook) /\ length (trace p working []) = 7.
Proof.
  cbn zeta.
  destruct (linux_configure_session_spec (fun _ => "") (fun s => s) vpn_config "utun4" [tt] working [])
    as (servers & r & Hs & Hv & Hc); [vm_compute; reflexivity|].
  assert (is_ok r = true) as Hok.
  { assert (is_ok <$> value (linux_configure_session (fun _ => "") (fun s => s) vpn_config "utun4" [tt])
      working [] = Some true) as E by (vm_compute; reflexivity).
    rewrite Hv in E. injection E. auto. }
  destruct r as [hook|]; [|discriminate Hok]. exists hook. split; [exact Hv|].
  cbn [is_ok working] in Hc. destruct Hc as [Ht _]. rewrite Ht.
  vm_compute in Hs. injection Hs as <-. vm_compute. reflexivity.
Defined.
