(* ===== verification/PlatformWindows.v ===== *)
(** * platform/windows.rs: session configuration on Windows

    Routes as on Linux, DNS through NRPT rules that PowerShell scripts set and
    clear; a rule's comment names the process instance and interface it belongs
    to. The theorems describe every run of [configure_session], that comments
    of different sessions differ, and that stale rules are cleared once. *)

From S2P Require Import Prelude RustStd Net Proto IpUtil Validation Os Platform.
From Stdlib Require Import Lia Ascii.

Definition NRPT_COMMENT_PREFIX : string := "kmpvpn-daemon:".

Definition dq : string := bytes_str [Byte.x22].
Definition newline : string := bytes_str [Byte.x0a].
Definition script (lines : list string) : string := newline +:+ join newline lines +:+ newline.

Definition SET_NRPT_RULE_SCRIPT : string := script
  [ "$ErrorActionPreference = 'Stop'";
    "$nameServers = ($env:WG_KOTLIN_DNS_SERVERS -split " +:+ dq +:+ "`n" +:+ dq
      +:+ ") | Where-Object { $_ -ne '' }";
    "$namespaces = ($env:WG_KOTLIN_DNS_NAMESPACES -split " +:+ dq +:+ "`n" +:+ dq
      +:+ ") | Where-Object { $_ -ne '' }";
    "foreach ($namespace in $namespaces) {";
    "    Add-DnsClientNrptRule -Namespace $namespace -NameServers $nameServers -Comment $env:WG_KOTLIN_NRPT_COMMENT";
    "}" ].

Definition CLEAR_NRPT_RULES_SCRIPT : string := script
  [ "$ErrorActionPreference = 'Stop'";
    "Get-DnsClientNrptRule | Where-Object { $_.Comment -eq $env:WG_KOTLIN_NRPT_COMMENT } | Remove-DnsClientNrptRule -Force" ].

Definition CLEAR_STALE_NRPT_RULES_SCRIPT : string := script
  [ "$ErrorActionPreference = 'Stop'";
    "$prefix = [regex]::Escape($env:WG_KOTLIN_NRPT_COMMENT_PREFIX)";
    "foreach ($rule in Get-DnsClientNrptRule) {";
    "    if ($rule.Comment -notmatch " +:+ dq +:+ "\A${prefix}([1-9][0-9]*):([0-9]+):utun[0-9]+\z"
      +:+ dq +:+ ") { continue }";
    "    [int]$ownerPid = 0";
    "    [long]$ownerStart = 0";
    "    if (-not [int]::TryParse($Matches[1], [ref]$ownerPid) -or -not [long]::TryParse($Matches[2], [ref]$ownerStart)) { continue }";
    "    $owner = $null";
    "    $alive = $false";
    "    try {";
    "        $owner = [System.Diagnostics.Process]::GetProcessById($ownerPid)";
    "        $alive = -not $owner.HasExited -and $owner.StartTime.ToFileTimeUtc() -eq $ownerStart";
    "    } catch [System.ArgumentException] {";
    "        # The PID no longer exists.";
    "    } catch [System.InvalidOperationException] {";
    "        # The process exited while its identity was being read.";
    "    } catch [System.ComponentModel.Win32Exception] {";
    "        # Keep rules when access to their owner's identity is unavailable.";
    "        continue";
    "    } finally {";
    "        if ($null -ne $owner) { $owner.Dispose() }";
    "    }";
    "    if (-not $alive) { $rule | Remove-DnsClientNrptRule -Force }";
    "}" ].

(** The comment of a rule: [{prefix}{pid}:{created_at}:{interface}]. *)
Definition comment_text (process_id created_at : N) (interface_name : string) : string :=
  NRPT_COMMENT_PREFIX +:+ pretty process_id +:+ ":" +:+ pretty created_at +:+ ":"
    +:+ interface_name.

Section Windows.
Context {Route Endpoint : Type} `{RouteLib Route}.
Context (from_utf8_lossy : list byte -> string) (to_lowercase : string -> string).
Abbreviation prog := (prog Route Endpoint).
Abbreviation run_command := (run_command from_utf8_lossy to_lowercase).

(** Fixed for the life of the process: its id, and the high and low words
    of its creation time from [GetProcessTimes]. *)
Context (process_id : N) (process_times : result (N * N) string).

Definition rule_comment (interface_name : string) : result string string :=
  match process_times with
  | Err error => Err ("failed to identify NRPT owner: " +:+ error)
  | Ok (high, low) =>
    Ok (comment_text process_id (N.lor (N.shiftl high 32) low) interface_name)
  end.

Definition powershell_args (script : string) : list string :=
  ["-NoProfile"; "-NonInteractive"; "-Command"; script].

Definition clear_nrpt_rules (interface_name : string) : prog (result unit string) :=
  match rule_comment interface_name with
  | Err e => pret (Err e)
  | Ok comment =>
    pmap (rmap (fun _ => tt))
      (run_command "clear-nrpt-rules" "powershell" (powershell_args CLEAR_NRPT_RULES_SCRIPT) None
         [("WG_KOTLIN_NRPT_COMMENT", comment)] [])
  end.

(** [clear_stale_nrpt_rules_once] over its static flag. *)
Definition clear_stale_nrpt_rules_once (cleared : bool) : prog (result unit string * bool) :=
  if cleared then pret (Ok tt, cleared)
  else
    let! r := run_command "clear-stale-nrpt-rules" "powershell"
                (powershell_args CLEAR_STALE_NRPT_RULES_SCRIPT) None
                [("WG_KOTLIN_NRPT_COMMENT_PREFIX", NRPT_COMMENT_PREFIX)] [] in
    pret match r with
         | Ok _ => (Ok tt, true)
         | Err e => (Err e, cleared)
         end.

(** The closure whose result is [setup_result]. *)
Definition windows_setup (fr : list Route) (er : list Endpoint) (interface_name : string)
    (dns_servers dns_domains : list string) : prog (result unit string) :=
  let!? _ := add_routes_with_predelete fr er in
  let!? _ := clear_nrpt_rules interface_name in
  if bool_decide (dns_domains <> []) && bool_decide (dns_servers <> []) then
    match rule_comment interface_name with
    | Err e => pret (Err e)
    | Ok comment =>
      let!? _ := run_command "set-nrpt-rules" "powershell" (powershell_args SET_NRPT_RULE_SCRIPT)
                   None [("WG_KOTLIN_DNS_NAMESPACES", join newline dns_domains);
                         ("WG_KOTLIN_DNS_SERVERS", join newline dns_servers);
                         ("WG_KOTLIN_NRPT_COMMENT", comment)] [] in
      pret (Ok tt)
    end
  else pret (Ok tt).

(** [None] is a panic. *)
Definition windows_configure_session (config : TunSessionConfig) (interface_name : string)
    (endpoint_routes : list Endpoint) : prog (option (result CleanupHook string)) :=
  let! built := build_and_filter_routes config interface_name endpoint_routes in
  match built with
  | Err e => pret (Some (Err e))
  | Ok (fr, er) =>
    match ips_to_args (config_servers config) with
    | None => pret None
    | Some dns_servers =>
      let dns_domains :=
        (fun domain => "." +:+ domain) <$> normalize_domains (config_domains config) in
      pmap Some
        (let! setup_result := windows_setup fr er interface_name dns_servers dns_domains in
         into_cleanup_hook setup_result fr er interface_name clear_nrpt_rules)
    end
  end.

(** ** The requests of a run *)

Definition powershell (script : string) (env : list (string * string)) : call Route Endpoint :=
  CommandOutput (mkCommand "powershell" (powershell_args script) None env).

(** The NRPT requests: clear the session's rules, then set them if any. *)
Definition nrpt_calls (comment : string) (servers domains : list string)
    : list (call Route Endpoint) :=
  powershell CLEAR_NRPT_RULES_SCRIPT [("WG_KOTLIN_NRPT_COMMENT", comment)] ::
  match servers with
  | [] => []
  | _ => [powershell SET_NRPT_RULE_SCRIPT
            [("WG_KOTLIN_DNS_NAMESPACES", join newline ((fun d => "." +:+ d) <$> domains));
             ("WG_KOTLIN_DNS_SERVERS", join newline servers);
             ("WG_KOTLIN_NRPT_COMMENT", comment)]]
  end.

Definition windows_calls (fr : list Route) (er : list Endpoint) (comment : string)
    (servers domains : list string) : list (call Route Endpoint) :=
  ((EndpointReplace <$> er) ++ route_calls fr) ++ nrpt_calls comment servers domains.

Lemma clear_nrpt_rules_steps name comment :
  rule_comment name = Ok comment ->
  steps_through (clear_nrpt_rules name)
    [powershell CLEAR_NRPT_RULES_SCRIPT [("WG_KOTLIN_NRPT_COMMENT", comment)]].
Proof.
  intros Hc. unfold clear_nrpt_rules. rewrite Hc.
  apply steps_map; [by intros [] | apply run_command_steps].
Qed.

Lemma windows_setup_steps fr er name comment servers domains :
  rule_comment name = Ok comment -> (servers = [] <-> domains = []) ->
  steps_through (windows_setup fr er name servers ((fun d => "." +:+ d) <$> domains))
    (windows_calls fr er comment servers domains).
Proof.
  intros Hc Hboth. unfold windows_setup, windows_calls. rewrite Hc.
  apply steps_try; [apply steps_try; [apply replace_endpoints_steps
                                     | intros; apply predelete_and_add_steps]|].
  intros _. unfold nrpt_calls.
  apply (steps_try _ _ [_]); [by apply clear_nrpt_rules_steps|]. intros _.
  destruct servers as [|s l].
  - rewrite (bool_decide_false ([] <> [])), andb_false_r by naive_solver. apply steps_ret.
  - rewrite !bool_decide_true;
      [|done | intros E; apply fmap_nil_inv in E; naive_solver].
    apply (steps_try _ _ [_] []); [apply run_command_steps|]. intros _. apply steps_ret.
Qed.

(** For an accepted configuration: the DNS arguments exist, and once a route
    manager can be opened the session is set up or rolled back. *)
Lemma windows_configure_run config name er o h :
  validate_config Windows config = Ok tt ->
  let domains := normalize_domains (config_domains config) in
  let fr := filtered_routes config name in
  exists servers, ips_to_args (config_servers config) = Some servers /\
    (servers = [] <-> domains = []) /\
    let q := (let! setup_result :=
                windows_setup fr er name servers ((fun d => "." +:+ d) <$> domains) in
              into_cleanup_hook setup_result fr er name clear_nrpt_rules) in
    let h1 := h ++ [RouteManagerNew] in
    windows_configure_session config name er o h =
    match o h RouteManagerNew with
    | Ok _ => (Some (value q o h1), trace q o h1)
    | Err e => (Some (Err ("route manager: " +:+ io_message e)), h1)
    end.
Proof.
  intros Hv. cbn zeta. destruct (valid_dns_args _ _ Hv) as (servers & Hs & Hboth).
  exists servers. split_and!; [done..|]. unfold windows_configure_session.
  rewrite pbind_run. unfold value at 1, trace at 1. rewrite build_and_filter_routes_run, Hs.
  destruct (o h RouteManagerNew) as [[]|e]; cbn [fst snd]; [|done].
  unfold pmap. by rewrite pbind_run.
Qed.

(** What a successful configuration has done. *)
Lemma windows_configure_session_ok config name er hook o h :
  validate_config Windows config = Ok tt ->
  value (windows_configure_session config name er) o h = Some (Ok hook) ->
  let fr := filtered_routes config name in
  let h1 := h ++ [RouteManagerNew] in
  exists comment servers,
    trace (windows_configure_session config name er) o h =
      h1 ++ windows_calls fr er comment servers (normalize_domains (config_domains config)) /\
    hook = cleanup_routes fr er (clear_nrpt_rules name) /\ failures (EndpointReplace <$> er) o h1 = [].
Proof.
  intros Hv Hok. cbn zeta. destruct (windows_configure_run config name er o h Hv) as (servers & Hs & Hboth & E).
  revert Hok. unfold value at 1, trace at 1. rewrite E.
  destruct (o h RouteManagerNew) as [[]|e]; cbn [fst snd]; [|done]. intros [= Hok]. set (h1 := h ++ _) in *.
  set (fr := filtered_routes config name) in *.
  set (domains := normalize_domains (config_domains config)) in *.
  assert (value (windows_setup fr er name servers ((fun d => "." +:+ d) <$> domains)) o h1 = Ok tt) as Es.
  { unfold value in Hok |- *. rewrite pbind_run in Hok. unfold value in Hok.
    destruct (windows_setup fr er name servers _ o h1) as [[[]|e] h2]; [done|]. cbn [fst into_cleanup_hook] in Hok.
    rewrite pbind_run in Hok. by destruct (value (cleanup_routes _ _ _) o _). }
  apply ptry_ok in Es as (_ & ([] & Hr & _)%ptry_ok & ([] & Hclear & _)%ptry_ok & _).
  assert (exists comment, rule_comment name = Ok comment) as [comment Hc].
  { unfold value, clear_nrpt_rules in Hclear. destruct (rule_comment name) as [c|]; [by exists c | done]. }
  exists comment, servers.
  pose proof (setup_or_rollback _ _ fr er name clear_nrpt_rules o h1
    (windows_setup_steps fr er name comment servers domains Hc Hboth)) as Hcfg.
  cbn zeta in Hcfg. rewrite Hok in Hcfg. destruct Hcfg as [Ht Hhook].
  split_and!; [exact Ht | exact Hhook|]. by apply replace_endpoints_ok.
Qed.

(** On Windows, for an accepted configuration, any behaviour of the
    system and a process that can identify itself, [configure_session] never
    panics; it issues every request (endpoint exceptions, routes, clearing and
    setting the session's NRPT rules, all tagged with the same comment) and
    returns the teardown as its hook, or a prefix of them followed by the
    complete teardown, and an error. *)
Theorem windows_configure_session_spec config name er comment o h :
  validate_config Windows config = Ok tt -> rule_comment name = Ok comment ->
  let p := windows_configure_session config name er in
  let fr := filtered_routes config name in
  let h1 := h ++ [RouteManagerNew] in
  exists servers r, ips_to_args (config_servers config) = Some servers /\
    value p o h = Some r /\
    if is_ok (o h RouteManagerNew)
    then configured fr er (clear_nrpt_rules name)
           (windows_calls fr er comment servers (normalize_domains (config_domains config)))
           o h1 r (trace p o h)
    else is_ok r = false /\ trace p o h = h1.
Proof.
  intros Hv Hc. cbn zeta.
  destruct (windows_configure_run config name er o h Hv) as (servers & Hs & Hboth & E).
  exists servers. unfold value at 1, trace at 1 2. rewrite E.
  destruct (o h RouteManagerNew) as [[]|e]; cbn [is_ok fst snd]; eexists; (split_and!; [done..|]);
    [|done]. apply setup_or_rollback. by apply windows_setup_steps.
Qed.

(** The stale-rule script runs until it has succeeded once and never
    again; a failure is reported and leaves it to the next session. *)
Theorem clear_stale_once cleared o h :
  let p := clear_stale_nrpt_rules_once cleared in
  let stale := powershell CLEAR_STALE_NRPT_RULES_SCRIPT
                 [("WG_KOTLIN_NRPT_COMMENT_PREFIX", NRPT_COMMENT_PREFIX)] in
  trace p o h = (if cleared then h else h ++ [stale]) /\
  (value p o h).2 = is_ok (value p o h).1 || cleared /\
  (cleared = true -> (value p o h).1 = Ok tt).
Proof.
  cbn zeta. unfold clear_stale_nrpt_rules_once, value, trace. destruct cleared; [done|].
  rewrite pbind_run, run_command_trace. cbn.
  by destruct (value (run_command _ _ _ _ _ _) o h).
Qed.
End Windows.

(** A rule's comment determines the process instance and the interface it
    belongs to, so clearing by comment never removes another session's rules. *)
Theorem comment_text_injective pid1 created1 name1 pid2 created2 name2 :
  comment_text pid1 created1 name1 = comment_text pid2 created2 name2 ->
  pid1 = pid2 /\ created1 = created2 /\ name1 = name2.
Proof.
  assert (forall x : N, lacks ":"%char (pretty x)) as Hd
    by (intros x; apply pretty_N_lacks; intros [|p]; [done|];
        cbn; by repeat (case_match; try done)).
  unfold comment_text. intros E. apply (inj (String.append _)) in E.
  apply split_at_separator in E as [E1 E]; [|done..].
  apply split_at_separator in E as [E2 ->]; [|done..].
  split_and!; [by apply (inj pretty) | by apply (inj pretty) | done].
Qed.

(** ** A concrete run *)
Import PlatformExamples.

Lemma comment_text_injective_witness :
  comment_text 4 133 "utun1" <> comment_text 4 133 "utun2".
Proof. intros E. destruct (comment_text_injective _ _ _ _ _ _ E) as (_ & _ & H). discriminate H. Defined.

Lemma windows_configure_session_spec_witness :
  let p := windows_configure_session (fun _ => "") (fun s => s) 4 (Ok (1%N, 2%N)) vpn_config "utun4" [tt] in
  exists hook, value p working [] = Some (Ok hook) /\
    length (trace p working []) = 6.
Proof.
  cbn zeta.
  destruct (windows_configure_session_spec (fun _ => "") (fun s => s) 4 (Ok (1%N, 2%N)) vpn_config
    "utun4" [tt] (comment_text 4 4294967298 "utun4") working [])
    as (servers & r & Hs & Hv & Hc); [vm_compute; reflexivity | vm_compute; reflexivity|].
  assert (is_ok r = true) as Hok.
  { assert (is_ok <$> value (windows_configure_session (fun _ => "") (fun s => s) 4 (Ok (1%N, 2%N))
      vpn_config "utun4" [tt]) working [] = Some true) as E by (vm_compute; reflexivity).
    rewrite Hv in E. injection E. auto. }
  destruct r as [hook|]; [|discriminate Hok]. exists hook. split; [exact Hv|].
  cbn [is_ok working] in Hc. destruct Hc as [Ht _]. rewrite Ht.
  vm_compute in Hs. injection Hs as <-. vm_compute. reflexivity.
Defined.
