(* ===== verification/Nrpt.v ===== *)
(** * platform/windows.rs: what the PowerShell scripts do to the NRPT table

    [PlatformWindows] treats the three scripts as text handed to [powershell].
    Here they are programs over the machine they run on: the table of name
    resolution policy rules, changed by cmdlets that may fail at any point, and
    the processes that own rules. The theorems: the clean-up of stale rules
    never takes a rule from a living owner or from anyone else, the scripts of
    a session touch its own rules only, and a configured session owns exactly the rules its configuration asks for, of
    which none are left once its teardown has cleared them. *)

From S2P Require Import Prelude RustStd Net NetText Proto IpUtil Validation Os Platform PlatformWindows.
From Stdlib Require Import Lia.

(** A rule, apart from the name (a GUID) the table keeps it under. *)
Record Rule : Type := mkRule {
  Namespace : string;
  NameServers : list string;
  Comment : option string;
}.

(** ** Text *)

Definition ascii (s : string) : Prop := Forall (fun b => in_range 0 127 b = true) (str_bytes s).

(** The ASCII part of case folding. *)
Definition lower_byte (b : byte) : byte := if in_range 65 90 b then z_u8 (u8z b + 32) else b.
Definition lower (s : string) : string := bytes_str (lower_byte <$> str_bytes s).

(** PowerShell compares text without regard to case: the folding behind
    [-notmatch] and the equality of [-eq]. Beyond ASCII they depend on the
    machine's culture tables. *)
Class Culture : Type := {
  fold_case : string -> string;
  text_eq : string -> string -> bool;
}.

Class CultureLaws `{Culture} : Prop := {
  fold_case_ascii s : ascii s -> fold_case s = lower s;
  text_eq_ascii a b : ascii a -> ascii b -> text_eq a b = bool_decide (lower a = lower b);
}.

Definition colon : byte := Byte.x3a.

Definition all_digits (l : list byte) : bool := bool_decide (l <> []) && forallb is_ascii_digit l.

(** The regular expression of the stale-rule script on case-folded text, with
    its two groups: the prefix, a number without leading zero, a colon, digits,
    a colon, an interface name, and nothing else. The digits hold no colon, so
    the colons decide where the groups end. *)
Definition match_comment (prefix text : list byte) : option (list byte * list byte) :=
  rest ← strip_prefix_bytes prefix text;
  match split_bytes colon rest with
  | [pid; start; interface] =>
    unit ← strip_prefix_bytes (str_bytes "utun") interface;
    if all_digits pid && bool_decide (head pid <> Some Byte.x30) && all_digits start && all_digits unit
    then Some (pid, start) else None
  | _ => None
  end.

(** [TryParse] of [int] and [long] on a group, which holds digits only. *)
Definition int_max : Z := 2147483647.
Definition long_max : Z := 9223372036854775807.

Definition TryParse (max : Z) (group : list byte) : option N :=
  v ← digits_value 0 group; if (v <=? max)%Z then Some (Z.to_N v) else None.

(** The process a rule names as its owner. *)
Definition rule_owner `{Culture} (prefix : string) (rule : Rule) : option (N * N) :=
  '(pid, start) ← match_comment (str_bytes (fold_case prefix))
                    (str_bytes (fold_case (default "" (Comment rule))));
  ownerPid ← TryParse int_max pid;
  ownerStart ← TryParse long_max start;
  Some (ownerPid, ownerStart).

(** [$_.Comment -eq $env:WG_KOTLIN_NRPT_COMMENT]. *)
Definition comment_is `{Culture} (comment : string) (rule : Rule) : bool :=
  match Comment rule with Some c => text_eq c comment | None => false end.

(** [($env:X -split "`n") | Where-Object { $_ -ne '' }]. *)
Definition lines (value : string) : list string :=
  filter (fun l => l <> "") (split Byte.x0a value).

(** ** The machine *)

(** Exceptions by the [catch] clause that takes them. *)
Inductive exn : Type :=
| ArgumentException
| InvalidOperationException
| Win32Exception
| OtherException (message : string).

(** The DNS client cmdlets and [System.Diagnostics.Process] over the state of
    the machine. [Get-DnsClientNrptRule] delivers rules and may then fail.
    [runs s pid start] and [exited s pid start]: the process of that PID and
    start time runs, or has run and ended. *)
Class Machine (state proc : Type) : Type := {
  rules : state -> gmap string Rule;
  get_rules : state -> list (string * Rule) * result unit string * state;
  add_rule : string -> list string -> string -> state -> result unit string * state;
  remove_rule : string -> state -> result unit string * state;
  GetProcessById : N -> state -> result proc exn * state;
  HasExited : proc -> state -> result bool exn * state;
  StartTime : proc -> state -> result N exn * state;
  instance : proc -> N * N;
  runs : state -> N -> N -> Prop;
  exited : state -> N -> N -> Prop;
}.

(** Time passes from [s] to [s']: a process goes on running or ends, and one
    that has ended does not come back. *)
Definition later `{Machine state proc} (s s' : state) : Prop := forall pid start,
  (runs s pid start -> runs s' pid start \/ exited s' pid start) /\
  (exited s pid start -> exited s' pid start).

(** A failed cmdlet may have had its effect. *)
Class MachineLaws (state proc : Type) `{Machine state proc} : Prop := {
  get_delivers s l r s' : get_rules s = (l, r, s') ->
    later s s' /\ rules s' = rules s /\ NoDup l.*1 /\
    (forall n x, (n, x) ∈ l -> rules s !! n = Some x) /\
    (is_ok r = true -> forall n x, rules s !! n = Some x -> (n, x) ∈ l);
  add_adds ns servers c s r s' : add_rule ns servers c s = (r, s') ->
    later s s' /\
    ((exists n, rules s !! n = None /\
        rules s' = <[n := mkRule ns servers (Some c)]> (rules s)) \/
     is_ok r = false /\ rules s' = rules s);
  remove_removes n s r s' : remove_rule n s = (r, s') ->
    later s s' /\ (rules s' = delete n (rules s) \/ is_ok r = false /\ rules s' = rules s);
  process_found pid s r s' : GetProcessById pid s = (r, s') ->
    later s s' /\ rules s' = rules s /\
    match r with
    | Ok p => (instance p).1 = pid /\
        forall start, runs s pid start -> instance p = (pid, start) \/ exited s' pid start
    | Err (ArgumentException | InvalidOperationException) =>
        forall start, runs s pid start -> exited s' pid start
    | Err _ => True
    end;
  exit_seen p s r s' : HasExited p s = (r, s') ->
    later s s' /\ rules s' = rules s /\
    match r with
    | Ok false => ~ exited s (instance p).1 (instance p).2
    | Ok true | Err (ArgumentException | InvalidOperationException) =>
        exited s' (instance p).1 (instance p).2
    | Err _ => True
    end;
  start_read p s r s' : StartTime p s = (r, s') ->
    later s s' /\ rules s' = rules s /\
    match r with
    | Ok start => start = (instance p).2
    | Err (ArgumentException | InvalidOperationException) =>
        exited s' (instance p).1 (instance p).2
    | Err _ => True
    end;
}.

(** ** The scripts

    [$ErrorActionPreference = 'Stop']: the first error ends the script. *)
Section Scripts.
Context `{Culture} {state proc : Type} `{Machine state proc}.

Definition script_run (A : Type) : Type := state -> result A string * state.

Definition done_with {A} (a : A) : script_run A := fun s => (Ok a, s).

Definition and_then {A B} (p : script_run A) (k : A -> script_run B) : script_run B := fun s =>
  match p s with
  | (Ok a, s1) => k a s1
  | (Err e, s1) => (Err e, s1)
  end.

Fixpoint for_each {A} (body : A -> script_run unit) (l : list A) : script_run unit :=
  match l with
  | [] => done_with tt
  | x :: r => and_then (body x) (fun _ => for_each body r)
  end.

Definition run_set_script (namespaces servers comment : string) : script_run unit :=
  for_each (fun namespace => add_rule namespace (lines servers) comment) (lines namespaces).

(** The pipeline removes what was delivered before an error of its source. *)
Definition run_clear_script (comment : string) : script_run unit := fun s =>
  let '(delivered, outcome, s1) := get_rules s in
  and_then (for_each (fun rule : string * Rule => remove_rule rule.1)
              (filter (fun rule : string * Rule => comment_is comment rule.2 = true) delivered))
    (fun _ s2 => (outcome, s2)) s1.

(** The [try] block: [$alive], or [None] where the rule is skipped. *)
Definition owner_alive (ownerPid ownerStart : N) : script_run (option bool) := fun s =>
  let '(attempt, s1) :=
    match GetProcessById ownerPid s with
    | (Err e, s1) => (Err e, s1)
    | (Ok owner, s1) =>
      match HasExited owner s1 with
      | (Err e, s2) => (Err e, s2)
      | (Ok true, s2) => (Ok false, s2)
      | (Ok false, s2) =>
        match StartTime owner s2 with
        | (Err e, s3) => (Err e, s3)
        | (Ok start, s3) => (Ok (start =? ownerStart)%N, s3)
        end
      end
    end in
  (match attempt with
   | Ok alive => Ok (Some alive)
   | Err ArgumentException | Err InvalidOperationException => Ok (Some false)
   | Err Win32Exception => Ok None
   | Err (OtherException message) => Err message
   end, s1).

(** The body of the loop over the rules. *)
Definition clear_if_stale (prefix : string) (rule : string * Rule) : script_run unit :=
  match rule_owner prefix rule.2 with
  | None => done_with tt
  | Some (ownerPid, ownerStart) =>
    and_then (owner_alive ownerPid ownerStart) (fun alive =>
      match alive with
      | Some false => remove_rule rule.1
      | _ => done_with tt
      end)
  end.

(** The loop collects its rules before it starts. *)
Definition run_stale_script (prefix : string) : script_run unit := fun s =>
  let '(delivered, outcome, s1) := get_rules s in
  match outcome with
  | Err e => (Err e, s1)
  | Ok _ => for_each (clear_if_stale prefix) delivered s1
  end.
End Scripts.

(** ** Lemmas on text *)

(** ASCII without upper-case letters: folding case changes nothing. *)
Definition uncased (s : string) : Prop :=
  Forall (fun b => in_range 0 127 b && negb (in_range 65 90 b) = true) (str_bytes s).

Lemma uncased_app s t : uncased (s +:+ t) <-> uncased s /\ uncased t.
Proof. unfold uncased. by rewrite str_bytes_app, Forall_app. Qed.

Lemma uncased_digits l : digits l -> uncased (bytes_str l).
Proof.
  unfold uncased, is_ascii_digit, in_range. rewrite str_bytes_str. intros Hd.
  eapply Forall_impl; [exact Hd|]. intros b. cbn beta.
  rewrite !andb_true_iff, negb_true_iff, andb_false_iff, !Z.leb_le, !Z.leb_gt. lia.
Qed.

Lemma uncased_ascii s : uncased s -> ascii s.
Proof. intros Hs. eapply Forall_impl; [exact Hs|]. cbn beta. by intros b [? _]%andb_true_iff. Qed.

Lemma lower_uncased s : uncased s -> lower s = s.
Proof.
  intros Hs. unfold lower. rewrite <- (bytes_str_bytes s) at 2. f_equal.
  induction Hs as [|b l [_ Hb%negb_true_iff]%andb_true_iff _ IH]; [done|].
  rewrite fmap_cons, IH. unfold lower_byte. by rewrite Hb.
Qed.

Lemma fold_case_uncased `{CultureLaws} s : uncased s -> fold_case s = s.
Proof. intros Hs. rewrite fold_case_ascii by by apply uncased_ascii. by apply lower_uncased. Qed.

Lemma text_eq_uncased `{CultureLaws} a b :
  uncased a -> uncased b -> text_eq a b = bool_decide (a = b).
Proof.
  intros Ha Hb. rewrite text_eq_ascii by by apply uncased_ascii. by rewrite !lower_uncased.
Qed.

Lemma all_digits_spec l : all_digits l = true <-> l <> [] /\ digits l.
Proof. unfold all_digits. by rewrite andb_true_iff, bool_decide_eq_true, forallb_Forall. Qed.

Lemma digits_lack_colon l : digits l -> colon ∉ l.
Proof. intros Hl Hin. rewrite Forall_forall in Hl. by apply Hl in Hin. Qed.

(** The recogniser accepts the language of the regular expression. *)
Lemma match_comment_spec prefix text pid start :
  match_comment prefix text = Some (pid, start) <->
  exists unit, text = prefix ++ pid ++ colon :: start ++ colon :: str_bytes "utun" ++ unit /\
    pid <> [] /\ digits pid /\ head pid <> Some Byte.x30 /\
    start <> [] /\ digits start /\ unit <> [] /\ digits unit.
Proof.
  unfold match_comment. split.
  - intros (rest & Hrest & E)%bind_Some. apply strip_prefix_bytes_spec in Hrest as ->.
    destruct (split_bytes colon rest) as [|a [|b [|c [|]]]] eqn:Es; try done.
    apply bind_Some in E as (unit & Hu & E). apply strip_prefix_bytes_spec in Hu as ->.
    destruct (_ && _) eqn:Eb; [|done]. injection E as <- <-.
    rewrite !andb_true_iff, !all_digits_spec, bool_decide_eq_true in Eb.
    exists unit. split; [|tauto]. by rewrite <- (join_split_bytes colon rest), Es.
  - intros (unit & -> & H1 & H2 & H3 & H4 & H5 & H6 & H7).
    rewrite (proj2 (strip_prefix_bytes_spec prefix _ _) eq_refl). cbn [mbind option_bind].
    rewrite split_bytes_app by by apply digits_lack_colon.
    rewrite split_bytes_app by by apply digits_lack_colon.
    rewrite split_bytes_nosep.
    2:{ apply not_elem_of_app. split; [|by apply digits_lack_colon].
        cbn. rewrite !not_elem_of_cons. split_and!; [done..|apply not_elem_of_nil]. }
    rewrite (proj2 (strip_prefix_bytes_spec (str_bytes "utun") _ _) eq_refl).
    cbn [mbind option_bind].
    by rewrite (proj2 (all_digits_spec pid)), (proj2 (all_digits_spec start)),
      (proj2 (all_digits_spec unit)), (bool_decide_true (_ <> _)).
Qed.

Lemma TryParse_pretty max (x : N) :
  TryParse max (str_bytes (pretty x)) = if (Z.of_N x <=? max)%Z then Some x else None.
Proof.
  destruct (pretty_N_digits x) as (_ & Hd & Hv & _). unfold TryParse.
  rewrite digits_value_all by done. cbn [mbind option_bind].
  change (foldl _ 0%Z ?l) with (dec_value l). rewrite Hv. case_match; [|done]. by rewrite N2Z.id.
Qed.

Lemma utun_uncased t name : utun_name t name -> uncased name.
Proof.
  intros (d & -> & _ & Hd & _). apply uncased_app. split; [by repeat constructor|].
  rewrite <- (bytes_str_bytes d). by apply uncased_digits.
Qed.

Lemma pretty_uncased (x : N) : uncased (pretty x).
Proof.
  rewrite <- (bytes_str_bytes (pretty x)). apply uncased_digits. by destruct (pretty_N_digits x) as (_ & ? & _).
Qed.

Lemma comment_uncased t pid start name :
  utun_name t name -> uncased (comment_text pid start name).
Proof.
  intros Hn. unfold comment_text. rewrite !uncased_app.
  split_and!; [by repeat constructor | apply pretty_uncased | by repeat constructor
              | apply pretty_uncased | by repeat constructor | by apply utun_uncased in Hn].
Qed.

(** The stale-rule script reads the comments [rule_comment] writes. *)
Lemma rule_owner_comment `{CultureLaws} t pid start name rule :
  utun_name t name -> (0 < pid)%N -> Comment rule = Some (comment_text pid start name) ->
  rule_owner NRPT_COMMENT_PREFIX rule =
  if ((Z.of_N pid <=? int_max) && (Z.of_N start <=? long_max))%Z then Some (pid, start) else None.
Proof.
  intros Hn Hpid E. unfold rule_owner. rewrite E. cbn [default from_option id].
  rewrite (fold_case_uncased NRPT_COMMENT_PREFIX) by by repeat constructor.
  rewrite fold_case_uncased by by eapply comment_uncased.
  destruct (pretty_N_digits pid) as (Hp1 & Hp2 & _ & Hp4).
  destruct (pretty_N_digits start) as (Hs1 & Hs2 & _).
  destruct Hn as (d & -> & Hd & Hdd & _).
  rewrite (proj2 (match_comment_spec _ _ (str_bytes (pretty pid)) (str_bytes (pretty start)))).
  - cbn [mbind option_bind]. rewrite !TryParse_pretty. by repeat case_match.
  - exists (str_bytes d). split_and!; auto.
    + unfold comment_text. rewrite !str_bytes_app. reflexivity.
    + by rewrite str_bytes_nil.
Qed.

(** ** Lemmas on the scripts *)

Section ScriptLemmas.
Context `{CultureLaws} {state proc : Type} `{MachineLaws state proc}.
Implicit Types (s : state) (n : string) (x : Rule).

#[global] Instance later_preorder : PreOrder (later (state:=state) (proc:=proc)).
Proof.
  split; [by intros s pid start; split; [left|]|].
  intros s1 s2 s3 H12 H23 pid start.
  destruct (H12 pid start), (H23 pid start). split; naive_solver.
Qed.

Lemma owner_alive_spec pid start s r s' :
  owner_alive pid start s = (r, s') ->
  later s s' /\ rules s' = rules s /\
  (r = Ok (Some false) -> runs s pid start -> exited s' pid start) /\
  (r = Ok (Some true) -> ~ exited s pid start).
Proof.
  unfold owner_alive. destruct (GetProcessById pid s) as [[p|e] s1] eqn:E1.
  2:{ apply process_found in E1 as (L1 & R1 & F1). intros [= <- <-].
      split_and!; [done..| |]; destruct e; naive_solver. }
  apply process_found in E1 as (L1 & R1 & Ep & F1).
  destruct (HasExited p s1) as [[[]|e] s2] eqn:E2;
    apply exit_seen in E2 as (L2 & R2 & F2); rewrite Ep in F2.
  - intros [= <- <-]. split_and!; [by etrans | congruence | | done]. intros _ Hr.
    destruct (F1 start Hr) as [Ei|He]; [by rewrite Ei in F2 | by apply L2].
  - destruct (StartTime p s2) as [[u|e] s3] eqn:E3;
      apply start_read in E3 as (L3 & R3 & F3); intros [= <- <-];
      (split_and!; [by etrans; [|etrans] | congruence | |]).
    + intros [= ?%N.eqb_neq] Hr. destruct (F1 start Hr) as [Ei|He]; [|by apply L3, L2].
      rewrite Ei in F3. cbn in F3. congruence.
    + intros [= Eq%N.eqb_eq] He. apply F2. rewrite <- F3, Eq. by apply L1.
    + rewrite Ep in F3. intros Hx Hr.
      assert (exited s3 pid (instance p).2) as He by (destruct e; naive_solver).
      destruct (F1 start Hr) as [Ei|He']; [by rewrite Ei in He | by apply L3, L2].
    + by destruct e.
  - intros [= <- <-]. split_and!; [by etrans | congruence | | by destruct e].
    intros Hx Hr. assert (exited s2 pid (instance p).2) as He by (destruct e; naive_solver).
    destruct (F1 start Hr) as [Ei|He']; [by rewrite Ei in He | by apply L2].
Qed.

(** From [s] to [s'] rules were only removed, and only rules whose comment
    names an owner that had ended by [s']. *)
Definition only_stale_removed s s' : Prop :=
  later s s' /\ rules s' ⊆ rules s /\
  forall n x, rules s !! n = Some x -> rules s' !! n <> Some x ->
    exists pid start, rule_owner NRPT_COMMENT_PREFIX x = Some (pid, start) /\
      (runs s pid start -> exited s' pid start).

#[global] Instance only_stale_removed_preorder : PreOrder only_stale_removed.
Proof.
  split; [by intros s; split_and!|].
  intros s1 s2 s3 (L1 & S1 & R1) (L2 & S2 & R2). split_and!; [by etrans | by etrans |].
  intros n x Hx Hn. destruct (decide (is_Some (rules s2 !! n))) as [[y Hy]|Hnone].
  - assert (y = x) as -> by (apply (lookup_weaken _ _ _ _ Hy) in S1; congruence).
    destruct (R2 n x Hy Hn) as (pid & start & Ho & He). exists pid, start. split; [done|].
    intros Hr. destruct (L1 pid start) as [[Hr'|Hd] _]; [done | by auto | by apply L2].
  - destruct (R1 n x Hx) as (pid & start & Ho & He); [intros E; apply Hnone; eauto|].
    exists pid, start. split; [done|]. intros Hr. by apply L2, He.
Qed.

(** The table knows a delivered rule under its name as that rule, if at all. *)
Definition current (l : list (string * Rule)) s : Prop :=
  forall n x y, (n, x) ∈ l -> rules s !! n = Some y -> y = x.

Lemma current_shrinks l l' s s' :
  current l s -> l' ⊆ l -> rules s' ⊆ rules s -> current l' s'.
Proof.
  intros Hc Hl Hs n x y Hin Hy. apply (Hc n x y); [by apply Hl | by eapply lookup_weaken].
Qed.

(** The rules of a dead owner are removed unless reading the identity of the
    process that has its PID now is denied. *)
Definition denied (pid start : N) s : Prop :=
  exists s1 s2, later s s1 /\ owner_alive pid start s1 = (Ok None, s2).

Lemma clear_if_stale_spec n x s r s' :
  current [(n, x)] s -> clear_if_stale NRPT_COMMENT_PREFIX (n, x) s = (r, s') ->
  only_stale_removed s s' /\
  (is_ok r = true -> forall pid start, rule_owner NRPT_COMMENT_PREFIX x = Some (pid, start) ->
     exited s pid start -> rules s' !! n = None \/ denied pid start s).
Proof.
  intros Hc. unfold clear_if_stale. cbn [fst snd].
  destruct (rule_owner NRPT_COMMENT_PREFIX x) as [[pid start]|] eqn:Ho; [|by intros [= <- <-]].
  unfold and_then. destruct (owner_alive pid start s) as [[alive|e] s1] eqn:Ea;
    pose proof (owner_alive_spec _ _ _ _ _ Ea) as (L1 & R1 & Fdead & Falive).
  2:{ intros [= <- <-]. split; [|done]. split_and!; [done | by rewrite R1 |].
      intros m y Hy Hn. by rewrite R1 in Hn. }
  destruct alive as [[]|].
  - intros [= <- <-]. split; [split_and!; [done | by rewrite R1 | intros m y Hy Hn; by rewrite R1 in Hn]|].
    intros _ ? ? [= <- <-] He. by destruct (Falive eq_refl).
  - intros E. apply remove_removes in E as [L2 R2]. split.
    + split_and!; [by etrans| |].
      * destruct R2 as [->|[_ ->]]; rewrite R1; [apply delete_subseteq | done].
      * intros m y Hy Hn. destruct (decide (m = n)) as [->|Hm].
        -- exists pid, start. assert (y = x) as -> by (eapply Hc; [apply list_elem_of_here|done]).
           split; [done|]. intros Hr. by apply L2, Fdead.
        -- destruct R2 as [R2|[_ R2]]; rewrite R2, R1 in Hn; [|done].
           by rewrite lookup_delete_ne in Hn.
    + intros Hok ? ? _ _. left. destruct R2 as [->|[Hr _]]; [apply lookup_delete_eq | congruence].
  - intros [= <- <-]. split; [split_and!; [done | by rewrite R1 | intros m y Hy Hn; by rewrite R1 in Hn]|].
    intros _ ? ? [= <- <-] He. right. by exists s, s1.
Qed.

Lemma clear_all_stale_spec l s r s' :
  current l s -> for_each (clear_if_stale NRPT_COMMENT_PREFIX) l s = (r, s') ->
  only_stale_removed s s' /\
  (is_ok r = true -> forall n x pid start, (n, x) ∈ l ->
     rule_owner NRPT_COMMENT_PREFIX x = Some (pid, start) ->
     exited s pid start -> rules s' !! n = None \/ denied pid start s).
Proof.
  revert s. induction l as [|[n x] l IH]; intros s Hc; cbn [for_each].
  { intros [= <- <-]. split; [reflexivity|]. intros _ ? ? ? ? []%not_elem_of_nil. }
  unfold and_then at 1. destruct (clear_if_stale _ (n, x) s) as [[[]|e] s1] eqn:E1;
    apply clear_if_stale_spec in E1 as [O1 D1];
    try (eapply current_shrinks; [exact Hc | set_solver | done]).
  2:{ by intros [= <- <-]. }
  intros E. pose proof O1 as (L1 & S1 & _).
  apply IH in E as [O2 D2]; [|eapply current_shrinks; [exact Hc | set_solver | done]].
  split; [by etrans|]. intros Hok m y pid start [[= -> ->]|Hin]%elem_of_cons Ho He.
  - destruct (D1 eq_refl pid start Ho He) as [Hn|Hd]; [left | by right].
    destruct O2 as (_ & S2 & _). by eapply lookup_weaken_None.
  - destruct (D2 Hok m y pid start Hin Ho) as [Hn|(s2 & s3 & L2 & Ed)]; [by apply L1 | by left |].
    right. exists s2, s3. split; [by etrans | done].
Qed.

Lemma stale_script_spec s r s' :
  run_stale_script NRPT_COMMENT_PREFIX s = (r, s') ->
  only_stale_removed s s' /\
  (is_ok r = true -> forall n x pid start, rules s !! n = Some x ->
     rule_owner NRPT_COMMENT_PREFIX x = Some (pid, start) ->
     exited s pid start -> rules s' !! n = None \/ denied pid start s).
Proof.
  unfold run_stale_script. destruct (get_rules s) as [[l q] s1] eqn:Eg.
  apply get_delivers in Eg as (L1 & R1 & _ & Hin & Hall).
  assert (only_stale_removed s s1) as O1.
  { split_and!; [done | by rewrite R1 |]. intros m y Hy Hn. by rewrite R1 in Hn. }
  destruct q as [[]|e]; [|by intros [= <- <-]].
  intros [O2 D2]%clear_all_stale_spec.
  2:{ intros n x y Hx Hy. rewrite R1 in Hy. apply Hin in Hx. congruence. }
  split; [by etrans|]. intros Hok n x pid start Hx Ho He.
  destruct (D2 Hok n x pid start) as [Hn|(s2 & s3 & L2 & Ed)];
    [by apply Hall | done | by apply L1 | by left |].
  right. exists s2, s3. split; [by etrans | done].
Qed.

(** The rules a comment claims, and the others. *)
Definition own (comment : string) (m : gmap string Rule) : gmap string Rule :=
  filter (fun kv => comment_is comment kv.2 = true) m.
Definition others (comment : string) (m : gmap string Rule) : gmap string Rule :=
  filter (fun kv => comment_is comment kv.2 = false) m.

Lemma own_empty comment m :
  (forall n x, m !! n = Some x -> comment_is comment x = false) -> own comment m = ∅.
Proof.
  intros Hm. apply map_empty. intros n. apply map_lookup_filter_None. right.
  intros x Hx. cbn. by rewrite (Hm n x Hx).
Qed.

Lemma others_delete comment n x (m : gmap string Rule) :
  (forall y, m !! n = Some y -> y = x) -> comment_is comment x = true ->
  others comment (delete n m) = others comment m.
Proof.
  intros Hx Ho. apply map_filter_strong_ext. intros m' y. split; intros [Hc Hl]; split; try done.
  - by apply lookup_delete_Some in Hl as [_ ?].
  - apply lookup_delete_Some. split; [|done]. intros <-. cbn in Hc. rewrite (Hx y Hl) in Hc. congruence.
Qed.

(** Removing what was delivered under a comment. *)
Lemma remove_each_spec comment l s r s' :
  current l s -> Forall (fun kv => comment_is comment kv.2 = true) l ->
  for_each (fun rule : string * Rule => remove_rule rule.1) l s = (r, s') ->
  rules s' ⊆ rules s /\ others comment (rules s') = others comment (rules s) /\
  (is_ok r = true -> forall n x, (n, x) ∈ l -> rules s' !! n = None).
Proof.
  revert s. induction l as [|[n x] l IH]; intros s Hc Hl; cbn [for_each fst].
  { intros [= <- <-]. split_and!; [done..|]. intros _ ? ? []%not_elem_of_nil. }
  apply Forall_cons in Hl as [Hx Hl]. unfold and_then at 1.
  destruct (remove_rule n s) as [q s1] eqn:E1. apply remove_removes in E1 as [_ R1].
  assert (rules s1 ⊆ rules s) as S1
    by (destruct R1 as [->|[_ ->]]; [apply delete_subseteq | done]).
  assert (others comment (rules s1) = others comment (rules s)) as O1.
  { destruct R1 as [->|[_ ->]]; [|done]. apply (others_delete _ _ x); [|done].
    intros y. apply Hc, list_elem_of_here. }
  destruct q as [[]|e]; [|by intros [= <- <-]]. intros E.
  apply IH in E as (S2 & O2 & D2); [|by eapply current_shrinks; [exact Hc | set_solver | done] | done].
  split_and!; [by etrans | by rewrite O2 |].
  intros Hok m y [[= -> ->]|Hin]%elem_of_cons; [|by eapply D2].
  eapply lookup_weaken_None; [|exact S2].
  destruct R1 as [->|[? _]]; [apply lookup_delete_eq | done].
Qed.

Lemma clear_script_spec comment s r s' :
  run_clear_script comment s = (r, s') ->
  rules s' ⊆ rules s /\ others comment (rules s') = others comment (rules s) /\
  (is_ok r = true -> own comment (rules s') = ∅).
Proof.
  unfold run_clear_script. destruct (get_rules s) as [[l q] s1] eqn:Eg.
  apply get_delivers in Eg as (_ & R1 & _ & Hin & Hall).
  unfold and_then. destruct (for_each _ _ s1) as [q1 s2] eqn:Ef.
  apply (remove_each_spec comment) in Ef as (S2 & O2 & D2).
  - rewrite R1 in S2, O2. destruct q1 as [[]|e]; intros [= <- <-]; (split_and!; [done..|]); [|done].
    intros Hok. apply own_empty. intros n x Hx. apply not_true_is_false. intros Hc.
    enough (rules s2 !! n = None) by congruence. apply (D2 eq_refl n x).
    apply list_elem_of_filter. split; [done|]. apply Hall; [done|]. by eapply lookup_weaken.
  - intros n x y Hx Hy. apply list_elem_of_filter in Hx as [_ Hx]. rewrite R1 in Hy.
    apply Hin in Hx. congruence.
  - apply Forall_forall. by intros kv [? _]%list_elem_of_filter.
Qed.

(** [s'] has, beside the rules of [s], the rules [xs] under new names. *)
Definition extended (xs : list Rule) s s' : Prop :=
  exists m, m ##ₘ rules s /\ rules s' = m ∪ rules s /\ (map_to_list m).*2 ≡ₚ xs.

Lemma extended_nil s s' : rules s' = rules s -> extended [] s s'.
Proof.
  intros E. exists ∅. split_and!; [apply map_disjoint_empty_l | by rewrite map_empty_union |].
  by rewrite map_to_list_empty.
Qed.

Lemma extended_cons x xs s s1 s' n :
  rules s !! n = None -> rules s1 = <[n := x]> (rules s) -> extended xs s1 s' ->
  extended (x :: xs) s s'.
Proof.
  intros Hn E1 (m & Hd & E2 & Hp). rewrite E1 in *.
  apply map_disjoint_insert_r in Hd as [Hmn Hd]. exists (<[n := x]> m). split_and!.
  - by apply map_disjoint_insert_l.
  - rewrite E2. by rewrite <- insert_union_l, <- insert_union_r.
  - rewrite map_to_list_insert by done. cbn. by rewrite Hp.
Qed.

Lemma add_each_spec servers comment l s r s' :
  for_each (fun namespace => add_rule namespace servers comment) l s = (r, s') ->
  exists done, done `prefix_of` l /\ (is_ok r = true -> done = l) /\
    extended ((fun ns => mkRule ns servers (Some comment)) <$> done) s s'.
Proof.
  revert s. induction l as [|ns l IH]; intros s; cbn [for_each].
  { intros [= <- <-]. exists []. split_and!; [done..|]. by apply extended_nil. }
  unfold and_then. destruct (add_rule ns servers comment s) as [q s1] eqn:E1.
  apply add_adds in E1 as [_ [(n & Hn & R1)|[Hq R1]]].
  - destruct q as [[]|e].
    + intros (dn & Hpre & Hok & Hx)%IH. exists (ns :: dn).
      split_and!; [by apply prefix_cons | intros; f_equal; by apply Hok |].
      rewrite fmap_cons. by eapply extended_cons.
    + intros [= <- <-]. exists [ns]. split_and!; [apply prefix_cons, prefix_nil | done |].
      eapply extended_cons; [done..|]. by apply extended_nil.
  - destruct q as [[]|e]; [done|]. intros [= <- <-]. exists [].
    split_and!; [apply prefix_nil | done | by apply extended_nil].
Qed.

Lemma set_script_spec namespaces servers comment s r s' :
  text_eq comment comment = true -> run_set_script namespaces servers comment s = (r, s') ->
  exists dn m, dn `prefix_of` lines namespaces /\ (is_ok r = true -> dn = lines namespaces) /\
    (map_to_list m).*2 ≡ₚ (fun ns => mkRule ns (lines servers) (Some comment)) <$> dn /\
    own comment (rules s') = m ∪ own comment (rules s) /\
    others comment (rules s') = others comment (rules s).
Proof.
  intros Heq (dn & Hpre & Hok & m & Hd & E & Hp)%add_each_spec. exists dn, m.
  assert (forall n x, m !! n = Some x -> comment_is comment x = true) as Hm.
  { intros n x Hx. assert (x ∈ (map_to_list m).*2) as Hin.
    { apply list_elem_of_fmap. exists (n, x). split; [done|]. by apply elem_of_map_to_list. }
    rewrite Hp in Hin. by apply list_elem_of_fmap in Hin as (ns & -> & _). }
  split_and!; [done..| |]; unfold own, others; rewrite E, map_filter_union by done.
  - f_equal. by apply map_filter_id.
  - rewrite (proj2 (map_empty (filter _ m))); [by rewrite map_empty_union|].
    intros n. apply map_lookup_filter_None. right. intros x Hx. cbn. by rewrite (Hm n x Hx).
Qed.

(** The comments of two sessions, here or in another daemon, are told apart. *)
Lemma comment_is_session t pid start name t' pid' start' name' rule :
  utun_name t name -> utun_name t' name' ->
  Comment rule = Some (comment_text pid' start' name') ->
  comment_is (comment_text pid start name) rule =
  bool_decide ((pid', start', name') = (pid, start, name)).
Proof.
  intros Hn Hn' E. unfold comment_is. rewrite E.
  rewrite text_eq_uncased by by eapply comment_uncased. apply bool_decide_ext. split.
  - by intros (-> & -> & ->)%comment_text_injective.
  - by intros [= -> -> ->].
Qed.

Lemma comment_is_self t pid start name :
  utun_name t name ->
  text_eq (comment_text pid start name) (comment_text pid start name) = true.
Proof. intros Hn. rewrite text_eq_uncased by by eapply comment_uncased. by apply bool_decide_true. Qed.

(** C24: clearing stale rules takes nothing from the living. Whatever fails and
    whenever it stops, the script adds no rule and removes only rules tagged
    with the PID and start time of a process that has ended by then; in
    particular a rule that a session of a daemon that is still running owns
    stays. When the script succeeds, every rule of a daemon that had ended is
    gone, unless Windows denied it the identity of the process that uses the
    PID now. *)
Theorem stale_cleanup_spares_living s :
  let '(r, s') := run_stale_script NRPT_COMMENT_PREFIX s in
  rules s' ⊆ rules s /\
  (forall n x, rules s !! n = Some x -> rules s' !! n <> Some x ->
     exists pid start, rule_owner NRPT_COMMENT_PREFIX x = Some (pid, start) /\
       (runs s pid start -> exited s' pid start)) /\
  (forall n x pid start name, rules s !! n = Some x ->
     Comment x = Some (comment_text pid start name) -> utun_name Windows name -> (0 < pid)%N ->
     (runs s pid start -> ~ exited s' pid start -> rules s' !! n = Some x) /\
     (is_ok r = true -> (Z.of_N pid <= int_max)%Z -> (Z.of_N start <= long_max)%Z ->
        exited s pid start -> rules s' !! n = None \/ denied pid start s)).
Proof.
  destruct (run_stale_script NRPT_COMMENT_PREFIX s) as [r s'] eqn:E.
  apply stale_script_spec in E as ((L & S & O) & D). split_and!; [done..|].
  intros n x pid start name Hx Hc Hn Hpid.
  pose proof (rule_owner_comment _ pid start name x Hn Hpid Hc) as Ho. split.
  - intros Hr He. destruct (decide (is_Some (rules s' !! n))) as [[y Hy]|Hnone].
    { rewrite Hy. f_equal. apply (lookup_weaken _ _ _ _ Hy) in S. congruence. }
    exfalso. destruct (O n x Hx) as (pid' & start' & Ho' & He'); [intros Hs; apply Hnone; eauto|].
    rewrite Ho' in Ho. destruct (_ && _); [|done]. injection Ho as -> ->. auto.
  - intros Hok Hp Hs Hex. apply (D Hok n x); [done| |done]. rewrite Ho.
    by rewrite (proj2 (Z.leb_le _ _) Hp), (proj2 (Z.leb_le _ _) Hs).
Qed.

(** C25: the scripts of a session touch its own rules and no others. Clearing
    leaves every rule with another comment as it was and, when it succeeds,
    none of the session's; setting adds rules of the session only, one for
    each namespace in turn, and all of them when it succeeds; and a rule of any
    other session, of this daemon or another, is among the others. *)
Theorem session_scripts_isolated pid start name s :
  utun_name Windows name ->
  let comment := comment_text pid start name in
  (let '(r, s') := run_clear_script comment s in
   rules s' ⊆ rules s /\ others comment (rules s') = others comment (rules s) /\
   (is_ok r = true -> own comment (rules s') = ∅)) /\
  (forall namespaces servers, let '(r, s') := run_set_script namespaces servers comment s in
   exists added m, added `prefix_of` lines namespaces /\
     (is_ok r = true -> added = lines namespaces) /\
     (map_to_list m).*2 ≡ₚ (fun ns => mkRule ns (lines servers) (Some comment)) <$> added /\
     own comment (rules s') = m ∪ own comment (rules s) /\
     others comment (rules s') = others comment (rules s)) /\
  (forall n x pid' start' name', rules s !! n = Some x ->
     Comment x = Some (comment_text pid' start' name') -> utun_name Windows name' ->
     (pid', start', name') <> (pid, start, name) -> others comment (rules s) !! n = Some x).
Proof.
  intros Hn comment. split_and!.
  - destruct (run_clear_script comment s) as [r s'] eqn:E. by apply clear_script_spec.
  - intros namespaces servers. destruct (run_set_script namespaces servers comment s) as [r s'] eqn:E.
    apply set_script_spec in E; [done|]. by eapply comment_is_self.
  - intros n x pid' start' name' Hx Hc Hn' Hne. apply map_lookup_filter_Some. split; [done|]. cbn.
    unfold comment. rewrite (comment_is_session _ _ _ _ _ _ _ _ _ Hn Hn' Hc).
    by apply bool_decide_false.
Qed.
End ScriptLemmas.

(** ** Lists in environment variables *)

(** Printable ASCII without the blank. *)
Definition graphic (s : string) : Prop := Forall (fun b => in_range 33 126 b = true) (str_bytes s).

Lemma graphic_app s t : graphic (s +:+ t) <-> graphic s /\ graphic t.
Proof. unfold graphic. by rewrite str_bytes_app, Forall_app. Qed.

Lemma graphic_join sep l : graphic sep -> Forall graphic l -> graphic (join sep l).
Proof.
  intros Hs Hl. induction Hl as [|x [|y l] Hx Hl IH]; cbn [join]; [by constructor | done|].
  by rewrite !graphic_app.
Qed.

Lemma digits_graphic l : digits l -> graphic (bytes_str l).
Proof.
  unfold graphic. rewrite str_bytes_str. intros Hd. eapply Forall_impl; [exact Hd|]. cbn beta.
  intros b. unfold is_ascii_digit, in_range. rewrite !andb_true_iff, !Z.leb_le. lia.
Qed.

Lemma pretty_graphic (x : N) : graphic (pretty x).
Proof.
  rewrite <- (bytes_str_bytes (pretty x)). apply digits_graphic. apply pretty_N_digits.
Qed.

Lemma display_v4_graphic o : graphic (display_v4 o).
Proof.
  apply graphic_join; [by repeat constructor|]. apply Forall_fmap, Forall_forall. intros b _. cbn.
  pose proof (u8z_range b). destruct (u8z b) eqn:E; [by repeat constructor| |lia].
  apply (pretty_graphic (N.pos p)).
Qed.

Lemma hex_digit_graphic d : (0 <= d < 16)%Z -> graphic (hex_digit d).
Proof.
  intros Hd. unfold graphic, hex_digit. rewrite str_bytes_str. apply Forall_singleton.
  unfold in_range. rewrite andb_true_iff, !Z.leb_le, u8z_z_u8.
  destruct (Z.ltb_spec d 10); rewrite Z.mod_small; lia.
Qed.

Lemma hex16_graphic z : (0 <= z < 65536)%Z -> graphic (hex16 z).
Proof.
  intros Hz. unfold hex16. repeat case_match; rewrite ?graphic_app; split_and?;
    apply hex_digit_graphic; Z.to_euclidean_division_equations; lia.
Qed.

Lemma fmt_subslice_graphic l : Forall (fun z => 0 <= z < 65536)%Z l -> graphic (fmt_subslice l).
Proof.
  intros Hl. apply graphic_join; [by repeat constructor|]. apply Forall_fmap.
  eapply Forall_impl; [exact Hl|]. apply hex16_graphic.
Qed.

Lemma ip_to_string_graphic ip : graphic (ip_to_string ip).
Proof.
  destruct ip as [o|o]; cbn [ip_to_string]; [apply display_v4_graphic|]. unfold display_v6.
  destruct (to_ipv4_mapped o) as [v4|]; [apply graphic_app; split;
    [by repeat constructor | apply display_v4_graphic]|].
  pose proof (segments_wf o) as Hs. destruct (longest_zeroes _ _ _ _) as [start len]. case_match.
  - rewrite !graphic_app. split_and!; [by apply fmt_subslice_graphic, Forall_take
      | by repeat constructor | by apply fmt_subslice_graphic, Forall_drop].
  - by apply fmt_subslice_graphic.
Qed.

Lemma join_longer sep x y l : join sep (x :: y :: l) = x +:+ sep +:+ join sep (y :: l).
Proof. done. Qed.

Lemma append_ne s t : t <> "" -> s +:+ t <> "".
Proof. by destruct s. Qed.

Lemma ip_to_string_ne ip : ip_wf ip -> ip_to_string ip <> "".
Proof.
  destruct ip as [o|o]; cbn [ip_wf ip_to_string]; intros Hlen.
  - destruct o as [|a [|b o]]; cbn in Hlen; [lia..|]. unfold display_v4. rewrite !fmap_cons, join_longer.
    apply append_ne. done.
  - unfold display_v6. destruct (to_ipv4_mapped o); [done|].
    destruct (longest_zeroes _ _ _ _) as [start len]. case_match; [by apply append_ne|].
    destruct o as [|a [|b [|c [|d o]]]]; cbn in Hlen; [lia..|]. unfold fmt_subslice.
    cbn [segments]. rewrite !fmap_cons, join_longer. by apply append_ne.
Qed.

Lemma str_bytes_join c l :
  str_bytes (join (bytes_str [c]) l) = join_bytes c (str_bytes <$> l).
Proof.
  induction l as [|x [|y l] IH]; [done..|]. rewrite join_longer, !str_bytes_app, IH, str_bytes_str. done.
Qed.

Lemma graphic_no_newline s : graphic s -> Byte.x0a ∉ str_bytes s.
Proof. intros Hs Hin. unfold graphic in Hs. rewrite Forall_forall in Hs. by apply Hs in Hin. Qed.

(** A list of non-empty lines survives the environment variable. *)
Lemma lines_join l :
  Forall (fun x => x <> "" /\ graphic x) l -> lines (join newline l) = l.
Proof.
  intros Hl. unfold lines, split, newline. rewrite str_bytes_join.
  destruct l as [|x l]; [done|]. rewrite split_join_bytes; [|done|].
  - rewrite <- list_fmap_compose. rewrite (list_fmap_ext _ id), list_fmap_id.
    + induction Hl as [|y m [Hy _] _ IH]; [done|]. by rewrite filter_cons_True, IH.
    + intros i y _. cbn. apply bytes_str_bytes.
  - apply Forall_fmap. eapply Forall_impl; [exact Hl|]. cbn. intros y [_ Hy].
    by apply graphic_no_newline.
Qed.

Lemma hostname_graphic d : hostname_spec d -> graphic d.
Proof.
  intros (labels & _ & E & Hl & _). unfold graphic. rewrite E. clear E.
  assert (forall label, label_spec label -> Forall (fun b => in_range 33 126 b = true) label) as Hg.
  { intros label Hs. eapply Forall_impl; [exact (label_chars _ Hs)|]. cbn beta. intros b.
    unfold is_ascii_alphanumeric, is_ascii_digit, is_ascii_alphabetic, in_range.
    intros [Hb| ->]; [|done]. rewrite !orb_true_iff, !andb_true_iff, !Z.leb_le in *. lia. }
  induction Hl as [|x [|y l] Hx Hl IH]; [constructor | by apply Hg |].
  rewrite join_bytes_cons by done. apply Forall_app. split; [by apply Hg|]. by constructor.
Qed.

(** The DNS arguments of an accepted configuration fit the variables. *)
Lemma valid_dns_lines t config servers :
  validate_config t config = Ok tt -> ips_to_args (config_servers config) = Some servers ->
  lines (join newline servers) = servers /\
  let namespaces := (fun d => "." +:+ d) <$> normalize_domains (config_domains config) in
  lines (join newline namespaces) = namespaces.
Proof.
  intros Hv Hs. pose proof (valid_domains _ _ Hv) as Hdom.
  apply validate_config_valid, valid_dns in Hv as [_ _ _ _ Hsrv]. split; apply lines_join, Forall_forall.
  - intros x Hx. destruct (ips_to_args_loop_spec [] _ _ NoDup_nil_2 Hs) as [_ Hin].
    apply Hin in Hx as [[]%not_elem_of_nil|(v & Hv & E)].
    rewrite Forall_forall in Hsrv. destruct (Hsrv v) as (ip & -> & Hw).
    { unfold config_servers in Hv. by destruct (dns config). }
    rewrite proto_ip_to_string_to_proto in E by done. injection E as <-.
    split; [by apply ip_to_string_ne | apply ip_to_string_graphic].
  - intros x Hx. apply list_elem_of_fmap in Hx as (d & -> & Hd). split; [done|].
    apply graphic_app. split; [by repeat constructor|]. apply hostname_graphic.
    rewrite Forall_forall in Hdom. by apply Hdom.
Qed.

(** ** The rules of a session *)

Section SessionRules.
Context `{CultureLaws} {state proc : Type} `{MachineLaws state proc}.
Context {Route Endpoint : Type} `{RouteLib Route}.
Context (from_utf8_lossy : list byte -> string) (to_lowercase : string -> string).
Context (process_id : N) (process_times : result (N * N) string).
Implicit Types (o : os Route Endpoint) (h : list (call Route Endpoint)).
Abbreviation clear_nrpt_rules :=
  (clear_nrpt_rules (Route:=Route) (Endpoint:=Endpoint) from_utf8_lossy to_lowercase process_id process_times).
Abbreviation windows_setup :=
  (windows_setup (Endpoint:=Endpoint) from_utf8_lossy to_lowercase process_id process_times).

Definition clear_call (comment : string) : call Route Endpoint :=
  powershell CLEAR_NRPT_RULES_SCRIPT [("WG_KOTLIN_NRPT_COMMENT", comment)].

Definition set_call (namespaces servers comment : string) : call Route Endpoint :=
  powershell SET_NRPT_RULE_SCRIPT
    [("WG_KOTLIN_DNS_NAMESPACES", namespaces); ("WG_KOTLIN_DNS_SERVERS", servers);
     ("WG_KOTLIN_NRPT_COMMENT", comment)].

(** [world h] is the machine once the requests of [h] have been made. The
    session's rules change only by its scripts, whatever others do to theirs.
    A [powershell] that reports success has run its script to the end; one
    that is killed is a run whose remaining cmdlets fail. *)
Record scripted (comment : string) o (world : list (call Route Endpoint) -> state) : Prop := {
  world_quiet h c : (forall cmd, c <> CommandOutput cmd) ->
    own comment (rules (world (h ++ [c]))) = own comment (rules (world h));
  world_clear h :
    let '(r, s) := run_clear_script comment (world h) in
    own comment (rules (world (h ++ [clear_call comment]))) = own comment (rules s) /\
    (completed (o h (clear_call comment)) = true -> is_ok r = true);
  world_set h namespaces servers :
    let c := set_call namespaces servers comment in
    let '(r, s) := run_set_script namespaces servers comment (world h) in
    own comment (rules (world (h ++ [c]))) = own comment (rules s) /\
    (completed (o h c) = true -> is_ok r = true);
}.

Lemma quiet_run comment o world h cs :
  scripted comment o world -> Forall quiet_call cs ->
  own comment (rules (world (h ++ cs))) = own comment (rules (world h)).
Proof.
  intros Hw. revert h. induction cs as [|c cs IH]; intros h Hq; [by rewrite app_nil_r|].
  apply Forall_cons in Hq as [Hc Hq]. rewrite cons_middle, app_assoc, IH by done.
  by apply (world_quiet _ _ _ Hw).
Qed.

Lemma clear_empties comment o world h :
  scripted comment o world -> completed (o h (clear_call comment)) = true ->
  own comment (rules (world (h ++ [clear_call comment]))) = ∅.
Proof.
  intros Hw Hc. pose proof (world_clear _ _ _ Hw h) as Hclear.
  destruct (run_clear_script comment (world h)) as [r s] eqn:E. destruct Hclear as [-> Hok].
  apply clear_script_spec in E as (_ & _ & Hempty). auto.
Qed.

Lemma clear_nrpt_run name comment o h :
  rule_comment process_id process_times name = Ok comment ->
  trace (clear_nrpt_rules name) o h = h ++ [clear_call comment] /\
  is_ok (value (clear_nrpt_rules name) o h) = completed (o h (clear_call comment)).
Proof.
  intros Hc. unfold PlatformWindows.clear_nrpt_rules. rewrite Hc. unfold pmap, trace, value.
  rewrite pbind_run, run_command_trace. cbn [pret fst snd]. split; [done|].
  unfold clear_call, powershell. rewrite <- (run_command_completed from_utf8_lossy to_lowercase "clear-nrpt-rules").
  by destruct (value (run_command _ _ _ _ _ _ _ _) o h).
Qed.

(** What a successful set-up has done. *)
Lemma windows_setup_ok fr er name comment servers namespaces o h :
  rule_comment process_id process_times name = Ok comment -> (servers = [] <-> namespaces = []) ->
  value (windows_setup fr er name servers namespaces) o h = Ok tt ->
  exists pre, Forall quiet_call pre /\ completed (o (h ++ pre) (clear_call comment)) = true /\
    let h1 := (h ++ pre) ++ [clear_call comment] in
    let set := set_call (join newline namespaces) (join newline servers) comment in
    match namespaces with
    | [] => trace (windows_setup fr er name servers namespaces) o h = h1
    | _ => completed (o h1 set) = true /\
           trace (windows_setup fr er name servers namespaces) o h = h1 ++ [set]
    end.
Proof.
  intros Hc Hboth. unfold PlatformWindows.windows_setup. rewrite Hc.
  intros ([] & Ha & Hk & Ht)%ptry_ok. rewrite Ht. clear Ht.
  destruct (add_routes_order fr er o h) as (ds & Hds & _ & Hall).
  rewrite Ha in Hall. rewrite Hds in *. specialize (Hall eq_refl) as ->.
  exists ((EndpointReplace <$> er) ++ route_calls fr). split; [apply add_routes_quiet|].
  apply ptry_ok in Hk as ([] & Hclear & Hk & ->).
  destruct (clear_nrpt_run name comment o (h ++ (EndpointReplace <$> er) ++ route_calls fr) Hc)
    as [Ht Hv].
  rewrite Hclear in Hv. rewrite Ht in *. split; [done|]. cbn zeta.
  destruct namespaces as [|d l]; [by rewrite bool_decide_false by naive_solver|].
  rewrite !bool_decide_true in * by naive_solver. cbn [andb] in *.
  apply ptry_ok in Hk as (out & Hset & _ & ->). split.
  - unfold set_call, powershell. by rewrite <- (run_command_completed from_utf8_lossy to_lowercase "set-nrpt-rules"), Hset.
  - unfold trace at 1. cbn [pret snd]. by rewrite run_command_trace.
Qed.

Lemma own_set comment namespaces servers o world h :
  text_eq comment comment = true -> scripted comment o world ->
  let c := set_call namespaces servers comment in
  own comment (rules (world h)) = ∅ -> completed (o h c) = true ->
  (map_to_list (own comment (rules (world (h ++ [c]))))).*2 ≡ₚ
  (fun ns => mkRule ns (lines servers) (Some comment)) <$> lines namespaces.
Proof.
  intros Heq Hw c Hnone Hc. pose proof (world_set _ _ _ Hw h namespaces servers) as Hset.
  destruct (run_set_script namespaces servers comment (world h)) as [r s] eqn:E.
  cbn zeta in Hset. fold c in Hset. destruct Hset as [-> Hok].
  apply set_script_spec in E as (dn & m & _ & Hdn & Hm & -> & _); [|done].
  rewrite Hnone, map_union_empty, Hm, Hdn; [done | auto].
Qed.

Lemma rule_comment_self t name comment :
  utun_name t name -> rule_comment process_id process_times name = Ok comment ->
  text_eq comment comment = true.
Proof.
  unfold rule_comment. destruct process_times as [[high low]|e]; [|done].
  intros Hn [= <-]. by eapply comment_is_self.
Qed.

(** A teardown that cleared the rules left none. *)
Lemma cleanup_session fr er name comment o world h :
  rule_comment process_id process_times name = Ok comment -> scripted comment o world ->
  let hook := cleanup_routes fr er (clear_nrpt_rules name) in
  exists h1, trace hook o h = h1 ++ [clear_call comment] /\
    (completed (o h1 (clear_call comment)) = true ->
       own comment (rules (world (trace hook o h))) = ∅) /\
    (value hook o h = Ok tt -> own comment (rules (world (trace hook o h))) = ∅).
Proof.
  intros Hc Hw hook. destruct (cleanup_ends fr er (clear_nrpt_rules name) _ o h
    (fun h' => clear_nrpt_run name comment o h' Hc)) as (h1 & Ht & Hv).
  exists h1. fold hook in Ht, Hv. rewrite Ht. split_and!; [done| |intros Hok%Hv]; by eapply clear_empties.
Qed.

(** A set-up that succeeded left the rules asked for. *)
Lemma setup_session fr er name comment servers namespaces o world h :
  rule_comment process_id process_times name = Ok comment -> (servers = [] <-> namespaces = []) ->
  text_eq comment comment = true -> scripted comment o world ->
  lines (join newline servers) = servers -> lines (join newline namespaces) = namespaces ->
  let setup := windows_setup fr er name servers namespaces in
  value setup o h = Ok tt ->
  (map_to_list (own comment (rules (world (trace setup o h))))).*2 ≡ₚ
  (fun ns => mkRule ns servers (Some comment)) <$> namespaces.
Proof.
  intros Hc Hboth Heq Hw Hls Hln setup Hv.
  destruct (windows_setup_ok fr er name comment servers namespaces o h Hc Hboth Hv)
    as (pre & _ & Hclear & Ht). cbn zeta in Ht. fold setup in Ht.
  pose proof (clear_empties comment o world (h ++ pre) Hw Hclear) as Hnone.
  destruct namespaces as [|d l]; [by rewrite Ht, Hnone, map_to_list_empty|].
  destruct Ht as [Hset ->]. rewrite (own_set _ _ _ o) by done. by rewrite Hls, Hln.
Qed.

(** C23: DNS of a Windows session, down to the table. On a machine whose rules
    with the session's comment change only by its scripts, an accepted
    configuration that is set up leaves exactly one rule for each of its
    domains, each naming all of its servers; teardown, at any later time,
    ends by clearing them, and reports success only if none is left; and a
    configuration that fails clears whatever part it had set, unless no route
    manager could be opened and no rule was touched. *)
Theorem windows_session_rules config name er comment o world h :
  validate_config Windows config = Ok tt -> utun_name Windows name ->
  rule_comment process_id process_times name = Ok comment -> scripted comment o world ->
  let p := windows_configure_session from_utf8_lossy to_lowercase process_id process_times
             config name er in
  let session := fun h' => own comment (rules (world h')) in
  match value p o h with
  | None => False
  | Some (Ok hook) =>
    (exists servers, ips_to_args (config_servers config) = Some servers /\
       (map_to_list (session (trace p o h))).*2 ≡ₚ
       (fun domain => mkRule ("." +:+ domain) servers (Some comment)) <$>
         normalize_domains (config_domains config)) /\
    (forall h', exists h1, trace hook o h' = h1 ++ [clear_call comment] /\
       (completed (o h1 (clear_call comment)) = true -> session (trace hook o h') = ∅) /\
       (value hook o h' = Ok tt -> session (trace hook o h') = ∅))
  | Some (Err _) =>
    session (trace p o h) = session h \/
    exists h1, trace p o h = h1 ++ [clear_call comment] /\
      (completed (o h1 (clear_call comment)) = true -> session (trace p o h) = ∅)
  end.
Proof.
  intros Hv Hn Hc Hw p session.
  destruct (windows_configure_run from_utf8_lossy to_lowercase process_id process_times
              config name er o h Hv) as (servers & Hs & Hboth & E).
  assert (p o h = (value p o h, trace p o h)) as Ep by (unfold value, trace; by destruct (p o h)).
  fold p in E. rewrite Ep in E. destruct (o h RouteManagerNew) as [[]|e]; injection E as -> ->;
    [|left; by apply (world_quiet _ _ _ Hw)].
  clear Ep p. set (domains := normalize_domains _) in *. set (h0 := h ++ _).
  set (setup := windows_setup _ _ _ _ _). unfold value at 1, trace at 1 5 6 7.
  rewrite pbind_run. destruct (value setup o h0) as [[]|e] eqn:Es; cbn [into_cleanup_hook pret fst snd].
  - split; [|intros h'; by apply (cleanup_session _ _ name)].
    exists servers. split; [done|].
    destruct (valid_dns_lines Windows config servers Hv Hs) as [Hls Hln].
    rewrite (list_fmap_compose (fun d => "." +:+ d) (fun ns => mkRule ns servers (Some comment))).
    apply setup_session; try done.
    + rewrite Hboth. by destruct domains.
    + by eapply rule_comment_self.
  - rewrite pbind_run.
    destruct (cleanup_session (filtered_routes config name) er name comment o world
                (trace setup o h0) Hc Hw) as (h1 & Ht & Hclear & _).
    destruct (value (cleanup_routes _ _ _) o _); cbn [pret fst snd]; right; exists h1; by rewrite Ht in *.
Qed.
End SessionRules.

(** ** A concrete machine *)
Module NrptExamples.
Import PlatformExamples.

#[export] Instance invariant_culture : Culture := {
  fold_case := lower;
  text_eq a b := bool_decide (lower a = lower b);
}.

#[export] Instance invariant_culture_laws : CultureLaws.
Proof. by split. Qed.

(** Running processes by PID with their start times, those that have ended,
    and PIDs whose processes may not be inspected. As in nrpt_tests.ps1,
    removing can be made to fail, and so does adding one namespace. *)
Record pc : Type := mkPc {
  table : gmap string Rule;
  running : gmap N N;
  ended : list (N * N);
  protected : list N;
  fail_remove : bool;
}.

Definition with_table (m : gmap string Rule) (s : pc) : pc :=
  mkPc m (running s) (ended s) (protected s) (fail_remove s).

#[export] Instance pc_machine : Machine pc (N * N) := {
  rules := table;
  get_rules s := (map_to_list (table s), Ok tt, s);
  add_rule ns servers c s :=
    if decide (ns = ".fail.test") then (Err "fixture-add-failure", s)
    else (Ok tt, with_table (<[fresh (dom (table s)) := mkRule ns servers (Some c)]> (table s)) s);
  remove_rule n s :=
    if fail_remove s then (Err "fixture-remove-failure", s)
    else (Ok tt, with_table (delete n (table s)) s);
  GetProcessById pid s :=
    (match running s !! pid with Some start => Ok (pid, start) | None => Err ArgumentException end, s);
  HasExited p s :=
    (if decide (p.1 ∈ protected s) then Err Win32Exception
     else Ok (bool_decide (p ∈ ended s)), s);
  StartTime p s := (Ok p.2, s);
  instance p := p;
  runs s pid start := running s !! pid = Some start;
  exited s pid start := (pid, start) ∈ ended s;
}.

Lemma later_same s m : later s (with_table m s).
Proof. intros pid start. split; [by left | done]. Qed.

#[export] Instance pc_machine_laws : MachineLaws pc (N * N).
Proof.
  split.
  - intros s l r s' [= <- <- <-]. split_and!; [reflexivity | done | apply NoDup_fst_map_to_list | |].
    + intros n x. apply elem_of_map_to_list.
    + intros _ n x. apply elem_of_map_to_list.
  - intros ns servers c s r s'. cbn. case_decide; intros [= <- <-].
    + split; [reflexivity | by right].
    + split; [apply later_same|]. left. exists (fresh (dom (table s))). split; [|done].
      apply not_elem_of_dom, is_fresh.
  - intros n s r s'. cbn. case_match; intros [= <- <-].
    + split; [reflexivity | by right].
    + split; [apply later_same | by left].
  - intros pid s r s'. cbn. intros [= <- <-]. split_and!; [reflexivity | done |].
    destruct (running s !! pid) as [start|]; [|done]. split; [done|]. intros ? [= ->]. by left.
  - intros p s r s'. cbn. case_decide; intros [= <- <-]; (split_and!; [reflexivity | done |]); [done|].
    rewrite <- surjective_pairing. by case_bool_decide.
  - by intros p s r s' [= <- <-].
Qed.

Definition tagged (comment : string) : Rule := mkRule ".corp.test" ["10.0.0.53"] (Some comment).

(** The rules of nrpt_tests.ps1: process 40 has run since 500, process 50
    started at 100 and has ended. *)
Definition fixture : pc := mkPc
  (list_to_map
     [("live-a", tagged (comment_text 40 500 "utun0"));
      ("live-a-upper", tagged "KMPVPN-Daemon:40:500:UTUN1");
      ("dead-a", tagged (comment_text 50 100 "utun2"));
      ("dead-a-upper", tagged "Kmpvpn-Daemon:50:0100:Utun2");
      ("reused-pid", tagged (comment_text 40 499 "utun4"));
      ("denied", tagged (comment_text 60 7 "utun4"));
      ("foreign", tagged "another-app:utun0");
      ("unrecognized", tagged "kmpvpn-daemon:utun0");
      ("overflow-pid", tagged "kmpvpn-daemon:999999999999999999999:500:utun0");
      ("overflow-time", tagged "kmpvpn-daemon:50:999999999999999999999:utun0");
      ("invalid-interface", tagged "kmpvpn-daemon:50:100:utun*");
      ("trailing-newline", tagged ("kmpvpn-daemon:50:100:utun0" +:+ newline));
      ("no-comment", mkRule ".corp.test" [] None)])
  (list_to_map [(40, 500); (60, 8)]%N) [(50, 100); (60, 7)]%N [60%N] false.

Example stale_rules_of_fixture :
  let '(r, s) := run_stale_script NRPT_COMMENT_PREFIX fixture in
  r = Ok tt /\ dom (table fixture) ∖ dom (table s) = {["dead-a"; "dead-a-upper"; "reused-pid"]}.
Proof. vm_compute. split; reflexivity. Qed.

Lemma utun0 : utun_name Windows "utun0".
Proof. exists "0". vm_compute. split_and!; [reflexivity | discriminate | by repeat constructor | lia | discriminate]. Qed.

Lemma utun4 : utun_name Windows "utun4".
Proof. exists "4". vm_compute. split_and!; [reflexivity | discriminate | by repeat constructor | lia | discriminate]. Qed.

(** Process 40 sets and clears the rules of its interface utun4. *)
Example scripts_of_fixture :
  let comment := comment_text 40 500 "utun4" in
  let '(r1, s1) := run_set_script (join newline [".one.test"; ".two.test"]) "1.1.1.1" comment fixture in
  let '(r2, s2) := run_clear_script comment s1 in
  let '(r3, s3) := run_set_script (join newline [".partial.test"; ".fail.test"; ".unreached.test"])
                     "1.1.1.1" comment s2 in
  (r1, size (own comment (table s1))) = (Ok tt, 2) /\
  (r2, size (own comment (table s2))) = (Ok tt, 0) /\
  (r3, Namespace <$> (map_to_list (own comment (table s3))).*2) =
    (Err "fixture-add-failure", [".partial.test"]).
Proof. vm_compute. split_and!; reflexivity. Qed.

(** A machine that runs the scripts it is handed. *)
Definition clear_command (comment : string) : command :=
  mkCommand "powershell" (powershell_args CLEAR_NRPT_RULES_SCRIPT) None
    [("WG_KOTLIN_NRPT_COMMENT", comment)].
Definition set_command (namespaces servers comment : string) : command :=
  mkCommand "powershell" (powershell_args SET_NRPT_RULE_SCRIPT) None
    [("WG_KOTLIN_DNS_NAMESPACES", namespaces); ("WG_KOTLIN_DNS_SERVERS", servers);
     ("WG_KOTLIN_NRPT_COMMENT", comment)].

Definition execute (s : pc) (cmd : command) : result unit string * pc :=
  match environment cmd with
  | [(_, c)] => if decide (cmd = clear_command c) then run_clear_script c s else (Ok tt, s)
  | [(_, ns); (_, sv); (_, c)] =>
    if decide (cmd = set_command ns sv c) then run_set_script ns sv c s else (Ok tt, s)
  | _ => (Ok tt, s)
  end.

Definition desktop (h : list (call route unit)) : pc :=
  foldl (fun s c => match c with CommandOutput cmd => (execute s cmd).2 | _ => s end) fixture h.

Definition desktop_os : os route unit := fun h c =>
  match c as c return reply c with
  | CommandOutput cmd => Ok (mkOutput (is_ok (execute (desktop h) cmd).1) None [] [])
  | c => working h c
  end.

Lemma desktop_scripted comment : scripted comment desktop_os desktop.
Proof.
  split.
  - intros h c Hc. unfold desktop. rewrite foldl_app. cbn [foldl]. destruct c; try done.
    by destruct (Hc c).
  - intros h. unfold desktop at 2. rewrite foldl_app. cbn [foldl]. fold (desktop h).
    unfold clear_call, powershell. cbn [desktop_os completed success].
    unfold execute. cbn [environment]. rewrite !decide_True by done.
    by destruct (run_clear_script comment (desktop h)).
  - intros h ns sv. cbn zeta. unfold desktop at 2. rewrite foldl_app. cbn [foldl]. fold (desktop h).
    unfold set_call, powershell. cbn [desktop_os completed success].
    unfold execute. cbn [environment]. rewrite !decide_True by done.
    by destruct (run_set_script ns sv comment (desktop h)).
Qed.

End NrptExamples.
Import PlatformExamples NrptExamples.

Lemma stale_cleanup_spares_living_witness :
  let '(r, s) := run_stale_script NRPT_COMMENT_PREFIX fixture in
  rules s !! "live-a" = Some (tagged (comment_text 40 500 "utun0")).
Proof.
  pose proof (stale_cleanup_spares_living fixture) as Hs.
  destruct (run_stale_script NRPT_COMMENT_PREFIX fixture) as [r s] eqn:E.
  destruct Hs as (_ & _ & Hl).
  destruct (Hl "live-a" (tagged (comment_text 40 500 "utun0")) 40%N 500%N "utun0") as [Hkept _].
  - vm_compute. reflexivity.
  - reflexivity.
  - apply utun0.
  - reflexivity.
  - apply Hkept; [vm_compute; reflexivity|].
    assert (ended s = ended fixture) as Es
      by (change s with (r, s).2; rewrite <- E; vm_compute; reflexivity).
    cbn [exited pc_machine]. rewrite Es. apply (bool_decide_eq_true _). vm_compute. reflexivity.
Defined.

Lemma session_scripts_isolated_witness :
  let comment := comment_text 40 500 "utun4" in
  let s := (run_clear_script comment fixture).2 in
  others comment (rules s) !! "live-a" = Some (tagged (comment_text 40 500 "utun0")).
Proof.
  cbn zeta. destruct (session_scripts_isolated 40 500 "utun4" fixture utun4) as (Hclear & _ & Hother).
  destruct (run_clear_script (comment_text 40 500 "utun4") fixture) as [r s].
  destruct Hclear as (_ & Ho & _). cbn [snd]. rewrite Ho.
  apply (Hother _ _ 40%N 500%N "utun0"); [vm_compute; reflexivity | reflexivity | apply utun0 | discriminate].
Defined.

Lemma windows_session_rules_witness :
  let p := windows_configure_session (fun _ => "") (fun s => s) 40 (Ok (0%N, 500%N)) vpn_config "utun4" [tt] in
  let comment := comment_text 40 500 "utun4" in
  exists hook, value p desktop_os [] = Some (Ok hook) /\
    size (own comment (rules (desktop (trace p desktop_os [])))) = 1 /\
    forall h, value hook desktop_os h = Ok tt -> own comment (rules (desktop (trace hook desktop_os h))) = ∅.
Proof.
  cbn zeta. set (p := windows_configure_session _ _ _ _ _ _ _).
  set (comment := comment_text 40 500 "utun4").
  assert (is_ok <$> value p desktop_os [] = Some true) as E by (vm_compute; reflexivity).
  assert (validate_config Windows vpn_config = Ok tt) as Hv by (vm_compute; reflexivity).
  pose proof (windows_session_rules (fun _ => "") (fun s => s) 40 (Ok (0%N, 500%N)) vpn_config "utun4"
    [tt] comment desktop_os desktop [] Hv utun4 eq_refl (desktop_scripted comment)) as Hr.
  cbn zeta in Hr. fold p in Hr. destruct (value p desktop_os []) as [[hook|]|]; [|discriminate E..].
  exists hook. split; [reflexivity|]. destruct Hr as [(servers & Hs & Hp) Hhook]. split.
  - apply Permutation_length in Hp. rewrite !length_fmap, length_map_to_list in Hp.
    rewrite Hp. vm_compute. reflexivity.
  - intros h. by destruct (Hhook h) as (h1 & _ & _ & Hdone).
Defined.
