(* ===== verification/EndpointWindows.v ===== *)
(** * platform/endpoint_windows.rs: endpoint exceptions on Windows

    An endpoint route is a route of the route_manager crate: the host route to
    the peer that follows the route [GetBestRoute2] gives for it. The exception
    carries every attribute of the found route; what the file's operations make
    of the kernel's table is in the file WindowsRoutes. *)

From S2P Require Import Prelude RustStd Net Proto IpUtil Validation Os Platform PlatformWindows.
From Stdlib Require Import Lia.

(** ** More of [route_manager::Route] *)

Record route_fields : Type := mkFields {
  f_destination : IpAddr; f_prefix : N; f_gateway : option IpAddr; f_if_name : option string;
  f_if_index : option N; f_metric : option N; f_luid : option N;
}.

(** The builder methods the Windows code uses, described by their effect on
    the fields the accessors return. *)
Class WindowsRoute (Route : Type) `{RouteLib Route} : Type := {
  fields : Route -> route_fields;
  with_gateway : IpAddr -> Route -> Route;
  with_if_index : N -> Route -> Route;
  with_metric : N -> Route -> Route;
  with_luid : N -> Route -> Route;
  destination_fields r : destination r = f_destination (fields r);
  prefix_fields r : prefix r = f_prefix (fields r);
  if_name_fields r : if_name r = f_if_name (fields r);
  fields_new ip p : fields (Route_new ip p) = mkFields ip p None None None None None;
  fields_if_name n r : let f := fields r in fields (with_if_name n r) =
    mkFields (f_destination f) (f_prefix f) (f_gateway f) (Some n) (f_if_index f) (f_metric f) (f_luid f);
  fields_gateway g r : let f := fields r in fields (with_gateway g r) =
    mkFields (f_destination f) (f_prefix f) (Some g) (f_if_name f) (f_if_index f) (f_metric f) (f_luid f);
  fields_if_index i r : let f := fields r in fields (with_if_index i r) =
    mkFields (f_destination f) (f_prefix f) (f_gateway f) (f_if_name f) (Some i) (f_metric f) (f_luid f);
  fields_metric m r : let f := fields r in fields (with_metric m r) =
    mkFields (f_destination f) (f_prefix f) (f_gateway f) (f_if_name f) (f_if_index f) (Some m) (f_luid f);
  fields_luid l r : let f := fields r in fields (with_luid l r) =
    mkFields (f_destination f) (f_prefix f) (f_gateway f) (f_if_name f) (f_if_index f) (f_metric f) (Some l);
}.

Section EndpointWindows.
Context {Route : Type} `{WindowsRoute Route}.
(** [struct EndpointRoute(Route)]. *)
Abbreviation EndpointRoute := Route.
Abbreviation prog := (prog Route EndpointRoute).
Implicit Types (o : os Route EndpointRoute) (h : list (call Route EndpointRoute)).

(** [if let Some(x) = found.field() { route = route.with_field(x) }]. *)
Definition copy_field {A} (set : A -> Route -> Route) (value : option A) (route : Route) : Route :=
  match value with Some x => set x route | None => route end.

Definition from_route (ip : IpAddr) (found : Route) : EndpointRoute :=
  let route := Route_new ip (if is_ipv4 ip then 32%N else 128%N) in
  let route := copy_field with_gateway (f_gateway (fields found)) route in
  let route := copy_field with_if_name (if_name found) route in
  let route := copy_field with_if_index (f_if_index (fields found)) route in
  let route := copy_field with_metric (f_metric (fields found)) route in
  copy_field with_luid (f_luid (fields found)) route.

Definition lookup (ip : IpAddr) : prog (result EndpointRoute io_error) :=
  let! manager := perform RouteManagerNew in
  match manager with
  | Err e => pret (Err e)
  | Ok _ =>
    let! found := perform (RouteFind ip) in
    match found with
    | Err e => pret (Err e)
    | Ok None => pret (Err (io_other "no route to endpoint"))
    | Ok (Some found) => pret (Ok (from_route ip found))
    end
  end.

Definition replace (route : EndpointRoute) : prog (result unit io_error) :=
  let! manager := perform RouteManagerNew in
  match manager with
  | Err e => pret (Err e)
  | Ok _ => let! _ := perform (RouteDelete route) in perform (RouteAdd route)
  end.

Definition delete (route : EndpointRoute) : prog (result unit io_error) :=
  let! manager := perform RouteManagerNew in
  match manager with
  | Err e => pret (Err e)
  | Ok _ => perform (RouteDelete route)
  end.

(** ** The exception *)

Lemma from_route_fields ip found :
  let f := fields found in
  fields (from_route ip found) =
    mkFields ip (addr_bits ip) (f_gateway f) (f_if_name f) (f_if_index f) (f_metric f) (f_luid f).
Proof.
  cbn zeta. unfold from_route, copy_field, addr_bits. rewrite if_name_fields.
  destruct (f_gateway (fields found)), (f_if_name (fields found)), (f_if_index (fields found)),
    (f_metric (fields found)), (f_luid (fields found));
    repeat first [rewrite fields_luid | rewrite fields_metric | rewrite fields_if_index
                 | rewrite fields_if_name | rewrite fields_gateway | rewrite fields_new]; cbn; done.
Qed.
End EndpointWindows.

(** ** Concrete routes: their fields *)
Module KernelExamples.
#[export] Instance fields_route : RouteLib route_fields.
Proof.
  refine {| Route_new := fun ip p => mkFields ip p None None None None None;
            with_if_name := fun n f => mkFields (f_destination f) (f_prefix f) (f_gateway f) (Some n)
                                         (f_if_index f) (f_metric f) (f_luid f);
            destination := f_destination; prefix := f_prefix; if_name := f_if_name;
            mask := fun f => prefix_mask (f_destination f) (f_prefix f) |}; done.
Defined.

#[export] Instance fields_windows : WindowsRoute route_fields.
Proof.
  refine {| fields := fun f => f;
    with_gateway := fun g f => mkFields (f_destination f) (f_prefix f) (Some g) (f_if_name f)
                                 (f_if_index f) (f_metric f) (f_luid f);
    with_if_index := fun i f => mkFields (f_destination f) (f_prefix f) (f_gateway f) (f_if_name f)
                                  (Some i) (f_metric f) (f_luid f);
    with_metric := fun m f => mkFields (f_destination f) (f_prefix f) (f_gateway f) (f_if_name f)
                                (f_if_index f) (Some m) (f_luid f);
    with_luid := fun l f => mkFields (f_destination f) (f_prefix f) (f_gateway f) (f_if_name f)
                              (f_if_index f) (f_metric f) (Some l) |}; done.
Defined.

(** The default route of a home network. *)
Definition v4 (a b c d : Z) : IpAddr := V4 (z_u8 <$> [a; b; c; d]).
Definition default_route : route_fields :=
  mkFields (v4 0 0 0 0) 0 (Some (v4 192 168 1 1)) None (Some 12%N) (Some 25%N) (Some 7%N).
End KernelExamples.
