(* ===== verification/RtMsg.v ===== *)
(** * platform/endpoint_macos.rs: BSD routing messages

    The bytes of a routing-socket message: a [struct rt_msghdr] followed by
    socket addresses, each padded to a multiple of four bytes, one for every
    bit of [rtm_addrs]. The constants and the struct layout are those of the
    Darwin ABI that libc exposes; integers are little-endian there. [header] and
    [addresses] read a message, [append], [field!] and [message] build one, and
    the lemmas show that reading inverts building. *)

From S2P Require Import Prelude RustStd Net.
From Stdlib Require Import Lia.

(** ** Darwin ABI *)
Module Darwin.
Definition RTM_VERSION : Z := 5.
Definition RTM_ADD : Z := 1.
Definition RTM_DELETE : Z := 2.
Definition RTM_GET : Z := 4.

Definition RTF_UP : Z := 0x1.
Definition RTF_GATEWAY : Z := 0x2.
Definition RTF_HOST : Z := 0x4.
Definition RTF_REJECT : Z := 0x8.
Definition RTF_DONE : Z := 0x40.
Definition RTF_STATIC : Z := 0x800.
Definition RTF_BLACKHOLE : Z := 0x1000.
Definition RTF_IFSCOPE : Z := 0x1000000.
Definition RTF_CONDEMNED : Z := 0x2000000.
Definition RTF_IFREF : Z := 0x4000000.
Definition RTF_PROXY : Z := 0x8000000.
Definition RTF_DEAD : Z := 0x20000000.

Definition RTAX_DST : nat := 0.
Definition RTAX_GATEWAY : nat := 1.
Definition RTAX_NETMASK : nat := 2.
Definition RTAX_IFP : nat := 4.
Definition RTAX_IFA : nat := 5.
Definition RTAX_MAX : nat := 8.
Definition RTA_DST : Z := 0x1.
Definition RTA_GATEWAY : Z := 0x2.
Definition RTA_NETMASK : Z := 0x4.
Definition RTA_IFP : Z := 0x10.
Definition RTA_IFA : Z := 0x20.

Definition RTV_MTU : Z := 0x1.
Definition RTV_HOPCOUNT : Z := 0x2.
(** MTU, HOPCOUNT, EXPIRE, RPIPE, SPIPE, SSTHRESH, RTT and RTTVAR. *)
Definition RTV_ALL : Z := 0xff.

Definition AF_INET : Z := 2.
Definition AF_LINK : Z := 18.
Definition AF_INET6 : Z := 30.
Definition ESRCH : Z := 3.
Definition ENOMEM : Z := 12.

Definition sizeof_sockaddr_in : nat := 16.
Definition sizeof_sockaddr_in6 : nat := 28.
Definition sizeof_sockaddr_dl : nat := 20.
Definition sizeof_rt_msghdr : nat := 92.
End Darwin.
Export Darwin.

(** The fields of [struct rt_msghdr] the code touches ([rmx_mtu] and
    [rmx_hopcount] lie inside [rtm_rmx]), with their offsets and widths. *)
Inductive hfield : Type :=
| f_msglen | f_version | f_type | f_index | f_flags | f_addrs | f_pid | f_seq | f_errno
| f_inits | f_mtu | f_hopcount.

#[global] Instance hfield_eq_dec : EqDecision hfield.
Proof. solve_decision. Defined.

Definition offset_of (f : hfield) : nat :=
  match f with
  | f_msglen => 0 | f_version => 2 | f_type => 3 | f_index => 4 | f_flags => 8 | f_addrs => 12
  | f_pid => 16 | f_seq => 20 | f_errno => 24 | f_inits => 32 | f_mtu => 40 | f_hopcount => 44
  end.

Definition width_of (f : hfield) : nat :=
  match f with
  | f_version | f_type => 1
  | f_msglen | f_index => 2
  | _ => 4
  end.

(** [field!(bytes, f, z)]. *)
Definition put (f : hfield) (z : Z) (bytes : list byte) : list byte :=
  list_inserts (offset_of f) (le_bytes (width_of f) z) bytes.

Definition get (f : hfield) (bytes : list byte) : Z :=
  le_value (take (width_of f) (drop (offset_of f) bytes)).

Record rt_msghdr : Type := mkHdr {
  rtm_msglen : Z; rtm_version : Z; rtm_type : Z; rtm_index : Z; rtm_flags : Z; rtm_addrs : Z;
  rtm_pid : Z; rtm_seq : Z; rtm_errno : Z; rtm_inits : Z; rmx_mtu : Z; rmx_hopcount : Z;
}.

Definition header_of (bytes : list byte) : rt_msghdr :=
  mkHdr (get f_msglen bytes) (get f_version bytes) (get f_type bytes) (get f_index bytes)
    (get f_flags bytes) (get f_addrs bytes) (get f_pid bytes) (get f_seq bytes)
    (get f_errno bytes) (get f_inits bytes) (get f_mtu bytes) (get f_hopcount bytes).

Definition header (bytes : list byte) : result rt_msghdr io_error :=
  if length bytes <? sizeof_rt_msghdr then Err (io_other "truncated routing message")
  else Ok (header_of bytes).

(** ** Socket addresses *)

(** [length.max(4).next_multiple_of(4)]. *)
Definition padded (n : nat) : nat := 4 * ((n `max` 4 + 3) / 4).

Definition append (payload address : list byte) : list byte :=
  payload ++ address ++ replicate (padded (length address) - length address) Byte.x00.

Definition ip_address (ip : IpAddr) : list byte :=
  match ip with
  | V4 octets =>
    list_inserts 4 octets
      (z_u8 (Z.of_nat sizeof_sockaddr_in) :: z_u8 AF_INET
         :: replicate (sizeof_sockaddr_in - 2) Byte.x00)
  | V6 octets =>
    list_inserts 8 octets
      (z_u8 (Z.of_nat sizeof_sockaddr_in6) :: z_u8 AF_INET6
         :: replicate (sizeof_sockaddr_in6 - 2) Byte.x00)
  end.

Definition link_address (index : Z) : list byte :=
  list_inserts 2 (le_bytes 2 index)
    (z_u8 (Z.of_nat sizeof_sockaddr_dl) :: z_u8 AF_LINK
       :: replicate (sizeof_sockaddr_dl - 2) Byte.x00).

(** The loop of [addresses] from slot [index] on, over the bytes that are left. *)
Fixpoint addresses_loop (addrs : Z) (slots index : nat) (rest : list byte)
    : result (list (option (list byte))) io_error :=
  match slots with
  | O => Ok []
  | S slots' =>
    if negb (Z.testbit addrs (Z.of_nat index)) then
      let? l := addresses_loop addrs slots' (S index) rest in Ok (None :: l)
    else match rest with
    | [] => Err (io_other "missing route address")
    | b :: _ =>
      let length_ := Z.to_nat (u8z b) in
      let step := padded length_ in
      if length rest <? step then Err (io_other "truncated route address")
      else
        let? l := addresses_loop addrs slots' (S index) (drop step rest) in
        Ok (Some (take length_ rest) :: l)
    end
  end.

Definition addresses (bytes : list byte) (header : rt_msghdr)
    : result (list (option (list byte))) io_error :=
  addresses_loop (rtm_addrs header) RTAX_MAX 0 (drop sizeof_rt_msghdr bytes).

(** [attrs[i]]; the array has [RTAX_MAX] slots. *)
Definition slot (attrs : list (option (list byte))) (i : nat) : option (list byte) :=
  match attrs !! i with Some v => v | None => None end.

(** ** Lemmas *)

Lemma disjoint_fields f g :
  f <> g -> offset_of f + width_of f <= offset_of g \/ offset_of g + width_of g <= offset_of f.
Proof. destruct f, g; intros H; simpl; try lia; congruence. Qed.

Lemma field_in_header f : offset_of f + width_of f <= sizeof_rt_msghdr.
Proof. destruct f; cbv; lia. Qed.

Lemma length_put f z b : length (put f z b) = length b.
Proof. apply length_inserts. Qed.

(** Two lists that agree on a window have the same window. *)
Lemma window_ext {A} (l m : list A) i n :
  (forall j, i <= j < i + n -> l !! j = m !! j) -> take n (drop i l) = take n (drop i m).
Proof.
  intros H. apply list_eq. intros j. destruct (decide (j < n)).
  - rewrite !lookup_take_lt, !lookup_drop by done. apply H. lia.
  - rewrite !lookup_take_ge by lia. done.
Qed.

Lemma get_put_eq f z b :
  sizeof_rt_msghdr <= length b -> get f (put f z b) = (z mod 256 ^ Z.of_nat (width_of f))%Z.
Proof.
  intros Hlen. unfold get, put. rewrite <- le_value_le_bytes. f_equal.
  pose proof (field_in_header f). apply list_eq. intros j.
  destruct (decide (j < width_of f)).
  - rewrite lookup_take_lt, lookup_drop by done.
    rewrite list_lookup_inserts; rewrite ?length_le_bytes; [f_equal; lia | lia | lia].
  - rewrite lookup_take_ge by lia. symmetry. apply lookup_ge_None. rewrite length_le_bytes. lia.
Qed.

Lemma get_put_ne f g z b : f <> g -> get f (put g z b) = get f b.
Proof.
  intros Hne. unfold get, put. f_equal. apply window_ext. intros j Hj.
  destruct (disjoint_fields f g Hne).
  - apply list_lookup_inserts_lt. lia.
  - apply list_lookup_inserts_ge. rewrite length_le_bytes. lia.
Qed.

Lemma drop_put f z b : drop sizeof_rt_msghdr (put f z b) = drop sizeof_rt_msghdr b.
Proof.
  apply list_eq. intros j. rewrite !lookup_drop. apply list_lookup_inserts_ge.
  rewrite length_le_bytes. pose proof (field_in_header f). lia.
Qed.

Lemma get_app f b c : sizeof_rt_msghdr <= length b -> get f (b ++ c) = get f b.
Proof.
  intros Hlen. unfold get. f_equal. apply window_ext. intros j Hj.
  apply lookup_app_l. pose proof (field_in_header f). lia.
Qed.

Lemma get_range f b : (0 <= get f b < 256 ^ Z.of_nat (width_of f))%Z.
Proof.
  unfold get. pose proof (le_value_range (take (width_of f) (drop (offset_of f) b))) as Hr.
  assert (256 ^ Z.of_nat (length (take (width_of f) (drop (offset_of f) b)))
          <= 256 ^ Z.of_nat (width_of f))%Z; [|lia].
  apply Z.pow_le_mono_r; [lia|]. rewrite length_take. lia.
Qed.

Lemma header_ok b hd : header b = Ok hd <-> sizeof_rt_msghdr <= length b /\ hd = header_of b.
Proof.
  unfold header. destruct (Nat.ltb_spec (length b) sizeof_rt_msghdr).
  - split; [done | lia].
  - naive_solver.
Qed.

Lemma padded_ge n : n <= padded n.
Proof. unfold padded. pose proof (Nat.div_mod_eq (n `max` 4 + 3) 4).
  pose proof (Nat.mod_upper_bound (n `max` 4 + 3) 4). lia. Qed.

Lemma padded_pos n : 4 <= padded n.
Proof. unfold padded. pose proof (Nat.div_mod_eq (n `max` 4 + 3) 4).
  pose proof (Nat.mod_upper_bound (n `max` 4 + 3) 4). lia. Qed.

(** A socket address as the kernel delimits it: empty, or starting with its
    own length. *)
Definition sockaddr_ok (a : list byte) : Prop :=
  match a with [] => True | b :: _ => Z.to_nat (u8z b) = length a end.

(** The address part of a message. *)
Definition serialize (attrs : list (option (list byte))) : list byte :=
  foldl (fun acc a => match a with Some v => append acc v | None => acc end) [] attrs.

Lemma serialize_foldl attrs acc :
  foldl (fun acc a => match a with Some v => append acc v | None => acc end) acc attrs =
  acc ++ serialize attrs.
Proof.
  unfold serialize. revert acc. induction attrs as [|[v|] attrs IH]; intros acc; simpl.
  - by rewrite app_nil_r.
  - rewrite IH, (IH (append [] v)). unfold append. simpl. by rewrite !app_assoc.
  - apply IH.
Qed.

Lemma serialize_cons_some v attrs : serialize (Some v :: attrs) = append [] v ++ serialize attrs.
Proof. unfold serialize at 1. simpl. apply serialize_foldl. Qed.

(** Reading the addresses written for [attrs] gives them back, when the mask
    has a bit for exactly those present. *)
Lemma addresses_loop_serialize addrs attrs index rest :
  Forall (fun a => forall v, a = Some v -> sockaddr_ok v) attrs ->
  (forall i a, attrs !! i = Some a ->
     Z.testbit addrs (Z.of_nat (index + i)) = if a is Some _ then true else false) ->
  addresses_loop addrs (length attrs) index (serialize attrs ++ rest) = Ok attrs.
Proof.
  intros HF. revert index. induction HF as [|a attrs Ha HF IH]; intros index Hmask; [done|].
  cbn [length addresses_loop].
  pose proof (Hmask 0 a eq_refl) as H0. rewrite Nat.add_0_r in H0. rewrite H0.
  assert (forall i x, attrs !! i = Some x ->
    Z.testbit addrs (Z.of_nat (S index + i)) = if x is Some _ then true else false) as Hmask'.
  { intros i x Hi. rewrite <- (Hmask (S i) x Hi). f_equal. lia. }
  destruct a as [v|]; cbn [negb].
  2:{ change (serialize (None :: attrs)) with (serialize attrs). by rewrite IH. }
  rewrite serialize_cons_some. unfold append. cbn [app].
  specialize (Ha v eq_refl). pose proof (padded_ge (length v)).
  set (z := replicate (padded (length v) - length v) Byte.x00).
  assert (length (v ++ z) = padded (length v)) as Hlen.
  { rewrite length_app. unfold z. rewrite length_replicate. lia. }
  destruct ((v ++ z) ++ serialize attrs) as [|b r] eqn:E.
  { exfalso. apply (f_equal length) in E. rewrite length_app, Hlen in E.
    pose proof (padded_pos (length v)). cbn [length] in E. lia. }
  assert (Z.to_nat (u8z b) = length v) as Hb.
  { destruct v as [|b' v]; simpl in E.
    - unfold z in E. simpl in E. injection E as <- _. done.
    - injection E as <- _. exact Ha. }
  cbn [app]. rewrite Hb.
  change (b :: r ++ rest) with ((b :: r) ++ rest). rewrite <- E.
  rewrite (proj2 (Nat.ltb_ge _ _)) by (rewrite !length_app in *; lia).
  rewrite <- (app_assoc (v ++ z)), (drop_app_length' (v ++ z)) by done.
  rewrite IH by done. cbn [rbind]. by rewrite <- app_assoc, take_app_length.
Qed.
