(* ===== verification/EndpointMacos.v ===== *)
(** * platform/endpoint_macos.rs: the route to a peer endpoint on macOS

    [EndpointRoute] is what a lookup remembers of the kernel's route to a peer,
    [message] the request it sends, [from_reply] how [lookup] reads the answer
    and [exchange] the conversation over the routing socket. The theorems say
    that an exception message carries every remembered attribute, and that an
    exchange finds its own reply among unrelated notifications. *)

From S2P Require Import Prelude RustStd Net RtMsg.
From Stdlib Require Import Lia.

(** [struct EndpointRoute]. *)
Record EndpointRoute : Type := mkEndpoint {
  e_destination : IpAddr;
  e_interface : Z;
  e_gateway : list byte;
  e_via_gateway : bool;
  e_source : option (list byte);
  e_mtu : Z;
  e_hopcount : Z;
}.

(** [u16::try_from(n).map_err(io::Error::other)]. *)
Definition u16_try_from (n : nat) : result Z io_error :=
  if (Z.of_nat n <=? u16_max)%Z then Ok (Z.of_nat n)
  else Err (io_other "out of range integral type conversion attempted").

Lemma u16_try_from_ok n : n <= 3000 -> u16_try_from n = Ok (Z.of_nat n).
Proof.
  intros Hn. unfold u16_try_from. rewrite (proj2 (Z.leb_le _ _)); [done|].
  change u16_max with 65535%Z. lia.
Qed.

Definition all_ones (ip : IpAddr) : IpAddr :=
  if is_ipv4 ip then V4 (replicate 4 Byte.xff) else V6 (replicate 16 Byte.xff).

(** The addresses after the destination, for any operation but RTM_GET. *)
Definition exception_payload (route : EndpointRoute) : list byte :=
  let payload := ip_address (e_destination route) in
  let payload := append payload (e_gateway route) in
  let payload := append payload (ip_address (all_ones (e_destination route))) in
  let payload := append payload (link_address (e_interface route)) in
  match e_source route with Some source => append payload source | None => payload end.

Definition exception_addrs (route : EndpointRoute) : Z :=
  let addrs := Z.lor RTA_DST (Z.lor RTA_GATEWAY (Z.lor RTA_NETMASK RTA_IFP)) in
  match e_source route with Some _ => Z.lor addrs RTA_IFA | None => addrs end.

Definition base_flags : Z := Z.lor RTF_UP (Z.lor RTF_HOST RTF_STATIC).

(** The metrics loop: a non-zero value is written and its bit set. *)
Definition put_metric (f : hfield) (value bit : Z) (s : list byte * Z) : list byte * Z :=
  if (value =? 0)%Z then s else (put f value s.1, Z.lor s.2 bit).

Definition put_metrics (route : EndpointRoute) (message : list byte) : list byte :=
  let '(message, inits) :=
    put_metric f_hopcount (e_hopcount route) RTV_HOPCOUNT
      (put_metric f_mtu (e_mtu route) RTV_MTU (message, 0%Z)) in
  put f_inits inits message.

(** [EndpointRoute::message]. *)
Definition endpoint_message (route : EndpointRoute) (operation : Z) : result (list byte) io_error :=
  let '(payload, addrs, flags) :=
    if (operation =? RTM_GET)%Z then
      (append (ip_address (e_destination route)) (link_address 0), Z.lor RTA_DST RTA_IFP, base_flags)
    else
      (exception_payload route, exception_addrs route,
       if e_via_gateway route then Z.lor base_flags RTF_GATEWAY else base_flags) in
  let? length_ := u16_try_from (sizeof_rt_msghdr + length payload) in
  let message := replicate sizeof_rt_msghdr Byte.x00 in
  let message := put f_msglen length_ message in
  let message := put f_version RTM_VERSION message in
  let message := put f_type operation message in
  let message := put f_index (e_interface route) message in
  let message := put f_flags flags message in
  let message := put f_addrs addrs message in
  let message := if (operation =? RTM_ADD)%Z then put_metrics route message else message in
  Ok (message ++ payload).

(** What [lookup] makes of the kernel's reply. *)
Definition from_reply (destination : IpAddr) (reply : list byte) : result EndpointRoute io_error :=
  let? head := header reply in
  if ((rtm_index head =? 0)
      || negb (Z.land (rtm_flags head) (Z.lor RTF_REJECT RTF_BLACKHOLE) =? 0))%Z
  then Err (io_other "endpoint route is not reachable")
  else
    let? attrs := addresses reply head in
    let gateway :=
      match slot attrs RTAX_GATEWAY with
      | Some gateway =>
        match gateway !! 1 with
        | Some family =>
          if (u8z family =? AF_INET)%Z || (u8z family =? AF_INET6)%Z then gateway
          else link_address (rtm_index head)
        | None => link_address (rtm_index head)
        end
      | None => link_address (rtm_index head)
      end in
    Ok (mkEndpoint destination (rtm_index head) gateway
          (negb (Z.land (rtm_flags head) RTF_GATEWAY =? 0)%Z) (slot attrs RTAX_IFA)
          (rmx_mtu head) (rmx_hopcount head)).

(** ** The routing socket *)
Section Exchange.
(** libc's description of an error number. *)
Context (strerror : Z -> ErrorKind * string).

Definition from_raw_os_error (n : Z) : io_error :=
  {| io_kind := (strerror n).1; raw_os_error := Some n; io_message := (strerror n).2 |}.

(** The inner loop over one buffer: [Ok None] asks for another read. Every
    message is at least four bytes, so [fuel] = the length is enough. *)
Fixpoint scan (fuel : nat) (operation pid sequence : Z) (buffer : list byte)
    : result (option (list byte)) io_error :=
  match fuel, buffer with
  | _, [] => Ok None
  | O, _ => Ok None
  | S fuel', _ =>
    if length buffer <? 4 then Err (io_other "truncated routing message prefix")
    else
      let length_ := Z.to_nat (get f_msglen buffer) in
      if (length_ <? 4) || (length buffer <? length_)
      then Err (io_other "invalid routing message length")
      else if negb (get f_version buffer =? RTM_VERSION)%Z
              || negb (get f_type buffer =? operation)%Z
      then scan fuel' operation pid sequence (drop length_ buffer)
      else
        let? reply := header (take length_ buffer) in
        if ((rtm_version reply =? RTM_VERSION) && (rtm_pid reply =? pid)
            && (rtm_seq reply =? sequence))%Z
        then if (rtm_errno reply =? 0)%Z then Ok (Some (take length_ buffer))
             else Err (from_raw_os_error (rtm_errno reply))
        else scan fuel' operation pid sequence (drop length_ buffer)
  end.

(** The outer loop: [reads] are the results of the reads made before the
    deadline passes. *)
Fixpoint exchange_loop (operation pid sequence : Z) (reads : list (result (list byte) io_error))
    : result (list byte) io_error :=
  match reads with
  | [] => Err (io_new TimedOut "routing reply timed out")
  | Err e :: _ => Err e
  | Ok [] :: _ => Err (io_new UnexpectedEof "routing socket closed")
  | Ok buffer :: r =>
    let? found := scan (length buffer) operation pid sequence buffer in
    match found with
    | Some reply => Ok reply
    | None => exchange_loop operation pid sequence r
    end
  end.

(** The bytes [exchange] writes. *)
Definition stamped (message : list byte) (pid sequence : Z) : list byte :=
  put f_seq sequence (put f_pid pid message).

(** [opened] is the outcome of opening the socket, setting it up and writing
    the stamped message. *)
Definition exchange (message : list byte) (pid sequence : Z) (opened : result unit io_error)
    (reads : list (result (list byte) io_error)) : result (list byte) io_error :=
  let operation := get f_type message in
  let? _ := opened in exchange_loop operation pid sequence reads.

Definition lookup (destination : IpAddr) (pid sequence : Z) (opened : result unit io_error)
    (reads : list (result (list byte) io_error)) : result EndpointRoute io_error :=
  let query := mkEndpoint destination 0 [] false None 0 0 in
  let? message := endpoint_message query RTM_GET in
  let? reply := exchange message pid sequence opened reads in
  from_reply destination reply.

(** ** Finding the reply *)

(** A message whose length field is its length. *)
Definition framed (m : list byte) : Prop :=
  4 <= length m /\ Z.to_nat (get f_msglen m) = length m.

Definition ours (operation pid sequence : Z) (m : list byte) : Prop :=
  get f_version m = RTM_VERSION /\ get f_type m = operation /\
  sizeof_rt_msghdr <= length m /\ get f_pid m = pid /\ get f_seq m = sequence.

(** Not a reply to this request: another version or type, or a full header
    with another process or sequence number. *)
Definition unrelated (operation pid sequence : Z) (m : list byte) : Prop :=
  get f_version m <> RTM_VERSION \/ get f_type m <> operation \/
  (sizeof_rt_msghdr <= length m /\ (get f_pid m <> pid \/ get f_seq m <> sequence)).

Lemma get_app_short f m rest :
  offset_of f + width_of f <= length m -> get f (m ++ rest) = get f m.
Proof.
  intros Hlen. unfold get. f_equal. apply window_ext. intros j Hj. apply lookup_app_l. lia.
Qed.

Lemma scan_step fuel op pid sq m rest :
  framed m ->
  scan (S fuel) op pid sq (m ++ rest) =
  if negb (get f_version m =? RTM_VERSION)%Z || negb (get f_type m =? op)%Z
  then scan fuel op pid sq rest
  else
    let? reply := header m in
    if ((rtm_version reply =? RTM_VERSION) && (rtm_pid reply =? pid) && (rtm_seq reply =? sq))%Z
    then if (rtm_errno reply =? 0)%Z then Ok (Some m)
         else Err (from_raw_os_error (rtm_errno reply))
    else scan fuel op pid sq rest.
Proof.
  intros [H4 Hlen].
  assert (forall f, (f = f_msglen \/ f = f_version \/ f = f_type) -> get f (m ++ rest) = get f m)
    as Hget by (intros f Hf; apply get_app_short; destruct Hf as [->|[->| ->]]; simpl; lia).
  destruct (m ++ rest) as [|b r] eqn:E.
  { apply (f_equal length) in E. rewrite length_app in E. simpl in E. lia. }
  cbn [scan]. rewrite <- E in *. rewrite !Hget by tauto. rewrite Hlen.
  rewrite (proj2 (Nat.ltb_ge _ 4)) by (rewrite length_app; lia).
  rewrite (proj2 (Nat.ltb_ge _ 4)), (proj2 (Nat.ltb_ge _ (length m))) by (rewrite ?length_app; lia).
  cbn [orb]. by rewrite drop_app_length, take_app_length.
Qed.

(** More fuel than bytes changes nothing. *)
Lemma scan_fuel fuel op pid sq buffer :
  length buffer <= fuel -> scan fuel op pid sq buffer = scan (length buffer) op pid sq buffer.
Proof.
  enough (forall n m b, length b <= n -> length b <= m -> scan n op pid sq b = scan m op pid sq b) as H
    by (intros Hl; apply H; lia).
  induction n as [|n IH]; intros m b Hn Hm.
  - destruct b; [by destruct m | simpl in Hn; lia].
  - destruct b as [|x r]; [by destruct m|]. destruct m as [|m]; [simpl in Hm; lia|].
    cbn [scan]. destruct (length (x :: r) <? 4); [done|].
    destruct (Nat.ltb_spec (Z.to_nat (get f_msglen (x :: r))) 4) as [|Hlen]; [done|].
    rewrite (IH m); [done | |]; rewrite length_drop; cbn [length] in *; lia.
Qed.

Lemma scan_unrelated ms op pid sq rest fuel :
  Forall framed ms -> Forall (unrelated op pid sq) ms ->
  scan (length ms + fuel) op pid sq (concat ms ++ rest) = scan fuel op pid sq rest.
Proof.
  intros Hf Hu. induction Hf as [|m ms Hm _ IH]; [done|].
  inversion_clear Hu as [|?? H1 H2]. cbn [concat length Nat.add]. rewrite <- app_assoc, scan_step by done.
  rewrite IH by done.
  destruct (Z.eqb_spec (get f_version m) RTM_VERSION) as [Ev|]; [|done].
  destruct (Z.eqb_spec (get f_type m) op) as [Et|]; [|done]. cbn [negb orb].
  destruct H1 as [?|[?|[Hlen Hp]]]; [done..|].
  rewrite (proj2 (header_ok m _) (conj Hlen eq_refl)). cbn [rbind header_of rtm_version rtm_pid rtm_seq].
  rewrite Ev, Z.eqb_refl. cbn [andb].
  destruct (Z.eqb_spec (get f_pid m) pid), (Z.eqb_spec (get f_seq m) sq); try done.
  destruct Hp; done.
Qed.

Lemma scan_ours op pid sq m rest fuel :
  framed m -> ours op pid sq m ->
  scan (S fuel) op pid sq (m ++ rest) =
  if (get f_errno m =? 0)%Z then Ok (Some m) else Err (from_raw_os_error (get f_errno m)).
Proof.
  intros Hf (Ev & Et & Hlen & Ep & Es). rewrite scan_step by done.
  rewrite Ev, Et, !Z.eqb_refl. cbn [negb orb].
  rewrite (proj2 (header_ok m _) (conj Hlen eq_refl)).
  cbn [rbind header_of rtm_version rtm_pid rtm_seq rtm_errno].
  by rewrite Ev, Ep, Es, !Z.eqb_refl.
Qed.

Lemma scan_nil fuel op pid sq : scan fuel op pid sq [] = Ok None.
Proof. by destruct fuel. Qed.

Lemma framed_count ms : Forall framed ms -> length ms <= length (concat ms).
Proof.
  induction 1 as [|m ms [H4 _] _ IH]; [done|]. cbn [concat length]. rewrite length_app. lia.
Qed.

(** A read of unrelated messages only. *)
Definition noise (op pid sq : Z) (r : result (list byte) io_error) : Prop :=
  exists ms, ms <> [] /\ r = Ok (concat ms) /\ Forall framed ms /\ Forall (unrelated op pid sq) ms.

Lemma concat_ne m ms : framed m -> exists b l, concat (m :: ms) = b :: l.
Proof.
  intros [H4 _]. destruct m as [|b m]; [simpl in H4; lia|]. by exists b, (m ++ concat ms).
Qed.

Lemma exchange_loop_noise op pid sq r reads :
  noise op pid sq r -> exchange_loop op pid sq (r :: reads) = exchange_loop op pid sq reads.
Proof.
  intros (ms & Hne & -> & Hf & Hu). cbn [exchange_loop].
  assert (scan (length (concat ms)) op pid sq (concat ms) = Ok None) as Hs.
  { pose proof (framed_count ms Hf). rewrite <- (app_nil_r (concat ms)) at 2.
    replace (length (concat ms)) with (length ms + (length (concat ms) - length ms)) by lia.
    by rewrite scan_unrelated, scan_nil. }
  destruct ms as [|m ms]; [done|]. inversion Hf as [|?? Hm _]; subst.
  destruct (concat_ne m ms Hm) as (b & l & E). rewrite E in *. by rewrite Hs.
Qed.

Lemma exchange_loop_finds op pid sq ms m rest reads :
  Forall framed ms -> Forall (unrelated op pid sq) ms -> framed m -> ours op pid sq m ->
  exchange_loop op pid sq (Ok (concat ms ++ m ++ rest) :: reads) =
  if (get f_errno m =? 0)%Z then Ok m else Err (from_raw_os_error (get f_errno m)).
Proof.
  intros Hf Hu Hm Ho. cbn [exchange_loop]. set (buf := concat ms ++ m ++ rest).
  assert (length ms + 1 <= length buf) as Hlen.
  { pose proof (framed_count ms Hf). destruct Hm. unfold buf. rewrite !length_app. lia. }
  assert (scan (length buf) op pid sq buf =
    if (get f_errno m =? 0)%Z then Ok (Some m) else Err (from_raw_os_error (get f_errno m))) as Hs.
  { replace (length buf) with (length ms + S (length buf - length ms - 1)) by lia.
    unfold buf at 2. rewrite scan_unrelated by done. by apply scan_ours. }
  destruct buf; [simpl in Hlen; lia|]. rewrite Hs. by destruct (_ =? _)%Z.
Qed.
End Exchange.

(** ** Messages *)

(** An address the parser can delimit: it starts with its own length. *)
Definition sockaddr_wf (a : list byte) : Prop := sockaddr_ok a /\ length a <= 255.

Lemma ip_address_len ip :
  length (ip_address ip) = if is_ipv4 ip then sizeof_sockaddr_in else sizeof_sockaddr_in6.
Proof. destruct ip; cbn [ip_address is_ipv4]; by rewrite length_inserts. Qed.

Lemma ip_address_wf ip : sockaddr_wf (ip_address ip).
Proof.
  assert (length (ip_address ip) <= 255) by (rewrite ip_address_len; destruct ip; cbv; lia).
  split; [|done]. pose proof (ip_address_len ip) as Hl. unfold sockaddr_ok.
  destruct (ip_address ip) as [|b l] eqn:E; [done|]. rewrite Hl.
  assert (ip_address ip !! 0 = Some b) as H0 by by rewrite E.
  destruct ip; cbn [ip_address is_ipv4] in *; rewrite list_lookup_inserts_lt in H0 by lia;
    injection H0 as <-; done.
Qed.

Lemma link_address_wf i : sockaddr_wf (link_address i).
Proof.
  unfold link_address. cbn [le_bytes]. split; [|cbv; lia]. done.
Qed.

(** Whatever is read as an address is well-formed. *)
Lemma addresses_loop_ok addrs n index rest attrs :
  addresses_loop addrs n index rest = Ok attrs ->
  length attrs = n /\
  Forall (fun a => forall v, a = Some v -> sockaddr_wf v) attrs.
Proof.
  revert index rest attrs. induction n as [|n IH]; intros index rest attrs; cbn [addresses_loop].
  { intros [= <-]. by split; [|constructor]. }
  destruct (negb _).
  - destruct (addresses_loop _ _ _ _) as [l|] eqn:E; [|done]. intros [= <-].
    destruct (IH _ _ _ E) as [Hl Hf]. split; [by cbn; rewrite Hl|]. by constructor.
  - destruct rest as [|b r]; [done|].
    destruct (Nat.ltb_spec (length (b :: r)) (padded (Z.to_nat (u8z b)))) as [|Hlen]; [done|].
    destruct (addresses_loop _ _ _ _) as [l|] eqn:E; [|done]. intros [= <-].
    destruct (IH _ _ _ E) as [Hl Hf]. split; [by cbn; rewrite Hl|]. constructor; [|done].
    intros v [= <-]. pose proof (padded_ge (Z.to_nat (u8z b))). pose proof (u8z_range b).
    split; [|rewrite length_take; lia].
    destruct (Z.to_nat (u8z b)) as [|n'] eqn:En; [done|]. cbn [take sockaddr_ok].
    rewrite En. cbn [length] in *. rewrite length_take. lia.
Qed.

Lemma slot_wf attrs :
  Forall (fun a => forall v, a = Some v -> sockaddr_wf v) attrs ->
  forall i v, slot attrs i = Some v -> sockaddr_wf v.
Proof.
  intros Hf i v. unfold slot. destruct (attrs !! i) as [a|] eqn:E; [|done]. intros ->.
  by eapply (Forall_lookup_1 _ _ _ _ Hf E).
Qed.

Lemma append_exact p a : length a = 16 \/ length a = 20 \/ length a = 28 -> append p a = p ++ a.
Proof.
  intros Hl. unfold append. f_equal.
  replace (padded (length a) - length a) with 0 by (destruct Hl as [->|[->| ->]]; done).
  cbn. by rewrite app_nil_r.
Qed.

(** The address slots of an exception message. *)
Definition exception_attrs (route : EndpointRoute) : list (option (list byte)) :=
  [ Some (ip_address (e_destination route)); Some (e_gateway route);
    Some (ip_address (all_ones (e_destination route))); None;
    Some (link_address (e_interface route)); e_source route; None; None ].

Lemma exception_payload_serialize route :
  exception_payload route = serialize (exception_attrs route).
Proof.
  unfold exception_payload, serialize, exception_attrs. cbn [foldl].
  rewrite (append_exact [] (ip_address _)); [by destruct (e_source route)|].
  rewrite ip_address_len. destruct (is_ipv4 _); cbv; auto.
Qed.

Lemma exception_addrs_mask route i a :
  exception_attrs route !! i = Some a ->
  Z.testbit (exception_addrs route) (Z.of_nat i) = if a is Some _ then true else false.
Proof.
  unfold exception_attrs, exception_addrs.
  do 8 (destruct i as [|i]; [intros [= <-]; by destruct (e_source route)|]). done.
Qed.

Definition endpoint_wf (route : EndpointRoute) : Prop :=
  (0 < e_interface route <= u16_max)%Z /\ (0 <= e_mtu route <= u32_max)%Z /\
  (0 <= e_hopcount route <= u32_max)%Z /\ sockaddr_wf (e_gateway route) /\
  (forall s, e_source route = Some s -> sockaddr_wf s).

Lemma exception_attrs_ok route :
  endpoint_wf route ->
  Forall (fun a => forall v, a = Some v -> sockaddr_ok v) (exception_attrs route).
Proof.
  intros (_ & _ & _ & Hg & Hs). unfold exception_attrs.
  repeat (apply List.Forall_cons; [intros v Hv|]); try discriminate Hv; [..|constructor];
    try injection Hv as <-.
  - apply ip_address_wf.
  - apply Hg.
  - apply ip_address_wf.
  - apply link_address_wf.
  - by apply Hs.
Qed.

Lemma padded_le n k : n <= 4 * k -> 1 <= k -> padded n <= 4 * k.
Proof.
  intros Hn Hk. unfold padded. pose proof (Nat.div_mod_eq (n `max` 4 + 3) 4).
  pose proof (Nat.mod_upper_bound (n `max` 4 + 3) 4). lia.
Qed.

Lemma length_append p a : length (append p a) = length p + padded (length a).
Proof.
  unfold append. rewrite !length_app, length_replicate. pose proof (padded_ge (length a)). lia.
Qed.

Lemma exception_payload_len route :
  endpoint_wf route -> length (exception_payload route) <= 2048.
Proof.
  intros (_ & _ & _ & [_ Hg] & Hs). unfold exception_payload.
  pose proof (padded_le (length (e_gateway route)) 64 ltac:(lia) ltac:(lia)).
  pose proof (padded_le (length (ip_address (all_ones (e_destination route)))) 64).
  pose proof (padded_le (length (link_address (e_interface route))) 64).
  destruct (ip_address_wf (all_ones (e_destination route))) as [_ L1].
  destruct (ip_address_wf (e_destination route)) as [_ L2].
  destruct (link_address_wf (e_interface route)) as [_ L3].
  destruct (e_source route) as [s|]; rewrite !length_append; [|lia].
  pose proof (padded_le (length s) 64). destruct (Hs s eq_refl). lia.
Qed.

(** Fields survive writing other fields and appending addresses. *)
Ltac solve_get :=
  repeat first
    [ rewrite get_app by (rewrite ?length_put, ?length_replicate; done)
    | rewrite get_put_eq by (rewrite ?length_put, ?length_replicate; done)
    | rewrite get_put_ne by done ].

Lemma put_metrics_len route b : length (put_metrics route b) = length b.
Proof.
  unfold put_metrics, put_metric. destruct (e_mtu route =? 0)%Z, (e_hopcount route =? 0)%Z;
    cbn [fst snd]; by rewrite !length_put.
Qed.

Lemma put_metrics_other route b f :
  f <> f_mtu -> f <> f_hopcount -> f <> f_inits -> get f (put_metrics route b) = get f b.
Proof.
  intros H1 H2 H3. unfold put_metrics, put_metric.
  destruct (e_mtu route =? 0)%Z, (e_hopcount route =? 0)%Z; cbn [fst snd]; by rewrite !get_put_ne.
Qed.

Lemma put_metrics_values route b :
  sizeof_rt_msghdr <= length b -> endpoint_wf route ->
  get f_mtu b = 0%Z -> get f_hopcount b = 0%Z ->
  get f_mtu (put_metrics route b) = e_mtu route /\
  get f_hopcount (put_metrics route b) = e_hopcount route.
Proof.
  intros Hlen (_ & Hm & Hh & _) E1 E2. unfold put_metrics, put_metric.
  assert (forall z, (0 <= z <= u32_max)%Z -> (z mod 256 ^ Z.of_nat 4 = z)%Z) as Hmod
    by (intros z Hz; apply Z.mod_small; unfold u32_max in Hz; lia).
  destruct (Z.eqb_spec (e_mtu route) 0) as [Em|Em], (Z.eqb_spec (e_hopcount route) 0) as [Eh|Eh];
    cbn [fst snd];
    repeat first [rewrite get_put_eq by (rewrite ?length_put; done) | rewrite get_put_ne by done];
    cbn [width_of]; rewrite ?Hmod by done; rewrite ?E1, ?E2, ?Em, ?Eh; done.
Qed.

(** The header of an exception message before its metrics. *)
Definition exception_header (route : EndpointRoute) (operation length_ : Z) : list byte :=
  let flags := if e_via_gateway route then Z.lor base_flags RTF_GATEWAY else base_flags in
  put f_addrs (exception_addrs route) (put f_flags flags (put f_index (e_interface route)
    (put f_type operation (put f_version RTM_VERSION (put f_msglen length_
      (replicate sizeof_rt_msghdr Byte.x00)))))).

Lemma endpoint_message_add route :
  endpoint_wf route ->
  endpoint_message route RTM_ADD =
  Ok (put_metrics route (exception_header route RTM_ADD
        (Z.of_nat (sizeof_rt_msghdr + length (exception_payload route))))
      ++ exception_payload route).
Proof.
  intros Hw. pose proof (exception_payload_len route Hw) as Hl. unfold endpoint_message.
  change (RTM_ADD =? RTM_GET)%Z with false. cbv iota beta.
  rewrite u16_try_from_ok; [done|]. unfold sizeof_rt_msghdr. lia.
Qed.

Lemma exception_header_len route op l : length (exception_header route op l) = sizeof_rt_msghdr.
Proof. unfold exception_header. rewrite !length_put. apply length_replicate. Qed.

Lemma exception_flags_range route :
  (0 <= (if e_via_gateway route then Z.lor base_flags RTF_GATEWAY else base_flags) < 2 ^ 32)%Z.
Proof. destruct (e_via_gateway route); cbv; split; congruence. Qed.

Lemma exception_addrs_range route : (0 <= exception_addrs route < 2 ^ 32)%Z.
Proof. unfold exception_addrs. destruct (e_source route); cbv; split; congruence. Qed.

(** What a lookup reads from a gateway address of its own making. *)
Definition gateway_canonical (route : EndpointRoute) : Prop :=
  e_gateway route = link_address (e_interface route) \/
  exists b, e_gateway route !! 1 = Some b /\ (u8z b = AF_INET \/ u8z b = AF_INET6).

Lemma link_address_family i : link_address i !! 1 = Some (z_u8 AF_LINK).
Proof. done. Qed.

Lemma from_reply_exception route m :
  endpoint_wf route -> gateway_canonical route ->
  sizeof_rt_msghdr <= length m ->
  get f_index m = e_interface route ->
  get f_flags m = (if e_via_gateway route then Z.lor base_flags RTF_GATEWAY else base_flags) ->
  get f_mtu m = e_mtu route -> get f_hopcount m = e_hopcount route ->
  addresses m (header_of m) = Ok (exception_attrs route) ->
  from_reply (e_destination route) m = Ok route.
Proof.
  intros Hw Hg Hlen Ei Ef Em Eh Ha. unfold from_reply.
  rewrite (proj2 (header_ok m _) (conj Hlen eq_refl)). cbn [rbind].
  cbn [header_of rtm_index rtm_flags rmx_mtu rmx_hopcount] in *. rewrite Ei, Ef, Em, Eh.
  destruct Hw as (Hi & _). rewrite (proj2 (Z.eqb_neq _ 0)) by lia. cbn [orb].
  replace (Z.land _ (Z.lor RTF_REJECT RTF_BLACKHOLE) =? 0)%Z with true
    by by destruct (e_via_gateway route).
  cbn [negb]. rewrite Ha. cbn [rbind]. f_equal.
  change (slot (exception_attrs route) RTAX_GATEWAY) with (Some (e_gateway route)).
  change (slot (exception_attrs route) RTAX_IFA) with (e_source route).
  replace (negb (Z.land _ RTF_GATEWAY =? 0)%Z) with (e_via_gateway route)
    by by destruct (e_via_gateway route).
  cbv iota. assert (forall g, g = e_gateway route ->
    mkEndpoint (e_destination route) (e_interface route) g (e_via_gateway route) (e_source route)
      (e_mtu route) (e_hopcount route) = route) as Hr by (intros g ->; by destruct route).
  apply Hr. destruct Hg as [E|(b & Hb & Hf)].
  - by rewrite E, link_address_family.
  - rewrite Hb. by destruct Hf as [-> | ->].
Qed.

(** What can be read from an exception message. *)
Lemma exception_message_view route m :
  endpoint_wf route -> endpoint_message route RTM_ADD = Ok m ->
  sizeof_rt_msghdr <= length m /\
  addresses m (header_of m) = Ok (exception_attrs route) /\
  get f_index m = e_interface route /\
  get f_flags m = (if e_via_gateway route then Z.lor base_flags RTF_GATEWAY else base_flags).
Proof.
  intros Hw Hm. rewrite endpoint_message_add in Hm by done. apply Ok_inj in Hm. subst m.
  set (payload := exception_payload route).
  set (l := Z.of_nat (sizeof_rt_msghdr + length payload)).
  set (hd := put_metrics route (exception_header route RTM_ADD l)).
  assert (length hd = sizeof_rt_msghdr) as Hhd
    by (unfold hd; rewrite put_metrics_len; apply exception_header_len).
  pose proof (exception_flags_range route). pose proof (exception_addrs_range route).
  assert (forall f, f <> f_mtu -> f <> f_hopcount -> f <> f_inits ->
    get f (hd ++ payload) = get f (exception_header route RTM_ADD l)) as Hget.
  { intros f H1 H2 H3. rewrite get_app by lia. by apply put_metrics_other. }
  split_and!.
  - rewrite length_app, Hhd. lia.
  - unfold addresses. cbn [header_of rtm_addrs]. rewrite Hget by done.
    unfold exception_header. rewrite get_put_eq by by rewrite !length_put, length_replicate.
    rewrite Z.mod_small by done. rewrite <- Hhd, drop_app_length.
    unfold payload. rewrite exception_payload_serialize, <- (app_nil_r (serialize _)).
    apply (addresses_loop_serialize _ (exception_attrs route) 0);
      [by apply exception_attrs_ok | by intros i a Hi; apply exception_addrs_mask].
  - rewrite Hget by done. unfold exception_header. solve_get. cbn [width_of].
    apply Z.mod_small. destruct Hw as (Hi & _). unfold u16_max in Hi. lia.
  - rewrite Hget by done. unfold exception_header. solve_get. by apply Z.mod_small.
Qed.

(** C31: the exception message for a looked-up endpoint route is always built,
    its length field is its length, it targets exactly the endpoint's host
    prefix, pins the interface, and reading it back the way a lookup reads the
    kernel's reply gives the same route: interface, gateway and its flag,
    source address, MTU and hop count are all carried. *)
Theorem endpoint_exception_round_trip route :
  endpoint_wf route -> gateway_canonical route ->
  exists m, endpoint_message route RTM_ADD = Ok m /\
    framed m /\ get f_type m = RTM_ADD /\
    addresses m (header_of m) = Ok (exception_attrs route) /\
    from_reply (e_destination route) m = Ok route.
Proof.
  intros Hw Hg. pose proof (endpoint_message_add route Hw) as Hm. eexists. split; [exact Hm|].
  destruct (exception_message_view route _ Hw Hm) as (Hlen & Ha & Hi & Hf).
  set (payload := exception_payload route) in *.
  set (l := Z.of_nat (sizeof_rt_msghdr + length payload)) in *.
  assert (length (put_metrics route (exception_header route RTM_ADD l)) = sizeof_rt_msghdr) as Hhd
    by (rewrite put_metrics_len; apply exception_header_len).
  pose proof (exception_payload_len route Hw) as Hp. fold payload in Hp.
  destruct (put_metrics_values route (exception_header route RTM_ADD l)) as [Hmtu Hh];
    [by rewrite exception_header_len | done | | |].
  1,2: unfold exception_header; rewrite !get_put_ne by done; done.
  split_and!; [| |done|].
  - split; [unfold sizeof_rt_msghdr in *; lia|]. rewrite get_app, put_metrics_other by (lia || done).
    rewrite length_app, Hhd. unfold exception_header. solve_get. cbn [width_of]. unfold l.
    rewrite Z.mod_small; unfold sizeof_rt_msghdr in *; lia.
  - rewrite get_app, put_metrics_other by (lia || done). unfold exception_header. by solve_get.
  - apply from_reply_exception; try done; rewrite get_app by lia; done.
Qed.

Lemma from_reply_wf destination reply route :
  from_reply destination reply = Ok route ->
  endpoint_wf route /\ gateway_canonical route /\ e_destination route = destination.
Proof.
  unfold from_reply. destruct (header reply) as [hd|] eqn:Eh; [|done]. apply header_ok in Eh as [_ ->].
  cbn [rbind header_of rtm_index rtm_flags rmx_mtu rmx_hopcount].
  destruct (Z.eqb_spec (get f_index reply) 0) as [|Hi]; [done|].
  destruct (Z.land (get f_flags reply) _ =? 0)%Z; [|done]. cbn [orb negb].
  destruct (addresses reply _) as [attrs|] eqn:Ea; [|done]. cbn [rbind].
  apply addresses_loop_ok in Ea as [_ Hf]. pose proof (slot_wf attrs Hf) as Hs.
  pose proof (get_range f_index reply) as Ri. pose proof (get_range f_mtu reply) as Rm.
  pose proof (get_range f_hopcount reply) as Rh. cbn [width_of] in *.
  set (gateway := match slot attrs RTAX_GATEWAY with Some _ => _ | None => _ end).
  assert (sockaddr_wf gateway /\ (gateway = link_address (get f_index reply) \/
    exists b, gateway !! 1 = Some b /\ (u8z b = AF_INET \/ u8z b = AF_INET6))) as [Hgw Hgc].
  { pose proof (link_address_wf (get f_index reply)). subst gateway.
    destruct (slot attrs RTAX_GATEWAY) as [g|] eqn:Eg; [|auto]. destruct (g !! 1) as [b|] eqn:Eb; [|auto].
    destruct (Z.eqb_spec (u8z b) AF_INET), (Z.eqb_spec (u8z b) AF_INET6); cbn [orb]; auto; split; eauto. }
  intros Hr. apply Ok_inj in Hr. subst route.
  assert (endpoint_wf (mkEndpoint destination (get f_index reply) gateway
    (negb (Z.land (get f_flags reply) RTF_GATEWAY =? 0)%Z) (slot attrs RTAX_IFA)
    (get f_mtu reply) (get f_hopcount reply))) as Hw.
  { unfold endpoint_wf, u16_max, u32_max. cbn [e_interface e_mtu e_hopcount e_gateway e_source].
    split_and!; try lia; [done | apply Hs]. }
  split_and!; auto.
Qed.

Lemma lookup_wf strerror destination pid sequence opened reads route :
  lookup strerror destination pid sequence opened reads = Ok route ->
  endpoint_wf route /\ gateway_canonical route /\ e_destination route = destination.
Proof.
  unfold lookup. intros (m & _ & (reply & _ & Hr)%rbind_ok_inv)%rbind_ok_inv. by eapply from_reply_wf.
Qed.

(** C38: whatever bytes the kernel replies with, a route that a lookup reads
    from them is one the daemon can work with: its fields have the width of the
    message's fields, its addresses are delimited correctly, it has a usable
    gateway and goes to the destination asked for; so its exception message can
    always be built. *)
Theorem looked_up_route_well_formed destination reply route :
  from_reply destination reply = Ok route ->
  endpoint_wf route /\ gateway_canonical route /\ e_destination route = destination /\
  exists m, endpoint_message route RTM_ADD = Ok m.
Proof.
  intros (Hw & Hg & Hd)%from_reply_wf. split_and!; [done..|]. eexists. by apply endpoint_message_add.
Qed.

(** C32: after any number of reads full of unrelated messages, and behind
    further unrelated messages in the same read, the exchange returns its own
    reply whole when the kernel reports success, and the kernel's error number
    otherwise; what follows the reply is never looked at. *)
Theorem exchange_finds_reply strerror message pid sq reads ms m rest more :
  let op := get f_type message in
  Forall (noise op pid sq) reads ->
  Forall framed ms -> Forall (unrelated op pid sq) ms -> framed m -> ours op pid sq m ->
  exchange strerror message pid sq (Ok tt) (reads ++ Ok (concat ms ++ m ++ rest) :: more) =
  if (get f_errno m =? 0)%Z then Ok m else Err (from_raw_os_error strerror (get f_errno m)).
Proof.
  cbn zeta. intros Hn Hf Hu Hm Ho. unfold exchange. cbn [rbind].
  induction Hn as [|r reads Hr _ IH]; cbn [app].
  - by apply exchange_loop_finds.
  - by rewrite exchange_loop_noise.
Qed.

(** ** Concrete instances *)
Module EndpointExamples.
(** 198.51.100.1 through 192.168.1.1 on interface 4, MTU 1500. *)
Definition gateway : list byte := ip_address (V4 (z_u8 <$> [192; 168; 1; 1]%Z)).
Definition route : EndpointRoute :=
  mkEndpoint (V4 (z_u8 <$> [198; 51; 100; 1]%Z)) 4 gateway true
    (Some (ip_address (V4 (z_u8 <$> [192; 168; 1; 20]%Z)))) 1500 0.

(** The request a lookup of [route] sends, the reply, and a four-byte
    notification. *)
Definition query : list byte :=
  default [] (ok (endpoint_message (mkEndpoint (e_destination route) 0 [] false None 0 0) RTM_GET)).
Definition answer : list byte :=
  put f_type RTM_GET (stamped (default [] (ok (endpoint_message route RTM_ADD))) 77 3).
Definition notification : list byte := put f_msglen 4 (put f_version 5 (replicate 4 Byte.x00)).
Definition no_strerror (_ : Z) : ErrorKind * string := (OtherKind, "").
End EndpointExamples.
Import EndpointExamples.

Lemma endpoint_exception_round_trip_witness :
  exists m, endpoint_message route RTM_ADD = Ok m /\
    framed m /\ get f_type m = RTM_ADD /\
    addresses m (header_of m) = Ok (exception_attrs route) /\
    from_reply (e_destination route) m = Ok route.
Proof.
  apply (endpoint_exception_round_trip route).
  - split_and!; try (cbv; congruence).
    + split; [reflexivity | vm_compute; lia].
    + intros s [= <-]. split; [reflexivity | vm_compute; lia].
  - right. exists (z_u8 AF_INET). split; [reflexivity | left; reflexivity].
Defined.

Lemma looked_up_route_well_formed_witness :
  endpoint_wf route /\ gateway_canonical route /\ e_destination route = e_destination route /\
  exists m, endpoint_message route RTM_ADD = Ok m.
Proof.
  apply (looked_up_route_well_formed (e_destination route) answer route). vm_compute. reflexivity.
Defined.

Lemma exchange_finds_reply_witness :
  exchange no_strerror query 77 3 (Ok tt)
    ([Ok (concat [notification; notification])] ++
     Ok (concat [notification] ++ answer ++ [Byte.x01]) :: []) = Ok answer.
Proof.
  assert (framed notification) as Hf by (split; [vm_compute; lia | reflexivity]).
  assert (unrelated (get f_type query) 77 3 notification) as Hu by (right; left; vm_compute; congruence).
  rewrite (exchange_finds_reply no_strerror query 77 3).
  - reflexivity.
  - apply List.Forall_cons; [|constructor]. exists [notification; notification].
    split_and!; [congruence | reflexivity | |]; forall_each assumption.
  - forall_each assumption.
  - forall_each assumption.
  - split; [vm_compute; lia | reflexivity].
  - split_and!; try reflexivity. vm_compute. lia.
Defined.

(** The lookup built on that exchange recovers the route. *)
Example lookup_example :
  lookup no_strerror (e_destination route) 77 3 (Ok tt)
    [Ok notification; Ok (notification ++ answer)] = Ok route.
Proof. vm_compute. reflexivity. Qed.
