(* ===== verification/Snapshot.v ===== *)
(** * platform/routes_macos.rs: route snapshots

    A [Snapshot] is a routing message as the kernel reports it. [key] is the
    prefix and scope it stands for, [same_path] compares where two routes lead,
    [message] turns a snapshot back into a request, [tun_route] builds the
    request for a VPN route and [dump_routes] parses the kernel's table. The
    relation [shows] collects what a request preserves of its snapshot; that
    [message] is in it is the property the restoration of routes rests on. *)

From S2P Require Import Prelude RustStd Net Platform RtMsg EndpointMacos.
From Stdlib Require Import Lia.

#[global] Instance byte_eq_dec : EqDecision byte := Byte.byte_eq_dec.
#[global] Program Instance byte_countable : Countable byte :=
  inj_countable Byte.to_N Byte.of_N _.
Next Obligation. intros b. apply Byte.of_to_N. Qed.

Definition Snapshot : Type := list byte.

Record RouteKey : Type := mkKey {
  k_family : byte;
  k_destination : list byte;
  k_mask : list byte;
  k_host : bool;
  k_scope : Z;
}.

#[global] Instance RouteKey_eq_dec : EqDecision RouteKey.
Proof. solve_decision. Defined.
#[global] Program Instance RouteKey_countable : Countable RouteKey :=
  inj_countable' (fun k => (k_family k, k_destination k, k_mask k, k_host k, k_scope k))
    (fun '(f, d, m, h, s) => mkKey f d m h s) _.
Next Obligation. by intros []. Qed.

(** [address.get(offset + index).copied().unwrap_or(0)] for each index. *)
Definition window (address : list byte) (offset length_ : nat) : list byte :=
  (fun i => default Byte.x00 (address !! (offset + i))) <$> seq 0 length_.

(** [bytes[0] == 0xfe && bytes[1] & 0xc0 == 0x80]. *)
Definition link_local (bytes : list byte) : bool :=
  match bytes with
  | b0 :: b1 :: _ => ((u8z b0 =? 0xfe) && (Z.land (u8z b1) 0xc0 =? 0x80))%Z
  | _ => false
  end.

Definition address_bytes (address : list byte) (family : byte) : result (list byte) io_error :=
  if (u8z family =? AF_INET)%Z then Ok (window address 4 4)
  else if (u8z family =? AF_INET6)%Z then
    let bytes := window address 8 16 in
    Ok (if link_local bytes then list_inserts 2 [Byte.x00; Byte.x00] bytes else bytes)
  else Err (io_other "unsupported routing address family").

Definition same_address (a b : list byte) : result bool io_error :=
  match a !! 1, b !! 1 with
  | Some a_family, Some b_family =>
    if bool_decide (a_family = b_family) then
      let? x := address_bytes a a_family in
      let? y := address_bytes b b_family in
      Ok (bool_decide (x = y))
    else Ok false
  | _, _ => Ok false
  end.

Definition has_flag (flags bit : Z) : bool := negb (Z.land flags bit =? 0)%Z.

Definition band (a b : byte) : byte := z_u8 (Z.land (u8z a) (u8z b)).

(** [for (byte, mask) in destination.iter_mut().zip(&mask) { *byte &= mask }]. *)
Fixpoint masked (destination mask : list byte) : list byte :=
  match destination, mask with
  | d :: ds, m :: ms => band d m :: masked ds ms
  | _, _ => destination
  end.

(** [Snapshot::key]. *)
Definition key (s : Snapshot) : result RouteKey io_error :=
  let? head := header s in
  let? attrs := addresses s head in
  let? dst := ok_or (slot attrs RTAX_DST) (io_other "route has no destination") in
  let? family := ok_or (dst !! 1) (io_other "invalid route destination") in
  let? destination := address_bytes dst family in
  let host := has_flag (rtm_flags head) RTF_HOST in
  let? mask := if host then Ok (replicate (length destination) Byte.xff)
               else address_bytes (default [] (slot attrs RTAX_NETMASK)) family in
  Ok (mkKey family (masked destination mask) mask host
        (if has_flag (rtm_flags head) RTF_IFSCOPE then rtm_index head else 0%Z)).

Definition routing_flags : Z := Z.lor RTF_GATEWAY (Z.lor RTF_REJECT RTF_BLACKHOLE).

Definition is_link (a : list byte) : bool := bool_decide (a !! 1 = Some (z_u8 AF_LINK)).

Definition gateway_equal (left right : option (list byte)) : result bool io_error :=
  match left, right with
  | Some a, Some b => if is_link a && is_link b then Ok true else same_address a b
  | a, b => Ok (bool_decide (a = b))
  end.

Definition source_equal (left right : option (list byte)) : result bool io_error :=
  match left, right with
  | _, None => Ok true
  | Some a, Some b => same_address a b
  | _, _ => Ok false
  end.

(** [self.same_path(other)]. *)
Definition same_path (self other : Snapshot) : result bool io_error :=
  let? lhs := header self in
  let? rhs := header other in
  let? left_attrs := addresses self lhs in
  let? right_attrs := addresses other rhs in
  let? left_key := key self in
  let? right_key := key other in
  if negb (bool_decide (left_key = right_key)) || negb (rtm_index lhs =? rtm_index rhs)%Z
     || negb (Z.land (rtm_flags lhs) routing_flags =? Z.land (rtm_flags rhs) routing_flags)%Z
  then Ok false
  else
    let? g := gateway_equal (slot left_attrs RTAX_GATEWAY) (slot right_attrs RTAX_GATEWAY) in
    let? s := source_equal (slot left_attrs RTAX_IFA) (slot right_attrs RTAX_IFA) in
    Ok (g && s).

(** The mask of the slots that are present, and the flags a request drops. *)
Fixpoint present_mask (attrs : list (option (list byte))) (index : nat) : Z :=
  match attrs with
  | [] => 0
  | a :: r =>
    Z.lor (if a is Some _ then Z.shiftl 1 (Z.of_nat index) else 0) (present_mask r (S index))
  end.

Definition transient_flags : Z :=
  Z.lor RTF_DONE (Z.lor RTF_IFREF (Z.lor RTF_CONDEMNED RTF_DEAD)).

(** [Snapshot::message]; [Z.ldiff a b] is [a & !b]. *)
Definition message (s : Snapshot) (operation : Z) : result (list byte) io_error :=
  let? head := header s in
  if (rtm_index head =? 0)%Z then Err (io_other "route has no interface to restore")
  else if has_flag (rtm_flags head) RTF_PROXY
  then Err (io_other "cannot safely replace a kernel proxy route")
  else
    let? attrs := addresses s head in
    let attrs := <[RTAX_IFP := Some (link_address (rtm_index head))]> attrs in
    let bytes := foldl (fun acc a => match a with Some v => append acc v | None => acc end)
                   (take sizeof_rt_msghdr s) attrs in
    let? length_ := u16_try_from (length bytes) in
    let bytes := put f_msglen length_ bytes in
    let bytes := put f_type operation bytes in
    let bytes := put f_errno 0 bytes in
    let bytes := put f_addrs (present_mask attrs 0) bytes in
    let bytes := put f_flags (Z.ldiff (rtm_flags head) transient_flags) bytes in
    Ok (put f_inits (if (operation =? RTM_ADD)%Z then RTV_ALL else 0%Z) bytes).

(** ** The request for a VPN route *)

(** The destination with its host bits cleared. *)
Definition network (ip mask : IpAddr) : result IpAddr io_error :=
  match ip, mask with
  | V4 ip, V4 mask => Ok (V4 (masked ip mask))
  | V6 ip, V6 mask => Ok (V6 (masked ip mask))
  | _, _ => Err (io_other "route address family mismatch")
  end.

(** The bytes of a TUN route; [host] is [route.prefix() == 32 or 128]. *)
Definition tun_bytes (destination mask : IpAddr) (index : Z) (host : bool)
    : result Snapshot io_error :=
  let bytes := replicate sizeof_rt_msghdr Byte.x00 in
  let bytes := append bytes (ip_address destination) in
  let bytes := append bytes (link_address index) in
  let bytes := append bytes (ip_address mask) in
  let? length_ := u16_try_from (length bytes) in
  let bytes := put f_msglen length_ bytes in
  let bytes := put f_version RTM_VERSION bytes in
  let bytes := put f_index index bytes in
  let bytes := put f_addrs (Z.lor RTA_DST (Z.lor RTA_GATEWAY RTA_NETMASK)) bytes in
  Ok (put f_flags (Z.lor RTF_UP (Z.lor RTF_STATIC (if host then RTF_HOST else 0%Z))) bytes).

Section TunRoute.
Context {Route : Type} `{RouteLib Route}.
(** [if_nametoindex], 0 when there is no such interface, and the error it
    leaves behind. *)
Context (if_nametoindex : string -> Z) (last_os_error : io_error).

(** [CString::new]. *)
Definition cstring_new (name : string) : result string io_error :=
  if contains Byte.x00 (str_bytes name)
  then Err (io_new InvalidInput "nul byte found in provided data") else Ok name.

Definition tun_route (route : Route) : result Snapshot io_error :=
  let? name := ok_or (if_name route) (io_other "TUN route has no interface") in
  let? name := cstring_new name in
  let index := if_nametoindex name in
  if (index =? 0)%Z then Err last_os_error
  else
    let? index := u16_try_from (Z.to_nat index) in
    let? destination := network (destination route) (mask route) in
    tun_bytes destination (mask route) index
      (prefix route =? (if is_ipv4 destination then 32 else 128))%N.
End TunRoute.

(** ** The kernel's table *)

Definition inet_family (address : list byte) : bool :=
  match address !! 1 with
  | Some family => (u8z family =? AF_INET)%Z || (u8z family =? AF_INET6)%Z
  | None => false
  end.

(** The loop over the bytes of a dump; a message is at least a header long, so
    [fuel] = the number of bytes is enough. *)
Fixpoint parse_dump (fuel : nat) (bytes : list byte) : result (list Snapshot) io_error :=
  match fuel, bytes with
  | _, [] => Ok []
  | O, _ => Ok []
  | S fuel', _ =>
    let? head := header bytes in
    let length_ := Z.to_nat (rtm_msglen head) in
    if (length_ <? sizeof_rt_msghdr) || (length bytes <? length_)
    then Err (io_other "invalid route dump message")
    else if negb (rtm_version head =? RTM_VERSION)%Z
    then Err (io_other "unexpected route dump version")
    else
      let message := take length_ bytes in
      let? attrs := addresses message head in
      let? rest := parse_dump fuel' (drop length_ bytes) in
      Ok (if match slot attrs RTAX_DST with Some dst => inet_family dst | None => false end
          then message :: rest else rest)
  end.

(** One round of [dump_routes]: the sizing [sysctl] and the reading one. *)
Record dump_round : Type := mkRound {
  sizing : result unit io_error;
  reading : result (list byte) io_error;
}.

Fixpoint dump_rounds (rounds : list dump_round) : result (list Snapshot) io_error :=
  match rounds with
  | [] => Err (io_other "routing table kept changing during snapshot")
  | round :: r =>
    let? _ := sizing round in
    match reading round with
    | Err error =>
      if bool_decide (raw_os_error error = Some ENOMEM) then dump_rounds r else Err error
    | Ok bytes => parse_dump (length bytes) bytes
    end
  end.

(** [for _ in 0..3]. *)
Definition dump_routes (r1 r2 r3 : dump_round) : result (list Snapshot) io_error :=
  dump_rounds [r1; r2; r3].

(** [SystemRoutes::find] over a dump. *)
Fixpoint find_route (k : RouteKey) (routes : list Snapshot) : result (option Snapshot) io_error :=
  match routes with
  | [] => Ok None
  | route :: r =>
    let? k' := key route in
    if bool_decide (k' = k) then Ok (Some route) else find_route k r
  end.

Definition system_find (k : RouteKey) (r1 r2 r3 : dump_round) : result (option Snapshot) io_error :=
  let? routes := dump_routes r1 r2 r3 in find_route k routes.

(** [SystemRoutes::request]. *)
Definition system_request (strerror : Z -> ErrorKind * string) (route : Snapshot) (operation pid sequence : Z)
    (opened : result unit io_error) (reads : list (result (list byte) io_error))
    : result unit io_error :=
  let? m := message route operation in
  rmap (fun _ => tt) (exchange strerror m pid sequence opened reads).

(** ** What a request preserves

    [view s head attrs]: [s] parses to this header and these address slots. *)
Definition view (s : Snapshot) (attrs : list (option (list byte))) : Prop :=
  sizeof_rt_msghdr <= length s /\ addresses s (header_of s) = Ok attrs.

(** The flags a route is identified and compared by. *)
Definition path_flags : Z :=
  Z.lor RTF_HOST (Z.lor RTF_IFSCOPE (Z.lor RTF_PROXY routing_flags)).

(** The metrics, from [rtm_rmx] to the end of the header. *)
Definition metrics (s : Snapshot) : list byte := take 56 (drop 36 s).

(** [t] describes the same route as [s]: same prefix, interface, gateway,
    routing flags and metrics; a source address of [s] is kept, one may be
    added. *)
Definition shows (s t : Snapshot) : Prop :=
  exists a b, view s a /\ view t b /\
    slot b RTAX_DST = slot a RTAX_DST /\ slot b RTAX_GATEWAY = slot a RTAX_GATEWAY /\
    slot b RTAX_NETMASK = slot a RTAX_NETMASK /\
    (slot a RTAX_IFA = None \/ slot b RTAX_IFA = slot a RTAX_IFA) /\
    get f_index t = get f_index s /\
    Z.land (get f_flags t) path_flags = Z.land (get f_flags s) path_flags /\
    metrics t = metrics s.

Lemma view_header s attrs : view s attrs -> header s = Ok (header_of s).
Proof. intros [Hlen _]. by apply header_ok. Qed.

Lemma has_flag_land x y bit m :
  Z.land x m = Z.land y m -> Z.land m bit = bit -> has_flag x bit = has_flag y bit.
Proof.
  intros Hxy Hm. unfold has_flag. f_equal. f_equal.
  rewrite <- Hm, !Z.land_assoc, Hxy. done.
Qed.

Lemma key_view s attrs :
  view s attrs ->
  key s =
  let? dst := ok_or (slot attrs RTAX_DST) (io_other "route has no destination") in
  let? family := ok_or (dst !! 1) (io_other "invalid route destination") in
  let? destination := address_bytes dst family in
  let host := has_flag (get f_flags s) RTF_HOST in
  let? mask := if host then Ok (replicate (length destination) Byte.xff)
               else address_bytes (default [] (slot attrs RTAX_NETMASK)) family in
  Ok (mkKey family (masked destination mask) mask host
        (if has_flag (get f_flags s) RTF_IFSCOPE then get f_index s else 0%Z)).
Proof.
  intros Hv. unfold key. rewrite (view_header _ _ Hv). cbn [rbind].
  destruct Hv as [_ Ha]. rewrite Ha. done.
Qed.

Lemma shows_key s t : shows s t -> key t = key s.
Proof.
  intros (a & b & Ha & Hb & Ed & _ & En & _ & Ei & Ef & _).
  rewrite (key_view _ _ Ha), (key_view _ _ Hb), Ed, En, Ei.
  by rewrite !(has_flag_land _ _ _ _ Ef).
Qed.

Lemma same_path_view s t a b :
  view s a -> view t b ->
  same_path s t =
  let? k := key s in
  let? l := key t in
  if negb (bool_decide (k = l)) || negb (get f_index s =? get f_index t)%Z
     || negb (Z.land (get f_flags s) routing_flags =? Z.land (get f_flags t) routing_flags)%Z
  then Ok false
  else
    let? g := gateway_equal (slot a RTAX_GATEWAY) (slot b RTAX_GATEWAY) in
    let? e := source_equal (slot a RTAX_IFA) (slot b RTAX_IFA) in
    Ok (g && e).
Proof.
  intros Hs Ht. unfold same_path. rewrite (view_header _ _ Hs), (view_header _ _ Ht). cbn [rbind].
  destruct Hs as [_ Ha], Ht as [_ Hb]. by rewrite Ha, Hb.
Qed.

Lemma land_sub x y m n : Z.land x m = Z.land y m -> Z.land m n = n -> Z.land x n = Z.land y n.
Proof. intros Hxy Hn. rewrite <- Hn, !Z.land_assoc, Hxy. done. Qed.

(** A report of a route leads where the route itself leads. *)
Lemma shows_same_path s t r : shows s t -> same_path s r = Ok true -> same_path t r = Ok true.
Proof.
  intros Hst. pose proof (shows_key _ _ Hst) as Hk.
  destruct Hst as (a & b & Ha & Hb & Ed & Eg & En & Es & Ei & Ef & _).
  intros Hp. assert (exists c, view r c) as [c Hc].
  { unfold same_path in Hp. rewrite (view_header _ _ Ha) in Hp. cbn [rbind] in Hp.
    destruct (header r) as [hr|] eqn:Hr; [|done]. apply header_ok in Hr as [Hr ->].
    cbn [rbind] in Hp. destruct Ha as [_ Ha]. rewrite Ha in Hp. cbn [rbind] in Hp.
    destruct (addresses r (header_of r)) as [c|] eqn:E; [|done]. by exists c. }
  rewrite (same_path_view _ _ _ _ Ha Hc) in Hp. rewrite (same_path_view _ _ _ _ Hb Hc).
  rewrite Hk, Ei, Eg, (land_sub _ _ _ routing_flags Ef eq_refl).
  destruct (key s) as [k|]; [|done]. destruct (key r) as [l|]; [|done]. cbn [rbind] in *.
  destruct (_ || _ || _); [done|].
  destruct (gateway_equal _ _) as [g|]; [|done]. cbn [rbind] in *.
  destruct Es as [Es| ->]; [|done]. rewrite Es in Hp.
  destruct (slot c RTAX_IFA), (slot b RTAX_IFA), g; cbn in *; done.
Qed.

Lemma shows_trans s t u : shows s t -> shows t u -> shows s u.
Proof.
  intros (a & b & Ha & Hb & Ed & Eg & En & Es & Ei & Ef & Em)
    (b' & c & Hb' & Hc & Ed' & Eg' & En' & Es' & Ei' & Ef' & Em').
  assert (b' = b) as -> by (destruct Hb as [_ Hb], Hb' as [_ Hb']; congruence).
  exists a, c. split_and!; try congruence. destruct Es as [|Es]; [by left|].
  rewrite <- Es. destruct Es' as [E'|E']; [left|right]; congruence.
Qed.

Lemma view_ok s attrs :
  view s attrs ->
  length attrs = RTAX_MAX /\ Forall (fun a => forall v, a = Some v -> sockaddr_wf v) attrs.
Proof. intros [_ Ha]. by apply addresses_loop_ok in Ha. Qed.

Lemma present_mask_spec attrs index i a :
  attrs !! i = Some a ->
  Z.testbit (present_mask attrs index) (Z.of_nat (index + i)) = if a is Some _ then true else false.
Proof.
  revert index i. induction attrs as [|x attrs IH]; intros index i Hi; [done|].
  cbn [present_mask]. rewrite Z.lor_spec. destruct i as [|i].
  - injection Hi as ->. rewrite Nat.add_0_r.
    assert (forall l j k, j < k -> Z.testbit (present_mask l k) (Z.of_nat j) = false) as Hlow.
    { intros l. induction l as [|y l IHl]; intros j k Hjk; cbn [present_mask];
        [apply Z.testbit_0_l|]. rewrite Z.lor_spec, IHl, orb_false_r by lia.
      destruct y; [|apply Z.testbit_0_l]. rewrite Z.shiftl_spec by lia. apply Z.testbit_neg_r. lia. }
    rewrite Hlow, orb_false_r by lia. destruct a; [|apply Z.testbit_0_l].
    rewrite Z.shiftl_spec by lia. by rewrite Z.sub_diag.
  - specialize (IH (S index) i Hi). replace (index + S i) with (S index + i) by lia. rewrite IH.
    replace (Z.testbit (if x is Some _ then _ else _) _) with false; [done|]. symmetry.
    destruct x; [|apply Z.testbit_0_l]. rewrite Z.shiftl_spec by lia.
    change 1%Z with (2 ^ 0)%Z. apply Z.pow2_bits_false. lia.
Qed.

Lemma lor_lt_pow2 a b n :
  (0 <= a < 2 ^ n -> 0 <= b < 2 ^ n -> 0 <= Z.lor a b < 2 ^ n)%Z.
Proof.
  intros Ha Hb. assert (0 <= Z.lor a b)%Z as H0 by (apply Z.lor_nonneg; lia). split; [done|].
  destruct (Z.eq_dec (Z.lor a b) 0) as [->|Hne]; [lia|]. apply Z.log2_lt_pow2; [lia|].
  assert (forall c, (0 <= c < 2 ^ n -> 0 < Z.lor a b -> Z.log2 c < n))%Z as Hl.
  { intros c Hc Hpos. destruct (Z.eq_dec c 0) as [->|]; [|apply Z.log2_lt_pow2; lia]. cbn.
    destruct (Z.le_gt_cases n 0) as [Hn|]; [|lia]. exfalso.
    assert (2 ^ n <= 2 ^ 0)%Z by (apply Z.pow_le_mono_r; lia). 
    assert (a = 0 /\ b = 0)%Z as [-> ->] by lia. done. }
  rewrite Z.log2_lor by lia. apply Z.max_lub_lt; apply Hl; lia.
Qed.

Lemma present_mask_range attrs index :
  (0 <= present_mask attrs index < 2 ^ Z.of_nat (index + length attrs))%Z.
Proof.
  revert index. induction attrs as [|x attrs IH]; intros index; cbn [present_mask length].
  { split; [done|]. apply Z.pow_pos_nonneg; lia. }
  specialize (IH (S index)). replace (index + S (length attrs)) with (S index + length attrs) by lia.
  apply lor_lt_pow2; [|done]. destruct x; [|lia].
  rewrite Z.shiftl_1_l. split; [apply Z.pow_nonneg; lia|]. apply Z.pow_lt_mono_r; lia.
Qed.

Lemma serialize_len attrs :
  Forall (fun a => forall v, a = Some v -> sockaddr_wf v) attrs ->
  length (serialize attrs) <= 256 * length attrs.
Proof.
  induction 1 as [|[v|] attrs Ha _ IH]; cbn [length]; [cbn; lia| |].
  - rewrite serialize_cons_some, length_app, length_append. destruct (Ha v eq_refl) as [_ Hv].
    pose proof (padded_le (length v) 64 ltac:(lia) ltac:(lia)). cbn [length]. lia.
  - change (serialize (None :: attrs)) with (serialize attrs). lia.
Qed.

Lemma put_metrics_window f z b :
  offset_of f + width_of f <= 36 -> metrics (put f z b) = metrics b.
Proof.
  intros Hf. unfold metrics. apply window_ext. intros j Hj. unfold put.
  apply list_lookup_inserts_ge. rewrite length_le_bytes. lia.
Qed.

(** The request [message] builds, before its fields are rewritten. *)
Definition request_attrs (s : Snapshot) (attrs : list (option (list byte)))
    : list (option (list byte)) :=
  <[RTAX_IFP := Some (link_address (get f_index s))]> attrs.

Definition request_bytes (s : Snapshot) (attrs : list (option (list byte))) (operation : Z)
    : list byte :=
  let base := take sizeof_rt_msghdr s ++ serialize (request_attrs s attrs) in
  put f_inits (if (operation =? RTM_ADD)%Z then RTV_ALL else 0%Z)
    (put f_flags (Z.ldiff (get f_flags s) transient_flags)
      (put f_addrs (present_mask (request_attrs s attrs) 0)
        (put f_errno 0 (put f_type operation (put f_msglen (Z.of_nat (length base)) base))))).

Lemma request_attrs_ok s attrs :
  view s attrs ->
  length (request_attrs s attrs) = RTAX_MAX /\
  Forall (fun a => forall v, a = Some v -> sockaddr_wf v) (request_attrs s attrs).
Proof.
  intros Hv. destruct (view_ok _ _ Hv) as [Hl Hf]. unfold request_attrs. rewrite length_insert.
  split; [done|]. apply Forall_insert; [done|]. intros v [= <-]. apply link_address_wf.
Qed.

Lemma request_base_len s attrs :
  view s attrs ->
  let base := take sizeof_rt_msghdr s ++ serialize (request_attrs s attrs) in
  sizeof_rt_msghdr <= length base <= 2140.
Proof.
  intros Hv. destruct (request_attrs_ok _ _ Hv) as [Hl Hf]. destruct Hv as [Hlen _]. cbn zeta.
  apply serialize_len in Hf. rewrite Hl in Hf. rewrite length_app, length_take.
  change RTAX_MAX with 8 in Hf. change sizeof_rt_msghdr with 92 in *. lia.
Qed.

Lemma message_view s attrs operation :
  view s attrs ->
  message s operation =
  if (get f_index s =? 0)%Z then Err (io_other "route has no interface to restore")
  else if has_flag (get f_flags s) RTF_PROXY
  then Err (io_other "cannot safely replace a kernel proxy route")
  else Ok (request_bytes s attrs operation).
Proof.
  intros Hv. pose proof (request_base_len _ _ Hv) as Hlen. cbn zeta in Hlen. unfold message.
  rewrite (view_header _ _ Hv). cbn [rbind]. destruct Hv as [_ Ha]. rewrite Ha.
  cbn [header_of rtm_index rtm_flags]. destruct (_ =? _)%Z; [done|]. destruct (has_flag _ _); [done|].
  cbn [rbind]. rewrite serialize_foldl. fold (request_attrs s attrs). unfold request_bytes.
  set (base := _ ++ serialize _) in *. rewrite u16_try_from_ok; [done | lia].
Qed.

Lemma request_bytes_get s attrs operation f :
  view s attrs -> f = f_index \/ f = f_version \/ f = f_mtu \/ f = f_hopcount ->
  get f (request_bytes s attrs operation) = get f s.
Proof.
  intros Hv Hf. unfold request_bytes.
  rewrite !get_put_ne by (destruct Hf as [->|[->|[->| ->]]]; done).
  rewrite get_app by (destruct Hv; rewrite length_take; lia).
  unfold get. f_equal. apply window_ext. intros j Hj. apply lookup_take_lt.
  pose proof (field_in_header f). lia.
Qed.

Lemma ldiff_mod a b n : (0 <= n -> 0 <= a < 2 ^ n -> Z.ldiff a b mod 2 ^ n = Z.ldiff a b)%Z.
Proof.
  intros Hn Ha. apply Z.bits_inj'. intros i Hi. destruct (Z.lt_ge_cases i n).
  - by apply Z.mod_pow2_bits_low.
  - rewrite Z.mod_pow2_bits_high, Z.ldiff_spec by lia.
    rewrite <- (Z.mod_small a (2 ^ n)), Z.mod_pow2_bits_high by lia. done.
Qed.

(** A field of a request: skip the other fields, then use [Heq]. *)
Ltac request_get Heq Hm :=
  unfold request_bytes; repeat rewrite get_put_ne by done;
  rewrite Heq by (rewrite Hm, ?length_put; done); cbn [width_of].

Lemma request_bytes_spec s attrs operation :
  view s attrs ->
  let m := request_bytes s attrs operation in
  view m (request_attrs s attrs) /\ framed m /\
  get f_flags m = Z.ldiff (get f_flags s) transient_flags /\
  get f_type m = (operation mod 256)%Z /\ metrics m = metrics s.
Proof.
  intros Hv. pose proof (request_base_len _ _ Hv) as Hlen. cbn zeta in *.
  destruct (request_attrs_ok _ _ Hv) as [Hl Hf].
  assert (length (request_bytes s attrs operation) =
    length (take sizeof_rt_msghdr s ++ serialize (request_attrs s attrs))) as Hm
    by (unfold request_bytes; by rewrite !length_put).
  assert (forall f z b, length b = length (request_bytes s attrs operation) ->
    get f (put f z b) = (z mod 256 ^ Z.of_nat (width_of f))%Z) as Heq
    by (intros f z b Hb; apply get_put_eq; lia).
  split_and!.
  - split; [lia|]. unfold addresses. cbn [header_of rtm_addrs].
    replace (drop sizeof_rt_msghdr (request_bytes s attrs operation))
      with (serialize (request_attrs s attrs)).
    2:{ unfold request_bytes. rewrite !drop_put. symmetry. apply drop_app_length'.
        destruct Hv. rewrite length_take. lia. }
    rewrite <- Hl, <- (app_nil_r (serialize _)).
    apply addresses_loop_serialize.
    + eapply Forall_impl; [exact Hf|]. intros a Ha v Hav. by apply Ha.
    + intros i a Hi. request_get Heq Hm. rewrite Z.mod_small; [by apply present_mask_spec|].
      pose proof (present_mask_range (request_attrs s attrs) 0) as Hr. rewrite Hl in Hr.
      change (2 ^ Z.of_nat (0 + RTAX_MAX))%Z with 256%Z in Hr.
      change (256 ^ Z.of_nat 4)%Z with (2 ^ 32)%Z. lia.
  - split; [change sizeof_rt_msghdr with 92 in *; lia|].
    rewrite Hm. request_get Heq Hm. rewrite Z.mod_small; lia.
  - request_get Heq Hm. change (256 ^ Z.of_nat 4)%Z with (2 ^ 32)%Z.
    apply ldiff_mod; [lia | apply get_range].
  - by request_get Heq Hm.
  - unfold request_bytes. rewrite !put_metrics_window by (cbn; lia).
    unfold metrics. apply window_ext. intros j Hj. destruct Hv as [Hs _].
    change sizeof_rt_msghdr with 92 in *. rewrite lookup_app_l by (rewrite length_take; lia).
    apply lookup_take_lt. lia.
Qed.

Lemma land_ldiff x m n : Z.land m n = 0%Z -> Z.land (Z.ldiff x m) n = Z.land x n.
Proof.
  intros Hmn. apply Z.bits_inj'. intros i Hi. rewrite !Z.land_spec, Z.ldiff_spec.
  assert (Z.testbit m i && Z.testbit n i = false) as H
    by (rewrite <- Z.land_spec, Hmn; apply Z.testbit_0_l).
  by destruct (Z.testbit x i), (Z.testbit m i), (Z.testbit n i).
Qed.

Lemma request_shows s attrs operation :
  view s attrs -> shows s (request_bytes s attrs operation).
Proof.
  intros Hv. destruct (request_bytes_spec s attrs operation Hv) as (Hm & _ & Ef & _ & Em).
  destruct (view_ok _ _ Hv) as [Hl _].
  assert (forall i, i <> RTAX_IFP -> slot (request_attrs s attrs) i = slot attrs i) as Hslot.
  { intros i Hi. unfold slot, request_attrs. by rewrite list_lookup_insert_ne. }
  exists attrs, (request_attrs s attrs). split_and!; try done; try (by apply Hslot).
  - right. by apply Hslot.
  - apply request_bytes_get; auto.
  - by rewrite Ef, land_ldiff.
Qed.

Lemma message_ok s operation m :
  message s operation = Ok m ->
  exists attrs, view s attrs /\ m = request_bytes s attrs operation /\
    get f_index s <> 0%Z /\ has_flag (get f_flags s) RTF_PROXY = false.
Proof.
  intros Hm. assert (exists attrs, view s attrs) as [attrs Hv].
  { unfold message in Hm. destruct (header s) as [hd|] eqn:E; [|done].
    apply header_ok in E as [Hlen ->]. cbn [rbind] in Hm.
    destruct (_ =? _)%Z; [done|]. destruct (has_flag _ _); [done|].
    destruct (addresses s (header_of s)) as [attrs|] eqn:E; [|done]. by exists attrs. }
  exists attrs. rewrite (message_view _ _ _ Hv) in Hm.
  destruct (Z.eqb_spec (get f_index s) 0); [done|]. destruct (has_flag _ _); [done|]. naive_solver.
Qed.

Lemma message_shows s operation m : message s operation = Ok m -> shows s m.
Proof. intros (attrs & Hv & -> & _)%message_ok. by apply request_shows. Qed.

(** A request that cannot be built carries no error number. *)
Lemma header_err b e : header b = Err e -> raw_os_error e = None.
Proof. unfold header. destruct (_ <? _); [by intros [= <-] | done]. Qed.

Lemma addresses_loop_err addrs n index rest e :
  addresses_loop addrs n index rest = Err e -> raw_os_error e = None.
Proof.
  revert index rest. induction n as [|n IH]; intros index rest; cbn [addresses_loop]; [done|].
  destruct (negb _).
  - destruct (addresses_loop _ _ _ _) eqn:E; [done|]. intros [= <-]. by eapply IH.
  - destruct rest as [|b r]; [by intros [= <-]|]. destruct (_ <? _); [by intros [= <-]|].
    destruct (addresses_loop _ _ _ _) eqn:E; [done|]. intros [= <-]. by eapply IH.
Qed.

Lemma message_err s op e : message s op = Err e -> raw_os_error e = None.
Proof.
  unfold message. destruct (header s) as [hd|] eqn:E; [|intros [= <-]; by eapply header_err].
  cbn [rbind]. destruct (_ =? _)%Z; [by intros [= <-]|]. destruct (has_flag _ _); [by intros [= <-]|].
  destruct (addresses s hd) as [attrs|] eqn:Ea; [|intros [= <-]; by eapply addresses_loop_err].
  cbn [rbind]. unfold u16_try_from. destruct (_ <=? _)%Z; [done | by intros [= <-]].
Qed.

(** A request can be made for a snapshot whatever the operation, or not at all. *)
Lemma message_any s op op' m : message s op = Ok m -> exists m', message s op' = Ok m'.
Proof.
  intros (attrs & Hv & -> & Hi & Hp)%message_ok. exists (request_bytes s attrs op').
  rewrite (message_view _ _ _ Hv), Hp. by rewrite (proj2 (Z.eqb_neq _ _)).
Qed.

(** A report of a route that can be requested can be requested too. *)
Lemma shows_message s t op m : shows s t -> message s op = Ok m -> exists m', message t op = Ok m'.
Proof.
  intros (a & b & Ha & Hb & _ & _ & _ & _ & Ei & Ef & _) (c & _ & _ & Hi & Hp)%message_ok.
  exists (request_bytes t b op). rewrite (message_view _ _ _ Hb), Ei.
  rewrite (proj2 (Z.eqb_neq _ _)) by done.
  by rewrite (has_flag_land _ _ RTF_PROXY _ Ef eq_refl), Hp.
Qed.

(** A request built from a snapshot stands for the same route: same
    prefix and scope, interface, gateway, source address, routing flags and
    metrics; it pins the interface, its length field is right, and an RTM_ADD
    asks the kernel to take over every metric. *)
Theorem message_preserves_route s operation m :
  message s operation = Ok m ->
  shows s m /\ key m = key s /\ framed m /\ get f_type m = (operation mod 256)%Z /\
  (exists attrs, addresses m (header_of m) = Ok attrs /\
     slot attrs RTAX_IFP = Some (link_address (get f_index s))) /\
  (operation = RTM_ADD -> get f_inits m = RTV_ALL) /\
  (same_path s s = Ok true -> same_path m s = Ok true).
Proof.
  intros Hm. pose proof (message_shows _ _ _ Hm) as Hs.
  apply message_ok in Hm as (attrs & Hv & -> & Hi & Hp).
  destruct (request_bytes_spec s attrs operation Hv) as (Hview & Hfr & _ & Ht & _).
  destruct (view_ok _ _ Hv) as [Hl _].
  split_and!; [done | by apply shows_key | done | done | | |].
  - exists (request_attrs s attrs). split; [apply Hview|]. unfold slot, request_attrs.
    rewrite list_lookup_insert_eq; [done|]. rewrite Hl. unfold RTAX_IFP, RTAX_MAX. lia.
  - intros ->. unfold request_bytes. rewrite get_put_eq; [done|].
    rewrite !length_put. apply (request_base_len _ _ Hv).
  - by apply shows_same_path.
Qed.

(** ** Comparable routes

    [requestable s]: requests can be made for [s] and [s] compares equal to
    itself, so that a later restore recognises it. *)
Definition requestable (s : Snapshot) : Prop :=
  (exists m, message s RTM_ADD = Ok m) /\ (exists k, key s = Ok k) /\ same_path s s = Ok true.

Lemma address_bytes_inet a b :
  inet_family a = true -> a !! 1 = Some b -> exists x, address_bytes a b = Ok x.
Proof.
  unfold inet_family, address_bytes. intros Hf Hb. rewrite Hb in Hf.
  destruct (_ =? AF_INET)%Z; [eauto|]. destruct (_ =? AF_INET6)%Z; [eauto | done].
Qed.

Lemma same_address_refl a : inet_family a = true -> same_address a a = Ok true.
Proof.
  intros Hf. unfold same_address. destruct (a !! 1) as [b|] eqn:Hb;
    [|unfold inet_family in Hf; by rewrite Hb in Hf].
  rewrite bool_decide_true by done. destruct (address_bytes_inet a b Hf Hb) as [x ->].
  cbn [rbind]. by rewrite bool_decide_true.
Qed.

(** The routes the code itself makes: an IP or link gateway and, if any, an
    IP source. *)
Lemma requestable_view s attrs k :
  view s attrs -> key s = Ok k -> get f_index s <> 0%Z ->
  has_flag (get f_flags s) RTF_PROXY = false ->
  (forall g, slot attrs RTAX_GATEWAY = Some g -> is_link g = true \/ inet_family g = true) ->
  (forall a, slot attrs RTAX_IFA = Some a -> inet_family a = true) ->
  requestable s.
Proof.
  intros Hv Hk Hi Hp Hg Hs. split_and!.
  - exists (request_bytes s attrs RTM_ADD). rewrite (message_view _ _ _ Hv), Hp.
    by rewrite (proj2 (Z.eqb_neq _ _)).
  - by exists k.
  - rewrite (same_path_view _ _ _ _ Hv Hv), Hk. cbn [rbind].
    rewrite bool_decide_true, !Z.eqb_refl by done. cbn [negb orb].
    assert (gateway_equal (slot attrs RTAX_GATEWAY) (slot attrs RTAX_GATEWAY) = Ok true) as ->.
    { unfold gateway_equal. destruct (slot attrs RTAX_GATEWAY) as [g|] eqn:E; [|done].
      destruct (Hg g eq_refl) as [-> | Hf]; [done|].
      destruct (is_link g); [done|]. by apply same_address_refl. }
    assert (source_equal (slot attrs RTAX_IFA) (slot attrs RTAX_IFA) = Ok true) as ->; [|done].
    unfold source_equal. destruct (slot attrs RTAX_IFA) as [a|]; [|done].
    apply same_address_refl. by apply Hs.
Qed.

Lemma ip_address_family ip :
  ip_address ip !! 1 = Some (z_u8 (if is_ipv4 ip then AF_INET else AF_INET6)).
Proof. destruct ip; cbn [ip_address is_ipv4]; by rewrite list_lookup_inserts_lt by lia. Qed.

Lemma address_bytes_family_ok a ip :
  exists x, address_bytes a (z_u8 (if is_ipv4 ip then AF_INET else AF_INET6)) = Ok x.
Proof. destruct ip; eexists; reflexivity. Qed.

(** Any snapshot whose destination the code wrote itself has a key. *)
Lemma key_of_ip s attrs ip :
  view s attrs -> slot attrs RTAX_DST = Some (ip_address ip) -> exists k, key s = Ok k.
Proof.
  intros Hv Hd. rewrite (key_view _ _ Hv), Hd. cbn [ok_or rbind].
  rewrite ip_address_family. cbn [ok_or rbind].
  destruct (address_bytes_family_ok (ip_address ip) ip) as [x ->]. cbn [rbind].
  destruct (has_flag _ _); [by eexists|].
  destruct (address_bytes_family_ok (default [] (slot attrs RTAX_NETMASK)) ip) as [y ->].
  by eexists.
Qed.

Lemma ip_address_inet ip : inet_family (ip_address ip) = true.
Proof. unfold inet_family. rewrite ip_address_family. by destruct ip. Qed.

(** The address slots of a TUN route. *)
Definition tun_attrs (destination mask : IpAddr) (index : Z) : list (option (list byte)) :=
  [ Some (ip_address destination); Some (link_address index); Some (ip_address mask);
    None; None; None; None; None ].

Lemma tun_attrs_serialize d mk i :
  serialize (tun_attrs d mk i) = append (append (append [] (ip_address d)) (link_address i)) (ip_address mk).
Proof. done. Qed.

Lemma tun_attrs_ok d mk i :
  Forall (fun a => forall v, a = Some v -> sockaddr_wf v) (tun_attrs d mk i).
Proof.
  unfold tun_attrs. forall_each ltac:(intros v Hv; first [discriminate Hv | injection Hv as <-];
    first [apply ip_address_wf | apply link_address_wf]).
Qed.

Ltac tun_get Heq := repeat rewrite get_put_ne by done;
  rewrite Heq by (rewrite ?length_put; done); cbn [width_of].

Lemma tun_bytes_ok d mk index host :
  (0 < index <= u16_max)%Z ->
  exists s, tun_bytes d mk index host = Ok s /\ view s (tun_attrs d mk index) /\
    get f_index s = index /\
    get f_flags s = Z.lor RTF_UP (Z.lor RTF_STATIC (if host then RTF_HOST else 0%Z)).
Proof.
  intros Hi. unfold tun_bytes.
  set (base := append _ (ip_address mk)).
  assert (base = replicate sizeof_rt_msghdr Byte.x00 ++ serialize (tun_attrs d mk index)) as Hb
    by (rewrite tun_attrs_serialize; unfold base, append; by rewrite <- !app_assoc).
  assert (length base = sizeof_rt_msghdr + length (serialize (tun_attrs d mk index))) as Hl
    by by rewrite Hb, length_app, length_replicate.
  pose proof (serialize_len _ (tun_attrs_ok d mk index)) as Hs.
  change (length (tun_attrs d mk index)) with 8 in Hs.
  assert (92 <= length base <= 3000) as Hlen by (change sizeof_rt_msghdr with 92 in Hl; lia).
  rewrite u16_try_from_ok by lia. cbn [rbind]. eexists. split; [done|].
  assert (forall f z b, length b = length base ->
    get f (put f z b) = (z mod 256 ^ Z.of_nat (width_of f))%Z) as Heq.
  { intros f z b Hb'. apply get_put_eq. change sizeof_rt_msghdr with 92. lia. }
  split_and!.
  - split; [rewrite !length_put; change sizeof_rt_msghdr with 92; lia|]. unfold addresses.
    cbn [header_of rtm_addrs]. tun_get Heq. rewrite !drop_put, Hb, drop_app_length'
      by by rewrite length_replicate. rewrite <- (app_nil_r (serialize _)).
    apply (addresses_loop_serialize _ (tun_attrs d mk index) 0).
    + eapply Forall_impl; [apply tun_attrs_ok|]. intros a Ha v Hav. by apply Ha.
    + intros i a. do 8 (destruct i as [|i]; [by intros [= <-]|]). done.
  - tun_get Heq. apply Z.mod_small. change u16_max with 65535%Z in Hi. cbn. lia.
  - tun_get Heq. by destruct host.
Qed.

Section TunRouteLemmas.
Context {Route : Type} `{RouteLib Route}.
Context (if_nametoindex : string -> Z) (last_os_error : io_error).

(** Every VPN route request can be recognised again by a restore. *)
Lemma tun_route_requestable (route : Route) s :
  (forall n, 0 <= if_nametoindex n)%Z ->
  tun_route if_nametoindex last_os_error route = Ok s -> requestable s.
Proof.
  intros Hnn. unfold tun_route. destruct (if_name route) as [name|]; [|done].
  cbn [ok_or rbind]. unfold cstring_new. destruct (contains _ _); [done|]. cbn [rbind].
  destruct (Z.eqb_spec (if_nametoindex name) 0) as [|Hne]; [done|].
  unfold u16_try_from at 1. specialize (Hnn name). rewrite Z2Nat.id by done.
  destruct (Z.leb_spec (if_nametoindex name) u16_max) as [Hle|]; [|done]. cbn [rbind].
  destruct (network _ _) as [d|]; [|done]. cbn [rbind].
  set (host := (_ =? _)%N). intros Hs.
  destruct (tun_bytes_ok d (mask route) (if_nametoindex name) host) as (s' & E & Hv & Hi & Hf);
    [lia|]. rewrite E in Hs. injection Hs as <-.
  destruct (key_of_ip _ _ d Hv eq_refl) as [k Hk].
  apply (requestable_view _ _ k Hv Hk); [lia| rewrite Hf; by destruct host | |].
  - intros g [= <-]. by left.
  - done.
Qed.
End TunRouteLemmas.

(** So can every endpoint exception whose source is an IP address. *)
Lemma endpoint_requestable route m :
  endpoint_wf route -> gateway_canonical route ->
  (forall s, e_source route = Some s -> inet_family s = true) ->
  endpoint_message route RTM_ADD = Ok m -> requestable m.
Proof.
  intros Hw Hg Hs Hm. destruct (exception_message_view route m Hw Hm) as (Hlen & Ha & Hi & Hf).
  assert (view m (exception_attrs route)) as Hv by done.
  destruct (key_of_ip _ _ (e_destination route) Hv eq_refl) as [k Hk].
  apply (requestable_view _ _ k Hv Hk); [destruct Hw; lia | | |].
  - rewrite Hf. by destruct (e_via_gateway route).
  - intros g [= <-]. destruct Hg as [-> | (b & Hb & Hfam)]; [by left|]. right.
    unfold inet_family. rewrite Hb. by destruct Hfam as [-> | ->].
  - intros a. exact (Hs a).
Qed.

(** ** Reading the kernel's table *)

(** More fuel than bytes changes nothing: every message is at least a header long. *)
Lemma parse_dump_fuel fuel bytes :
  length bytes <= fuel -> parse_dump fuel bytes = parse_dump (length bytes) bytes.
Proof.
  enough (forall n m b, length b <= n -> length b <= m -> parse_dump n b = parse_dump m b) as H
    by (intros Hl; apply H; lia).
  induction n as [|n IH]; intros m b Hn Hm.
  - destruct b; [by destruct m | simpl in Hn; lia].
  - destruct b as [|x r]; [by destruct m|]. destruct m as [|m]; [simpl in Hm; lia|].
    cbn [parse_dump]. destruct (header (x :: r)) as [hd|]; [|done]. cbn [rbind].
    destruct (Nat.ltb_spec (Z.to_nat (rtm_msglen hd)) sizeof_rt_msghdr) as [|Hlen]; [done|].
    rewrite (IH m); [done | |];
      rewrite length_drop; unfold sizeof_rt_msghdr in Hlen; simpl in Hn, Hm |- *; lia.
Qed.

(** A message of a dump: framed, of the expected version, with readable
    addresses. *)
Definition dump_message (m : list byte) : Prop :=
  framed m /\ get f_version m = RTM_VERSION /\ exists attrs, view m attrs.

(** Its destination is an IPv4 or IPv6 address. *)
Definition inet_route (m : list byte) : bool :=
  match addresses m (header_of m) with
  | Ok attrs => match slot attrs RTAX_DST with Some dst => inet_family dst | None => false end
  | Err _ => false
  end.

Lemma header_of_app m rest :
  sizeof_rt_msghdr <= length m -> header_of (m ++ rest) = header_of m.
Proof.
  intros Hl. unfold header_of.
  f_equal; apply get_app_short; unfold sizeof_rt_msghdr in Hl; simpl; lia.
Qed.

Lemma parse_dump_messages ms fuel :
  Forall dump_message ms -> length (concat ms) <= fuel ->
  parse_dump fuel (concat ms) = Ok (List.filter inet_route ms).
Proof.
  intros Hms. revert fuel. induction Hms as [|m ms (Hf & Hv & attrs & Hl & Ha) _ IH]; intros fuel Hfuel.
  { by destruct fuel. }
  cbn [concat] in *. rewrite length_app in Hfuel. destruct Hf as [H4 Hlen].
  destruct fuel as [|fuel]; [lia|]. destruct (m ++ concat ms) as [|b r] eqn:E.
  { apply (f_equal length) in E. rewrite length_app in E. simpl in E. lia. }
  cbn [parse_dump]. rewrite <- E in *.
  assert (length (m ++ concat ms) = length m + length (concat ms)) as Hlm by apply length_app.
  rewrite (proj2 (header_ok (m ++ concat ms) (header_of m))) by (split; [lia | by rewrite header_of_app]).
  cbn [rbind]. change (rtm_msglen (header_of m)) with (get f_msglen m).
  change (rtm_version (header_of m)) with (get f_version m). rewrite Hlen.
  rewrite (proj2 (Nat.ltb_ge _ sizeof_rt_msghdr)), (proj2 (Nat.ltb_ge _ (length m))) by lia.
  rewrite Hv, Z.eqb_refl. cbn [orb negb]. rewrite take_app_length, drop_app_length.
  rewrite Ha. cbn [rbind]. rewrite IH by lia. cbn [rbind List.filter].
  assert (inet_route m = match slot attrs RTAX_DST with Some dst => inet_family dst | None => false end) as ->
    by (unfold inet_route; by rewrite Ha).
  done.
Qed.

(** A round in which the table outgrew the buffer between the two calls. *)
Definition outgrown (round : dump_round) : Prop :=
  exists error, round = mkRound (Ok tt) (Err error) /\ raw_os_error error = Some ENOMEM.

Lemma dump_rounds_outgrown failing rounds :
  Forall outgrown failing -> dump_rounds (failing ++ rounds) = dump_rounds rounds.
Proof.
  induction 1 as [|x l (error & -> & He) _ IH]; [done|]. cbn. by rewrite bool_decide_true.
Qed.

Lemma find_route_ok k routes :
  Forall (fun s => is_ok (key s) = true) routes ->
  exists found, find_route k routes = Ok found /\
    match found with
    | Some s => s ∈ routes /\ key s = Ok k
    | None => forall s, s ∈ routes -> key s <> Ok k
    end.
Proof.
  induction 1 as [|s l Hs _ (found & IH & Hf)]; cbn.
  { exists None. split; [done|]. by intros s ?%elem_of_nil. }
  destruct (key s) as [k'|] eqn:E; [|done]. cbn. case_bool_decide as Hk.
  - subst. exists (Some s). split; [done|]. split; [by left | done].
  - exists found. split; [done|]. destruct found as [s'|]; [destruct Hf; split; [by right | done]|].
    intros s' [->|]%elem_of_cons; [congruence | by apply Hf].
Qed.

(** A table that outgrows the buffer at most twice while it is read is read
    completely: the dump gives its IPv4 and IPv6 routes, each whole and in
    order, and [find] a route with the key asked for, or none exactly when no
    route of the table has that key. *)
Theorem system_find_reads_table r1 r2 r3 failing ms later k :
  [r1; r2; r3] = failing ++ mkRound (Ok tt) (Ok (concat ms)) :: later ->
  Forall outgrown failing -> Forall dump_message ms ->
  dump_routes r1 r2 r3 = Ok (List.filter inet_route ms) /\
  (Forall (fun s => inet_route s = true -> is_ok (key s) = true) ms ->
   exists found, system_find k r1 r2 r3 = Ok found /\
     match found with
     | Some s => s ∈ ms /\ key s = Ok k
     | None => forall s, s ∈ ms -> inet_route s = true -> key s <> Ok k
     end).
Proof.
  intros Hr Hf Hms.
  assert (dump_routes r1 r2 r3 = Ok (List.filter inet_route ms)) as Hd.
  { unfold dump_routes. rewrite Hr, dump_rounds_outgrown by done. by apply parse_dump_messages. }
  split; [exact Hd|]. intros Hk. unfold system_find. rewrite Hd. cbn [rbind].
  destruct (find_route_ok k (List.filter inet_route ms)) as (found & -> & Hfound).
  - apply Forall_forall. intros s [Hin Ht]%list_elem_of_In%filter_In. rewrite Forall_forall in Hk.
    apply Hk; [by apply list_elem_of_In | done].
  - exists found. split; [done|]. destruct found as [s|].
    + destruct Hfound as [[Hin _]%list_elem_of_In%filter_In Hs]. split; [by apply list_elem_of_In | done].
    + intros s Hin Ht. apply Hfound. apply list_elem_of_In, filter_In. split; [by apply list_elem_of_In | done].
Qed.

(** ** A concrete route *)

(** 10.0.0.0/8 on interface 7. *)
Definition example_route : Snapshot :=
  default [] (ok (tun_bytes (V4 [Byte.x0a; Byte.x00; Byte.x00; Byte.x00])
                    (V4 [Byte.xff; Byte.x00; Byte.x00; Byte.x00]) 7 false)).

Lemma message_preserves_route_witness :
  exists m, message example_route RTM_ADD = Ok m /\ shows example_route m /\
    same_path m example_route = Ok true.
Proof.
  assert (exists m, message example_route RTM_ADD = Ok m) as [m Hm]
    by (eexists; vm_compute; reflexivity).
  destruct (message_preserves_route example_route RTM_ADD m Hm) as (Hs & _ & _ & _ & _ & _ & Hp).
  exists m. split; [exact Hm|]. split; [exact Hs|]. apply Hp. vm_compute. reflexivity.
Defined.

Lemma system_find_reads_table_witness :
  let retry := mkRound (Ok tt) (Err (mkIoError OtherKind (Some ENOMEM) "")) in
  let k := default (mkKey Byte.x00 [] [] false 0) (ok (key example_route)) in
  system_find k retry (mkRound (Ok tt) (Ok (concat [example_route]))) retry = Ok (Some example_route).
Proof.
  intros retry k.
  destruct (system_find_reads_table retry (mkRound (Ok tt) (Ok (concat [example_route]))) retry
              [retry] [example_route] [retry] k) as [_ H].
  - reflexivity.
  - forall_each ltac:(eexists; split; reflexivity).
  - forall_each ltac:(idtac). split_and!; [split; [vm_compute; lia | reflexivity] | reflexivity |].
    eexists. split; [vm_compute; lia | vm_compute; reflexivity].
  - destruct H as (found & Hs & Hf).
    + forall_each ltac:(intros _; vm_compute; reflexivity).
    + rewrite Hs. destruct found as [s|].
      * destruct Hf as [Hin _]. by apply list_elem_of_singleton in Hin as ->.
      * destruct (Hf example_route); [by left | vm_compute; reflexivity | vm_compute; reflexivity].
Defined.
