(* ===== verification/SessionRoutes.v ===== *)
(** * platform/routes_macos.rs: transactional route changes

    [SessionRoutes] replaces kernel routes one key at a time, recording the
    displaced route before it deletes it, and [restore_with] undoes the changes
    in reverse. The code works against the trait [RouteTable]; [Kernel] is a
    table of routes whose requests can be refused, or carried out although an
    error is reported (a lost reply), at any point. The theorems: whatever goes
    wrong during installation, a restore that meets no further error brings
    every original route back; a restore that reports success has done so even
    if errors occurred; a route somebody else changed is left alone. *)

From S2P Require Import Prelude RustStd Net RtMsg EndpointMacos Snapshot.
From Stdlib Require Import Lia.

(** ** The trait and the operations *)

(** [trait RouteTable], its methods threading the table's state. *)
Class RouteTable (T : Type) : Type := {
  find : RouteKey -> T -> result (option Snapshot) io_error * T;
  request : Snapshot -> Z -> T -> result unit io_error * T;
}.

Record RouteChange : Type := mkChange {
  c_key : RouteKey;
  c_route : Snapshot;
  c_previous : option Snapshot;
  c_add_attempted : bool;
}.

(** [SessionRoutes]: its [changes]. *)
Definition SessionRoutes : Type := list RouteChange.

Section Operations.
Context {T : Type} `{RouteTable T}.

(** The message of [previous] is only built to see that it can be. *)
Definition restorable (previous : option Snapshot) : result unit io_error :=
  match previous with
  | Some p => let? _ := message p RTM_ADD in Ok tt
  | None => Ok tt
  end.

(** [SessionRoutes::add]. *)
Definition add (changes : SessionRoutes) (route : Snapshot) (table : T)
    : result unit io_error * SessionRoutes * T :=
  match key route with
  | Err e => (Err e, changes, table)
  | Ok k =>
    if existsb (fun c => bool_decide (c_key c = k)) changes then (Ok tt, changes, table)
    else
      let '(found, table) := find k table in
      match found with
      | Err e => (Err e, changes, table)
      | Ok previous =>
        match restorable previous with
        | Err e => (Err e, changes, table)
        | Ok _ =>
          let pushed attempted := changes ++ [mkChange k route previous attempted] in
          let '(deleted, table) :=
            match previous with
            | Some p => request p RTM_DELETE table
            | None => (Ok tt, table)
            end in
          match deleted with
          | Err e => (Err e, pushed false, table)
          | Ok _ =>
            let '(added, table) := request route RTM_ADD table in (added, pushed true, table)
          end
        end
      end
  end.

(** [SessionRoutes::install] over its chained iterator: a request that cannot
    be built stops it like one that fails. *)
Fixpoint install (changes : SessionRoutes) (requests : list (result Snapshot io_error)) (table : T)
    : result unit io_error * SessionRoutes * T :=
  match requests with
  | [] => (Ok tt, changes, table)
  | Err e :: _ => (Err e, changes, table)
  | Ok route :: r =>
    let '(added, changes, table) := add changes route table in
    match added with
    | Err e => (Err e, changes, table)
    | Ok _ => install changes r table
    end
  end.

(** [RouteChange::restore]: the part after the current entry is out of the way. *)
Definition restore_previous (c : RouteChange) (table : T) : result unit io_error * T :=
  match c_previous c with
  | Some p => request p RTM_ADD table
  | None => (Ok tt, table)
  end.

Definition restore (c : RouteChange) (table : T) : result unit io_error * T :=
  let '(found, table) := find (c_key c) table in
  match found with
  | Err e => (Err e, table)
  | Ok None => restore_previous c table
  | Ok (Some current) =>
    if negb (c_add_attempted c) then (Ok tt, table)
    else match same_path current (c_route c) with
    | Err e => (Err e, table)
    | Ok false =>
      (Err (io_other "route changed outside its session; leaving it untouched"), table)
    | Ok true =>
      let '(deleted, table) := request current RTM_DELETE table in
      match deleted with
      | Ok _ => restore_previous c table
      | Err e =>
        if bool_decide (raw_os_error e = Some ESRCH) then restore_previous c table
        else (Err e, table)
      end
    end
  end.

(** The loop of [restore_with] over the reversed changes. *)
Fixpoint restore_loop (changes : list RouteChange) (table : T) : list string * T :=
  match changes with
  | [] => ([], table)
  | c :: r =>
    let '(res, table) := restore c table in
    let '(errors, table) := restore_loop r table in
    (match res with Err e => io_message e :: errors | Ok _ => errors end, table)
  end.

(** [restore_with]; the changes are taken, so none are left. *)
Definition restore_with (changes : SessionRoutes) (table : T)
    : result unit string * SessionRoutes * T :=
  let '(errors, table) := restore_loop (rev changes) table in
  (match errors with [] => Ok tt | _ => Err (join "; " errors) end, [], table).
End Operations.

(** The requests of [install]: endpoint exceptions first, then VPN routes. *)
Definition install_requests (endpoints : list EndpointRoute)
    (tun_routes : list (result Snapshot io_error)) : list (result Snapshot io_error) :=
  ((fun route => endpoint_message route RTM_ADD) <$> endpoints) ++ tun_routes.

(** ** A kernel

    What happens to a request: it is carried out, it is refused, or it is
    carried out but the caller sees an error. *)
Inductive fault : Type :=
| Fine
| Refused (e : io_error)
| Late (e : io_error).

Record kernel : Type := mkKernel {
  k_table : gmap RouteKey Snapshot;
  k_faults : list fault;
}.

Definition EEXIST : Z := 17.
Definition os_error (n : Z) : io_error := mkIoError OtherKind (Some n) "".

(** How the kernel reports a route it was asked to add. *)
Class Reports : Type := {
  report : list byte -> Snapshot;
  report_shows m attrs : view m attrs -> shows m (report m);
}.

Section Kernel.
Context `{Reports}.

Definition next_fault (k : kernel) : fault * list fault :=
  match k_faults k with [] => (Fine, []) | f :: r => (f, r) end.

Definition kernel_find (k : RouteKey) (s : kernel)
    : result (option Snapshot) io_error * kernel :=
  let '(f, faults) := next_fault s in
  (match f with Fine => Ok (k_table s !! k) | Refused e | Late e => Err e end,
   mkKernel (k_table s) faults).

(** Adding an existing prefix and deleting a missing one are errors. *)
Definition apply_message (m : list byte) (operation : Z) (t : gmap RouteKey Snapshot)
    : result (gmap RouteKey Snapshot) io_error :=
  let? k := key m in
  if (operation =? RTM_ADD)%Z then
    match t !! k with Some _ => Err (os_error EEXIST) | None => Ok (<[k := report m]> t) end
  else
    match t !! k with Some _ => Ok (delete k t) | None => Err (os_error ESRCH) end.

Definition kernel_request (route : Snapshot) (operation : Z) (s : kernel)
    : result unit io_error * kernel :=
  match message route operation with
  | Err e => (Err e, s)
  | Ok m =>
    let '(f, faults) := next_fault s in
    match f with
    | Refused e => (Err e, mkKernel (k_table s) faults)
    | _ =>
      match apply_message m operation (k_table s) with
      | Err e => (Err e, mkKernel (k_table s) faults)
      | Ok t => (match f with Late e => Err e | _ => Ok tt end, mkKernel t faults)
      end
    end
  end.

#[global] Instance kernel_RouteTable : RouteTable kernel :=
  {| find := kernel_find; request := kernel_request |}.
End Kernel.

(** ** One request *)

Section Proofs.
Context `{Reports}.
Abbreviation routes := (gmap RouteKey Snapshot).
Implicit Types (t : routes) (s : kernel) (c : RouteChange).

(** The table is indexed by the routes' own keys. *)
Definition table_wf t : Prop := forall k r, t !! k = Some r -> key r = Ok k.

Definition first_fault s : fault := match k_faults s with [] => Fine | f :: _ => f end.

Lemma kernel_find_spec k s r s' :
  kernel_find k s = (r, s') ->
  k_table s' = k_table s /\ k_faults s' = tail (k_faults s) /\
  match r with
  | Ok o => o = k_table s !! k
  | Err e => first_fault s <> Fine
  end.
Proof.
  unfold kernel_find, next_fault, first_fault. destruct (k_faults s) as [|[| |] r'];
    intros [= <- <-]; cbn; by split_and!.
Qed.

(** A request that can be built is applied exactly when it reports success;
    on an error the table is as before or as if it had been applied. *)
Lemma kernel_request_spec route op s m r s' :
  message route op = Ok m -> kernel_request route op s = (r, s') ->
  k_faults s' = tail (k_faults s) /\
  match r with
  | Ok _ => apply_message m op (k_table s) = Ok (k_table s')
  | Err e =>
    k_table s' = k_table s /\
      (first_fault s = Refused e \/ apply_message m op (k_table s) = Err e) \/
    apply_message m op (k_table s) = Ok (k_table s') /\ first_fault s = Late e
  end.
Proof.
  intros Hm. unfold kernel_request, next_fault, first_fault. rewrite Hm.
  destruct (k_faults s) as [|[|e|e] fs].
  3:{ intros [= <- <-]. cbn. auto. }
  all: destruct (apply_message m op (k_table s)) as [t|e'] eqn:E; intros [= <- <-]; cbn; auto.
Qed.

Lemma apply_add m k t :
  key m = Ok k -> t !! k = None -> apply_message m RTM_ADD t = Ok (<[k := report m]> t).
Proof. intros Hk Ht. unfold apply_message. rewrite Hk. cbn. by rewrite Ht. Qed.

Lemma apply_delete m k t r :
  key m = Ok k -> t !! k = Some r -> apply_message m RTM_DELETE t = Ok (delete k t).
Proof. intros Hk Ht. unfold apply_message. rewrite Hk. cbn. by rewrite Ht. Qed.

Lemma message_key r op m k : message r op = Ok m -> key r = Ok k -> key m = Ok k.
Proof. intros Hm <-. by apply shows_key, (message_shows _ op). Qed.

Lemma report_request r m k :
  message r RTM_ADD = Ok m -> key r = Ok k -> shows r (report m) /\ key (report m) = Ok k.
Proof.
  intros Hm Hk. pose proof (message_shows _ _ _ Hm) as Hs.
  assert (shows m (report m)) as Hr by (destruct Hs as (a & b & _ & Hb & _); by apply report_shows in Hb).
  split; [by eapply shows_trans|]. rewrite (shows_key _ _ Hr). by eapply message_key.
Qed.

(** Adding to a free key, and deleting an entry. *)
Lemma request_add_spec route k m s r s' :
  key route = Ok k -> message route RTM_ADD = Ok m -> k_table s !! k = None ->
  kernel_request route RTM_ADD s = (r, s') ->
  k_faults s' = tail (k_faults s) /\
  match r with
  | Ok _ => k_table s' = <[k := report m]> (k_table s)
  | Err e => first_fault s <> Fine /\
             (k_table s' = k_table s \/ k_table s' = <[k := report m]> (k_table s))
  end.
Proof.
  intros Hk Hm Hn Hr. destruct (kernel_request_spec _ _ _ _ _ _ Hm Hr) as [Hf Hc].
  rewrite (apply_add m k) in Hc by (done || by eapply message_key).
  split; [done|]. destruct r as [u|e]; [by apply Ok_inj in Hc|].
  destruct Hc as [[Ht [-> |?]]|[Ht ->]]; [by auto | done |]. apply Ok_inj in Ht. auto.
Qed.

Lemma request_delete_spec cur k m s r s' :
  k_table s !! k = Some cur -> key cur = Ok k -> message cur RTM_DELETE = Ok m ->
  kernel_request cur RTM_DELETE s = (r, s') ->
  k_faults s' = tail (k_faults s) /\
  match r with
  | Ok _ => k_table s' = delete k (k_table s)
  | Err e => (first_fault s = Refused e \/ first_fault s = Late e) /\
             (k_table s' = k_table s \/ k_table s' = delete k (k_table s))
  end.
Proof.
  intros Ht Hk Hm Hr. destruct (kernel_request_spec _ _ _ _ _ _ Hm Hr) as [Hf Hc].
  rewrite (apply_delete m k _ cur) in Hc by (done || by eapply message_key).
  split; [done|]. destruct r as [u|e]; [by apply Ok_inj in Hc|].
  destruct Hc as [[Ht' [-> |?]]|[Ht' ->]]; [by auto | done |]. apply Ok_inj in Ht'. auto.
Qed.

(** ** Installation *)

(** What is known of a recorded change while the table has moved from [t0]
    to [t]. *)
Definition change_ok t0 t c : Prop :=
  key (c_route c) = Ok (c_key c) /\ requestable (c_route c) /\
  c_previous c = t0 !! c_key c /\ is_ok (restorable (c_previous c)) = true /\
  (t !! c_key c = None \/
   if c_add_attempted c
   then exists m, message (c_route c) RTM_ADD = Ok m /\ t !! c_key c = Some (report m)
   else t !! c_key c = t0 !! c_key c).

Record installed t0 (changes : SessionRoutes) t : Prop := mkInstalled {
  installed_nodup : NoDup (c_key <$> changes);
  installed_other k : k ∉ c_key <$> changes -> t !! k = t0 !! k;
  installed_change : Forall (change_ok t0 t) changes;
}.

Lemma installed_push t0 changes t t' c :
  installed t0 changes t -> c_key c ∉ c_key <$> changes ->
  (forall k, k <> c_key c -> t' !! k = t !! k) -> change_ok t0 t' c ->
  installed t0 (changes ++ [c]) t'.
Proof.
  intros [Hnd Hot Hch] Hc Ht Hok. split.
  - rewrite fmap_app. cbn. apply NoDup_app. split_and!; [done | | apply NoDup_singleton].
    intros k Hk. rewrite list_elem_of_singleton. by intros ->.
  - intros k. rewrite fmap_app, elem_of_app. cbn. rewrite list_elem_of_singleton.
    intros Hk. rewrite Ht by tauto. apply Hot. tauto.
  - apply Forall_app. split; [|by constructor].
    apply Forall_forall. intros d Hd. rewrite Forall_forall in Hch.
    destruct (Hch d Hd) as (H1 & H2 & H3 & H4 & H5). unfold change_ok.
    rewrite Ht; [done|]. intros E. apply Hc. rewrite <- E. by apply list_elem_of_fmap_2.
Qed.

Lemma existsb_key changes k :
  existsb (fun c => bool_decide (c_key c = k)) changes = false <-> k ∉ c_key <$> changes.
Proof.
  induction changes as [|c changes IH]; cbn; [split; [intros _; apply not_elem_of_nil | done]|].
  rewrite orb_false_iff, IH, bool_decide_eq_false, not_elem_of_cons. naive_solver.
Qed.

Lemma add_installed t0 changes route s r changes' s' :
  table_wf t0 -> requestable route -> installed t0 changes (k_table s) ->
  add changes route s = (r, changes', s') -> installed t0 changes' (k_table s').
Proof.
  intros Hwf Hreq Hi. pose proof Hreq as ((m & Hm) & (k & Hk) & _). unfold add. rewrite Hk.
  destruct (existsb _ _) eqn:He; [by intros [= _ <- <-]|]. apply existsb_key in He.
  pose proof (installed_other _ _ _ Hi k He) as Hold.
  cbn [find kernel_RouteTable]. destruct (kernel_find k s) as [found s1] eqn:Ef.
  apply kernel_find_spec in Ef as (Et & _ & Hf).
  destruct found as [previous|e]; [|intros [= _ <- <-]; by rewrite Et]. subst previous.
  destruct (restorable (k_table s !! k)) as [u|e] eqn:Eres; [|intros [= _ <- <-]; by rewrite Et].
  (* the part from the addition on, from any table without the key *)
  assert (forall s2, k_table s2 !! k = None ->
    (forall j, j <> k -> k_table s2 !! j = k_table s !! j) ->
    forall r' s3, kernel_request route RTM_ADD s2 = (r', s3) ->
    installed t0 (changes ++ [mkChange k route (k_table s !! k) true]) (k_table s3)) as Hadd.
  { intros s2 Hn Hsame r' s3 Hr. destruct (request_add_spec _ _ _ _ _ _ Hk Hm Hn Hr) as [_ Hc].
    assert (k_table s3 = k_table s2 \/ k_table s3 = <[k := report m]> (k_table s2)) as Hc'
      by (destruct r'; tauto).
    apply (installed_push _ _ (k_table s)); cbn; [done..| |].
    - intros j Hj. rewrite <- Hsame by done. destruct Hc' as [-> | ->]; [done|].
      by apply lookup_insert_ne.
    - unfold change_ok. cbn. split_and!; [done..| by rewrite Eres |].
      destruct Hc' as [-> | ->]; [by left|]. right. exists m. by rewrite lookup_insert_eq. }
  destruct (k_table s !! k) as [p|] eqn:Ep; cbn [request kernel_RouteTable].
  2:{ destruct (kernel_request route RTM_ADD s1) as [r' s3] eqn:Er. intros [= <- <- <-].
      apply (Hadd s1) with r'; [by rewrite Et | by intros; rewrite Et | done]. }
  cbn in Eres. destruct (message p RTM_ADD) as [mp|] eqn:Emp; [|done].
  destruct (message_any _ _ RTM_DELETE _ Emp) as [md Hmd].
  destruct (kernel_request p RTM_DELETE s1) as [deleted s2] eqn:Ed.
  apply (request_delete_spec p k md) in Ed as [_ Hd]; [|by rewrite Et | by apply Hwf; rewrite <- Hold | done].
  rewrite Et in Hd.
  destruct deleted as [u'|e].
  - destruct (kernel_request route RTM_ADD s2) as [r' s3] eqn:Er. intros [= <- <- <-].
    apply (Hadd s2) with r'; [by rewrite Hd, lookup_delete_eq | | done].
    intros j Hj. rewrite Hd. by apply lookup_delete_ne.
  - intros [= <- <- <-]. destruct Hd as [_ Hd].
    apply (installed_push _ _ (k_table s)); cbn; [done..| |].
    + intros j Hj. destruct Hd as [-> | ->]; [done|]. by apply lookup_delete_ne.
    + unfold change_ok. cbn. rewrite Emp. split_and!; try done.
      destruct Hd as [-> | ->]; [right; by rewrite Ep | left; apply lookup_delete_eq].
Qed.

Definition all_requestable (requests : list (result Snapshot io_error)) : Prop :=
  Forall (fun q => forall route, q = Ok route -> requestable route) requests.

Lemma install_installed t0 requests changes s r changes' s' :
  table_wf t0 -> all_requestable requests -> installed t0 changes (k_table s) ->
  install changes requests s = (r, changes', s') -> installed t0 changes' (k_table s').
Proof.
  intros Hwf Hreq. revert changes s. induction Hreq as [|q requests Hq _ IH]; intros changes s Hi; cbn.
  { by intros [= _ <- <-]. }
  destruct q as [route|e]; [|by intros [= _ <- <-]].
  destruct (add changes route s) as [[added ch1] s1] eqn:Ea.
  apply (add_installed t0) in Ea; [|by auto..]. destruct added; [|by intros [= _ <- <-]].
  by apply IH.
Qed.

Lemma installed_nil t : installed t [] t.
Proof. split; [constructor | done | constructor]. Qed.

Lemma installed_wf t0 changes t : table_wf t0 -> installed t0 changes t -> table_wf t.
Proof.
  intros Hwf [_ Hot Hch] k r Hr. destruct (decide (k ∈ c_key <$> changes)) as [Hin|Hout].
  2:{ apply Hwf. by rewrite <- Hot. }
  apply list_elem_of_fmap in Hin as (c & -> & Hc). rewrite Forall_forall in Hch.
  destruct (Hch c Hc) as (Hk & _ & _ & _ & [Hn|Hs]); [by rewrite Hn in Hr|].
  destruct (c_add_attempted c); [|apply Hwf; by rewrite <- Hs].
  destruct Hs as (m & Hm & Hs). rewrite Hs in Hr. injection Hr as <-.
  by apply (report_request _ _ _ Hm).
Qed.

(** ** Restoration *)

(** Nothing but the kernel's own answer says that a route does not exist. *)
Definition clean (faults : list fault) : Prop :=
  Forall (fun f => forall e, f = Refused e \/ f = Late e -> raw_os_error e <> Some ESRCH) faults.

Lemma clean_tail faults : clean faults -> clean (tail faults).
Proof. intros [|f fs _ Hfs]; [constructor | exact Hfs]. Qed.

Lemma clean_first s e :
  clean (k_faults s) -> first_fault s = Refused e \/ first_fault s = Late e ->
  raw_os_error e <> Some ESRCH.
Proof. unfold first_fault. intros [|f fs Hf _]; [by intros []|]. apply Hf. Qed.

Lemma request_clean route op s r s' :
  kernel_request route op s = (r, s') -> clean (k_faults s) -> clean (k_faults s').
Proof.
  intros Hr Hc. destruct (message route op) as [m|e] eqn:Em.
  - destruct (kernel_request_spec _ _ _ _ _ _ Em Hr) as [-> _]. by apply clean_tail.
  - unfold kernel_request in Hr. rewrite Em in Hr. by injection Hr as _ <-.
Qed.

Lemma find_clean k s r s' :
  kernel_find k s = (r, s') -> clean (k_faults s) -> clean (k_faults s').
Proof. intros (_ & -> & _)%kernel_find_spec. apply clean_tail. Qed.

Lemma add_clean changes route s r changes' s' :
  add changes route s = (r, changes', s') -> clean (k_faults s) -> clean (k_faults s').
Proof.
  unfold add. cbn [find request kernel_RouteTable].
  destruct (key route); [|by intros [= _ _ <-]]. destruct (existsb _ _); [by intros [= _ _ <-]|].
  destruct (kernel_find _ s) as [found s1] eqn:Ef. pose proof (find_clean _ _ _ _ Ef) as H1.
  destruct found as [previous|]; [|intros [= _ _ <-]; by auto].
  destruct (restorable previous); [|intros [= _ _ <-]; by auto].
  destruct (match previous with Some p => _ | None => _ end) as [deleted s2] eqn:Ed.
  assert (clean (k_faults s) -> clean (k_faults s2)) as H2.
  { destruct previous; [|by simplify_eq]. intros Hc. eapply request_clean; [exact Ed|]. auto. }
  destruct deleted; [|intros [= _ _ <-]; by auto].
  destruct (kernel_request route RTM_ADD s2) as [added s3] eqn:Ea. intros [= _ _ <-] Hc.
  eapply request_clean; [exact Ea|]. auto.
Qed.

Lemma install_clean requests changes s r changes' s' :
  install changes requests s = (r, changes', s') -> clean (k_faults s) -> clean (k_faults s').
Proof.
  revert changes s. induction requests as [|[route|e] requests IH]; intros changes s; cbn;
    [by intros [= _ _ <-] | | by intros [= _ _ <-]].
  destruct (add changes route s) as [[added ch1] s1] eqn:Ea. pose proof (add_clean _ _ _ _ _ _ Ea).
  destruct added; [|intros [= _ _ <-]; by auto]. intros Hi Hc. eapply IH; eauto.
Qed.

(** What restoring needs to know of a change. *)
Definition recorded c : Prop :=
  key (c_route c) = Ok (c_key c) /\ requestable (c_route c) /\
  is_ok (restorable (c_previous c)) = true /\
  (forall p, c_previous c = Some p -> key p = Ok (c_key c)).

Lemma installed_recorded t0 changes t :
  table_wf t0 -> installed t0 changes t -> Forall recorded changes.
Proof.
  intros Hwf [_ _ Hch]. eapply Forall_impl; [exact Hch|].
  intros c (H1 & H2 & H3 & H4 & _). split_and!; [done..|]. intros p Hp. apply Hwf. congruence.
Qed.

(** The displaced route as the kernel reports it once it is back. *)
Definition readded (previous : option Snapshot) : option Snapshot :=
  p ← previous; m ← ok (message p RTM_ADD); Some (report m).

(** What a successful restore leaves under the key of [c]. *)
Definition restored c (current : option Snapshot) : option Snapshot :=
  match current with
  | Some r => if c_add_attempted c then readded (c_previous c) else Some r
  | None => readded (c_previous c)
  end.

(** The effect of one step on the table: only [k] moves, the faults shrink. *)
Definition only_at (k : RouteKey) s s' : Prop :=
  (forall j, j <> k -> k_table s' !! j = k_table s !! j) /\
  (clean (k_faults s) -> clean (k_faults s')) /\
  (k_faults s = [] -> k_faults s' = []).

Lemma only_at_faults k s s' :
  (forall j, j <> k -> k_table s' !! j = k_table s !! j) -> k_faults s' = tail (k_faults s) ->
  only_at k s s'.
Proof. intros Ht Hf. split_and!; [done | rewrite Hf; apply clean_tail | by rewrite Hf; intros ->]. Qed.

Lemma only_at_trans k s1 s2 s3 : only_at k s1 s2 -> only_at k s2 s3 -> only_at k s1 s3.
Proof.
  intros (H1 & H2 & H3) (H4 & H5 & H6). split_and!; [|by auto|by auto].
  intros j Hj. by rewrite H4, H1.
Qed.

Lemma restore_previous_spec c s r s' :
  recorded c -> k_table s !! c_key c = None ->
  restore_previous c s = (r, s') ->
  only_at (c_key c) s s' /\
  (r = Ok tt -> k_table s' !! c_key c = readded (c_previous c)) /\
  (k_faults s = [] -> r = Ok tt).
Proof.
  intros (_ & _ & Hres & Hkey) Hn. unfold restore_previous. cbn [request kernel_RouteTable].
  destruct (c_previous c) as [p|].
  2:{ intros [= <- <-]. split_and!; [by split_and! | by rewrite Hn | done]. }
  cbn in Hres. destruct (message p RTM_ADD) as [m|] eqn:Em; [|done]. intros Hr.
  destruct (request_add_spec _ _ _ _ _ _ (Hkey p eq_refl) Em Hn Hr) as [Hf Hc].
  assert (k_table s' = k_table s \/ k_table s' = <[c_key c := report m]> (k_table s)) as Ht
    by (destruct r; tauto).
  split_and!.
  - apply only_at_faults; [|done]. intros j Hj.
    destruct Ht as [-> | ->]; [done | by apply lookup_insert_ne].
  - intros ->. cbn. rewrite Em. cbn. rewrite Hc. apply lookup_insert_eq.
  - intros E. destruct r as [[]|e]; [done|]. destruct Hc as [Hc _]. unfold first_fault in Hc.
    by rewrite E in Hc.
Qed.

Lemma restore_previous_only c s r s' :
  recorded c -> restore_previous c s = (r, s') -> only_at (c_key c) s s'.
Proof.
  intros Hrec Hr. destruct (k_table s !! c_key c) as [x|] eqn:Ex;
    [|by apply restore_previous_spec in Hr as [? _]].
  revert Hr. destruct Hrec as (_ & _ & Hres & Hkey). unfold restore_previous.
  destruct (c_previous c) as [p|]; [|by intros [= _ <-]; split_and!].
  cbn in Hres. destruct (message p RTM_ADD) as [m|] eqn:Em; [|done]. intros Hr.
  cbn [request kernel_RouteTable] in Hr.
  destruct (kernel_request_spec _ _ _ _ _ _ Em Hr) as [Hf Hc].
  apply only_at_faults; [|done]. intros j _.
  assert (apply_message m RTM_ADD (k_table s) = Err (os_error EEXIST)) as Ha.
  { unfold apply_message. rewrite (message_key _ _ _ _ Em (Hkey p eq_refl)). cbn. by rewrite Ex. }
  rewrite Ha in Hc. destruct r; [done|]. by destruct Hc as [[-> _]|[Hc _]].
Qed.

(** The current entry can be removed by a restore. *)
Definition removable c (current : Snapshot) : Prop :=
  c_add_attempted c = true ->
  same_path current (c_route c) = Ok true /\ exists m, message current RTM_DELETE = Ok m.

(** The current entry was put there by somebody else. *)
Definition foreign c (current : Snapshot) : Prop :=
  c_add_attempted c = true /\ same_path current (c_route c) <> Ok true.

Lemma restore_spec c s r s' :
  recorded c -> (forall cur, k_table s !! c_key c = Some cur -> key cur = Ok (c_key c)) ->
  restore c s = (r, s') ->
  only_at (c_key c) s s' /\
  (clean (k_faults s) -> r = Ok tt -> k_table s' !! c_key c = restored c (k_table s !! c_key c)) /\
  (k_faults s = [] -> (forall cur, k_table s !! c_key c = Some cur -> removable c cur) -> r = Ok tt) /\
  (forall cur, k_table s !! c_key c = Some cur -> foreign c cur ->
     is_ok r = false /\ k_table s' !! c_key c = Some cur).
Proof.
  intros Hrec Hwf. unfold restore. cbn [find request kernel_RouteTable].
  destruct (kernel_find (c_key c) s) as [found s1] eqn:Ef.
  apply kernel_find_spec in Ef as (Et & Efl & Hf).
  assert (only_at (c_key c) s s1) as Hs1 by (apply only_at_faults; [by rewrite Et | done]).
  destruct found as [[current|]|e]; cbn [is_ok].
  3:{ intros [= <- <-]. split_and!; [done | done | | by rewrite Et].
      intros E. unfold first_fault in Hf. by rewrite E in Hf. }
  2:{ intros Hr. rewrite <- Et in Hf. apply restore_previous_spec in Hr as (H1 & H2 & H3); [|done..].
      rewrite <- Et, <- Hf. split_and!; [by eapply only_at_trans | by auto | | done].
      intros E _. apply H3. destruct Hs1 as (_ & _ & Hfl). auto. }
  symmetry in Hf. rewrite Hf. cbn [restored].
  destruct (c_add_attempted c) eqn:Eatt; cbn [negb].
  2:{ intros [= <- <-]. rewrite Et, Hf. split_and!; try done. intros cur _ [Hc _]. congruence. }
  destruct (same_path current (c_route c)) as [[|]|e] eqn:Esp.
  2,3: intros [= <- <-]; rewrite Et, Hf; split_and!; [done | done | | by intros];
    intros _ Hrem; destruct (Hrem _ eq_refl Eatt); congruence.
  assert (forall cur, Some current = Some cur -> ~ foreign c cur) as Hnf
    by (intros cur [= <-] [_ Hfor]; congruence).
  assert (key current = Ok (c_key c)) as Hkey by by apply Hwf.
  destruct (message current RTM_DELETE) as [md|em] eqn:Emd.
  2:{ assert (kernel_request current RTM_DELETE s1 = (Err em, s1)) as ->
        by (unfold kernel_request; by rewrite Emd).
      assert (raw_os_error em <> Some ESRCH) as Hraw
        by (by rewrite (message_err _ _ _ Emd)).
      rewrite bool_decide_false by done. intros [= <- <-].
      split_and!; [done | done | | intros cur Hcur Hfor; by destruct (Hnf cur Hcur)].
      intros _ Hrem. destruct (Hrem _ eq_refl Eatt) as [_ [m Hm]]. congruence. }
  destruct (kernel_request current RTM_DELETE s1) as [deleted s2] eqn:Ed.
  apply (request_delete_spec current (c_key c) md) in Ed as [Hfl Hd]; [|by rewrite Et|done..].
  destruct Hs1 as (Hs1t & Hs1c & Hs1f).
  assert (only_at (c_key c) s s2) as Hs2.
  { eapply only_at_trans; [by split_and!|]. apply only_at_faults; [|done]. intros j Hj.
    assert (k_table s2 = k_table s1 \/ k_table s2 = delete (c_key c) (k_table s1)) as [-> | ->]
      by (destruct deleted; tauto); [done | by apply lookup_delete_ne]. }
  destruct deleted as [u|e].
  - intros Hr. apply restore_previous_spec in Hr as (H1 & H2 & H3);
      [|done | by rewrite Hd, lookup_delete_eq].
    split_and!; [by eapply only_at_trans | by auto | | intros cur Hcur Hfor; by destruct (Hnf cur Hcur)].
    intros E _. apply H3. by apply Hs2.
  - destruct Hd as [Hfault _]. intros Hr.
    assert (k_faults s1 <> []) as Hne
      by (unfold first_fault in Hfault; intros E; rewrite E in Hfault; by destruct Hfault).
    assert (only_at (c_key c) s s' /\ (clean (k_faults s) -> r <> Ok tt)) as [H1 H2].
    { destruct (bool_decide_reflect (raw_os_error e = Some ESRCH)) as [Hes|Hes].
      - split; [|intros Hc; by destruct (clean_first s1 e (Hs1c Hc) Hfault)].
        eapply only_at_trans; [done|]. by eapply restore_previous_only.
      - by simplify_eq. }
    split_and!; [done | intros Hc Hok; by destruct (H2 Hc) | intros E; by destruct (Hne (Hs1f E)) |].
    intros cur Hcur Hfor. by destruct (Hnf cur Hcur).
Qed.

(** The loop: every change is handled as if it were alone. *)
Lemma restore_loop_spec changes s errors s' :
  NoDup (c_key <$> changes) -> Forall recorded changes -> table_wf (k_table s) ->
  restore_loop changes s = (errors, s') ->
  let t := k_table s in let t' := k_table s' in
  (forall k, k ∉ c_key <$> changes -> t' !! k = t !! k) /\
  (clean (k_faults s) -> errors = [] ->
     forall c, c ∈ changes -> t' !! c_key c = restored c (t !! c_key c)) /\
  (k_faults s = [] ->
     (forall c cur, c ∈ changes -> t !! c_key c = Some cur -> removable c cur) -> errors = []) /\
  (k_faults s = [] -> forall c, c ∈ changes ->
     (forall cur, t !! c_key c = Some cur -> removable c cur) ->
     t' !! c_key c = restored c (t !! c_key c)) /\
  (forall c cur, c ∈ changes -> t !! c_key c = Some cur -> foreign c cur ->
     errors <> [] /\ t' !! c_key c = Some cur).
Proof.
  cbn zeta. intros Hnd Hrec Hwf.
  assert (forall c, c ∈ changes ->
    forall cur, k_table s !! c_key c = Some cur -> key cur = Ok (c_key c)) as Hat by eauto.
  clear Hwf. revert s errors s' Hnd Hat. induction Hrec as [|c changes Hc _ IH];
    intros s errors s' Hnd Hat; cbn.
  { intros [= <- <-]. split_and!; [done|..]; intros; by repeat match goal with
    H : _ ∈ [] |- _ => apply elem_of_nil in H end. }
  destruct (restore c s) as [r s1] eqn:Er. destruct (restore_loop changes s1) as [es s2] eqn:El.
  intros [= Hes <-]. inversion Hnd as [|?? Hnotin Hnd']; subst.
  apply restore_spec in Er as ((Ht & Hcl & Hfl) & Hok & Hprog & Hfor);
    [|done | apply Hat, list_elem_of_here].
  assert (forall d, d ∈ changes -> k_table s1 !! c_key d = k_table s !! c_key d) as Hd.
  { intros d Hd. apply Ht. intros E. apply Hnotin. rewrite <- E. by apply list_elem_of_fmap_2. }
  apply IH in El as (I1 & I2 & I3 & I4 & I5); [|done|].
  2:{ intros d Hin. rewrite Hd by done. by apply Hat, list_elem_of_further. }
  assert (k_table s2 !! c_key c = k_table s1 !! c_key c) as Hkeep by by apply I1.
  split_and!.
  - intros k. rewrite not_elem_of_cons. intros [Hk1 Hk2]. rewrite I1 by done. by apply Ht.
  - intros Hc1 Hnil d. destruct r as [[]|e]; [|done]. rewrite elem_of_cons. intros [-> |Hin].
    + rewrite Hkeep. by apply Hok.
    + rewrite <- Hd by done. apply I2; auto.
  - intros Hf Hrem. rewrite Hprog; [|done | intros cur; apply Hrem, list_elem_of_here].
    apply I3; [auto|]. intros d cur Hin. rewrite Hd by done.
    by apply Hrem, list_elem_of_further.
  - intros Hf d Hin Hrem. apply elem_of_cons in Hin as [-> |Hin].
    + rewrite Hkeep. apply Hok; [by rewrite Hf; constructor | by apply Hprog].
    + rewrite <- Hd by done. apply I4; [by auto | done |]. intros cur. rewrite Hd by done. auto.
  - intros d cur Hin Hcur Hf. apply elem_of_cons in Hin as [-> |Hin].
    + destruct (Hfor cur Hcur Hf) as [Hr Hs]. rewrite Hkeep. split; [|done]. by destruct r.
    + destruct (I5 d cur) as [H1 H2]; [done | by rewrite Hd | done |]. split; [|done].
      by destruct r.
Qed.

Lemma restore_loop_faults changes s errors s' :
  NoDup (c_key <$> changes) -> Forall recorded changes -> table_wf (k_table s) ->
  restore_loop changes s = (errors, s') -> k_faults s = [] -> k_faults s' = [].
Proof.
  intros Hnd Hrec Hwf.
  assert (forall c, c ∈ changes ->
    forall cur, k_table s !! c_key c = Some cur -> key cur = Ok (c_key c)) as Hat by eauto.
  clear Hwf. revert s errors Hnd Hat. induction Hrec as [|c changes Hc _ IH];
    intros s errors Hnd Hat; cbn; [by intros [= _ <-]|].
  destruct (restore c s) as [r s1] eqn:Er. destruct (restore_loop changes s1) as [es s2] eqn:El.
  intros [= _ <-] Hf. inversion Hnd as [|?? Hnotin Hnd']; subst.
  apply restore_spec in Er as ((Ht & _ & Hfl) & _); [|done | apply Hat, list_elem_of_here].
  eapply IH; [done | | done | auto]. intros d Hd. rewrite Ht.
  - by apply Hat, list_elem_of_further.
  - intros E. apply Hnotin. rewrite <- E. by apply list_elem_of_fmap_2.
Qed.

(** ** The session's promise *)

(** The same route again: untouched, or added back with everything it had. *)
Definition same_route (r r' : Snapshot) : Prop := r' = r \/ shows r r'.

Definition original_routes t0 t : Prop :=
  forall k, option_Forall2 same_route (t0 !! k) (t !! k).

Lemma installed_removable t0 changes t c cur :
  installed t0 changes t -> c ∈ changes -> t !! c_key c = Some cur -> removable c cur.
Proof.
  intros [_ _ Hch] Hin Hcur Hatt. rewrite Forall_forall in Hch.
  destruct (Hch c Hin) as (Hk & Hreq & _ & _ & [Hn|Hs]); [congruence|].
  rewrite Hatt in Hs. destruct Hs as (m & Hm & Hs). rewrite Hs in Hcur. injection Hcur as <-.
  destruct (report_request _ _ _ Hm Hk) as [Hshow _]. destruct Hreq as (_ & _ & Hself). split.
  - by eapply shows_same_path.
  - destruct (message_any _ _ RTM_DELETE _ Hm) as [md Hmd]. by eapply shows_message.
Qed.

Lemma installed_restored t0 changes t c :
  table_wf t0 -> installed t0 changes t -> c ∈ changes ->
  option_Forall2 same_route (t0 !! c_key c) (restored c (t !! c_key c)).
Proof.
  intros Hwf [_ _ Hch] Hin. rewrite Forall_forall in Hch.
  destruct (Hch c Hin) as (Hk & _ & Hprev & Hres & Hcase).
  assert (option_Forall2 same_route (t0 !! c_key c) (readded (c_previous c))) as Hback.
  { rewrite Hprev in *. destruct (t0 !! c_key c) as [p|] eqn:Ep; [|constructor]. cbn in *.
    destruct (message p RTM_ADD) as [m|] eqn:Em; [|done]. cbn. constructor. right.
    by apply (report_request _ _ (c_key c) Em), Hwf. }
  unfold restored. destruct (t !! c_key c) as [r|] eqn:Er; [|done].
  destruct (c_add_attempted c); [done|]. destruct Hcase as [Hn|Hs]; [done|].
  rewrite <- Hs. constructor. by left.
Qed.

Lemma restore_originals t0 changes s errors s' :
  table_wf t0 -> installed t0 changes (k_table s) ->
  restore_loop (rev changes) s = (errors, s') ->
  (clean (k_faults s) -> errors = [] -> original_routes t0 (k_table s')) /\
  (k_faults s = [] -> errors = [] /\ original_routes t0 (k_table s')).
Proof.
  intros Hwf Hi Hr. pose proof (installed_wf _ _ _ Hwf Hi) as Hwf'.
  assert (forall c, c ∈ rev changes <-> c ∈ changes) as Hrev by (intros; apply elem_of_rev).
  apply restore_loop_spec in Hr as (Hout & Hok & Hprog & _).
  2:{ rewrite fmap_rev. apply NoDup_rev. apply Hi. }
  2:{ apply Forall_rev. by apply (installed_recorded t0 _ (k_table s)). }
  2: done.
  assert (clean (k_faults s) -> errors = [] -> original_routes t0 (k_table s')) as Hsound.
  { intros Hc He k. destruct (decide (k ∈ c_key <$> changes)) as [Hin|Hnot].
    - apply list_elem_of_fmap in Hin as (c & -> & Hin).
      rewrite Hok; [|done..|by apply Hrev]. by apply (installed_restored _ changes).
    - rewrite Hout by (by rewrite fmap_rev, elem_of_rev).
      rewrite (installed_other _ _ _ Hi k Hnot).
      destruct (t0 !! k); constructor. by left. }
  split; [done|]. intros Hf. assert (errors = []) as He.
  { apply Hprog; [done|]. intros c cur Hin. rewrite Hrev in Hin. by eapply installed_removable. }
  split; [done|]. apply Hsound; [rewrite Hf; constructor | done].
Qed.

(** C2: whatever happens while a session installs its routes on macOS
    (requests refused, replies lost, installation abandoned half-way), a
    restore that meets no further error succeeds and every route of the
    original table is back with its prefix, interface, gateway, source, flags
    and metrics, with nothing else left behind. *)
Theorem install_then_restore t0 faults requests r changes s :
  table_wf t0 -> all_requestable requests ->
  install [] requests (mkKernel t0 faults) = (r, changes, s) ->
  exists t, restore_with changes (mkKernel (k_table s) []) = (Ok tt, [], mkKernel t []) /\
    original_routes t0 t.
Proof.
  intros Hwf Hreq Hin. apply (install_installed t0) in Hin; [|done..|apply installed_nil].
  unfold restore_with. destruct (restore_loop (rev changes) _) as [errors s'] eqn:Er.
  pose proof Er as Er'. apply (restore_originals t0) in Er' as [_ Hp]; [|done..].
  destruct (Hp eq_refl) as [-> Ho]. exists (k_table s'). split; [|done].
  f_equal. destruct s' as [t' fs]. cbn. f_equal.
  assert (k_faults (mkKernel t' fs) = []) as E; [|exact E].
  eapply restore_loop_faults; [| | |exact Er|done].
  - rewrite fmap_rev. apply NoDup_rev. apply Hin.
  - apply Forall_rev. by apply (installed_recorded t0 _ (k_table s)).
  - by apply (installed_wf t0 changes).
Qed.

(** C9: a restore that reports success has brought the original table back,
    even when requests were refused or replies lost during installation and
    during the restore itself: no failure goes unreported. *)
Theorem restore_reports_failures t0 faults requests r changes s faults' s' :
  table_wf t0 -> all_requestable requests -> clean faults' ->
  install [] requests (mkKernel t0 faults) = (r, changes, s) ->
  restore_with changes (mkKernel (k_table s) faults') = (Ok tt, [], s') ->
  original_routes t0 (k_table s').
Proof.
  intros Hwf Hreq Hc Hin. apply (install_installed t0) in Hin; [|done..|apply installed_nil].
  unfold restore_with. destruct (restore_loop (rev changes) _) as [errors s''] eqn:Er.
  apply (restore_originals t0) in Er as [Hp _]; [|done..].
  destruct errors; [|done]. intros [= <-]. by apply Hp.
Qed.

(** C10: if other programs change the table between installation and restore,
    a restore leaves a route that no longer leads where the session's route
    led, and says so; the session's other routes are still undone and keys
    the session never touched are not touched. *)
Theorem restore_leaves_foreign_routes t0 faults requests r changes s t1 res s' :
  table_wf t0 -> all_requestable requests -> table_wf t1 ->
  install [] requests (mkKernel t0 faults) = (r, changes, s) ->
  restore_with changes (mkKernel t1 []) = (res, [], s') ->
  (forall k, k ∉ c_key <$> changes -> k_table s' !! k = t1 !! k) /\
  (forall c cur, c ∈ changes -> t1 !! c_key c = Some cur -> foreign c cur ->
     is_ok res = false /\ k_table s' !! c_key c = Some cur) /\
  (forall c, c ∈ changes -> (forall cur, t1 !! c_key c = Some cur -> removable c cur) ->
     k_table s' !! c_key c = restored c (t1 !! c_key c)).
Proof.
  intros Hwf Hreq Hwf1 Hin. apply (install_installed t0) in Hin; [|done..|apply installed_nil].
  unfold restore_with. destruct (restore_loop (rev changes) _) as [errors s''] eqn:Er.
  assert (forall c, c ∈ rev changes <-> c ∈ changes) as Hrev by (intros; apply elem_of_rev).
  apply restore_loop_spec in Er as (Hout & _ & _ & Hrest & Hfor); cbn in *.
  2:{ rewrite fmap_rev. apply NoDup_rev. apply Hin. }
  2:{ apply Forall_rev. by apply (installed_recorded t0 _ (k_table s)). }
  2: done.
  intros [= <- <-]. split_and!.
  - intros k Hk. apply Hout. by rewrite fmap_rev, elem_of_rev.
  - intros c cur Hc Hcur Hf. destruct (Hfor c cur) as [Hne Hs]; [by apply Hrev | done..|].
    split; [by destruct errors | done].
  - intros c Hc Hrem. apply Hrest; [done | by apply Hrev | done].
Qed.
End Proofs.

(** ** Concrete instances *)

Lemma shows_refl s attrs : view s attrs -> shows s s.
Proof. intros Hv. exists attrs, attrs. split_and!; auto. Qed.

Module RouteExamples.
(** A kernel that reports what it was sent. *)
#[export] Instance echo : Reports.
Proof. refine {| report := fun m => m |}. intros m attrs Hv. by eapply shows_refl. Defined.

Definition zeros : IpAddr := V4 (replicate 4 Byte.x00).

(** The default route on interface 4, the VPN's default route on interface 7
    and a second VPN prefix. *)
Definition original : Snapshot := default [] (ok (tun_bytes zeros zeros 4 false)).
Definition vpn : Snapshot := default [] (ok (tun_bytes zeros zeros 7 false)).
Definition ten : IpAddr := V4 (Byte.x0a :: replicate 3 Byte.x00).
Definition vpn10 : Snapshot :=
  default [] (ok (tun_bytes ten (prefix_mask ten 8) 7 false)).

Definition key_of (s : Snapshot) : RouteKey :=
  default (mkKey Byte.x00 [] [] false 0) (ok (key s)).
Definition table0 : gmap RouteKey Snapshot := {[ key_of original := original ]}.
Definition requests : list (result Snapshot io_error) := [Ok vpn10; Ok vpn].

(** The deletion of the old default route is carried out, its reply lost. *)
Definition faults : list fault :=
  [Fine; Fine; Fine; Late (io_new TimedOut "routing reply timed out")].
Definition session := install [] requests (mkKernel table0 faults).
Definition changes : SessionRoutes := session.1.2.
Definition after : kernel := session.2.

(** Somebody else takes over 10.0.0.0/8 on interface 9. *)
Definition alien : Snapshot := default [] (ok (tun_bytes ten (prefix_mask ten 8) 9 false)).
Definition table1 : gmap RouteKey Snapshot := {[ key_of alien := alien ]}.

Lemma wf_singleton s : key s = Ok (key_of s) -> table_wf {[ key_of s := s ]}.
Proof. intros Hk k r. rewrite lookup_singleton_Some. by intros [<- <-]. Qed.

Lemma requestable_requests : all_requestable requests.
Proof.
  unfold all_requestable. forall_each ltac:(intros s Hs; injection Hs as <-;
    split_and!; [eexists; vm_compute; reflexivity.. | vm_compute; reflexivity]).
Qed.

(** The installation gave up after the first route and a half. *)
Example session_failed : is_ok session.1.1 = false /\ length changes = 2 /\ size (k_table after) = 1.
Proof. vm_compute. auto. Qed.
End RouteExamples.
Import RouteExamples.

Lemma install_then_restore_witness :
  exists t, restore_with changes (mkKernel (k_table after) []) = (Ok tt, [], mkKernel t []) /\
    original_routes table0 t.
Proof.
  apply (install_then_restore table0 faults requests session.1.1).
  - apply wf_singleton. reflexivity.
  - exact requestable_requests.
  - unfold changes, after, session. by destruct (install _ _ _) as [[r c] s].
Defined.

Lemma restore_reports_failures_witness :
  original_routes table0 (k_table (restore_with changes (mkKernel (k_table after) [Fine])).2).
Proof.
  apply (restore_reports_failures table0 faults requests session.1.1 changes after [Fine]).
  - apply wf_singleton. reflexivity.
  - exact requestable_requests.
  - repeat constructor. by intros e [|].
  - unfold changes, after, session. by destruct (install _ _ _) as [[r c] s].
  - assert ((restore_with changes (mkKernel (k_table after) [Fine])).1.1 = Ok tt) as E
      by (vm_compute; reflexivity).
    unfold restore_with in *. destruct (restore_loop _ _) as [errors s]. cbn in *. by rewrite E.
Defined.

Lemma restore_leaves_foreign_routes_witness :
  k_table (restore_with changes (mkKernel table1 [])).2 !! key_of alien = Some alien.
Proof.
  destruct (restore_leaves_foreign_routes table0 faults requests session.1.1 changes after table1
    (restore_with changes (mkKernel table1 [])).1.1 (restore_with changes (mkKernel table1 [])).2)
    as (_ & Hfor & _).
  - apply wf_singleton. reflexivity.
  - exact requestable_requests.
  - apply wf_singleton. reflexivity.
  - unfold changes, after, session. by destruct (install _ _ _) as [[r c] s].
  - unfold restore_with. by destruct (restore_loop _ _).
  - assert (exists c, changes !! 0 = Some c /\ c_key c = key_of alien /\ foreign c alien) as (c & Hc & Hk & Hf).
    { eexists. split; [vm_compute; reflexivity|]. split; [vm_compute; reflexivity|].
      split; [reflexivity | vm_compute; congruence]. }
    rewrite <- Hk. apply (Hfor c alien); [|rewrite Hk; reflexivity | exact Hf].
    by eapply list_elem_of_lookup_2.
Defined.
