(* ===== verification/DnsMacos.v ===== *)
(** * platform/dns_macos.rs: resolver entries in the dynamic store

    A session's DNS settings are two entries of macOS's dynamic store, named
    after the interface. Every call to the store can fail, and a write or a
    removal can be accepted without effect; the code reads every key back. The
    theorems: success of [set_dns_entries] or [clear_dns_entries] means the
    entries are (not) there, nothing else is touched, every key is attempted,
    and clearing works whatever was there before. *)

From S2P Require Import Prelude RustStd.
From Stdlib Require Import Lia.

(** The Core Foundation values the code stores. *)
#[warnings="-register-all"]
Inductive CFType : Type :=
| CFString (s : string)
| CFArray (l : list string)
| CFDictionary (pairs : list (string * CFType)).

Fixpoint CFType_eq (a b : CFType) {struct a} : {a = b} + {a <> b}.
Proof.
  refine match a, b with
  | CFString s, CFString t => cast_if (decide (s = t))
  | CFArray l, CFArray m => cast_if (decide (l = m))
  | CFDictionary p, CFDictionary q =>
      cast_if ((fix go (p q : list (string * CFType)) : {p = q} + {p <> q} :=
        match p, q with
        | [], [] => left eq_refl
        | (k, x) :: p', (l, y) :: q' =>
          match decide (k = l), CFType_eq x y, go p' q' with
          | left H1, left H2, left H3 => left _
          | _, _, _ => right _
          end
        | _, _ => right _
        end) p q)
  | _, _ => right _
  end; congruence.
Defined.
#[global] Instance CFType_eq_dec : EqDecision CFType := CFType_eq.

(** ** The dynamic store *)

Inductive sc_fault : Type :=
| ScFine
| ScFail (status : Z)
| ScDropped.

Record sc_store : Type := mkStore {
  sc_entries : gmap string CFType;
  sc_faults : list sc_fault;
}.

Definition SC_STATUS_NO_KEY : Z := 1004.

(** One call: what the fault list has for it, and the rest. *)
Definition sc_call (st : sc_store) : sc_fault * sc_store :=
  match sc_faults st with
  | [] => (ScFine, st)
  | f :: r => (f, mkStore (sc_entries st) r)
  end.

(** [SCDynamicStoreCreate], [...CopyValue], [...SetMultiple], [...RemoveValue]:
    an error is the status [SCError] gives. A missing key reads as
    [SC_STATUS_NO_KEY]. *)
Definition sc_create (st : sc_store) : result unit Z * sc_store :=
  let '(f, st) := sc_call st in
  (match f with ScFail status => Err status | _ => Ok tt end, st).

Definition sc_copy (k : string) (st : sc_store) : result CFType Z * sc_store :=
  let '(f, st) := sc_call st in
  (match f with
   | ScFail status => Err status
   | _ => match sc_entries st !! k with Some v => Ok v | None => Err SC_STATUS_NO_KEY end
   end, st).

Fixpoint insert_all (values : list (string * CFType)) (m : gmap string CFType)
    : gmap string CFType :=
  match values with
  | [] => m
  | (k, v) :: r => insert_all r (<[k := v]> m)
  end.

Definition sc_set (values : list (string * CFType)) (st : sc_store) : result unit Z * sc_store :=
  let '(f, st) := sc_call st in
  match f with
  | ScFail status => (Err status, st)
  | ScDropped => (Ok tt, st)
  | ScFine => (Ok tt, mkStore (insert_all values (sc_entries st)) (sc_faults st))
  end.

Definition sc_remove (k : string) (st : sc_store) : result unit Z * sc_store :=
  let '(f, st) := sc_call st in
  match f with
  | ScFail status => (Err status, st)
  | ScDropped => (Ok tt, st)
  | ScFine =>
    match sc_entries st !! k with
    | Some _ => (Ok tt, mkStore (delete k (sc_entries st)) (sc_faults st))
    | None => (Err SC_STATUS_NO_KEY, st)
    end
  end.

(** ** The code *)

Section Dns.
(** [SCErrorString], null for a status it does not know. *)
Context (sc_error_string : Z -> option string).

Definition store_error (operation : string) (status : Z) : string :=
  operation +:+ ": " +:+ default "unknown error" (sc_error_string status)
    +:+ " (SystemConfiguration " +:+ pretty status +:+ ")".

Definition resolver_root (interface : string) : string :=
  "State:/Network/Interface/" +:+ interface.

Definition resolver_keys (interface : string) : list string :=
  [resolver_root interface +:+ "/DNS"; resolver_root interface].

Definition dns_values (interface : string) (servers domains : list string)
    : list (string * CFType) :=
  [ (resolver_root interface +:+ "/DNS",
     CFDictionary [("ServerAddresses", CFArray servers);
                   ("SupplementalMatchDomains", CFArray domains)]);
    (resolver_root interface, CFDictionary [("UserDefinedName", CFString interface)]) ].

Definition store_new (st : sc_store) : result unit string * sc_store :=
  let '(r, st) := sc_create st in (map_err (store_error "open DNS store") r, st).

Definition copy_value (k : string) (st : sc_store) : result (option CFType) string * sc_store :=
  let '(r, st) := sc_copy k st in
  (match r with
   | Ok v => Ok (Some v)
   | Err status =>
     if (status =? SC_STATUS_NO_KEY)%Z then Ok None
     else Err (store_error ("read " +:+ k) status)
   end, st).

Fixpoint check_values (values : list (string * CFType)) (st : sc_store)
    : result unit string * sc_store :=
  match values with
  | [] => (Ok tt, st)
  | (k, expected) :: r =>
    let '(v, st) := copy_value k st in
    match v with
    | Err e => (Err e, st)
    | Ok v =>
      if bool_decide (v = Some expected) then check_values r st
      else (Err ("DNS store value did not match after setting " +:+ k), st)
    end
  end.

Definition set_values (values : list (string * CFType)) (st : sc_store)
    : result unit string * sc_store :=
  let '(r, st) := sc_set values st in
  match r with
  | Err status => (Err (store_error "set DNS entries" status), st)
  | Ok _ => check_values values st
  end.

(** [remove_value]: the read-back at its end. *)
Definition check_removed (k : string) (st : sc_store) : result unit string * sc_store :=
  let '(v, st) := copy_value k st in
  (match v with
   | Err e => Err e
   | Ok (Some _) => Err ("DNS store value still exists after removing " +:+ k)
   | Ok None => Ok tt
   end, st).

Definition remove_value (k : string) (st : sc_store) : result unit string * sc_store :=
  let '(v, st) := copy_value k st in
  match v with
  | Err e => (Err e, st)
  | Ok None => (Ok tt, st)
  | Ok (Some _) =>
    let '(r, st) := sc_remove k st in
    match r with
    | Ok _ => check_removed k st
    | Err status =>
      if negb (status =? SC_STATUS_NO_KEY)%Z then (Err (store_error ("remove " +:+ k) status), st)
      else check_removed k st
    end
  end.

(** [keys.iter().filter_map(|key| self.remove_value(key).err()).collect()]. *)
Fixpoint remove_errors (keys : list string) (st : sc_store) : list string * sc_store :=
  match keys with
  | [] => ([], st)
  | k :: r =>
    let '(res, st) := remove_value k st in
    let '(errors, st) := remove_errors r st in
    (match res with Err e => e :: errors | Ok _ => errors end, st)
  end.

Definition remove_values (keys : list string) (st : sc_store) : result unit string * sc_store :=
  let '(errors, st) := remove_errors keys st in
  (match errors with [] => Ok tt | _ => Err (join "; " errors) end, st).

Definition set_dns_entries (interface : string) (servers domains : list string) (st : sc_store)
    : result unit string * sc_store :=
  let '(r, st) := store_new st in
  match r with
  | Err e => (Err e, st)
  | Ok _ => set_values (dns_values interface servers domains) st
  end.

Definition clear_dns_entries (interface : string) (st : sc_store)
    : result unit string * sc_store :=
  let '(r, st) := store_new st in
  match r with
  | Err e => (Err e, st)
  | Ok _ => remove_values (resolver_keys interface) st
  end.
End Dns.

(** ** Correctness *)

Section DnsProofs.
Context (sc_error_string : Z -> option string).
Implicit Types (st : sc_store) (k : string).
Abbreviation copy_value := (copy_value sc_error_string).
Abbreviation remove_value := (remove_value sc_error_string).

(** No call claims that a key is missing unless it is. *)
Definition sc_clean (faults : list sc_fault) : Prop :=
  Forall (fun f => f <> ScFail SC_STATUS_NO_KEY) faults.

(** A call changes the entries at most at the given keys and uses up faults. *)
Definition touches (keys : list string) st st' : Prop :=
  (forall k, k ∉ keys -> sc_entries st' !! k = sc_entries st !! k) /\
  (sc_clean (sc_faults st) -> sc_clean (sc_faults st')) /\
  (sc_faults st = [] -> sc_faults st' = []).

Lemma touches_trans keys st1 st2 st3 :
  touches keys st1 st2 -> touches keys st2 st3 -> touches keys st1 st3.
Proof. intros (H1 & H2 & H3) (H4 & H5 & H6). split_and!; [|by auto..]. intros k Hk. by rewrite H4, H1. Qed.

Lemma touches_mono keys keys' st st' : keys ⊆ keys' -> touches keys st st' -> touches keys' st st'.
Proof. intros Hsub (H1 & H2 & H3). split_and!; [|done..]. intros k Hk. apply H1. set_solver. Qed.

Lemma sc_call_spec st f st' :
  sc_call st = (f, st') ->
  sc_entries st' = sc_entries st /\ touches [] st st' /\
  (sc_clean (sc_faults st) -> f <> ScFail SC_STATUS_NO_KEY) /\ (sc_faults st = [] -> f = ScFine).
Proof.
  unfold sc_call, touches. destruct st as [m [|g r]]; intros [= <- <-]; cbn;
    split_and!; try done; by inversion 1.
Qed.

Lemma copy_value_spec k st v st' :
  copy_value k st = (v, st') ->
  sc_entries st' = sc_entries st /\ touches [] st st' /\
  (sc_clean (sc_faults st) -> forall o, v = Ok o -> o = sc_entries st !! k) /\
  (sc_faults st = [] -> v = Ok (sc_entries st !! k)).
Proof.
  unfold DnsMacos.copy_value, sc_copy. destruct (sc_call st) as [f st1] eqn:Ec.
  apply sc_call_spec in Ec as (He & Ht & Hc & Hf). intros [= <- <-]. rewrite He.
  split_and!; [done | done | |].
  - intros Hcl o. specialize (Hc Hcl). destruct f as [|status|], (sc_entries st !! k); cbn;
      try (by intros [= <-]); destruct (Z.eqb_spec status SC_STATUS_NO_KEY); [congruence|done|congruence|done].
  - intros E. rewrite (Hf E). by destruct (sc_entries st !! k).
Qed.

Lemma check_removed_spec k st r st' :
  check_removed sc_error_string k st = (r, st') ->
  sc_entries st' = sc_entries st /\ touches [k] st st' /\
  (sc_clean (sc_faults st) -> r = Ok tt -> sc_entries st' !! k = None) /\
  (sc_faults st = [] -> sc_entries st !! k = None -> r = Ok tt).
Proof.
  unfold check_removed. destruct (copy_value k st) as [v st1] eqn:Ec.
  apply copy_value_spec in Ec as (He & Ht & Hv & Hf). intros [= <- <-]. rewrite He.
  split_and!; [done | by eapply touches_mono; [|done]; set_solver | |].
  - intros Hc. destruct v as [[x|]|e]; [done| |done]. intros _. symmetry. by apply Hv.
  - intros E Hn. rewrite (Hf E), Hn. done.
Qed.

Lemma sc_remove_spec k st r st' :
  sc_remove k st = (r, st') ->
  touches [k] st st' /\ (sc_faults st = [] -> sc_entries st' !! k = None /\
    (r = Ok tt \/ r = Err SC_STATUS_NO_KEY)).
Proof.
  unfold sc_remove. destruct (sc_call st) as [f st1] eqn:Ec.
  apply sc_call_spec in Ec as (He & Ht & _ & Hf).
  assert (touches [k] st st1) as Ht1 by (eapply touches_mono; [|done]; set_solver).
  destruct f as [|status|]; [| by intros [= _ <-]; split; [|intros E; by discriminate (Hf E)]..].
  destruct (sc_entries st1 !! k) as [x|] eqn:Ex; intros [= <- <-]; [|by auto].
  split; [|intros _; cbn; rewrite lookup_delete_eq; auto].
  eapply touches_trans; [done|]. split_and!; [|done..]. intros j Hj. cbn.
  apply lookup_delete_ne. set_solver.
Qed.

Lemma remove_value_spec k st r st' :
  remove_value k st = (r, st') ->
  touches [k] st st' /\
  (sc_clean (sc_faults st) -> r = Ok tt -> sc_entries st' !! k = None) /\
  (sc_faults st = [] -> r = Ok tt).
Proof.
  unfold DnsMacos.remove_value. destruct (copy_value k st) as [v st1] eqn:Ec.
  apply copy_value_spec in Ec as (He & Ht & Hv & Hf).
  assert (touches [k] st st1) as Ht1 by (eapply touches_mono; [|done]; set_solver).
  destruct v as [[x|]|e].
  - destruct (sc_remove k st1) as [d st2] eqn:Er. apply sc_remove_spec in Er as [Ht2 Hr].
    pose proof (touches_trans _ _ _ _ Ht1 Ht2) as Ht12.
    assert (forall r st', check_removed sc_error_string k st2 = (r, st') ->
      touches [k] st st' /\ (sc_clean (sc_faults st) -> r = Ok tt -> sc_entries st' !! k = None) /\
      (sc_faults st = [] -> r = Ok tt)) as Hfin.
    { intros r0 st0 (_ & H1 & H2 & H3)%check_removed_spec. split_and!.
      - by eapply touches_trans.
      - intros Hc. apply H2. by apply Ht12.
      - intros E. apply H3; [by apply Ht12|]. by apply Hr, Ht1. }
    destruct d as [u|status]; [apply Hfin|].
    destruct (Z.eqb_spec status SC_STATUS_NO_KEY); cbn [negb]; [apply Hfin|].
    intros [= <- <-]. split_and!; [done | done |]. intros E.
    destruct Hr as [_ [?|?]]; [by apply Ht1 | congruence..].
  - intros [= <- <-]. split_and!; [done | | done]. intros Hc _. rewrite He. symmetry. by apply Hv.
  - intros [= <- <-]. split_and!; [done | done |]. intros E. by discriminate (Hf E).
Qed.

Lemma remove_errors_spec keys st errors st' :
  NoDup keys -> remove_errors sc_error_string keys st = (errors, st') ->
  touches keys st st' /\
  (sc_clean (sc_faults st) -> errors = [] -> forall k, k ∈ keys -> sc_entries st' !! k = None) /\
  (sc_faults st = [] -> errors = []).
Proof.
  intros Hnd. revert st errors st'. induction Hnd as [|k keys Hk Hnd IH]; intros st errors st'; cbn.
  { intros [= <- <-]. split_and!; [by split_and! | | done]. by intros _ _ k ?%elem_of_nil. }
  destruct (remove_value k st) as [r st1] eqn:Er. apply remove_value_spec in Er as (H1 & H2 & H3).
  destruct (remove_errors _ keys st1) as [es st2] eqn:Es. apply IH in Es as (H4 & H5 & H6).
  intros [= <- <-]. split_and!.
  - eapply touches_trans; (eapply touches_mono; [|done]; set_solver).
  - intros Hc E j. destruct r as [[]|]; [|done]. rewrite elem_of_cons. intros [-> |Hj].
    + destruct H4 as (H4 & _). rewrite H4 by done. by apply H2.
    + apply H5; [by apply H1 | done..].
  - intros E. rewrite (H3 E). by apply H6, H1.
Qed.

Lemma resolver_keys_nodup name : NoDup (resolver_keys name).
Proof.
  unfold resolver_keys. apply NoDup_cons. split; [|apply NoDup_singleton].
  rewrite list_elem_of_singleton. generalize (resolver_root name). intros s.
  induction s as [|a s IH]; [done|]. intros E. injection E as E. auto.
Qed.

Lemma store_new_spec st r st' :
  store_new sc_error_string st = (r, st') ->
  sc_entries st' = sc_entries st /\ touches [] st st' /\ (sc_faults st = [] -> r = Ok tt).
Proof.
  unfold store_new, sc_create. destruct (sc_call st) as [f st1] eqn:Ec.
  apply sc_call_spec in Ec as (He & Ht & _ & Hf). intros [= <- <-]. split_and!; [done..|].
  intros E. by rewrite (Hf E).
Qed.

Lemma clear_dns_entries_spec name st r st' :
  clear_dns_entries sc_error_string name st = (r, st') ->
  touches (resolver_keys name) st st' /\
  (sc_clean (sc_faults st) -> r = Ok tt ->
     forall k, k ∈ resolver_keys name -> sc_entries st' !! k = None) /\
  (sc_faults st = [] -> r = Ok tt).
Proof.
  unfold clear_dns_entries, remove_values.
  destruct (store_new _ st) as [n st1] eqn:En. apply store_new_spec in En as (He & Ht & Hf).
  assert (touches (resolver_keys name) st st1) as Ht1 by (eapply touches_mono; [|done]; set_solver).
  destruct n as [u|e]; [|intros [= <- <-]; split_and!; [done..|]; intros E; by discriminate (Hf E)].
  destruct (remove_errors _ _ st1) as [errors st2] eqn:Er.
  apply remove_errors_spec in Er as (H1 & H2 & H3); [|apply resolver_keys_nodup].
  intros [= <- <-]. split_and!; [by eapply touches_trans | |].
  - intros Hc Hok. apply H2; [by apply Ht | by destruct errors].
  - intros E. by rewrite H3; [|apply Ht].
Qed.

(** Clearing a session's resolver entries touches no other entry; when
    no call fails it succeeds whatever entries exist, so it can be repeated;
    and whenever it reports success, even after failing or ineffective calls,
    both entries are gone. *)
Theorem clear_dns_entries_clears name st r st' :
  clear_dns_entries sc_error_string name st = (r, st') ->
  (forall k, k ∉ resolver_keys name -> sc_entries st' !! k = sc_entries st !! k) /\
  (sc_clean (sc_faults st) -> r = Ok tt ->
     forall k, k ∈ resolver_keys name -> sc_entries st' !! k = None) /\
  (sc_faults st = [] -> r = Ok tt).
Proof. intros (Ht & H1 & H2)%clear_dns_entries_spec. split_and!; [apply Ht | done | done]. Qed.

Lemma check_values_spec values st r st' :
  check_values sc_error_string values st = (r, st') ->
  sc_entries st' = sc_entries st /\ touches [] st st' /\
  (sc_clean (sc_faults st) -> r = Ok tt ->
     Forall (fun '(k, v) => sc_entries st !! k = Some v) values) /\
  (sc_faults st = [] -> Forall (fun '(k, v) => sc_entries st !! k = Some v) values -> r = Ok tt).
Proof.
  revert st st'. induction values as [|[k v] values IH]; intros st st'; cbn.
  { intros [= <- <-]. by split_and!. }
  destruct (copy_value k st) as [o st1] eqn:Ec. apply copy_value_spec in Ec as (He & Ht & Hv & Hf).
  destruct o as [o|e].
  2:{ intros [= <- <-]. split_and!; try done. intros E. by discriminate (Hf E). }
  destruct (bool_decide_reflect (o = Some v)) as [Eo|Eo].
  - intros (I1 & I2 & I3 & I4)%IH. rewrite He in *. split_and!.
    + done.
    + by eapply touches_trans.
    + intros Hc Hr. constructor; [rewrite <- Eo; symmetry; by apply Hv | by apply I3; [apply Ht|]].
    + intros E HF. inversion HF; subst. apply I4; [by apply Ht | done].
  - intros [= <- <-]. split_and!; try done. intros E HF. inversion HF; subst.
    specialize (Hf E). congruence.
Qed.

Lemma insert_dns_values name servers domains m :
  let m' := insert_all (dns_values name servers domains) m in
  (forall k, k ∉ resolver_keys name -> m' !! k = m !! k) /\
  Forall (fun '(k, v) => m' !! k = Some v) (dns_values name servers domains).
Proof.
  cbn. split.
  - intros k Hk. unfold resolver_keys in *.
    rewrite !lookup_insert_ne; [done|..]; intros <-; apply Hk; set_solver.
  - pose proof (resolver_keys_nodup name) as Hnd. unfold dns_values.
    assert (resolver_root name <> resolver_root name +:+ "/DNS") as Hne
      by (inversion Hnd as [|?? Hin _]; set_solver).
    repeat constructor; [|by rewrite lookup_insert_eq].
    rewrite lookup_insert_ne by done. by rewrite lookup_insert_eq.
Qed.

Lemma set_dns_entries_spec name servers domains st r st' :
  set_dns_entries sc_error_string name servers domains st = (r, st') ->
  let values := dns_values name servers domains in
  touches (resolver_keys name) st st' /\
  (sc_clean (sc_faults st) -> r = Ok tt ->
     Forall (fun '(k, v) => sc_entries st' !! k = Some v) values) /\
  (sc_faults st = [] -> r = Ok tt).
Proof.
  cbn zeta. unfold set_dns_entries, set_values, sc_set.
  destruct (store_new _ st) as [n st1] eqn:En. apply store_new_spec in En as (He1 & Ht1 & Hf1).
  destruct (insert_dns_values name servers domains (sc_entries st1)) as [Hother Hset].
  apply (touches_mono _ (resolver_keys name)) in Ht1; [|set_solver].
  destruct n as [u|e];
    [|intros [= <- <-]; split_and!; [done..|]; intros E; by discriminate (Hf1 E)].
  destruct (sc_call st1) as [f st2] eqn:Ec. apply sc_call_spec in Ec as (He2 & Ht2 & _ & Hf2).
  apply (touches_mono _ (resolver_keys name)) in Ht2; [|set_solver].
  pose proof (touches_trans _ _ _ _ Ht1 Ht2) as Ht12.
  assert (forall st3 r st', check_values sc_error_string (dns_values name servers domains) st3 = (r, st') ->
    touches (resolver_keys name) st2 st3 -> touches (resolver_keys name) st st' /\
    (sc_clean (sc_faults st) -> r = Ok tt ->
       Forall (fun '(k, v) => sc_entries st' !! k = Some v) (dns_values name servers domains))) as Hfin.
  { intros st3 r0 st0 (He3 & Ht3 & Hv & Hp)%check_values_spec Ht23. rewrite He3. split.
    - eapply touches_trans; [exact Ht12|]. eapply touches_trans; [exact Ht23|].
      eapply touches_mono; [|exact Ht3]. set_solver.
    - intros Hc Hok. apply Hv; [by apply Ht23, Ht12 | done]. }
  destruct f as [|status|]; intros Hr.
  - destruct (Hfin _ _ _ Hr) as [H1 H2]; [by split_and!; [rewrite He2| |]|].
    split_and!; [done | done |]. intros E.
    apply check_values_spec in Hr as (_ & _ & _ & Hp).
    apply Hp; cbn; [by apply Ht12 | by rewrite He2].
  - injection Hr as <- <-. split_and!; [done..|].
    intros E. by discriminate (Hf2 (proj2 (proj2 Ht1) E)).
  - destruct (Hfin _ _ _ Hr) as [H1 H2]; [by split_and!|]. split_and!; [done | done |].
    intros E. by discriminate (Hf2 (proj2 (proj2 Ht1) E)).
Qed.

(** When setting the resolver entries reports success, both entries hold
    exactly the session's servers and match domains, even if the store
    silently dropped the write; other entries are untouched; and it does
    succeed when no call fails. *)
Theorem set_dns_entries_sets name servers domains st r st' :
  set_dns_entries sc_error_string name servers domains st = (r, st') ->
  let values := dns_values name servers domains in
  (forall k, k ∉ resolver_keys name -> sc_entries st' !! k = sc_entries st !! k) /\
  (sc_clean (sc_faults st) -> r = Ok tt ->
     Forall (fun '(k, v) => sc_entries st' !! k = Some v) values) /\
  (sc_faults st = [] -> r = Ok tt).
Proof. intros (Ht & H1 & H2)%set_dns_entries_spec. split_and!; [apply Ht | done | done]. Qed.
End DnsProofs.

(** ** Concrete instances *)
Module DnsExamples.
Definition no_text (_ : Z) : option string := None.
Definition other : string := "State:/Network/Interface/en0".
(** A stale entry of the session's interface and one of another. *)
Definition stale : sc_store :=
  mkStore (<[resolver_root "utun4" := CFString "old"]> {[ other := CFString "en0" ]}) [].

(** The write is dropped: the read-back notices. *)
Example dropped_write_is_noticed :
  is_ok (set_dns_entries no_text "utun4" ["1.1.1.1"] ["corp"]
    (mkStore ∅ [ScFine; ScDropped])).1 = false.
Proof. vm_compute. reflexivity. Qed.
End DnsExamples.
Import DnsExamples.

Lemma clear_dns_entries_clears_witness :
  let st' := (clear_dns_entries no_text "utun4" stale).2 in
  (clear_dns_entries no_text "utun4" stale).1 = Ok tt /\
  sc_entries st' !! resolver_root "utun4" = None /\ sc_entries st' !! other = Some (CFString "en0").
Proof.
  destruct (clear_dns_entries_clears no_text "utun4" stale _ _ (surjective_pairing _)) as (H1 & H2 & H3).
  assert ((clear_dns_entries no_text "utun4" stale).1 = Ok tt) as Hok by (apply H3; reflexivity).
  split; [exact Hok|]. split.
  - apply H2; [constructor | exact Hok | set_solver].
  - rewrite H1; [reflexivity | vm_compute; set_solver].
Defined.

Lemma set_dns_entries_sets_witness :
  let st' := (set_dns_entries no_text "utun4" ["1.1.1.1"] ["corp"] stale).2 in
  Forall (fun '(k, v) => sc_entries st' !! k = Some v) (dns_values "utun4" ["1.1.1.1"] ["corp"]).
Proof.
  destruct (set_dns_entries_sets no_text "utun4" ["1.1.1.1"] ["corp"] stale _ _ (surjective_pairing _))
    as (_ & H2 & H3).
  apply H2; [constructor|]. apply H3. reflexivity.
Defined.
