(* ===== verification/PlatformMacos.v ===== *)
(** * platform/macos.rs: session configuration on macOS

    Routes through [SessionRoutes], DNS through the dynamic store. The theorem
    combines the two components' promises: the hook of a configured session
    undoes all of it, and a session that could not be configured is undone
    before the error is returned. *)

From S2P Require Import Prelude RustStd Net Proto IpUtil Validation Os Platform RtMsg.
From S2P Require Import EndpointMacos Snapshot SessionRoutes DnsMacos.
From Stdlib Require Import Lia.

(** The routing table and the dynamic store. *)
Record mac_state : Type := mkMac { kern : kernel; store : sc_store }.

Section Macos.
Context {Route : Type} `{RouteLib Route} `{Reports}.
Context (sc_error_string : Z -> option string).
Context (if_nametoindex : string -> Z) (last_os_error : io_error).

Definition mac_requests (fr : list Route) (er : list EndpointRoute)
    : list (result Snapshot io_error) :=
  install_requests er (tun_route if_nametoindex last_os_error <$> fr).

(** The closure whose result is [setup_result]. *)
Definition mac_setup (fr : list Route) (er : list EndpointRoute) (name : string)
    (dns_servers dns_domains : list string) (st : mac_state)
    : result unit string * SessionRoutes * mac_state :=
  let '(installed, routes, k) := install [] (mac_requests fr er) (kern st) in
  match installed with
  | Err error =>
    (Err ("failed to configure routes: " +:+ io_message error), routes, mkMac k (store st))
  | Ok _ =>
    let '(cleared, d) := clear_dns_entries sc_error_string name (store st) in
    match cleared with
    | Err e => (Err e, routes, mkMac k d)
    | Ok _ =>
      if bool_decide (dns_servers <> []) && bool_decide (dns_domains <> []) then
        let '(res, d) := set_dns_entries sc_error_string name dns_servers dns_domains d in
        (res, routes, mkMac k d)
      else (Ok tt, routes, mkMac k d)
    end
  end.

(** The closure [cleanup]: both parts always run. *)
Definition mac_cleanup (routes : SessionRoutes) (name : string) (st : mac_state)
    : result unit string * mac_state :=
  let '(route_result, _, k) := restore_with routes (kern st) in
  let '(dns_result, d) := clear_dns_entries sc_error_string name (store st) in
  (match route_result, dns_result with
   | Ok _, result => result
   | result, Ok _ => result
   | Err routes, Err dns => Err (routes +:+ "; " +:+ dns)
   end, mkMac k d).

(** The error of a set-up that was torn down again. *)
Definition setup_error (error : string) (cleanup_result : result unit string) : string :=
  match cleanup_result with
  | Ok _ => error
  | Err cleanup_error => error +:+ "; cleanup failed: " +:+ cleanup_error
  end.

(** [configure_session]; [None] is a panic, [mgr] the result of opening the
    route manager, and the hook is [mac_cleanup] on the returned changes. *)
Definition mac_configure_session (config : TunSessionConfig) (name : string)
    (er : list EndpointRoute) (mgr : result unit io_error) (st : mac_state)
    : option (result SessionRoutes string) * mac_state :=
  match mgr with
  | Err e => (Some (Err ("route manager: " +:+ io_message e)), st)
  | Ok _ =>
    match ips_to_args (config_servers config) with
    | None => (None, st)
    | Some dns_servers =>
      let dns_domains := normalize_domains (config_domains config) in
      let '(setup_result, routes, st) :=
        mac_setup (filtered_routes config name) er name dns_servers dns_domains st in
      match setup_result with
      | Ok _ => (Some (Ok routes), st)
      | Err error =>
        let '(cleanup_result, st) := mac_cleanup routes name st in
        (Some (Err (setup_error error cleanup_result)), st)
      end
    end
  end.

(** ** Correctness *)

(** Endpoint routes as a lookup returns them, with an IP source if any. *)
Definition endpoint_good (e : EndpointRoute) : Prop :=
  endpoint_wf e /\ gateway_canonical e /\
  forall s, e_source e = Some s -> inet_family s = true.

Lemma mac_requests_requestable fr er :
  (forall n, 0 <= if_nametoindex n)%Z -> Forall endpoint_good er ->
  all_requestable (mac_requests fr er).
Proof.
  intros Hif Her. unfold mac_requests, install_requests, all_requestable.
  apply Forall_app. split; apply Forall_fmap.
  - eapply Forall_impl; [exact Her|]. intros e (Hw & Hg & Hs) route Hr. by eapply endpoint_requestable.
  - apply Forall_forall. intros r _ route Hr. by eapply tun_route_requestable.
Qed.

(** No trace of the session: the original routes, and no resolver entries. *)
Definition undone (name : string) (st0 st : mac_state) : Prop :=
  original_routes (k_table (kern st0)) (k_table (kern st)) /\
  (forall k, k ∈ resolver_keys name -> sc_entries (store st) !! k = None) /\
  (forall k, k ∉ resolver_keys name ->
     sc_entries (store st) !! k = sc_entries (store st0) !! k).

(** The session's own view: routes installed by it, other DNS entries as
    before. *)
Definition in_session (name : string) (st0 : mac_state) (routes : SessionRoutes) (st : mac_state)
    : Prop :=
  installed (k_table (kern st0)) routes (k_table (kern st)) /\
  (clean (k_faults (kern st0)) -> clean (k_faults (kern st))) /\
  (sc_clean (sc_faults (store st0)) -> sc_clean (sc_faults (store st))) /\
  (forall k, k ∉ resolver_keys name ->
     sc_entries (store st) !! k = sc_entries (store st0) !! k).

Lemma mac_setup_spec fr er name servers domains st0 r routes st :
  table_wf (k_table (kern st0)) -> all_requestable (mac_requests fr er) ->
  mac_setup fr er name servers domains st0 = (r, routes, st) ->
  in_session name st0 routes st /\
  (sc_clean (sc_faults (store st0)) -> r = Ok tt -> servers <> [] -> domains <> [] ->
     Forall (fun '(k, v) => sc_entries (store st) !! k = Some v) (dns_values name servers domains)).
Proof.
  intros Hwf Hreq. unfold mac_setup.
  destruct (install [] _ (kern st0)) as [[ires iroutes] k] eqn:Ei.
  pose proof (install_clean _ _ _ _ _ _ Ei) as Hclean.
  apply (install_installed (k_table (kern st0))) in Ei; [|done..|apply installed_nil].
  destruct ires as [u|e]; [|by intros [= <- <- <-]; split_and!].
  destruct (clear_dns_entries _ name (store st0)) as [cres d] eqn:Ec.
  apply clear_dns_entries_spec in Ec as ((Ht & Htc & _) & _).
  destruct cres as [u'|e]; [|by intros [= <- <- <-]; split_and!].
  destruct (bool_decide_reflect (servers <> [])) as [Hs|Hs]; cbn [andb];
    [destruct (bool_decide_reflect (domains <> [])) as [Hd|Hd]|];
    [| by intros [= <- <- <-]; split_and!..].
  destruct (set_dns_entries _ name servers domains d) as [sres d'] eqn:Es.
  apply set_dns_entries_spec in Es as ((Ht' & Htc' & _) & Hset & _).
  intros [= <- <- <-]. cbn. split; [|by auto]. split_and!; [done | done | by auto |].
  intros k' Hk. cbn. by rewrite Ht', Ht.
Qed.

Lemma mac_cleanup_spec name st0 routes st r st' :
  table_wf (k_table (kern st0)) -> in_session name st0 routes st ->
  mac_cleanup routes name st = (r, st') ->
  (clean (k_faults (kern st)) -> sc_clean (sc_faults (store st)) -> r = Ok tt ->
     undone name st0 st') /\
  (k_faults (kern st) = [] -> sc_faults (store st) = [] -> r = Ok tt).
Proof.
  intros Hwf (Hi & _ & _ & Hother). unfold mac_cleanup, restore_with.
  destruct (restore_loop (rev routes) (kern st)) as [errors k] eqn:Er.
  apply (restore_originals (k_table (kern st0))) in Er as [Hsound Hprog]; [|done..].
  destruct (clear_dns_entries _ name (store st)) as [dres d] eqn:Ed.
  apply clear_dns_entries_spec in Ed as ((Ht & _) & Hgone & Hdprog).
  intros [= <- <-]. cbn. split.
  - intros Hc Hsc Hok. destruct errors as [|x l]; [|by destruct dres].
    split_and!; [by apply Hsound | by apply Hgone | intros k' Hk; cbn; by rewrite Ht, Hother].
  - intros Hf Hsf. destruct (Hprog Hf) as [-> _]. by rewrite Hdprog.
Qed.

(** For an accepted configuration and whatever requests to the
    routing socket or the dynamic store fail, [configure_session] does not
    panic. If it succeeds, the DNS entries are set when there are any, and
    the cleanup hook, run without further errors on whatever the session left,
    succeeds and undoes everything: original routes back, resolver entries
    gone, all other entries untouched. If it fails after opening the route
    manager, the same cleanup has already run, and if that reported no error
    everything is undone. *)
Theorem macos_configure_session_spec config name er st0 r st :
  validate_config Macos config = Ok tt ->
  (forall n, 0 <= if_nametoindex n)%Z -> Forall endpoint_good er ->
  table_wf (k_table (kern st0)) ->
  clean (k_faults (kern st0)) -> sc_clean (sc_faults (store st0)) ->
  mac_configure_session config name er (Ok tt) st0 = (r, st) ->
  exists res servers, r = Some res /\ ips_to_args (config_servers config) = Some servers /\
    let domains := normalize_domains (config_domains config) in
    let calm st := mkMac (mkKernel (k_table (kern st)) []) (mkStore (sc_entries (store st)) []) in
    match res with
    | Ok routes =>
      (servers <> [] -> Forall (fun '(k, v) => sc_entries (store st) !! k = Some v)
                          (dns_values name servers domains)) /\
      exists st', mac_cleanup routes name (calm st) = (Ok tt, st') /\ undone name st0 st'
    | Err e =>
      exists st1 routes error cleanup,
        mac_setup (filtered_routes config name) er name servers domains st0 =
          (Err error, routes, st1) /\
        mac_cleanup routes name st1 = (cleanup, st) /\ e = setup_error error cleanup /\
        (cleanup = Ok tt -> undone name st0 st) /\
        (k_faults (kern st1) = [] -> sc_faults (store st1) = [] -> cleanup = Ok tt)
    end.
Proof.
  intros Hv Hif Her Hwf Hc Hsc. destruct (valid_dns_args _ _ Hv) as (servers & Hs & Hboth).
  unfold mac_configure_session. rewrite Hs.
  destruct (mac_setup _ er name servers _ st0) as [[setup routes] st1] eqn:Em.
  pose proof Em as Hspec. apply mac_setup_spec in Hspec as [Hin Hset];
    [|done | by apply mac_requests_requestable].
  pose proof Hin as (Hi & Hc1 & Hsc1 & Ho).
  destruct setup as [[]|error].
  - intros [= <- <-]. exists (Ok routes), servers. split_and!; [done..| |].
    + intros Hne. apply Hset; [done..|]. by rewrite <- Hboth.
    + destruct (mac_cleanup routes name _) as [cr st'] eqn:Ec. exists st'.
      apply (mac_cleanup_spec name st0) in Ec as [Hsound Hprog]; [|done|].
      * assert (cr = Ok tt) as -> by by apply Hprog. split; [done|].
        apply Hsound; [constructor | constructor | done].
      * split_and!; [done | constructor.. | done].
  - destruct (mac_cleanup routes name st1) as [cr st'] eqn:Ec. intros [= <- <-].
    eexists (Err _), servers. split_and!; [done..|]. exists st1, routes, error, cr. pose proof Ec as Hcl.
    apply (mac_cleanup_spec name st0) in Ec as [Hsound Hprog]; [|done..].
    split_and!; [done..| |exact Hprog]. intros Hok. by apply Hsound; auto.
Qed.
End Macos.

(** ** A concrete session *)
Import PlatformExamples RouteExamples DnsExamples.

Definition no_errors : mac_state := mkMac (mkKernel table0 []) stale.
Definition index_of (_ : string) : Z := 7%Z.
