(* ===== verification/MacosRoutes.v ===== *)
(** * platform/routes_macos.rs and macos.rs: what a configured session routes where

    The file SessionRoutes shows that changes can be undone; here is what they
    achieve. A successful installation leaves, for every prefix that was asked
    for, the route of the first request for it: endpoint exceptions come before
    VPN routes and therefore win. The prefix a request is for is computed from
    the request's bytes ([Snapshot.key]); [prefix_key] says which one that is
    for an endpoint and for an allowed prefix. *)

From S2P Require Import Prelude RustStd Net Proto IpUtil Validation Os Platform RtMsg.
From S2P Require Import EndpointMacos Snapshot SessionRoutes DnsMacos PlatformMacos.
From Stdlib Require Import Lia.

(** ** The prefix of a request *)

(** The octets as the keys have them: without the interface that the kernel
    embeds in link-local addresses. *)
Definition canonical (ip : IpAddr) : list byte :=
  match ip with
  | V4 o => o
  | V6 o => if link_local o then list_inserts 2 [Byte.x00; Byte.x00] o else o
  end.

Definition family (ip : IpAddr) : byte := z_u8 (if is_ipv4 ip then AF_INET else AF_INET6).

Definition prefix_key (ip : IpAddr) (mask : list byte) (host : bool) : RouteKey :=
  mkKey (family ip) (masked (canonical ip) mask) mask host 0.

Definition host_key (ip : IpAddr) : RouteKey :=
  prefix_key ip (replicate (length (canonical ip)) Byte.xff) true.

Lemma length_canonical ip : length (canonical ip) = length (octets ip).
Proof. destruct ip as [o|o]; [done|]. cbn [canonical octets]. destruct (link_local o); [apply length_inserts | done]. Qed.

Lemma address_bytes_ip ip : ip_wf ip -> address_bytes (ip_address ip) (family ip) = Ok (canonical ip).
Proof.
  destruct ip as [o|o]; cbn [ip_wf family is_ipv4 canonical]; intros Hl.
  - do 4 (destruct o as [|? o]; [done|]). by destruct o.
  - do 16 (destruct o as [|? o]; [done|]). destruct o; [|done]. reflexivity.
Qed.

Lemma ip_address_of_family ip : ip_address ip !! 1 = Some (family ip).
Proof. apply ip_address_family. Qed.

Lemma host_flag via : has_flag (if via : bool then Z.lor base_flags RTF_GATEWAY else base_flags) RTF_HOST = true /\
  has_flag (if via : bool then Z.lor base_flags RTF_GATEWAY else base_flags) RTF_IFSCOPE = false.
Proof. by destruct via. Qed.

(** An endpoint's exception is for the host prefix of the endpoint, in every
    scope. *)
Lemma exception_key route m :
  endpoint_wf route -> ip_wf (e_destination route) -> endpoint_message route RTM_ADD = Ok m ->
  key m = Ok (host_key (e_destination route)).
Proof.
  intros Hw Hip Hm. destruct (exception_message_view route m Hw Hm) as (Hlen & Ha & Hi & Hf).
  rewrite (key_view m (exception_attrs route)) by done.
  change (slot (exception_attrs route) RTAX_DST) with (Some (ip_address (e_destination route))).
  cbn [ok_or rbind]. rewrite ip_address_of_family. cbn [ok_or rbind].
  rewrite (address_bytes_ip _ Hip), Hf. cbn [rbind].
  destruct (host_flag (e_via_gateway route)) as [-> ->]. done.
Qed.

(** The mask of a VPN route: as given, or all ones for a host route. *)
Definition route_mask (ip mask : IpAddr) (host : bool) : list byte :=
  if host then replicate (length (canonical ip)) Byte.xff else canonical mask.

Lemma tun_bytes_key d mk index host s :
  (0 < index <= u16_max)%Z -> ip_wf d -> ip_wf mk -> is_ipv4 mk = is_ipv4 d ->
  tun_bytes d mk index host = Ok s ->
  key s = Ok (prefix_key d (route_mask d mk host) host) /\ get f_index s = index /\
  view s (tun_attrs d mk index).
Proof.
  intros Hi Hd Hm Hfam Hs. destruct (tun_bytes_ok d mk index host Hi) as (s' & E & Hv & Hidx & Hf).
  rewrite E in Hs. apply Ok_inj in Hs. subst s'. split_and!; [|done..].
  rewrite (key_view _ _ Hv). change (slot (tun_attrs d mk index) RTAX_DST) with (Some (ip_address d)).
  change (slot (tun_attrs d mk index) RTAX_NETMASK) with (Some (ip_address mk)).
  cbn [ok_or rbind default]. rewrite ip_address_of_family. cbn [ok_or rbind].
  rewrite (address_bytes_ip _ Hd), Hf. cbn [rbind].
  assert (family mk = family d) as Ef by (unfold family; by rewrite Hfam).
  destruct host; [done|]. cbn [rbind route_mask].
  replace (has_flag _ RTF_HOST) with false by done. cbv iota. unfold id. rewrite <- Ef, (address_bytes_ip _ Hm). cbn [rbind].
  unfold prefix_key. by rewrite <- Ef.
Qed.

(** ** A successful installation *)

Section InForce.
Context `{Reports}.
Implicit Types (t : gmap RouteKey Snapshot) (s : kernel) (c : RouteChange).

(** The change's route is in the table. *)
Definition in_force t c : Prop :=
  exists m, message (c_route c) RTM_ADD = Ok m /\ t !! c_key c = Some (report m).

(** The first request for a prefix. *)
Fixpoint first_request (k : RouteKey) (requests : list (result Snapshot io_error)) : option Snapshot :=
  match requests with
  | [] => None
  | Ok route :: r => if bool_decide (key route = Ok k) then Some route else first_request k r
  | Err _ :: r => first_request k r
  end.

(** The route recorded for a prefix. *)
Fixpoint recorded_route (k : RouteKey) (changes : SessionRoutes) : option Snapshot :=
  match changes with
  | [] => None
  | c :: r => if bool_decide (c_key c = k) then Some (c_route c) else recorded_route k r
  end.

Lemma recorded_route_app k changes c :
  recorded_route k (changes ++ [c]) =
    match recorded_route k changes with
    | Some r => Some r
    | None => if bool_decide (c_key c = k) then Some (c_route c) else None
    end.
Proof. induction changes as [|d changes IH]; cbn; [done|]. destruct (bool_decide (c_key d = k)); [done | exact IH]. Qed.

Lemma recorded_route_none k changes : recorded_route k changes = None <-> k ∉ c_key <$> changes.
Proof.
  induction changes as [|c changes IH]; cbn; [split; [intros _; apply not_elem_of_nil | done]|].
  rewrite not_elem_of_cons. destruct (bool_decide_reflect (c_key c = k)); [naive_solver|]. rewrite IH. naive_solver.
Qed.

Lemma recorded_route_some k changes r :
  recorded_route k changes = Some r -> exists c, c ∈ changes /\ c_key c = k /\ c_route c = r.
Proof.
  induction changes as [|c changes IH]; cbn; [done|]. destruct (bool_decide_reflect (c_key c = k)).
  - intros [= <-]. exists c. split; [by left|done].
  - intros Hr. destruct (IH Hr) as (d & ? & ?). exists d. split; [by right|done].
Qed.

(** Changing one prefix leaves the others in force. *)
Lemma in_force_other t t' k changes :
  (forall j, j <> k -> t' !! j = t !! j) -> k ∉ c_key <$> changes ->
  Forall (in_force t) changes -> Forall (in_force t') changes.
Proof.
  intros Ht Hk Hf. rewrite Forall_forall in *. intros c Hc. destruct (Hf c Hc) as (m & Hm & Hl).
  exists m. split; [done|]. rewrite Ht; [done|]. intros <-. apply Hk. by apply list_elem_of_fmap_2.
Qed.

Lemma add_in_force t0 changes route k s changes' s' :
  table_wf t0 -> requestable route -> key route = Ok k -> installed t0 changes (k_table s) ->
  Forall (in_force (k_table s)) changes -> add changes route s = (Ok tt, changes', s') ->
  Forall (in_force (k_table s')) changes' /\
  ((k ∈ c_key <$> changes) /\ changes' = changes \/
   (k ∉ c_key <$> changes) /\ exists c, changes' = changes ++ [c] /\ c_key c = k /\ c_route c = route).
Proof.
  intros Hwf ((m & Hm) & _) Hk Hi Hin. unfold add. rewrite Hk.
  destruct (existsb _ _) eqn:He.
  { intros [= <- <-]. split; [done|]. left. split; [|done]. apply dec_stable.
    intros Hn%existsb_key. congruence. }
  apply existsb_key in He. cbn [find request kernel_RouteTable].
  destruct (kernel_find k s) as [[previous|e] s1] eqn:Ef; [|done].
  apply kernel_find_spec in Ef as (Et & _ & ->).
  destruct (restorable _) as [u|e] eqn:Eres; [|done].
  destruct (match k_table s !! k with Some p => _ | None => _ end) as [deleted s2] eqn:Ed.
  destruct deleted as [u'|e]; [|done].
  assert (k_table s2 !! k = None /\ forall j, j <> k -> k_table s2 !! j = k_table s !! j) as [Hn Hsame].
  { destruct (k_table s !! k) as [p|] eqn:Ep; [|injection Ed as _ <-; rewrite Et; done].
    cbn in Eres. destruct (message p RTM_ADD) as [mp|] eqn:Emp; [|done].
    destruct (message_any _ _ RTM_DELETE _ Emp) as [md Hmd].
    apply (request_delete_spec p k md) in Ed as [_ Hd];
      [|by rewrite Et | by apply Hwf; rewrite <- (installed_other _ _ _ Hi k He) | done].
    rewrite Et in Hd. rewrite Hd. split; [apply lookup_delete_eq | intros j Hj; by apply lookup_delete_ne]. }
  destruct (kernel_request route RTM_ADD s2) as [added s3] eqn:Ea. intros [= -> <- <-].
  destruct (request_add_spec _ _ _ _ _ _ Hk Hm Hn Ea) as [_ Ht].
  split; [|right; split; [done|]; by eexists].
  apply Forall_app. split.
  - eapply (in_force_other (k_table s)); [|done..]. intros j Hj. rewrite Ht, lookup_insert_ne by done. by apply Hsame.
  - constructor; [|constructor]. exists m. cbn. by rewrite Ht, lookup_insert_eq.
Qed.

Lemma install_in_force t0 requests changes s changes' s' :
  table_wf t0 -> all_requestable requests -> installed t0 changes (k_table s) ->
  Forall (in_force (k_table s)) changes -> install changes requests s = (Ok tt, changes', s') ->
  installed t0 changes' (k_table s') /\ Forall (in_force (k_table s')) changes' /\
  forall k, recorded_route k changes' =
    match recorded_route k changes with Some r => Some r | None => first_request k requests end.
Proof.
  intros Hwf Hreq. revert changes s. induction Hreq as [|q requests Hq _ IH]; intros changes s Hi Hf; cbn [install].
  { intros [= <- <-]. split_and!; [done..|]. intros k. by destruct (recorded_route k changes). }
  destruct q as [route|e]; [|done]. specialize (Hq route eq_refl). pose proof Hq as (_ & [k Hk] & _).
  destruct (add changes route s) as [[[[]|e] ch1] s1] eqn:Ea; [|done].
  pose proof (add_installed t0 _ _ _ _ _ _ Hwf Hq Hi Ea) as Hi1.
  destruct (add_in_force t0 _ _ k _ _ _ Hwf Hq Hk Hi Hf Ea) as [Hf1 Hch].
  intros Hin. destruct (IH ch1 s1 Hi1 Hf1 Hin) as (Hi' & Hf' & Hrec). split_and!; [done..|].
  intros j. rewrite Hrec. cbn [first_request]. rewrite Hk.
  destruct Hch as [[Hin' ->]|[Hout (c & -> & Hck & Hcr)]].
  - destruct (recorded_route j changes) eqn:E; [done|]. apply recorded_route_none in E.
    rewrite bool_decide_eq_false_2; [done|]. intros Hkj. apply Ok_inj in Hkj. by subst j.
  - rewrite recorded_route_app, Hck, Hcr. destruct (recorded_route j changes); [done|].
    destruct (bool_decide_reflect (k = j)) as [->|Hne].
    + by rewrite bool_decide_eq_true_2.
    + rewrite bool_decide_eq_false_2; [done|]. intros Hkj. by apply Ok_inj in Hkj.
Qed.

(** What the table holds after a successful installation. *)
Lemma installed_table t0 faults requests changes s :
  table_wf t0 -> all_requestable requests ->
  install [] requests (mkKernel t0 faults) = (Ok tt, changes, s) ->
  forall k, match first_request k requests with
    | Some route => exists r, k_table s !! k = Some r /\ shows route r /\ same_path r route = Ok true
    | None => k_table s !! k = t0 !! k
    end.
Proof.
  intros Hwf Hreq Hin k.
  destruct (install_in_force t0 requests [] (mkKernel t0 faults) changes s Hwf Hreq (installed_nil t0)
    (Forall_nil_2 _) Hin) as (Hi & Hf & Hrec).
  specialize (Hrec k). cbn in Hrec. rewrite <- Hrec.
  destruct (recorded_route k changes) as [route|] eqn:E.
  - apply recorded_route_some in E as (c & Hc & <- & <-). rewrite Forall_forall in Hf.
    destruct (Hf c Hc) as (m & Hm & Hl). exists (report m). split; [done|].
    destruct (proj1 (Forall_forall _ _) (installed_change _ _ _ Hi) c Hc) as (Hk & (_ & _ & Hsame) & _).
    destruct (report_request _ _ _ Hm Hk) as [Hs _]. split; [done|]. by eapply shows_same_path.
  - apply recorded_route_none in E. by apply (installed_other _ _ _ Hi).
Qed.

Lemma first_request_some k requests route :
  first_request k requests = Some route -> Ok route ∈ requests /\ key route = Ok k.
Proof.
  induction requests as [|[r|e] requests IH]; cbn; [done| |].
  - case_bool_decide; [intros [= <-]; split; [by left | done]|]. intros [? ?]%IH. split; [by right | done].
  - intros [? ?]%IH. split; [by right | done].
Qed.

Lemma first_request_none k requests route :
  first_request k requests = None -> Ok route ∈ requests -> key route <> Ok k.
Proof.
  induction requests as [|[r|e] requests IH]; cbn; [set_solver| |].
  - case_bool_decide; [done|]. intros Hn [E|Hin]%elem_of_cons; [apply Ok_inj in E; by subst r | by apply IH].
  - intros Hn [E|Hin]%elem_of_cons; [done | by apply IH].
Qed.

Lemma first_request_app k l1 l2 :
  first_request k (l1 ++ l2) = match first_request k l1 with Some r => Some r | None => first_request k l2 end.
Proof. induction l1 as [|[r|e] l1 IH]; cbn; [done| |done]. by destruct (bool_decide _). Qed.
End InForce.

(** ** Allowed prefixes *)

Definition network_of (ip : IpAddr) (p : N) : IpAddr :=
  match ip with
  | V4 o => V4 (masked o (mask_octets 4 p))
  | V6 o => V6 (masked o (mask_octets 16 p))
  end.

Definition allowed_key (ip : IpAddr) (p : N) : RouteKey :=
  let host := (p =? addr_bits ip)%N in
  prefix_key (network_of ip p) (route_mask (network_of ip p) (prefix_mask ip p) host) host.

Lemma length_masked a b : length (masked a b) = length a.
Proof. revert b. induction a as [|x a IH]; intros [|y b]; cbn; auto. Qed.

Lemma length_mask_octets n p : length (mask_octets n p) = n.
Proof. revert p. induction n as [|n IH]; intros p; cbn; auto. Qed.

Lemma masked_ones l : masked l (replicate (length l) Byte.xff) = l.
Proof.
  induction l as [|b l IH]; [done|]. cbn. rewrite IH. f_equal. unfold band.
  change (u8z Byte.xff) with (Z.ones 8). rewrite Z.land_ones by done. pose proof (u8z_range b).
  rewrite Z.mod_small by (change (2 ^ 8)%Z with 256%Z; lia). apply z_u8_u8z.
Qed.

Lemma mask_octets_full n p : (8 * N.of_nat n <= p)%N -> mask_octets n p = replicate n Byte.xff.
Proof.
  revert p. induction n as [|n IH]; intros p Hp; [done|]. cbn [mask_octets replicate].
  rewrite Z.min_l by lia. rewrite IH by lia. done.
Qed.

Lemma network_of_host ip : ip_wf ip -> network_of ip (addr_bits ip) = ip.
Proof.
  destruct ip as [o|o]; cbn [ip_wf network_of addr_bits is_ipv4]; intros Hl;
    rewrite mask_octets_full by done; rewrite <- Hl at 1; by rewrite masked_ones.
Qed.

Lemma allowed_key_host ip : ip_wf ip -> allowed_key ip (addr_bits ip) = host_key ip.
Proof. intros Hw. unfold allowed_key. rewrite N.eqb_refl, network_of_host by done. done. Qed.

Section Configured.
Context {Route : Type} `{RouteLib Route} `{Reports}.
Context (sc_error_string : Z -> option string).
Context (if_nametoindex : string -> Z) (last_os_error : io_error).
Context (Hindex : forall n, (0 <= if_nametoindex n)%Z).

(** The request for an allowed prefix. *)
Lemma tun_route_allowed name ip p s :
  ip_wf ip -> (p <= addr_bits ip)%N ->
  tun_route if_nametoindex last_os_error (with_if_name name (Route_new ip p)) = Ok s ->
  key s = Ok (allowed_key ip p) /\ get f_index s = if_nametoindex name.
Proof.
  intros Hw Hp. unfold tun_route. rewrite if_name_with_if_name. cbn [ok_or rbind].
  unfold cstring_new. destruct (contains _ _); [done|]. cbn [rbind].
  destruct (Z.eqb_spec (if_nametoindex name) 0) as [|Hne]; [done|].
  unfold u16_try_from at 1. specialize (Hindex name). rewrite Z2Nat.id by done.
  destruct (Z.leb_spec (if_nametoindex name) u16_max) as [Hle|]; [|done]. cbn [rbind].
  rewrite destination_with_if_name, mask_with_if_name, prefix_with_if_name, destination_new, prefix_new.
  rewrite mask_new by done.
  assert (network ip (prefix_mask ip p) = Ok (network_of ip p)) as -> by by destruct ip. cbn [rbind].
  assert (is_ipv4 (network_of ip p) = is_ipv4 ip) as Ef by by destruct ip. rewrite Ef.
  change (if is_ipv4 ip then 32%N else 128%N) with (addr_bits ip). intros Hs.
  apply tun_bytes_key in Hs as (Hk & Hi & _); [done | lia | | | ].
  - destruct ip; cbn in *; by rewrite length_masked.
  - destruct ip; cbn; by rewrite ?length_mask_octets.
  - rewrite Ef. by destruct ip.
Qed.

(** The allowed prefixes that are installed. *)
Lemma filtered_member config name (r : Route) :
  validate_config Macos config = Ok tt ->
  r ∈ filtered_routes config name <->
  exists addr ip, addr ∈ peer_allowed_ips config /\ parse_proto_cidr addr = Some (ip, Cidr_prefix addr) /\
    ip_wf ip /\ (Cidr_prefix addr <= addr_bits ip)%N /\
    r = with_if_name name (Route_new ip (Cidr_prefix addr)) /\
    ~ (Cidr_prefix addr = addr_bits ip /\ ip ∈ omap parse_proto_ip (peer_endpoints config)).
Proof.
  intros Hv%validate_config_valid. pose proof (valid_routes _ _ Hv) as HF. rewrite Forall_forall in HF.
  unfold filtered_routes. rewrite list_elem_of_In, filter_In, <- list_elem_of_In, list_elem_of_omap, keep_route_spec.
  split.
  - intros [(addr & Ha & Hr) Hk]. destruct (HF addr Ha) as (ip & Hip & Hw & Hp).
    assert (parse_proto_cidr addr = Some (ip, Cidr_prefix addr)) as E by by apply parse_proto_cidr_some.
    unfold allowed_ip_route, u8_try_from in Hr. rewrite E in Hr. cbn in Hr.
    destruct (Cidr_prefix addr <=? 255)%N; [|done]. cbn in Hr. injection Hr as <-.
    rewrite prefix_with_if_name, destination_with_if_name, prefix_new, destination_new in Hk. by exists addr, ip.
  - intros (addr & ip & Ha & E & Hw & Hp & -> & Hk). split.
    + exists addr. split; [done|]. unfold allowed_ip_route, u8_try_from. rewrite E. cbn.
      destruct (N.leb_spec (Cidr_prefix addr) 255); [done|]. unfold addr_bits in Hp. destruct (is_ipv4 ip); lia.
    + by rewrite prefix_with_if_name, destination_with_if_name, prefix_new, destination_new.
Qed.

Lemma configured_installed config name er st0 routes st :
  mac_configure_session sc_error_string if_nametoindex last_os_error config name er (Ok tt) st0 =
    (Some (Ok routes), st) ->
  install [] (mac_requests if_nametoindex last_os_error (filtered_routes config name) er) (kern st0) =
    (Ok tt, routes, kern st).
Proof.
  unfold mac_configure_session, mac_setup. destruct (ips_to_args _) as [servers|]; [|done].
  destruct (install [] _ (kern st0)) as [[[[]|e] ch] k] eqn:Ei.
  2:{ destruct (mac_cleanup _ _ _ _). done. }
  destruct (clear_dns_entries _ name (store st0)) as [[u|e] d]; [|destruct (mac_cleanup _ _ _ _); done].
  destruct (bool_decide _ && _).
  - destruct (set_dns_entries _ name servers _ d) as [[u'|e] d']; [|destruct (mac_cleanup _ _ _ _); done].
    by intros [= <- <-].
  - by intros [= <- <-].
Qed.

(** Requests for a prefix among the exceptions and among the VPN routes. *)
Lemma exception_first er ip :
  Forall endpoint_good er -> Forall (fun e => ip_wf (e_destination e)) er -> ip ∈ e_destination <$> er ->
  exists e m, e ∈ er /\ host_key (e_destination e) = host_key ip /\ endpoint_message e RTM_ADD = Ok m /\
    first_request (host_key ip) ((fun e => endpoint_message e RTM_ADD) <$> er) = Some m.
Proof.
  rewrite !Forall_forall. intros Hg Hw (e & -> & He)%list_elem_of_fmap.
  destruct (first_request _ _) as [m|] eqn:E.
  - apply first_request_some in E as [(e' & Hm & He')%list_elem_of_fmap Hk].
    exists e', m. split_and!; try done.
    destruct (Hg e' He') as (Hwf & _). rewrite (exception_key e' m Hwf (Hw e' He') (eq_sym Hm)) in Hk. by apply Ok_inj in Hk.
  - destruct (Hg e He) as (Hwf & _). pose proof (endpoint_message_add e Hwf) as Hm.
    destruct (first_request_none _ _ _ E (list_elem_of_fmap_2' _ _ _ _ He (eq_sym Hm))).
    by apply exception_key; [|apply Hw|].
Qed.

Lemma exception_none er k :
  Forall endpoint_good er -> Forall (fun e => ip_wf (e_destination e)) er ->
  k ∉ host_key <$> (e_destination <$> er) ->
  first_request k ((fun e => endpoint_message e RTM_ADD) <$> er) = None.
Proof.
  rewrite !Forall_forall. intros Hg Hw Hk. destruct (first_request _ _) as [m|] eqn:E; [|done].
  apply first_request_some in E as [(e & Hm & He)%list_elem_of_fmap Hkey].
  destruct (Hg e He) as (Hwf & _). rewrite (exception_key e m Hwf (Hw e He) (eq_sym Hm)) in Hkey. apply Ok_inj in Hkey.
  destruct Hk. rewrite <- Hkey. by apply list_elem_of_fmap_2, list_elem_of_fmap_2.
Qed.

Lemma vpn_first config name k s :
  validate_config Macos config = Ok tt ->
  first_request k (tun_route if_nametoindex last_os_error <$> filtered_routes config name) = Some s ->
  get f_index s = if_nametoindex name /\
  exists addr ip, addr ∈ peer_allowed_ips config /\ parse_proto_cidr addr = Some (ip, Cidr_prefix addr) /\
    k = allowed_key ip (Cidr_prefix addr).
Proof.
  intros Hv [(r & Hs & Hr)%list_elem_of_fmap Hk]%first_request_some.
  apply filtered_member in Hr as (addr & ip & Ha & Hp & Hw & Hle & -> & _); [|done].
  symmetry in Hs. destruct (tun_route_allowed name ip _ s Hw Hle Hs) as [Hk' Hi].
  rewrite Hk' in Hk. apply Ok_inj in Hk. split; [done|]. by exists addr, ip.
Qed.

(** Success means that every request could be built. *)
Lemma install_all_ok requests changes table changes' table' (q : result Snapshot io_error) :
  install changes requests table = (Ok tt, changes', table') -> q ∈ requests -> exists route, q = Ok route.
Proof.
  revert changes table. induction requests as [|[route|e] requests IH]; intros changes table; cbn [install]; [set_solver| |done].
  destruct (add changes route table) as [[[[]|e] ch] tb]; [|done].
  intros Hi [->|Hin]%elem_of_cons; [by eexists | by eapply IH].
Qed.

Lemma shows_index s r : shows s r -> get f_index r = get f_index s.
Proof. by intros (a & b & _ & _ & _ & _ & _ & _ & Hi & _). Qed.

(** When a session has been configured on macOS, whatever the table held
    before: every peer has a host route, for all scopes, that is the exception
    made from its own route (gateway, interface, source and metrics), even when
    an allowed prefix is the same; every other allowed prefix is routed to the
    session's interface, whether or not somebody routed it elsewhere before; and
    no other prefix has changed. *)
Theorem configured_routes config name er st0 routes st :
  validate_config Macos config = Ok tt -> Forall endpoint_good er ->
  e_destination <$> er = omap parse_proto_ip (peer_endpoints config) ->
  table_wf (k_table (kern st0)) ->
  mac_configure_session sc_error_string if_nametoindex last_os_error config name er (Ok tt) st0 =
    (Some (Ok routes), st) ->
  let peers := omap parse_proto_ip (peer_endpoints config) in
  let t := k_table (kern st) in
  (forall ip, ip ∈ peers -> exists e m r, e ∈ er /\ host_key (e_destination e) = host_key ip /\
     endpoint_message e RTM_ADD = Ok m /\ t !! host_key ip = Some r /\ shows m r) /\
  (forall addr ip, addr ∈ peer_allowed_ips config -> parse_proto_cidr addr = Some (ip, Cidr_prefix addr) ->
     (allowed_key ip (Cidr_prefix addr) ∉ host_key <$> peers) ->
     exists r, t !! allowed_key ip (Cidr_prefix addr) = Some r /\ get f_index r = if_nametoindex name) /\
  (forall k, (k ∉ host_key <$> peers) ->
     (forall addr ip, addr ∈ peer_allowed_ips config -> parse_proto_cidr addr = Some (ip, Cidr_prefix addr) ->
        k <> allowed_key ip (Cidr_prefix addr)) ->
     t !! k = k_table (kern st0) !! k).
Proof.
  intros Hv Her Hpeers Hwf Hc%configured_installed. cbn zeta.
  assert (Forall (fun e => ip_wf (e_destination e)) er) as Hips.
  { rewrite Forall_forall. intros e He. assert (e_destination e ∈ e_destination <$> er) as Hin by by apply list_elem_of_fmap_2.
    rewrite Hpeers in Hin. apply list_elem_of_omap in Hin as (a & _ & Ha). by eapply parse_proto_ip_wf. }
  set (vpn := tun_route if_nametoindex last_os_error <$> filtered_routes config name).
  pose proof (mac_requests_requestable if_nametoindex last_os_error (filtered_routes config name) er Hindex Her) as Hreq.
  destruct (kern st0) as [t0 faults] eqn:Ek. pose proof (installed_table t0 faults _ _ _ Hwf Hreq Hc) as Ht.
  unfold mac_requests, install_requests in Ht. fold vpn in Ht. rewrite <- Hpeers. split_and!.
  - intros ip Hip. destruct (exception_first er ip Her Hips Hip) as (e & m & He & Hk & Hm & Hf).
    specialize (Ht (host_key ip)). rewrite first_request_app, Hf in Ht. destruct Ht as (r & Hr & Hs & _).
    by exists e, m, r.
  - intros addr ip Ha Hp Hk. specialize (Ht (allowed_key ip (Cidr_prefix addr))).
    rewrite first_request_app, (exception_none er _ Her Hips Hk) in Ht.
    destruct (first_request _ vpn) as [s|] eqn:Ef.
    { destruct Ht as (r & Hr & Hs & _). exists r. split; [done|]. rewrite (shows_index _ _ Hs).
      by apply (vpn_first config name) in Ef as [-> _]. }
    exfalso. destruct (proj1 (Forall_forall _ _) (valid_routes _ _ (proj1 (validate_config_valid _ _) Hv)) addr Ha)
      as (ip' & Hip' & Hw & Hle).
    assert (ip' = ip) as -> by (apply parse_proto_cidr_some in Hp as (E & Hw' & _); rewrite Hip' in E;
      apply (inj Some), (f_equal parse_proto_ip) in E; rewrite !parse_proto_ip_to_proto in E by done; congruence).
    assert (with_if_name name (Route_new ip (Cidr_prefix addr)) ∈ filtered_routes config name) as Hin.
    { apply filtered_member; [done|]. exists addr, ip. split_and!; try done. intros [Hb Hpe].
      apply Hk. rewrite Hb, allowed_key_host by done. rewrite <- Hpeers in Hpe. by apply list_elem_of_fmap_2. }
    apply (list_elem_of_fmap_2 (tun_route if_nametoindex last_os_error)) in Hin. fold vpn in Hin.
    destruct (install_all_ok _ _ _ _ _ _ Hc (proj2 (elem_of_app _ _ _) (or_intror Hin))) as [s Hs].
    rewrite Hs in Hin. destruct (first_request_none _ _ _ Ef Hin). by apply (tun_route_allowed name ip).
  - intros k Hk Hno. specialize (Ht k). rewrite first_request_app, (exception_none er _ Her Hips Hk) in Ht.
    destruct (first_request k vpn) as [s|] eqn:Ef; [|done].
    apply (vpn_first config name) in Ef as (_ & addr & ip & Ha & Hp & ->); [|done]. by destruct (Hno addr ip Ha Hp).
Qed.
End Configured.
