(* ===== verification/Wintun.v ===== *)
(** * wintun.rs: the extracted driver library

    The daemon, running with administrator rights, writes the embedded Wintun
    DLL into a fresh directory and loads it from there. [extract_at] is the
    sequence of file operations with everything that can fail, the destructors
    of its local variables included; the directory is a small state in which a
    file that is still open cannot be removed. The theorems: whatever fails,
    every object ever created is reserved to administrators, nothing is left of
    a failed extraction, and a successful one leaves exactly the embedded bytes,
    locked. The library stays that way as long as a device uses it. *)

From S2P Require Import Prelude RustStd.
From Stdlib Require Import Lia.

(** ** The directory *)

Inductive dll_action : Type :=
| AllocDescriptor
| FreeDescriptor
| CreateDirectory (sddl : string)
| LockDirectory
| CloseDirectory
| CreateFile (sddl : string)
| WriteFile (data : list byte)
| CloseWriter
| LockFile
| CloseFile
| RemoveFile
| RemoveDir.

(** The directory and the file with their descriptors, the file's content, the
    open handles, and the descriptors not yet freed. None of the handles
    shares deletion. *)
Record folder : Type := mkFolder {
  dir : option string;
  dll : option (string * list byte);
  dir_lock : bool;
  writer : bool;
  file_lock : bool;
  descriptors : nat;
}.

Definition no_folder : folder := mkFolder None None false false false 0.

Definition folder_step (f : folder) (a : dll_action) : folder :=
  match a with
  | AllocDescriptor => mkFolder (dir f) (dll f) (dir_lock f) (writer f) (file_lock f) (S (descriptors f))
  | FreeDescriptor => mkFolder (dir f) (dll f) (dir_lock f) (writer f) (file_lock f) (descriptors f - 1)
  | CreateDirectory sddl => mkFolder (Some sddl) (dll f) (dir_lock f) (writer f) (file_lock f) (descriptors f)
  | LockDirectory => mkFolder (dir f) (dll f) true (writer f) (file_lock f) (descriptors f)
  | CloseDirectory => mkFolder (dir f) (dll f) false (writer f) (file_lock f) (descriptors f)
  | CreateFile sddl => mkFolder (dir f) (Some (sddl, [])) (dir_lock f) true (file_lock f) (descriptors f)
  | WriteFile data =>
    mkFolder (dir f) ((fun x => (x.1, x.2 ++ data)) <$> dll f) (dir_lock f) (writer f) (file_lock f) (descriptors f)
  | CloseWriter => mkFolder (dir f) (dll f) (dir_lock f) false (file_lock f) (descriptors f)
  | LockFile => mkFolder (dir f) (dll f) (dir_lock f) (writer f) true (descriptors f)
  | CloseFile => mkFolder (dir f) (dll f) (dir_lock f) (writer f) false (descriptors f)
  | RemoveFile =>
    if writer f || file_lock f then f
    else mkFolder (dir f) None (dir_lock f) (writer f) (file_lock f) (descriptors f)
  | RemoveDir =>
    if dir_lock f || bool_decide (is_Some (dll f)) then f
    else mkFolder None (dll f) (dir_lock f) (writer f) (file_lock f) (descriptors f)
  end.

Definition folder_after (f : folder) (actions : list dll_action) : folder := foldl folder_step f actions.

(** All the states on the way. *)
Fixpoint folder_states (f : folder) (actions : list dll_action) : list folder :=
  f :: match actions with [] => [] | a :: r => folder_states (folder_step f a) r end.

(** ** [WintunDll] *)

(** Owner and group Administrators; full access for SYSTEM and Administrators
    only, inherited, nothing inherited from above. *)
Definition ADMIN_SDDL : string := "O:BAG:BAD:P(A;OICI;FA;;;SY)(A;OICI;FA;;;BA)".

Definition FILE_ATTRIBUTE_REPARSE_POINT : Z := 0x400.
Definition FILE_PERSISTENT_ACLS : Z := 0x8.

(** Which of the handles [file] and [directory] are held. *)
Record WintunDll : Type := mkDll { path : string; file : bool; directory : bool }.

(** [Drop for WintunDll]. *)
Definition drop_dll (d : WintunDll) : list dll_action :=
  (if file d then [CloseFile] else []) ++ (if directory d then [CloseDirectory] else [])
  ++ [RemoveFile; RemoveDir].

(** What the calls of [extract_at] return. *)
Record extraction : Type := mkExtraction {
  x_descriptor : result unit string;
  x_create_directory : result unit string;
  x_unicode : bool;
  x_open_directory : result unit string;
  x_attributes : result Z string;
  x_features : result Z string;
  x_create_file : result unit string;
  x_write : result unit (nat * string);   (* on failure, the bytes that were written *)
  x_sync : result unit string;
  x_open_file : result unit string;
}.

Definition no_flag (flag value : Z) : bool := (Z.land value flag =? 0)%Z.

Section Extract.
Context (DLL_BYTES : list byte).

(** From the file's creation on, with the directory locked by [dll]. *)
Definition write_dll (d : WintunDll) (x : extraction) : result WintunDll string * list dll_action :=
  match x_create_file x with
  | Err e => (Err e, drop_dll d)
  | Ok _ =>
    let created := [CreateFile ADMIN_SDDL] in
    match x_write x with
    | Err (n, e) => (Err e, created ++ [WriteFile (take n DLL_BYTES); CloseWriter] ++ drop_dll d)
    | Ok _ =>
      let written := created ++ [WriteFile DLL_BYTES] in
      match x_sync x with
      | Err e => (Err e, written ++ [CloseWriter] ++ drop_dll d)
      | Ok _ =>
        let closed := written ++ [CloseWriter] in
        match x_open_file x with
        | Err e => (Err e, closed ++ drop_dll d)
        | Ok _ => (Ok (mkDll (path d) true (directory d)), closed ++ [LockFile])
        end
      end
    end
  end.

(** The checks on the opened directory; a failing one drops the handle before
    the [WintunDll]. *)
Definition check_directory (x : extraction) : result unit string :=
  let? attributes := x_attributes x in
  fail_if (negb (no_flag FILE_ATTRIBUTE_REPARSE_POINT attributes)) "Wintun directory is a reparse point" ;?
  let? features := x_features x in
  fail_if (no_flag FILE_PERSISTENT_ACLS features) "Wintun directory requires filesystem ACL support".

(** The closure of [extract_at]. *)
Definition extract_inner (d : string) (x : extraction) : result WintunDll string * list dll_action :=
  match x_create_directory x with
  | Err e => (Err e, [])
  | Ok _ =>
    let dll := mkDll (d +:+ "\wintun.dll") false false in
    let created := [CreateDirectory ADMIN_SDDL] in
    if negb (x_unicode x) then (Err "Wintun DLL path is not Unicode", created ++ drop_dll dll)
    else match x_open_directory x with
    | Err e => (Err e, created ++ drop_dll dll)
    | Ok _ =>
      let locked := created ++ [LockDirectory] in
      match check_directory x with
      | Err e => (Err e, locked ++ [CloseDirectory] ++ drop_dll dll)
      | Ok _ =>
        let '(res, actions) := write_dll (mkDll (path dll) false true) x in (res, locked ++ actions)
      end
    end
  end.

(** [extract_at]: the descriptor lives around the closure. *)
Definition extract_at (d : string) (x : extraction) : result WintunDll string * list dll_action :=
  match x_descriptor x with
  | Err e => (Err e, [])
  | Ok _ =>
    let '(res, actions) := extract_inner d x in
    (res, [AllocDescriptor] ++ actions ++ [FreeDescriptor])
  end.

(** [prepare]: the known folder and a fresh GUID name the directory. *)
Definition prepare (program_files guid : result string string) (x : extraction)
    : result WintunDll string * list dll_action :=
  match program_files with
  | Err e => (Err e, [])
  | Ok root =>
    match guid with
    | Err e => (Err e, [])
    | Ok instance => extract_at (root +:+ "\wg-kotlin-wintun-" +:+ instance) x
    end
  end.

(** ** Correctness *)

(** A state in which all that exists is reserved to administrators, the file
    lies in the directory, and a file that is or can be loaded holds a prefix of
    the embedded library. *)
Definition reserved (f : folder) : Prop :=
  (forall s, dir f = Some s -> s = ADMIN_SDDL) /\
  (forall s data, dll f = Some (s, data) ->
     s = ADMIN_SDDL /\ dir f = Some ADMIN_SDDL /\ data `prefix_of` DLL_BYTES) /\
  (file_lock f = true -> dir_lock f = true /\ dll f = Some (ADMIN_SDDL, DLL_BYTES)).

(** The directory has been found to be what was created, on a volume that
    enforces descriptors. *)
Definition directory_checked (x : extraction) : Prop :=
  exists a v, x_attributes x = Ok a /\ no_flag FILE_ATTRIBUTE_REPARSE_POINT a = true /\
    x_features x = Ok v /\ no_flag FILE_PERSISTENT_ACLS v = false.

Lemma check_directory_ok x : check_directory x = Ok tt <-> directory_checked x.
Proof.
  unfold check_directory, directory_checked.
  destruct (x_attributes x) as [a|]; cbn; [|by split; [done | intros (? & ? & ? & _)]].
  destruct (no_flag FILE_ATTRIBUTE_REPARSE_POINT a) eqn:Ea; cbn; [|by split; [done | naive_solver congruence]].
  destruct (x_features x) as [v|]; cbn; [|by split; [done | intros (? & ? & _ & _ & ? & _)]].
  destruct (no_flag FILE_PERSISTENT_ACLS v) eqn:Ev; cbn.
  - split; [done|]. intros (? & ? & _ & _ & [= <-] & ?). congruence.
  - split; [|done]. intros _. by exists a, v.
Qed.

(** Decides [reserved] in a given state. *)
Ltac reserved_state :=
  split_and!; cbn; intros; simplify_eq; try done; split_and!; try done;
  first [apply prefix_nil | apply prefix_take | reflexivity].

(** The four parts of the claim for one outcome of the calls. *)
Ltac extraction_case :=
  cbn; split_and!;
  [ forall_each ltac:(reserved_state)
  | first [ by intros _ | by intros Hin; repeat (apply elem_of_cons in Hin as [Hin|Hin]; [done|]); apply elem_of_nil in Hin ]
  | first [ done | by intros _; repeat constructor | by intros _; apply sublist_nil_l ]
  | .. ]; try done; try forall_each ltac:(reserved_state).

(** What the extraction leaves behind: nothing, or the locked library, which
    its destructor removes. *)
Lemma extract_at_leaves d x :
  let '(res, actions) := extract_at d x in
  match res with
  | Err _ => folder_after no_folder actions = no_folder
  | Ok w =>
    let f := mkFolder (Some ADMIN_SDDL) (Some (ADMIN_SDDL, DLL_BYTES)) true false true 0 in
    folder_after no_folder actions = f /\ folder_after f (drop_dll w) = no_folder
  end.
Proof.
  unfold extract_at, extract_inner, write_dll, drop_dll. repeat (case_match; simplify_eq); done.
Qed.

(** C17: whatever fails while the library is extracted, at every moment all that
    exists is owned by and reserved to administrators, and the file holds
    nothing but bytes of the embedded library; it is only created in a directory
    checked to be a real one on a volume with access control. A failed
    extraction leaves nothing, not even a handle or a descriptor, and one that
    cannot create its directory has not touched what is there. A successful one
    leaves the whole library with file and directory locked, and dropping it
    removes both. *)
Theorem extract_spec d x :
  let '(res, actions) := extract_at d x in
  Forall reserved (folder_states no_folder actions) /\
  (CreateFile ADMIN_SDDL ∈ actions -> directory_checked x) /\
  (is_ok (x_create_directory x) = false -> actions `sublist_of` [AllocDescriptor; FreeDescriptor]) /\
  match res with
  | Err _ => folder_after no_folder actions = no_folder
  | Ok w =>
    let f := mkFolder (Some ADMIN_SDDL) (Some (ADMIN_SDDL, DLL_BYTES)) true false true 0 in
    folder_after no_folder actions = f /\
    Forall reserved (folder_states f (drop_dll w)) /\ folder_after f (drop_dll w) = no_folder
  end.
Proof.
  unfold extract_at, extract_inner, write_dll, drop_dll. pose proof (check_directory_ok x) as Hck.
  destruct (x_descriptor x) as [[]|e]; [|extraction_case].
  destruct (x_create_directory x) as [[]|e]; [|extraction_case].
  destruct (x_unicode x); [|extraction_case]. cbn [negb].
  destruct (x_open_directory x) as [[]|e]; [|extraction_case].
  destruct (check_directory x) as [[]|e]; [apply proj1 in Hck; specialize (Hck eq_refl)|extraction_case].
  destruct (x_create_file x) as [[]|e]; [|extraction_case].
  destruct (x_write x) as [[]|[n e]]; [|extraction_case].
  destruct (x_sync x) as [[]|e]; [|extraction_case].
  destruct (x_open_file x) as [[]|e]; extraction_case.
Qed.
End Extract.

(** ** Lifetime

    [run] owns the library and registers a weak reference in the static
    [WINTUN_DLL]. A session upgrades it before it builds its device; the strong
    reference is a variable of [start] and then a field of the [TunSession].
    Both are let go of in Rust's order: the variables of [start], when it
    returns early, in the reverse order of their declaration, the fields of a
    [TunSession] in the order of theirs. The last strong reference drops the
    library, the last reference to a device the device, which unloads it. *)

(** The parts of a session that own something. *)
Inductive part : Type :=
| DevicePart
| InterruptPart
| ClosedPart
| CleanupHookPart
| WintunPart.

#[global] Instance part_eq_dec : EqDecision part.
Proof. solve_decision. Defined.

(** The fields of [TunSession], in the order of their declaration. *)
Definition TunSession_fields : list part :=
  [DevicePart; InterruptPart; ClosedPart; CleanupHookPart; WintunPart].

(** The variables of [start], the last one declared first: after the upgrade,
    after [build_sync] and after [InterruptEvent::new]. *)
Definition start_upgraded : list part := [WintunPart].
Definition start_built : list part := DevicePart :: start_upgraded.
Definition start_interruptible : list part := InterruptPart :: start_built.

(** Who holds the parts: a running [start], a whole [TunSession], or one of
    them that is being let go of. *)
Inductive holder : Type := Starting | Started | Dropping.

(** A holder of the session [u_session] with the parts it still has, the next
    to be let go of first. *)
Record use : Type := mkUse { u_session : N; u_holder : holder; u_parts : list part }.

Record lifetime : Type := mkLifetime {
  main_ref : bool;
  registered : bool;
  uses : gmap N use;
  extracted : bool;
}.

(** [set_wintun_dll] over its [OnceLock]. *)
Definition set_wintun_dll (registered : bool) : result unit string * bool :=
  if registered then (Err "Wintun DLL already initialized", registered) else (Ok tt, true).

(** The strong references: [run]'s and those among the parts of sessions. *)
Definition references (us : gmap N use) : gmap N use := filter (fun iu => WintunPart ∈ u_parts iu.2) us.
Definition strong (main : bool) (us : gmap N use) : nat := (if main then 1 else 0) + size (references us).

(** [WINTUN_DLL.get().and_then(Weak::upgrade)] gives a reference. *)
Definition can_upgrade (l : lifetime) : bool := registered l && (0 <? strong (main_ref l) (uses l)).

(** After something was let go of: the last reference drops the [WintunDll]. *)
Definition release (main registered : bool) (us : gmap N use) (extracted : bool) : lifetime :=
  mkLifetime main registered us (if strong main us =? 0 then false else extracted).

(** What is left of a holder without its first part. *)
Definition drop_part (id : N) (session : N) (rest : list part) (us : gmap N use) : gmap N use :=
  match rest with
  | [] => delete id us
  | _ => <[id := mkUse session Dropping rest]> us
  end.

Definition set_use (l : lifetime) (id : N) (u : use) : lifetime :=
  mkLifetime (main_ref l) (registered l) (<[id := u]> (uses l)) (extracted l).

Definition prepared : lifetime := mkLifetime true false ∅ true.

Inductive life_step : lifetime -> lifetime -> Prop :=
| life_register l :
    main_ref l = true -> (set_wintun_dll (registered l)).1 = Ok tt ->
    life_step l (mkLifetime true (set_wintun_dll (registered l)).2 (uses l) (extracted l))
| life_upgrade l id session :
    can_upgrade l = true -> uses l !! id = None ->
    life_step l (set_use l id (mkUse session Starting start_upgraded))
| life_build l id session :
    uses l !! id = Some (mkUse session Starting start_upgraded) ->
    life_step l (set_use l id (mkUse session Starting start_built))
| life_interrupt l id session :
    uses l !! id = Some (mkUse session Starting start_built) ->
    life_step l (set_use l id (mkUse session Starting start_interruptible))
| life_started l id session :
    uses l !! id = Some (mkUse session Starting start_interruptible) ->
    life_step l (set_use l id (mkUse session Started TunSession_fields))
| life_clone l id id' session :
    uses l !! id = Some (mkUse session Started TunSession_fields) -> uses l !! id' = None ->
    life_step l (set_use l id' (mkUse session Started TunSession_fields))
| life_drop l id session holder part rest :
    (* [start] returns early, or a [TunSession] goes out of scope *)
    uses l !! id = Some (mkUse session holder (part :: rest)) ->
    life_step l (release (main_ref l) (registered l) (drop_part id session rest (uses l)) (extracted l))
| life_main_done l :
    main_ref l = true ->
    life_step l (release false (registered l) (uses l) (extracted l)).

(** Someone still holds the session's device. *)
Definition device_alive (l : lifetime) (session : N) : Prop :=
  exists id u, uses l !! id = Some u /\ u_session u = session /\ DevicePart ∈ u_parts u.

Definition reference_held (l : lifetime) : Prop :=
  main_ref l = true \/ exists id u, uses l !! id = Some u /\ WintunPart ∈ u_parts u.

(** Every holder has a reference, which it lets go of last. *)
Definition guarded (u : use) : Prop := last (u_parts u) = Some WintunPart.

Record life_invariant (l : lifetime) : Prop := mkLifeInvariant {
  li_guarded : map_Forall (fun _ => guarded) (uses l);
  li_extracted : extracted l = true <-> 0 < strong (main_ref l) (uses l);
}.

Lemma guarded_reference u : guarded u -> WintunPart ∈ u_parts u.
Proof. unfold guarded. rewrite last_Some. intros [parts ->]. set_solver. Qed.

Lemma strong_lookup main us id u : us !! id = Some u -> WintunPart ∈ u_parts u -> 0 < strong main us.
Proof.
  intros Hu Hw. unfold strong. enough (size (references us) <> 0) by lia.
  rewrite map_size_non_empty_iff. intros He.
  assert (references us !! id = Some u) as Hr by (by apply map_lookup_filter_Some).
  rewrite He in Hr. by rewrite lookup_empty in Hr.
Qed.

Lemma strong_held l : 0 < strong (main_ref l) (uses l) <-> reference_held l.
Proof.
  split.
  - intros Hs. unfold strong in Hs. destruct (main_ref l) eqn:E; [by left|]. right.
    destruct (map_choose (references (uses l))) as (id & u & Hu).
    { intros He. rewrite He, map_size_empty in Hs. lia. }
    unfold references in Hu. apply map_lookup_filter_Some in Hu. by exists id, u.
  - intros [E|(id & u & Hu & Hw)]; [rewrite E; unfold strong; lia | by eapply strong_lookup].
Qed.

Lemma release_invariant main reg us :
  map_Forall (fun _ => guarded) us -> life_invariant (release main reg us true).
Proof.
  intros Hg. split; [done|]. cbn [main_ref uses extracted release].
  destruct (Nat.eqb_spec (strong main us) 0); split; intros; try done; lia.
Qed.

Lemma set_use_invariant l id u :
  life_invariant l -> extracted l = true -> guarded u -> life_invariant (set_use l id u).
Proof.
  intros [Hg _] He Hu. split; [by apply map_Forall_insert_2|]. cbn [set_use main_ref uses extracted].
  split; [intros _; eapply strong_lookup; [apply lookup_insert_eq | by apply guarded_reference] | done].
Qed.

Lemma drop_part_guarded us id session holder part rest :
  map_Forall (fun _ => guarded) us -> us !! id = Some (mkUse session holder (part :: rest)) ->
  map_Forall (fun _ => guarded) (drop_part id session rest us).
Proof.
  intros Hg Hid. destruct rest as [|p rest]; [by apply map_Forall_delete|].
  apply map_Forall_insert_2; [|done]. exact (Hg _ _ Hid).
Qed.

(** A holder keeps the library extracted. *)
Lemma invariant_held l id u : life_invariant l -> uses l !! id = Some u -> extracted l = true.
Proof.
  intros [Hg Hi] Hu. apply Hi. eapply strong_lookup; [done|]. apply guarded_reference. exact (Hg _ _ Hu).
Qed.

Lemma life_invariant_step l l' : life_invariant l -> life_step l l' -> life_invariant l'.
Proof.
  intros Hi Hs. pose proof (invariant_held l) as Hheld.
  destruct Hs as [l Hm _|l id s Hup _|l id s Hid|l id s Hid|l id s Hid|l id id' s Hid _|l id s h p r Hid|l Hm].
  - destruct Hi as [Hg Hi]. split; [done|]. cbn [main_ref uses extracted]. rewrite Hm in Hi. exact Hi.
  - unfold can_upgrade in Hup. apply andb_true_iff in Hup as [_ Hup%Nat.ltb_lt].
    apply set_use_invariant; [done | by apply Hi | done].
  - apply set_use_invariant; [done | by eapply Hheld | done].
  - apply set_use_invariant; [done | by eapply Hheld | done].
  - apply set_use_invariant; [done | by eapply Hheld | done].
  - apply set_use_invariant; [done | by eapply Hheld | done].
  - rewrite (Hheld _ _ Hi Hid). apply release_invariant. eapply drop_part_guarded; [apply Hi | done].
  - assert (extracted l = true) as -> by (apply Hi; rewrite Hm; unfold strong; lia).
    apply release_invariant, Hi.
Qed.

Lemma life_reachable l : rtc life_step prepared l -> life_invariant l.
Proof.
  assert (life_invariant prepared) as H0 by (split; [apply map_Forall_empty | split; [cbn; unfold strong; lia | done]]).
  intros Hr. revert H0. induction Hr as [|x y z Hxy _ IH]; [done|]. intros Hx. apply IH. by eapply life_invariant_step.
Qed.

(** Without references and holders nothing can happen any more. *)
Lemma life_over l l' : main_ref l = false -> uses l = ∅ -> ~ life_step l l'.
Proof.
  intros Hm Hu Hs. assert (forall id, uses l !! id = None) as Hno by (intros; by rewrite Hu, lookup_empty).
  destruct Hs as [l Hm' _|l id s Hup _|l id s Hid|l id s Hid|l id s Hid|l id id' s Hid _|l id s h p r Hid|l Hm'];
    try congruence; try (by rewrite Hno in Hid).
  unfold can_upgrade, strong in Hup. rewrite Hm, Hu in Hup. unfold references in Hup.
  by rewrite map_filter_empty, map_size_empty, andb_false_r in Hup.
Qed.

(** C18: in every state that sessions and the daemon can reach, also between
    two steps of letting go of a session and after a start that failed, the
    library is extracted and locked while any device that was loaded from it is
    alive, and exactly while the daemon or a session holds a reference to it.
    Once it is dropped it is dropped for good: no session is left and none
    starts any more. *)
Theorem library_outlives_devices l :
  rtc life_step prepared l ->
  (forall session, device_alive l session -> extracted l = true) /\
  (extracted l = true <-> reference_held l) /\
  (extracted l = false -> uses l = ∅ /\ can_upgrade l = false /\ forall l', ~ life_step l l').
Proof.
  intros Hi%life_reachable. split_and!.
  - intros session (id & u & Hu & _). by eapply invariant_held.
  - rewrite <- strong_held. apply Hi.
  - intros He. assert (uses l = ∅) as Hu.
    { apply map_empty. intros id. destruct (uses l !! id) as [u|] eqn:E; [|done].
      pose proof (invariant_held _ _ _ Hi E). congruence. }
    assert (~ 0 < strong (main_ref l) (uses l)) as Hz by (rewrite <- (li_extracted _ Hi), He; done).
    assert (main_ref l = false) as Hm by (destruct (main_ref l); [unfold strong in Hz; lia | done]).
    split_and!; [done | | intros l'; by apply life_over].
    unfold can_upgrade. rewrite (proj2 (Nat.ltb_ge _ _)) by lia. apply andb_false_r.
Qed.

(** The daemon ends while one holder of a session is half gone and another still
    has the device. *)
Definition orphan : lifetime :=
  mkLifetime false true
    (<[1%N := mkUse 4 Dropping [WintunPart]]> {[ 2%N := mkUse 4 Started TunSession_fields ]}) true.

Lemma library_outlives_devices_witness : device_alive orphan 4 /\ extracted orphan = true.
Proof.
  assert (rtc life_step prepared orphan) as Hr.
  { eapply rtc_l; [by apply life_register|].
    eapply rtc_l; [by apply (life_upgrade _ 1 4)|].
    eapply rtc_l; [by apply (life_build _ 1 4)|].
    eapply rtc_l; [by apply (life_interrupt _ 1 4)|].
    eapply rtc_l; [by apply (life_started _ 1 4)|].
    eapply rtc_l; [by apply (life_clone _ 1 2 4)|].
    eapply rtc_l; [by apply life_main_done|].
    do 4 (eapply rtc_l; [eapply (life_drop _ 1 4); reflexivity|]). apply rtc_refl. }
  assert (device_alive orphan 4) as Ha.
  { exists 2%N, (mkUse 4 Started TunSession_fields). split_and!; [reflexivity | reflexivity | left]. }
  split; [exact Ha|]. destruct (library_outlives_devices orphan Hr) as [H _]. exact (H 4%N Ha).
Defined.
