(* ===== verification/Session.v ===== *)
(** * session.rs: starting and closing a TUN session

    [start] builds the device and configures the platform; [TunSession] is the
    handle its clones share: a closed flag and a cleanup hook that is taken
    once. The platform is an interface, [Platform], with the one law a session
    needs, [PlatformLaws]; Linux and Windows are instances. A device the code
    owns is dropped when a function returns without it ([DeviceDrop]). *)

From S2P Require Import Prelude RustStd Net Proto IpUtil Validation Os Platform.
From S2P Require Import PlatformLinux PlatformWindows.
From Stdlib Require Import Lia.

(** ** The platform interface *)

Class Platform (Route Endpoint : Type) : Type := {
  p_target : target;
  p_prepare_session_start : prog Route Endpoint (result unit string);
  p_configure_session : TunSessionConfig -> string -> list Endpoint ->
    prog Route Endpoint
      (option (result (CleanupHook (Route:=Route) (Endpoint:=Endpoint)) string));
}.

(** [configure_session] does not panic on a configuration that was accepted. *)
Class PlatformLaws (Route Endpoint : Type) `{!Platform Route Endpoint} : Prop := {
  p_configure_total config name er o h :
    validate_config p_target config = Ok tt ->
    exists r, value (p_configure_session config name er) o h = Some r;
}.

Section Instances.
Context {Route Endpoint : Type} `{RouteLib Route}.
Context (from_utf8_lossy : list byte -> string) (to_lowercase : string -> string).

Definition linux_platform : Platform Route Endpoint := {|
  p_target := Linux;
  p_prepare_session_start := pret (Ok tt);
  p_configure_session := linux_configure_session from_utf8_lossy to_lowercase;
|}.

Lemma linux_platform_laws : @PlatformLaws Route Endpoint linux_platform.
Proof.
  constructor. intros config name er o h Hv. cbn in *.
  destruct (valid_dns_args _ _ Hv) as (servers & Hs & _). unfold value.
  rewrite (linux_configure_session_run _ _ _ _ _ _ _ _ Hs).
  destruct (o h RouteManagerNew); by eexists.
Qed.

Context (process_id : N) (process_times : result (N * N) string).

(** [cleared] is the static flag of [clear_stale_nrpt_rules_once]. *)
Definition windows_platform (cleared : bool) : Platform Route Endpoint := {|
  p_target := Windows;
  p_prepare_session_start :=
    pmap fst (clear_stale_nrpt_rules_once from_utf8_lossy to_lowercase cleared);
  p_configure_session :=
    windows_configure_session from_utf8_lossy to_lowercase process_id process_times;
|}.

Lemma windows_platform_laws cleared : @PlatformLaws Route Endpoint (windows_platform cleared).
Proof.
  constructor. intros config name er o h Hv. cbn in *.
  destruct (valid_dns_args _ _ Hv) as (servers & Hs & _).
  unfold value, windows_configure_session. rewrite pbind_run. unfold value at 1, trace.
  rewrite build_and_filter_routes_run, Hs.
  destruct (o h RouteManagerNew); [|by eexists]. cbn [fst].
  unfold pmap. rewrite pbind_run. by eexists.
Qed.
End Instances.

(** ** [SessionManager::start] *)

Section Device.
Context {Route Endpoint : Type}.
Abbreviation prog := (prog Route Endpoint).
Implicit Types (o : os Route Endpoint) (h : list (call Route Endpoint)).

(** The loop that fills the builder; [None] is a panic of an [unwrap]. *)
Fixpoint builder_addresses (addresses : list Cidr) : option (list (IpAddr * N)) :=
  match addresses with
  | [] => Some []
  | addr :: r =>
    '(ip, prefix) ← parse_proto_cidr addr;
    prefix ← u8_try_from prefix;
    rest ← builder_addresses r;
    Some ((ip, prefix) :: rest)
  end.

(** [config.mtu as u16]. *)
Definition builder_mtu (mtu : Z) : option Z :=
  if (0 <? mtu)%Z then Some (mtu mod 2 ^ 16)%Z else None.

Definition is_windows (t : target) : bool := match t with Windows => true | _ => false end.

(** An error after the device exists drops it. *)
Definition drop_device {A} (e : string) : prog (result A string) :=
  let! _ := perform DeviceDrop in pret (Err e).

(** Up to the built device: the routes of the peers. [wintun] is what
    [WINTUN_DLL.get().and_then(Weak::upgrade)] gives, with the path as text when
    it is Unicode; [prepare] is the platform's [prepare_session_start]. *)
Definition build_device (t : target) (prepare : prog (result unit string))
    (wintun : option (option string)) (config : TunSessionConfig)
    : prog (option (result (list Endpoint) string)) :=
  match validate_interface_name t (interface_name config) with
  | Err e => pret (Some (Err e))
  | Ok _ =>
    if is_windows t && bool_decide (wintun = None)
    then pret (Some (Err "Wintun DLL is not initialized"))
    else
      let! resolved := resolve_endpoint_routes config in
      match resolved with
      | Err e => pret (Some (Err e))
      | Ok endpoint_routes =>
        let! prepared := prepare in
        match prepared with
        | Err error => pret (Some (Err ("failed to prepare platform session: " +:+ error)))
        | Ok _ =>
          match builder_addresses (addresses config) with
          | None => pret None
          | Some addrs =>
            if is_windows t && bool_decide (wintun = Some None)
            then pret (Some (Err "Wintun DLL path is not Unicode"))
            else
              let spec := mkDevice (interface_name config) addrs (builder_mtu (mtu config))
                            (if is_windows t then mjoin wintun else None) in
              let! built := perform (DeviceBuild spec) in
              match built with
              | Err error => pret (Some (Err ("failed to create TUN device: " +:+ io_message error)))
              | Ok _ => pret (Some (Ok endpoint_routes))
              end
          end
        end
      end
  end.

(** From there to the interrupt event: the name of the interface. *)
Definition ready_device (t : target) (config : TunSessionConfig) : prog (result string string) :=
  let! nonblocking :=
    if is_windows t then pret (Ok tt) else perform DeviceSetNonblocking in
  match nonblocking with
  | Err error => drop_device ("failed to configure non-blocking TUN: " +:+ io_message error)
  | Ok _ =>
    let! name := perform DeviceName in
    let name := match name with Ok n => n | Err _ => interface_name config end in
    let! interrupt := perform InterruptNew in
    match interrupt with
    | Err error => drop_device ("failed to create TUN interrupt event: " +:+ io_message error)
    | Ok _ => pret (Ok name)
    end
  end.

(** An error of [configure_session]. *)
Definition abandon_device {A} (error : string) : prog (result A string) :=
  let! _ := perform InterruptTrigger in
  drop_device ("failed to configure platform session: " +:+ error).

(** *** Lemmas *)

Lemma resolve_loop_run eps o h ers :
  value (resolve_loop eps) o h = Ok ers ->
  trace (resolve_loop eps) o h = h ++ (EndpointLookup <$> omap parse_proto_ip eps) /\
  length ers = length eps.
Proof.
  unfold value, trace. revert h ers. induction eps as [|addr eps IH]; intros h ers; cbn.
  { intros [= <-]. by rewrite app_nil_r. }
  destruct (parse_proto_ip addr) as [ip|]; [|done]. unfold pbind, ptry, perform.
  destruct (o h (EndpointLookup ip)) as [e|]; [|done]. unfold pbind.
  destruct (resolve_loop eps o (h ++ [EndpointLookup ip])) as [r h'] eqn:E.
  destruct r as [es|]; [|done]. cbn. intros [= <-].
  destruct (IH (h ++ [EndpointLookup ip]) es) as [Ht Hl]; rewrite E in *; [done|]. cbn in *.
  rewrite Ht, <- app_assoc. by rewrite Hl.
Qed.

Lemma builder_addresses_valid l :
  Forall cidr_ok l -> builder_addresses l = Some (omap parse_proto_cidr l).
Proof.
  induction 1 as [|addr l (ip & Ha & Hw & Hp) _ IH]; [done|]. cbn.
  assert (parse_proto_cidr addr = Some (ip, Cidr_prefix addr)) as E by by apply parse_proto_cidr_some.
  rewrite E. cbn. unfold u8_try_from.
  rewrite (proj2 (N.leb_le _ _)); [|unfold addr_bits in Hp; destruct (is_ipv4 ip); lia].
  cbn. by rewrite IH.
Qed.

Lemma builder_mtu_valid t c :
  valid_config t c -> builder_mtu (mtu c) = if (0 <? mtu c)%Z then Some (mtu c) else None.
Proof.
  intros Hv. unfold builder_mtu. destruct (Z.ltb_spec 0 (mtu c)); [|done].
  rewrite Z.mod_small; [done|]. destruct (valid_mtu _ _ Hv) as [E|[Hr _]]; [lia|].
  unfold MAX_MTU in Hr. lia.
Qed.

(** The device an accepted configuration asks for: all its addresses, and
    its MTU unchanged. *)
Definition expected_device (t : target) (wintun : option (option string)) (c : TunSessionConfig)
    : device_spec :=
  mkDevice (interface_name c) (omap parse_proto_cidr (addresses c))
    (if (0 <? mtu c)%Z then Some (mtu c) else None)
    (if is_windows t then mjoin wintun else None).

Definition ready_calls (t : target) : list (call Route Endpoint) :=
  (if is_windows t then [] else [DeviceSetNonblocking]) ++ [DeviceName; InterruptNew].

(** Every peer is looked up before the device is built; an error leaves no
    device. *)
Lemma build_device_run t prepare wintun config o h :
  validate_config t config = Ok tt ->
  let p := build_device t prepare wintun config in
  let resolve := resolve_endpoint_routes config in
  let build := DeviceBuild (expected_device t wintun config) in
  match value p o h with
  | None => False
  | Some (Ok ers) =>
    let looked_up := h ++ (EndpointLookup <$> omap parse_proto_ip (peer_endpoints config)) in
    value resolve o h = Ok ers /\ length ers = length (peer_endpoints config) /\
    trace p o h = trace prepare o looked_up ++ [build]
  | Some (Err _) =>
    trace p o h ∈ [h; trace resolve o h; trace prepare o (trace resolve o h)] \/
    (exists l, trace p o h = l ++ [build] /\ is_ok (o l build) = false)
  end.
Proof.
  intros Hv. pose proof (proj1 (validate_config_valid _ _) Hv) as Hvalid.
  cbn zeta. unfold value, trace. destruct (build_device _ _ _ _ o h) as [r h'] eqn:E. cbn [fst snd].
  unfold build_device in E.
  assert (validate_interface_name t (interface_name config) = Ok tt) as Hn
    by (apply validate_interface_name_ok, Hvalid).
  rewrite Hn in E.
  destruct (is_windows t && bool_decide (wintun = None)); [injection E as <- <-; left; set_solver|].
  rewrite pbind_run in E. unfold resolve_endpoint_routes in *.
  pose proof (resolve_loop_run (peer_endpoints config) o h) as Hres. unfold value, trace in *.
  destruct (resolve_loop (peer_endpoints config) o h) as [res h1]. cbn [fst snd] in *.
  destruct res as [ers|]; [|injection E as <- <-; left; set_solver].
  destruct (Hres ers eq_refl) as [-> Hlen]. clear Hres.
  rewrite pbind_run in E. unfold value, trace in *.
  destruct (prepare o _) as [prep h2]. cbn [fst snd] in *.
  destruct prep as [u|]; [|injection E as <- <-; left; set_solver].
  rewrite (builder_addresses_valid _ (valid_addresses _ _ Hvalid)) in E.
  destruct (is_windows t && bool_decide (wintun = Some None));
    [injection E as <- <-; left; set_solver|].
  rewrite (builder_mtu_valid _ _ Hvalid) in E. fold (expected_device t wintun config) in E.
  rewrite pbind_run in E. unfold value, trace, perform in E. cbn [fst snd] in E.
  destruct (o h2 (DeviceBuild _)) as [u'|e] eqn:Eb; injection E as <- <-; [done|].
  right. exists h2. by rewrite Eb.
Qed.

Lemma ready_device_run t config o h :
  match value (ready_device t config) o h with
  | Err _ => exists l, trace (ready_device t config) o h = l ++ [DeviceDrop]
  | Ok _ => trace (ready_device t config) o h = h ++ ready_calls t
  end.
Proof.
  unfold value, trace, ready_device, ready_calls, pbind.
  destruct ((if is_windows t then pret (Ok tt) else perform DeviceSetNonblocking) o h)
    as [nb h2] eqn:Enb.
  assert (h2 = h ++ if is_windows t then [] else [DeviceSetNonblocking]) as ->.
  { destruct (is_windows t); cbn in Enb; injection Enb as _ <-; by rewrite ?app_nil_r. }
  destruct nb as [u|e]; [|cbn; by eexists].
  unfold perform. destruct (o _ InterruptNew) as [u'|e]; [|cbn; by eexists].
  cbn. by rewrite <- !app_assoc.
Qed.

(** The name a session goes by: the device's own if it can be read. *)
Definition given_name (t : target) (config : TunSessionConfig) o h : string :=
  default (interface_name config)
    (ok (o (h ++ if is_windows t then [] else [DeviceSetNonblocking]) DeviceName)).

Lemma ready_device_name t config o h name :
  value (ready_device t config) o h = Ok name -> name = given_name t config o h.
Proof.
  unfold value, ready_device, given_name, pbind, perform. destruct (is_windows t); cbn; rewrite ?app_nil_r.
  - destruct (o _ InterruptNew); [|done]. intros [= <-]. by destruct (o h DeviceName).
  - destruct (o h DeviceSetNonblocking); [|done]. destruct (o _ InterruptNew); [|done].
    intros [= <-]. by destruct (o _ DeviceName).
Qed.
End Device.

Section Session.
Context {Route Endpoint : Type} `{RouteLib Route} `{!Platform Route Endpoint}.
Abbreviation prog := (prog Route Endpoint).
Implicit Types (o : os Route Endpoint) (h : list (call Route Endpoint)).

Record TunSession : Type := mkSession {
  ts_interface_name : string;
  ts_closed : bool;
  ts_cleanup_hook : option (CleanupHook (Route:=Route) (Endpoint:=Endpoint));
}.

(** From the built device on. *)
Definition start_with_device (config : TunSessionConfig) (endpoint_routes : list Endpoint)
    : prog (option (result TunSession string)) :=
  let! ready := ready_device p_target config in
  match ready with
  | Err e => pret (Some (Err e))
  | Ok name =>
    let! configured := p_configure_session config name endpoint_routes in
    match configured with
    | None => pret None
    | Some (Err error) => pmap Some (abandon_device error)
    | Some (Ok hook) => pret (Some (Ok (mkSession name false (Some hook))))
    end
  end.

Definition start (wintun : option (option string)) (config : TunSessionConfig)
    : prog (option (result TunSession string)) :=
  let! built := build_device p_target p_prepare_session_start wintun config in
  match built with
  | None => pret None
  | Some (Err e) => pret (Some (Err e))
  | Some (Ok endpoint_routes) => start_with_device config endpoint_routes
  end.

(** ** [TunSession::close] *)

Definition close (s : TunSession) : prog (result unit string * TunSession) :=
  if ts_closed s then pret (Ok tt, s)
  else
    let! _ := perform InterruptTrigger in
    let s' := mkSession (ts_interface_name s) true None in
    match ts_cleanup_hook s with
    | Some cleanup => let! r := cleanup in pret (r, s')
    | None => pret (Ok tt, s')
    end.

(** ** Packets *)

Definition PACKET_BUFFER : nat := N.to_nat 65536.

(** [read_packet]; [recv_intr] is the device's: it fills the buffer and says
    with how many bytes. [truncate] does nothing beyond the length. *)
Definition read_packet (recv_intr : list byte -> result nat io_error * list byte)
    : result (list byte) io_error :=
  match recv_intr (replicate PACKET_BUFFER Byte.x00) with
  | (Err e, _) => Err e
  | (Ok bytes, buffer) => Ok (take bytes buffer)
  end.

(** [write_packet]: how much the device took is not looked at. *)
Definition write_packet (send_intr : list byte -> result nat io_error) (packet : list byte)
    : result unit io_error :=
  rmap (fun _ => tt) (send_intr packet).

Definition is_supported_interface_name (t : target) (interface_name : string) : bool :=
  is_ok (validate_interface_name t interface_name).

(** Any number of calls, from whichever clones. *)
Fixpoint close_many (n : nat) (s : TunSession) : prog (list (result unit string) * TunSession) :=
  match n with
  | O => pret ([], s)
  | S m =>
    let! (r, s) := close s in
    let! (rs, s) := close_many m s in
    pret (r :: rs, s)
  end.

(** ** Correctness *)

(** A device that copies a packet to the start of the buffer: what is read is
    that packet, and no packet of a permitted MTU is cut. *)
Lemma read_packet_whole packet :
  (Z.of_nat (length packet) <= MAX_MTU)%Z ->
  read_packet (fun buffer => (Ok (length packet `min` length buffer),
    take (length buffer) packet ++ drop (length packet) buffer)) = Ok packet.
Proof.
  unfold read_packet, MAX_MTU. intros Hl. rewrite length_replicate.
  assert (length packet <= PACKET_BUFFER) as Hp by (unfold PACKET_BUFFER; lia).
  rewrite Nat.min_l, (take_ge packet) by exact Hp. by rewrite take_app_length.
Qed.

(** However many times a session's clones are closed, and whatever the
    system does, the reader is woken and the cleanup hook runs exactly once,
    at the first call, which reports the hook's result; every later call
    returns [Ok] without doing anything. *)
Theorem close_runs_hook_once name (hook : CleanupHook) n o h :
  let p := close_many (S n) (mkSession name false (Some hook)) in
  let h1 := h ++ [InterruptTrigger] in
  value p o h = (value hook o h1 :: replicate n (Ok tt), mkSession name true None) /\
  trace p o h = trace hook o h1.
Proof.
  assert (forall m o h, close_many m (mkSession name true None) o h =
    (replicate m (Ok tt), mkSession name true None, h)) as Hlater.
  { clear. intros m o. induction m as [|m IH]; intros h; [done|].
    cbn [close_many]. unfold pbind, close. cbn [ts_closed pret]. by rewrite IH. }
  cbn zeta. unfold value, trace. cbn [close_many]. unfold pbind, close, perform.
  cbn [ts_closed ts_interface_name ts_cleanup_hook]. unfold pbind.
  destruct (hook o (h ++ [InterruptTrigger])) as [r h']. cbn [pret]. by rewrite Hlater.
Qed.

(** The possible outcomes of [start_with_device]. *)
Lemma start_with_device_run `{!PlatformLaws Route Endpoint} config ers o h :
  validate_config p_target config = Ok tt ->
  let h1 := h ++ ready_calls p_target in
  match value (start_with_device config ers) o h with
  | None => False
  | Some (Err _) => exists l, trace (start_with_device config ers) o h = l ++ [DeviceDrop]
  | Some (Ok s) =>
    trace (start_with_device config ers) o h =
      trace (p_configure_session config (ts_interface_name s) ers) o h1 /\
    exists hook, s = mkSession (ts_interface_name s) false (Some hook) /\
      value (p_configure_session config (ts_interface_name s) ers) o h1 = Some (Ok hook)
  end.
Proof.
  intros Hv. cbn zeta. unfold start_with_device, value at 1, trace at 1 3. rewrite pbind_run.
  pose proof (ready_device_run p_target config o h) as Hr.
  destruct (value (ready_device p_target config) o h) as [name|e]; [|done]. rewrite Hr.
  rewrite pbind_run.
  destruct (p_configure_total config name ers o (h ++ ready_calls p_target) Hv) as [r Hc].
  rewrite Hc. destruct r as [hook|e]; [|by eexists].
  cbn [pret fst snd ts_interface_name]. split; [done|]. by exists hook.
Qed.

(** What a successful start has done. *)
Lemma start_ok `{!PlatformLaws Route Endpoint} wintun config o h s :
  validate_config p_target config = Ok tt -> value (start wintun config) o h = Some (Ok s) ->
  exists ers hook,
    let build := DeviceBuild (expected_device p_target wintun config) in
    let looked_up := h ++ (EndpointLookup <$> omap parse_proto_ip (peer_endpoints config)) in
    let h1 := trace p_prepare_session_start o looked_up ++ [build] ++ ready_calls p_target in
    value (resolve_endpoint_routes config) o h = Ok ers /\ length ers = length (peer_endpoints config) /\
    trace (start wintun config) o h = trace (p_configure_session config (ts_interface_name s) ers) o h1 /\
    value (p_configure_session config (ts_interface_name s) ers) o h1 = Some (Ok hook) /\
    s = mkSession (ts_interface_name s) false (Some hook).
Proof.
  intros Hv. unfold start, value at 1, trace. rewrite pbind_run.
  pose proof (build_device_run p_target p_prepare_session_start wintun config o h Hv) as Hb.
  cbn zeta in Hb. set (p := build_device _ _ _ _) in *. destruct (value p o h) as [[ers|e]|]; try done.
  destruct Hb as (Hres & Hlen & ->). set (h1 := _ ++ [_]).
  pose proof (start_with_device_run config ers o h1 Hv) as Hd. cbn zeta in Hd.
  unfold value, trace in Hd. destruct (start_with_device config ers o h1) as [[[s'|e]|] h2]; cbn [fst snd] in *; try done.
  destruct Hd as [-> (hook & Hs & Hc)]. intros [= <-]. exists ers, hook.
  subst h1. cbn zeta. unfold trace in *. rewrite <- app_assoc in *. by split_and!.
Qed.

(** C5: for an accepted configuration and any behaviour of the system,
    starting a session does not panic. A session comes into being only after
    every peer endpoint was looked up, in order, before the TUN device
    existed; the device has every configured address and the exact MTU; the
    session holds the platform's cleanup hook. A start that fails leaves no
    device: it ended before one was built, building it failed, or dropping it
    is the last thing that happened. *)
Theorem start_spec `{!PlatformLaws Route Endpoint} wintun config o h :
  validate_config p_target config = Ok tt ->
  let p := start wintun config in
  let resolve := resolve_endpoint_routes config in
  let build := DeviceBuild (expected_device p_target wintun config) in
  match value p o h with
  | None => False
  | Some (Ok s) =>
    exists ers hook,
      let looked_up := h ++ (EndpointLookup <$> omap parse_proto_ip (peer_endpoints config)) in
      let h1 := trace p_prepare_session_start o looked_up ++ [build] ++ ready_calls p_target in
      value resolve o h = Ok ers /\ length ers = length (peer_endpoints config) /\
      trace p o h = trace (p_configure_session config (ts_interface_name s) ers) o h1 /\
      value (p_configure_session config (ts_interface_name s) ers) o h1 = Some (Ok hook) /\
      s = mkSession (ts_interface_name s) false (Some hook)
  | Some (Err _) =>
    trace p o h ∈ [h; trace resolve o h; trace p_prepare_session_start o (trace resolve o h)] \/
    (exists l, trace p o h = l ++ [build] /\ is_ok (o l build) = false) \/
    (exists l, trace p o h = l ++ [DeviceDrop])
  end.
Proof.
  intros Hv. cbn zeta. destruct (value (start wintun config) o h) as [[s|e]|] eqn:E; [by apply start_ok| |];
    revert E; unfold start, value at 1, trace; rewrite pbind_run;
    pose proof (build_device_run p_target p_prepare_session_start wintun config o h Hv) as Hb;
    cbn zeta in Hb; set (p := build_device _ _ _ _) in *;
    (destruct (value p o h) as [[ers|e']|]; [|cbn [pret fst snd]; unfold trace in *; try done; tauto | done]);
    destruct Hb as (_ & _ & ->); set (h1 := _ ++ [_]);
    pose proof (start_with_device_run config ers o h1 Hv) as Hd; cbn zeta in Hd;
    unfold value, trace in Hd; destruct (start_with_device config ers o h1) as [[[s|e']|] h2];
    cbn [fst snd] in *; try done; by right; right.
Qed.
End Session.

(** ** A concrete session *)
Import PlatformExamples.

Definition example_platform : Platform route unit := linux_platform (fun _ => "") (fun s => s).

Lemma start_spec_witness :
  exists s ers, value (start (Platform0:=example_platform) None vpn_config) working [] = Some (Ok s) /\
    value (resolve_endpoint_routes vpn_config) working [] = Ok ers /\ length ers = 1.
Proof.
  pose proof (start_spec (Platform0:=example_platform)
    (PlatformLaws0:=linux_platform_laws (fun _ => "") (fun s => s)) None vpn_config working []) as Hs.
  cbn zeta in Hs. specialize (Hs ltac:(vm_compute; reflexivity)).
  assert ((is_ok <$> value (start (Platform0:=example_platform) None vpn_config) working []) = Some true)
    as Hok by (vm_compute; reflexivity).
  destruct (value (start None vpn_config) working []) as [[s|e]|]; [|discriminate Hok..].
  destruct Hs as (ers & hook & Hr & Hl & _). exists s, ers. split; [reflexivity|].
  split; [exact Hr | exact Hl].
Defined.
