(* ===== verification/SessionMacos.v ===== *)
(** * session.rs on macOS: a session from [start] to [close]

    On macOS the platform keeps its changes in [SessionRoutes] and the dynamic
    store, so the state of a run is that of [PlatformMacos] beside the requests
    to the device and the route lookups. [start] is composed of the same parts
    as on the other targets. The theorems follow a session through its life:
    the peers' routes are read from the kernel's replies, a started session has
    its routes and DNS entries in force, and whatever fails, a closed or
    abandoned one leaves no device, route or entry behind. *)

From S2P Require Import Prelude RustStd Net Proto IpUtil Validation Os Platform RtMsg.
From S2P Require Import EndpointMacos Snapshot SessionRoutes DnsMacos PlatformMacos MacosRoutes Session.
From Stdlib Require Import Lia.

Section SessionMacos.
Context {Route : Type} `{RouteLib Route} `{Reports}.
Context (sc_error_string : Z -> option string) (strerror : Z -> ErrorKind * string).
Context (if_nametoindex : string -> Z) (last_os_error : io_error).
Abbreviation prog := (prog Route EndpointRoute).
Implicit Types (o : os Route EndpointRoute).

(** Routes and DNS entries, and the other requests made so far. *)
Record mac_world : Type := mkWorld {
  mac : mac_state;
  issued : list (call Route EndpointRoute);
}.
Implicit Types (w : mac_world).

Definition on_system {A} (p : prog A) o w : A * mac_world :=
  let '(a, h) := p o (issued w) in (a, mkWorld (mac w) h).

(** The hook is [mac_cleanup] of the changes it holds. *)
Record MacSession : Type := mkMacSession {
  ms_interface_name : string;
  ms_closed : bool;
  ms_cleanup_hook : option SessionRoutes;
}.

Definition mac_start (config : TunSessionConfig) o w : option (result MacSession string) * mac_world :=
  let '(built, w) := on_system (build_device Macos (pret (Ok tt)) None config) o w in
  match built with
  | None => (None, w)
  | Some (Err e) => (Some (Err e), w)
  | Some (Ok endpoint_routes) =>
    let '(ready, w) := on_system (ready_device Macos config) o w in
    match ready with
    | Err e => (Some (Err e), w)
    | Ok name =>
      let '(mgr, w) := on_system (perform RouteManagerNew) o w in
      let '(configured, st) := mac_configure_session sc_error_string if_nametoindex last_os_error
                                 config name endpoint_routes mgr (mac w) in
      let w := mkWorld st (issued w) in
      match configured with
      | None => (None, w)
      | Some (Err error) => let '(r, w) := on_system (abandon_device error) o w in (Some r, w)
      | Some (Ok routes) => (Some (Ok (mkMacSession name false (Some routes))), w)
      end
    end
  end.

Definition mac_close (s : MacSession) o w : result unit string * MacSession * mac_world :=
  if ms_closed s then (Ok tt, s, w)
  else
    let '(_, w) := on_system (perform InterruptTrigger) o w in
    let s' := mkMacSession (ms_interface_name s) true None in
    match ms_cleanup_hook s with
    | Some routes =>
      let '(r, st) := mac_cleanup sc_error_string routes (ms_interface_name s) (mac w) in
      (r, s', mkWorld st (issued w))
    | None => (Ok tt, s', w)
    end.

(** ** Correctness *)

(** Lookups are answered by [EndpointMacos.lookup] over some conversation with
    the kernel, which gives the source of a route as an IP address. *)
Definition kernel_lookups o : Prop := forall h ip e, o h (EndpointLookup ip) = Ok e ->
  (exists pid sequence opened reads, lookup strerror ip pid sequence opened reads = Ok e) /\
  forall s, e_source e = Some s -> inet_family s = true.

Lemma lookups_good o eps : kernel_lookups o -> forall h ers,
  value (resolve_loop eps) o h = Ok ers ->
  Forall endpoint_good ers /\ e_destination <$> ers = omap parse_proto_ip eps.
Proof.
  intros Hk. induction eps as [|addr eps IH]; intros h ers; [by intros [= <-]|].
  cbn [resolve_loop omap list_omap]. destruct (parse_proto_ip addr) as [ip|]; [|done].
  unfold value, pbind, ptry, perform. destruct (o h (EndpointLookup ip)) as [e|] eqn:E; [|done].
  unfold pbind. destruct (resolve_loop eps o _) as [[es|] h'] eqn:Er; [|done]. intros [= <-].
  apply Hk in E as [(pid & sq & opened & reads & (Hw & Hg & Hd)%lookup_wf) Hs].
  destruct (IH (h ++ [EndpointLookup ip]) es) as [IH1 IH2]; [unfold value; by rewrite Er|].
  split; [by constructor|]. cbn. by rewrite Hd, IH2.
Qed.

(** What a start has asked for when it configures the platform. *)
Definition device_ready (config : TunSessionConfig) : list (call Route EndpointRoute) :=
  (EndpointLookup <$> omap parse_proto_ip (peer_endpoints config))
    ++ [DeviceBuild (expected_device Macos None config)] ++ ready_calls Macos.

Definition device_built (config : TunSessionConfig) : list (call Route EndpointRoute) :=
  (EndpointLookup <$> omap parse_proto_ip (peer_endpoints config))
    ++ [DeviceBuild (expected_device Macos None config)].

(** No device is left: none was built, or it was dropped. *)
Definition no_device (config : TunSessionConfig) o (h h' : list (call Route EndpointRoute)) : Prop :=
  let build := DeviceBuild (expected_device Macos None config) in
  h' ∈ [h; trace (resolve_endpoint_routes config) o h] \/
  (exists l, h' = l ++ [build] /\ is_ok (o l build) = false) \/
  (exists l, h' = l ++ [DeviceDrop]).

Lemma on_system_run {A} (p : prog A) o w :
  on_system p o w = (value p o (issued w), mkWorld (mac w) (trace p o (issued w))).
Proof. unfold on_system, value, trace. by destruct (p o (issued w)). Qed.

(** A start fails with the platform untouched, or has everything ready and
    ends as the configuration of the platform does. *)
Lemma mac_start_cases config o w0 r w :
  validate_config Macos config = Ok tt -> kernel_lookups o -> mac_start config o w0 = (r, w) ->
  (exists e, r = Some (Err e)) /\ mac w = mac w0 /\ no_device config o (issued w0) (issued w) \/
  exists er, value (resolve_endpoint_routes config) o (issued w0) = Ok er /\
    Forall endpoint_good er /\ e_destination <$> er = omap parse_proto_ip (peer_endpoints config) /\
    let name := given_name Macos config o (issued w0 ++ device_built config) in
    let h1 := issued w0 ++ device_ready config in
    let '(configured, st) := mac_configure_session sc_error_string if_nametoindex last_os_error
                               config name er (o h1 RouteManagerNew) (mac w0) in
    mac w = st /\
    match configured with
    | None => r = None
    | Some (Err error) =>
      r = Some (Err ("failed to configure platform session: " +:+ error)) /\
      exists l, issued w = l ++ [DeviceDrop]
    | Some (Ok routes) =>
      r = Some (Ok (mkMacSession name false (Some routes))) /\ issued w = h1 ++ [RouteManagerNew]
    end.
Proof.
  intros Hv Hk. unfold mac_start. rewrite on_system_run.
  pose proof (build_device_run Macos (pret (Ok tt)) None config o (issued w0) Hv) as Hb.
  cbn zeta in Hb. set (p := build_device _ _ _ _) in *.
  destruct (value p o (issued w0)) as [[er|e]|]; [| |done].
  2:{ intros [= <- <-]. left. split_and!; [by eexists | done |]. unfold no_device. cbn [issued].
      cbn [pret trace snd] in Hb. unfold trace at 3 in Hb. cbn in Hb. set_solver. }
  destruct Hb as (Hres & _ & Hb). rewrite Hb. unfold trace at 1. cbn [pret snd].
  destruct (lookups_good o _ Hk _ _ Hres) as [Hgood Hdest]. rewrite on_system_run. cbn [mac issued].
  assert (forall l, (issued w0 ++ (EndpointLookup <$> l)) ++ [DeviceBuild (expected_device Macos None config)]
    = issued w0 ++ (EndpointLookup <$> l) ++ [DeviceBuild (expected_device Macos None config)]) as ->
    by (intros l; by rewrite <- app_assoc).
  fold (device_built config). set (h := issued w0 ++ device_built config). pose proof (ready_device_run Macos config o h) as Hr.
  pose proof (ready_device_name Macos config o h) as Hname.
  destruct (value (ready_device Macos config) o h) as [name|e].
  2:{ intros [= <- <-]. left. split_and!; [by eexists | done |]. right. by right. }
  rewrite Hr, on_system_run. cbn [mac issued]. unfold value at 1, trace at 1, perform at 1 2. cbn [fst snd].
  assert (h ++ ready_calls Macos = issued w0 ++ device_ready config) as ->
    by (unfold h, device_built, device_ready; by rewrite <- !app_assoc).
  specialize (Hname name eq_refl) as ->. intros E. right. exists er. split_and!; [done..|]. cbn zeta.
  destruct (mac_configure_session _ _ _ _ _ _ _ _) as [[[routes|error]|] st].
  - injection E as <- <-. by split_and!.
  - rewrite on_system_run in E. injection E as <- <-. split; [done|].
    split; [done|]. by eexists.
  - by injection E as <- <-.
Qed.

(** C6: the life of a session on macOS. For an accepted configuration and
    whatever requests to the system, the routing socket or the dynamic store
    fail, [start] does not panic. When it succeeds, every peer was looked up
    before the device existed, the device has the configured addresses and
    MTU, and the DNS entries are in force; closing the session later, on
    whatever it left and without further errors, succeeds, brings the original
    routes back, removes its resolver entries and leaves all others alone, and
    closing it again does nothing. When it fails, no device is left, and routes
    and entries are untouched, or the set-up had begun: then the clean-up of
    exactly the changes it had made is the last thing that happened to them; it
    succeeds when nothing fails any more; if it reported no error everything is
    undone, and otherwise its error is part of the one returned. *)
Theorem macos_session_lifecycle config o w0 :
  validate_config Macos config = Ok tt -> kernel_lookups o ->
  (forall n, 0 <= if_nametoindex n)%Z -> table_wf (k_table (kern (mac w0))) ->
  clean (k_faults (kern (mac w0))) -> sc_clean (sc_faults (store (mac w0))) ->
  let '(r, w) := mac_start config o w0 in
  let calm st := mkMac (mkKernel (k_table (kern st)) []) (mkStore (sc_entries (store st)) []) in
  exists servers, ips_to_args (config_servers config) = Some servers /\
  match r with
  | None => False
  | Some (Ok s) =>
    let name := given_name Macos config o (issued w0 ++ device_built config) in
    let closed := mkMacSession name true None in
    ms_interface_name s = name /\
    issued w = (issued w0 ++ device_ready config) ++ [RouteManagerNew] /\
    (servers <> [] -> Forall (fun '(k, v) => sc_entries (store (mac w)) !! k = Some v)
       (dns_values name servers (normalize_domains (config_domains config)))) /\
    (forall o1 h1, exists st, undone name (mac w0) st /\
       mac_close s o1 (mkWorld (calm (mac w)) h1) =
         (Ok tt, closed, mkWorld st (h1 ++ [InterruptTrigger]))) /\
    (forall o1 w1, mac_close closed o1 w1 = (Ok tt, closed, w1))
  | Some (Err e) =>
    let name := given_name Macos config o (issued w0 ++ device_built config) in
    no_device config o (issued w0) (issued w) /\
    (mac w = mac w0 \/
     exists er error routes st1 cleanup,
       value (resolve_endpoint_routes config) o (issued w0) = Ok er /\
       mac_setup sc_error_string if_nametoindex last_os_error (filtered_routes config name) er name servers
         (normalize_domains (config_domains config)) (mac w0) = (Err error, routes, st1) /\
       mac_cleanup sc_error_string routes name st1 = (cleanup, mac w) /\
       e = "failed to configure platform session: " +:+ setup_error error cleanup /\
       (cleanup = Ok tt -> undone name (mac w0) (mac w)) /\
       (k_faults (kern st1) = [] -> sc_faults (store st1) = [] -> cleanup = Ok tt))
  end.
Proof.
  intros Hv Hk Hif Hwf Hc Hsc. destruct (mac_start config o w0) as [r w] eqn:E. cbn zeta.
  destruct (valid_dns_args _ _ Hv) as (servers & Hs & _). exists servers. split; [done|].
  apply mac_start_cases in E as [([e ->] & Hm & Hn)|(er & Hres0 & Hg & _ & E)]; [by auto| |done..].
  cbn zeta in *. set (name := given_name _ _ _ _) in *. destruct (o _ RouteManagerNew) as [[]|e].
  2:{ cbn in E. destruct E as (Hm & -> & Hd). split; [by right; right | by left]. }
  destruct (mac_configure_session _ _ _ _ _ _ _ _) as [configured st] eqn:Ec.
  destruct (macos_configure_session_spec _ _ _ _ _ _ _ _ _ Hv Hif Hg Hwf Hc Hsc Ec)
    as (res & servers' & -> & Hs' & Hres).
  assert (servers' = servers) as -> by congruence. destruct E as [<- E].
  destruct res as [routes|error].
  - destruct E as [-> Hi], Hres as [Hdns (st' & Hcl & Hu)]. cbn [ms_interface_name] in *.
    split_and!; [done..| |done]. intros o1 h1. exists st'. split; [done|].
    unfold mac_close. cbn. by rewrite Hcl.
  - destruct E as [-> Hd], Hres as (st1 & routes & err & cl & Hset & Hcl & -> & Hu & Hp).
    split; [by right; right|]. right. by exists er, err, routes, st1, cl.
Qed.

(** C26: a session started on macOS, whatever the table held before: every peer
    has a host route, for all scopes, that is the exception made from the route
    the kernel gave for it (gateway, interface, source and metrics), even when
    an allowed prefix is the same; every other allowed prefix is routed to the
    session's interface, whether or not somebody routed it elsewhere before; and
    no other prefix has changed. *)
Theorem macos_session_routes config o w0 s w :
  validate_config Macos config = Ok tt -> kernel_lookups o ->
  (forall n, 0 <= if_nametoindex n)%Z -> table_wf (k_table (kern (mac w0))) ->
  mac_start config o w0 = (Some (Ok s), w) ->
  let peers := omap parse_proto_ip (peer_endpoints config) in
  let t := k_table (kern (mac w)) in
  let allowed k := exists addr ip, addr ∈ peer_allowed_ips config /\
    parse_proto_cidr addr = Some (ip, Cidr_prefix addr) /\ k = allowed_key ip (Cidr_prefix addr) in
  (exists ers, value (resolve_endpoint_routes config) o (issued w0) = Ok ers /\
     forall ip, ip ∈ peers -> exists e m r, e ∈ ers /\ host_key (e_destination e) = host_key ip /\
       endpoint_message e RTM_ADD = Ok m /\ t !! host_key ip = Some r /\ shows m r) /\
  (forall k, (k ∉ host_key <$> peers) -> allowed k ->
     exists r, t !! k = Some r /\ get f_index r = if_nametoindex (ms_interface_name s)) /\
  (forall k, (k ∉ host_key <$> peers) -> ~ allowed k -> t !! k = k_table (kern (mac w0)) !! k).
Proof.
  intros Hv Hk Hif Hwf E. cbn zeta.
  apply mac_start_cases in E as [([e [=]] & _)|(er & Hres & Hg & Hd & E)]; [|done..].
  cbn zeta in E. destruct (o _ RouteManagerNew) as [[]|e]; [|by destruct E as (_ & [=] & _)].
  destruct (mac_configure_session _ _ _ _ _ _ _ _) as [[[routes|error]|] st] eqn:Ec;
    [|by destruct E as (_ & [=] & _)|by destruct E].
  destruct E as (<- & [= ->] & _). cbn [ms_interface_name].
  apply (configured_routes _ _ _ Hif) in Ec as (Hpeers & Hallowed & Hother); [|done..].
  split_and!; [by eauto| |].
  - intros k Hn (addr & ip & Ha & Hp & ->). by apply (Hallowed addr).
  - intros k Hn Hno. apply Hother; [done|]. intros addr ip Ha Hp ->. by apply Hno; eauto.
Qed.
End SessionMacos.

(** ** A concrete session *)
Module MacosExamples.
Import PlatformExamples RouteExamples DnsExamples EndpointExamples.

(** A kernel that answers the lookup of one peer after a notification, on a
    system where everything works. *)
Definition mac_os : os PlatformExamples.route EndpointRoute := fun _ c =>
  match c as c return reply c with
  | EndpointLookup ip =>
    if decide (ip = e_destination route)
    then lookup no_strerror ip 77 3 (Ok tt) [Ok notification; Ok (notification ++ answer)]
    else Err (io_other "no route")
  | RouteFind _ => Ok None
  | CommandOutput _ => Err "no commands"
  | DeviceName => Ok "utun4"
  | RouteManagerNew | RouteAdd _ | RouteDelete _ | EndpointReplace _ | EndpointDelete _ | Which _
  | DeviceBuild _ | DeviceSetNonblocking | DeviceDrop | InterruptNew | InterruptTrigger => Ok tt
  end.

Lemma mac_os_lookups : kernel_lookups no_strerror mac_os.
Proof.
  intros h ip e. unfold mac_os. case_decide as Hip; [|done]. intros E. split; [by eauto|].
  subst ip. rewrite lookup_example in E. injection E as <-. intros s [= <-]. reflexivity.
Qed.

Definition world0 : mac_world (Route:=PlatformExamples.route) := mkWorld no_errors [].
End MacosExamples.
Import PlatformExamples RouteExamples DnsExamples MacosExamples.

Lemma macos_session_lifecycle_witness :
  exists s w st, mac_start no_text index_of (io_other "") vpn_config mac_os world0 = (Some (Ok s), w) /\
    undone (ms_interface_name s) no_errors st.
Proof.
  pose proof (macos_session_lifecycle no_text EndpointExamples.no_strerror index_of (io_other "")
    vpn_config mac_os world0) as Hl.
  specialize (Hl ltac:(vm_compute; reflexivity) mac_os_lookups ltac:(intros n; cbv; congruence)).
  specialize (Hl ltac:(apply wf_singleton; reflexivity) ltac:(constructor) ltac:(constructor)).
  destruct (mac_start no_text index_of (io_other "") vpn_config mac_os world0) as [r w] eqn:E.
  assert (is_ok (default (Err "") r) = true) as Hok.
  { change r with (r, w).1. rewrite <- E. vm_compute. reflexivity. }
  destruct r as [[s|]|]; [|discriminate Hok..]. cbn zeta in Hl.
  destruct Hl as (servers & _ & <- & _ & _ & Hclose & _). destruct (Hclose mac_os []) as (st & Hu & _).
  exists s, w, st. split; [reflexivity | exact Hu].
Defined.

Lemma macos_session_routes_witness :
  exists s w r, mac_start no_text index_of (io_other "") vpn_config mac_os world0 = (Some (Ok s), w) /\
    k_table (kern (mac w)) !! host_key (e_destination EndpointExamples.route) = Some r.
Proof.
  destruct (mac_start no_text index_of (io_other "") vpn_config mac_os world0) as [r w] eqn:E.
  assert (is_ok (default (Err "") r) = true) as Hok.
  { change r with (r, w).1. rewrite <- E. vm_compute. reflexivity. }
  destruct r as [[s|]|]; [|discriminate Hok..].
  destruct (macos_session_routes no_text EndpointExamples.no_strerror index_of (io_other "") vpn_config
    mac_os world0 s w) as ((ers & _ & Hpeers) & _).
  - vm_compute. reflexivity.
  - apply mac_os_lookups.
  - intros n. cbv. congruence.
  - apply wf_singleton. reflexivity.
  - exact E.
  - destruct (Hpeers (e_destination EndpointExamples.route)) as (e & m & x & _ & _ & _ & Hx & _).
    + vm_compute. left.
    + exists s, w, x. split; [reflexivity | exact Hx].
Defined.
