(* ===== verification/EndpointLinux.v ===== *)
(** * platform/endpoint_linux.rs: endpoint exceptions over netlink

    The netlink message types come from the netlink crates; [RouteMessage] has
    the header fields the code touches, the others being one opaque field, and
    one constructor for each attribute it distinguishes, every other attribute
    being opaque. [from_route] turns
    the kernel's route to a peer into a host route; [transact] finds the reply
    to a request. *)

From S2P Require Import Prelude RustStd Net.
From Stdlib Require Import Lia.

(** ** Data *)

Inductive AddressFamily : Type := Inet | Inet6 | OtherFamily (n : Z).
Inductive RouteType : Type := Unicast | Local | OtherType (n : Z).
Inductive RouteProtocol : Type := Static | OtherProtocol (n : Z).

Definition RTNH_F_DEAD : Z := 1.
Definition RTNH_F_PERVASIVE : Z := 2.
Definition RTNH_F_ONLINK : Z := 4.
Definition RTM_F_LOOKUP_TABLE : Z := 0x1000.
Definition RTM_F_FIB_MATCH : Z := 0x2000.
Definition replayable : Z := Z.lor RTNH_F_ONLINK RTNH_F_PERVASIVE.

(** [RouteNextHop]: its flags, and everything else. *)
Record RouteNextHop : Type := mkHop { hop_flags : Z; hop_rest : list byte }.

Inductive RouteAddress : Type := AddrInet (o : list byte) | AddrInet6 (o : list byte).

Inductive RouteAttribute : Type :=
| Destination (a : RouteAddress)
| CacheInfo (b : list byte)
| Uid (u : Z)
| Mark (m : Z)
| Iif (i : Z)
| Expires (e : Z)
| MulticastExpires (e : Z)
| MultiPath (hops : list RouteNextHop)
| Attribute (kind : Z) (value : list byte).

Record RouteMessage : Type := mkMessage {
  address_family : AddressFamily;
  destination_prefix_length : Z;
  protocol : RouteProtocol;
  kind : RouteType;
  flags : Z;
  header_rest : list byte;          (* table, scope, TOS, source prefix length *)
  attributes : list RouteAttribute;
}.

Definition address (ip : IpAddr) : RouteAddress :=
  match ip with V4 o => AddrInet o | V6 o => AddrInet6 o end.

Definition host_prefix (ip : IpAddr) : Z := if is_ipv4 ip then 32 else 128.

(** ** [from_route] *)

Definition dead (hop : RouteNextHop) : bool := negb (Z.land (hop_flags hop) RTNH_F_DEAD =? 0)%Z.

(** The loop over the attributes. *)
Definition live_hops (hops : list RouteNextHop) : list RouteNextHop :=
  (fun hop => mkHop (Z.land (hop_flags hop) replayable) (hop_rest hop))
    <$> List.filter (fun hop => negb (dead hop)) hops.

Definition clean_attribute (attr : RouteAttribute) : result RouteAttribute io_error :=
  match attr with
  | MultiPath hops =>
    match List.filter (fun hop => negb (dead hop)) hops with
    | [] => Err (io_other "endpoint route has no live nexthops")
    | _ => Ok (MultiPath (live_hops hops))
    end
  | _ => Ok attr
  end.

(** The attributes that are not replayed. *)
Definition transient (attr : RouteAttribute) : bool :=
  match attr with
  | Destination _ | CacheInfo _ | Uid _ | Mark _ | Iif _ | Expires _ | MulticastExpires _ => true
  | _ => false
  end.

Definition from_route (ip : IpAddr) (found : RouteMessage) : result RouteMessage io_error :=
  match kind found with
  | Unicast | Local =>
    let? attrs := try_map clean_attribute (attributes found) in
    Ok (mkMessage (address_family found) (host_prefix ip) Static (kind found)
          (Z.land (flags found) replayable) (header_rest found)
          (List.filter (fun attr => negb (transient attr)) attrs ++ [Destination (address ip)]))
  | OtherType _ => Err (io_other "endpoint route is not reachable")
  end.

(** The query of [lookup]. *)
Definition lookup_query (ip : IpAddr) (default_message : RouteMessage) (uid : Z) : RouteMessage :=
  mkMessage (if is_ipv4 ip then Inet else Inet6) (host_prefix ip) (protocol default_message)
    (kind default_message) (Z.lor RTM_F_FIB_MATCH RTM_F_LOOKUP_TABLE) (header_rest default_message)
    [Destination (address ip); Uid uid; Attribute 27 [z_u8 17]].

(** ** [transact] *)

Inductive request : Type :=
| GetRoute (m : RouteMessage)
| CreateRoute (m : RouteMessage)              (* RouteNetlinkMessage::NewRoute *)
| DelRoute (m : RouteMessage).

Definition is_lookup (r : request) : bool := match r with GetRoute _ => true | _ => false end.

Definition NLM_F_REQUEST : Z := 1.
Definition NLM_F_ACK : Z := 4.
Definition NLM_F_REPLACE : Z := 0x100.
Definition NLM_F_CREATE : Z := 0x400.

(** The [NetlinkMessage] that is sent. *)
Record packet : Type := mkPacket { pk_flags : Z; pk_sequence : Z; pk_port : Z; pk_request : request }.

(** The outcomes of the calls before the loop; binding gives the port. *)
Record socket_calls : Type := mkSocket {
  sk_new : result unit io_error;
  sk_bind_auto : result Z io_error;
  sk_connect : result unit io_error;
  sk_rcvtimeo : result unit io_error;
  sk_sndtimeo : result unit io_error;
  sk_send : packet -> result unit io_error;
}.

Definition send_request (r : request) (flags : Z) (sk : socket_calls) : result packet io_error :=
  let? _ := sk_new sk in
  let? port := sk_bind_auto sk in
  let? _ := sk_connect sk in
  let? _ := sk_rcvtimeo sk in
  let? _ := sk_sndtimeo sk in
  let packet := mkPacket flags 1 port r in
  let? _ := sk_send sk packet in
  Ok packet.

Inductive payload : Type :=
| NewRoute (r : RouteMessage)
| NlError (code : option io_error)
| Done
| OtherPayload.

Record nl_message : Type := mkNl { nl_length : nat; nl_sequence : Z; nl_payload : payload }.

Lemma padded_length n : n <= 4 * ((n + 3) / 4) <= n + 3.
Proof. pose proof (Nat.div_mod_eq (n + 3) 4). pose proof (Nat.mod_upper_bound (n + 3) 4). lia. Qed.

Section Transact.
(** [NetlinkMessage::deserialize] of the netlink crates. *)
Context (deserialize : list byte -> result nl_message io_error).

(** What the loop over one datagram concludes: a final answer, or go on. *)
Fixpoint scan_replies (fuel : nat) (is_lookup : bool) (bytes : list byte)
    : option (result (option RouteMessage) io_error) :=
  match fuel, bytes with
  | _, [] => None
  | O, _ => None
  | S fuel', _ =>
    match deserialize bytes with
    | Err e => Some (Err e)
    | Ok reply =>
      let length_ := nl_length reply in
      if (length_ <? 16) || (length bytes <? length_)
      then Some (Err (io_other "invalid netlink route reply"))
      else
        let rest := drop (4 * ((length_ + 3) / 4)) bytes in
        if negb (nl_sequence reply =? 1)%Z then scan_replies fuel' is_lookup rest
        else match nl_payload reply with
        | NewRoute route =>
          if is_lookup then Some (Ok (Some route)) else scan_replies fuel' is_lookup rest
        | NlError (Some e) => Some (Err e)
        | NlError None => Some (Ok None)
        | Done => Some (Ok None)
        | OtherPayload => scan_replies fuel' is_lookup rest
        end
    end
  end.

(** The datagrams received, each with its sender's port; the last one is
    followed by the error that ends the wait. *)
Fixpoint transact_loop (is_lookup : bool) (datagrams : list (list byte * Z)) (timeout : io_error)
    : result (option RouteMessage) io_error :=
  match datagrams with
  | [] => Err timeout
  | (bytes, port) :: r =>
    if negb (port =? 0)%Z then transact_loop is_lookup r timeout
    else match scan_replies (length bytes) is_lookup bytes with
    | Some answer => answer
    | None => transact_loop is_lookup r timeout
    end
  end.

Definition transact (r : request) (flags : Z) (sk : socket_calls)
    (datagrams : list (list byte * Z)) (timeout : io_error)
    : result (option RouteMessage) io_error :=
  let? _ := send_request r flags sk in transact_loop (is_lookup r) datagrams timeout.

Definition lookup (ip : IpAddr) (default_message : RouteMessage) (uid : Z) (sk : socket_calls)
    (datagrams : list (list byte * Z)) (timeout : io_error) : result RouteMessage io_error :=
  let? found := transact (GetRoute (lookup_query ip default_message uid)) NLM_F_REQUEST sk
                  datagrams timeout in
  let? found := ok_or found (io_other "no route to endpoint") in
  from_route ip found.

Definition replace (route : RouteMessage) (sk : socket_calls) (datagrams : list (list byte * Z))
    (timeout : io_error) : result unit io_error :=
  rmap (fun _ => tt)
    (transact (CreateRoute route)
       (Z.lor (Z.lor (Z.lor NLM_F_REQUEST NLM_F_ACK) NLM_F_CREATE) NLM_F_REPLACE) sk datagrams timeout).

Definition delete (route : RouteMessage) (sk : socket_calls) (datagrams : list (list byte * Z))
    (timeout : io_error) : result unit io_error :=
  rmap (fun _ => tt) (transact (DelRoute route) (Z.lor NLM_F_REQUEST NLM_F_ACK) sk datagrams timeout).

(** More fuel than bytes changes nothing: a message is at least 16 bytes. *)
Lemma scan_replies_fuel fuel is_lookup bytes :
  length bytes <= fuel ->
  scan_replies fuel is_lookup bytes = scan_replies (length bytes) is_lookup bytes.
Proof.
  enough (forall n m b, length b <= n -> length b <= m ->
            scan_replies n is_lookup b = scan_replies m is_lookup b) as H by (intros Hl; apply H; lia).
  induction n as [|n IH]; intros m b Hn Hm.
  - destruct b; [by destruct m | simpl in Hn; lia].
  - destruct b as [|x r]; [by destruct m|]. destruct m as [|m]; [simpl in Hm; lia|].
    cbn [scan_replies]. destruct (deserialize (x :: r)) as [reply|]; [|done].
    destruct (Nat.ltb_spec (nl_length reply) 16) as [|Hlen]; [done|].
    pose proof (padded_length (nl_length reply)) as Hpad.
    rewrite (IH m); [done | |]; rewrite length_drop; cbn [length] in *; lia.
Qed.

(** *** Finding the reply

    [nl_frame bytes reply]: [bytes] are one message with its padding, which
    the crate reads as [reply] whatever follows it. *)
Definition nl_frame (bytes : list byte) (reply : nl_message) : Prop :=
  16 <= nl_length reply <= length bytes /\ length bytes = 4 * ((nl_length reply + 3) / 4) /\
  forall rest, deserialize (bytes ++ rest) = Ok reply.

(** What a message answers to the request, if it is an answer to it. *)
Definition answer (is_lookup : bool) (reply : nl_message)
    : option (result (option RouteMessage) io_error) :=
  if negb (nl_sequence reply =? 1)%Z then None
  else match nl_payload reply with
  | NewRoute route => if is_lookup then Some (Ok (Some route)) else None
  | NlError code => Some (match code with Some e => Err e | None => Ok None end)
  | Done => Some (Ok None)
  | OtherPayload => None
  end.

Definition unanswering (is_lookup : bool) (bytes : list byte) : Prop :=
  exists reply, nl_frame bytes reply /\ answer is_lookup reply = None.

(** A datagram of another sender, or of the kernel about something else. *)
Definition beside (is_lookup : bool) (d : list byte * Z) : Prop :=
  d.2 <> 0%Z \/ exists frames, d.1 = concat frames /\ Forall (unanswering is_lookup) frames.

Lemma scan_replies_step fuel is_lookup bytes reply rest :
  nl_frame bytes reply ->
  scan_replies (S fuel) is_lookup (bytes ++ rest) =
  match answer is_lookup reply with
  | Some a => Some a
  | None => scan_replies fuel is_lookup rest
  end.
Proof.
  intros (Hlen & Hpad & Hd). destruct (bytes ++ rest) as [|b r] eqn:E.
  { apply (f_equal length) in E. rewrite length_app in E. simpl in E. lia. }
  cbn [scan_replies]. rewrite <- E in *. rewrite Hd.
  rewrite (proj2 (Nat.ltb_ge _ 16)), (proj2 (Nat.ltb_ge _ (nl_length reply)))
    by (rewrite ?length_app; lia).
  cbn [orb]. rewrite <- Hpad, drop_app_length. unfold answer.
  destruct (negb _); [done|]. destruct (nl_payload reply) as [route|[e|]| |]; try done.
  by destruct is_lookup.
Qed.

Lemma scan_replies_skip frames fuel is_lookup rest :
  Forall (unanswering is_lookup) frames -> length (concat frames ++ rest) <= fuel ->
  scan_replies fuel is_lookup (concat frames ++ rest) =
  scan_replies (fuel - length frames) is_lookup rest /\ length rest <= fuel - length frames.
Proof.
  intros Hf. revert fuel.
  induction Hf as [|bytes frames (reply & Hb & Ha) _ IH]; intros fuel Hfuel; cbn [concat length] in *.
  { by rewrite Nat.sub_0_r. }
  rewrite <- app_assoc in Hfuel |- *. rewrite length_app in Hfuel. pose proof Hb as ([??] & ? & _).
  destruct fuel as [|fuel]; [lia|]. rewrite (scan_replies_step _ _ _ _ _ Hb), Ha.
  apply IH. lia.
Qed.

Lemma transact_loop_skip is_lookup before after timeout :
  Forall (beside is_lookup) before ->
  transact_loop is_lookup (before ++ after) timeout = transact_loop is_lookup after timeout.
Proof.
  induction 1 as [|[bytes port] l Hd _ IH]; [done|]. cbn.
  destruct (Z.eqb_spec port 0) as [->|]; cbn [negb]; [|exact IH].
  unfold beside in Hd. cbn [fst snd] in Hd. destruct Hd as [?|(frames & -> & Hf)]; [done|].
  pose proof (scan_replies_skip frames (length (concat frames)) is_lookup [] Hf) as Hs.
  rewrite app_nil_r in Hs. rewrite (proj1 (Hs (le_n _))).
  by destruct (_ - _).
Qed.

(** After any datagrams of other senders and of the kernel about other
    requests, and behind other messages in the same datagram, an exchange
    returns what the first message that answers it says, whatever follows;
    without one it returns the error that ends the wait. *)
Theorem transact_finds_answer r fl sk packet before frames bytes reply a rest after timeout :
  send_request r fl sk = Ok packet ->
  Forall (beside (is_lookup r)) before -> Forall (unanswering (is_lookup r)) frames ->
  nl_frame bytes reply -> answer (is_lookup r) reply = Some a ->
  transact r fl sk (before ++ (concat frames ++ bytes ++ rest, 0%Z) :: after) timeout = a /\
  transact r fl sk before timeout = Err timeout.
Proof.
  intros Hs Hb Hf Hr Ha. unfold transact. rewrite Hs. cbn [rbind]. split.
  - rewrite transact_loop_skip by done. cbn [transact_loop].
    rewrite Z.eqb_refl. cbn [negb].
    destruct (scan_replies_skip frames (length (concat frames ++ bytes ++ rest)) (is_lookup r)
                (bytes ++ rest) Hf (le_n _)) as [-> Hfuel].
    pose proof Hr as ([??] & _). rewrite length_app in Hfuel at 1.
    destruct (_ - _) as [|fuel]; [lia|]. by rewrite (scan_replies_step _ _ _ _ _ Hr), Ha.
  - rewrite <- (app_nil_r before), transact_loop_skip; done.
Qed.
End Transact.

(** ** Correctness of [from_route] *)

(** A kernel route leads somewhere: reachable, with a live next hop in each
    multipath attribute. *)
Definition usable (found : RouteMessage) : Prop :=
  (kind found = Unicast \/ kind found = Local) /\
  forall hops, MultiPath hops ∈ attributes found -> exists hop, hop ∈ hops /\ dead hop = false.

Lemma filter_nil_iff {A} (f : A -> bool) l :
  List.filter f l = [] <-> forall x, x ∈ l -> f x = false.
Proof.
  induction l as [|a l IH]; cbn; [split; [by intros _ x ?%elem_of_nil | done]|].
  setoid_rewrite elem_of_cons. destruct (f a) eqn:E.
  - split; [done|]. intros Hx. specialize (Hx a (or_introl eq_refl)). congruence.
  - rewrite IH. naive_solver.
Qed.

Lemma clean_attribute_ok attr :
  is_ok (clean_attribute attr) = true <->
  forall hops, attr = MultiPath hops -> exists hop, hop ∈ hops /\ dead hop = false.
Proof.
  destruct attr as [| | | | | | |hops|]; cbn; try (split; [by intros _ ? ? | done]).
  destruct (List.filter _ hops) as [|h l] eqn:E; cbn.
  - split; [done|]. intros Hx. destruct (Hx hops eq_refl) as (hop & Hin & Hd).
    rewrite filter_nil_iff in E. specialize (E hop Hin). by rewrite Hd in E.
  - split; [|done]. intros _ hops' [= <-]. exists h.
    assert (h ∈ List.filter (fun hop => negb (dead hop)) hops) as Hin
      by (rewrite E; apply list_elem_of_here).
    apply list_elem_of_In, filter_In in Hin as [Hin Hd]. rewrite <- list_elem_of_In in Hin.
    split; [done|]. by destruct (dead h).
Qed.

(** What [from_route] keeps of an attribute. *)
Definition replayed (attr : RouteAttribute) : option RouteAttribute :=
  match attr with
  | MultiPath hops => Some (MultiPath (live_hops hops))
  | _ => if transient attr then None else Some attr
  end.

Lemma clean_attribute_replayed attr a :
  clean_attribute attr = Ok a -> List.filter (fun x => negb (transient x)) [a] = option_list (replayed attr).
Proof.
  destruct attr; cbn; try (by intros [= <-]). by destruct (List.filter _ _); intros [= <-].
Qed.

Lemma try_map_replayed l l' :
  try_map clean_attribute l = Ok l' ->
  List.filter (fun x => negb (transient x)) l' = omap replayed l.
Proof.
  revert l'. induction l as [|x l IH]; cbn; intros l'; [by intros [= <-]|].
  destruct (clean_attribute x) as [a|] eqn:E; [|done]. cbn.
  destruct (try_map clean_attribute l) as [m|]; [|done]. intros [= <-].
  apply clean_attribute_replayed in E. cbn in E |- *. rewrite (IH m eq_refl).
  destruct (replayed x), (transient a); cbn in E |- *; by simplify_eq.
Qed.

(** The exception for [ip] that follows the route [found]. *)
Definition exception_of (ip : IpAddr) (found : RouteMessage) : RouteMessage :=
  mkMessage (address_family found) (host_prefix ip) Static (kind found)
    (Z.land (flags found) replayable) (header_rest found)
    (omap replayed (attributes found) ++ [Destination (address ip)]).

Lemma replayed_destination attr a : replayed attr <> Some (Destination a).
Proof. by destruct attr. Qed.

Lemma live_hops_alive hops hop : hop ∈ live_hops hops -> dead hop = false.
Proof.
  unfold live_hops. intros (h & -> & _)%list_elem_of_fmap. unfold dead. cbn.
  rewrite <- Z.land_assoc. change (Z.land replayable RTNH_F_DEAD) with 0%Z. by rewrite Z.land_0_r.
Qed.

(** [from_route] succeeds exactly for a reachable route with a live next
    hop in every multipath attribute, and gives the host route to the endpoint
    that follows it: the route's own next hops, source and metrics are kept in
    order, dead hops, status flags and the attributes of the lookup are
    dropped, and its only destination is the endpoint. *)
Theorem from_route_spec ip found r :
  (from_route ip found = Ok r <-> usable found /\ r = exception_of ip found) /\
  (forall a, Destination a ∈ attributes (exception_of ip found) <-> a = address ip) /\
  (forall hops hop, MultiPath hops ∈ attributes (exception_of ip found) -> hop ∈ hops ->
     dead hop = false).
Proof.
  split_and!.
  - unfold from_route, usable, exception_of.
    assert (is_ok (try_map clean_attribute (attributes found)) = true <->
      forall hops, MultiPath hops ∈ attributes found -> exists hop, hop ∈ hops /\ dead hop = false) as Hok.
    { induction (attributes found) as [|x l IH]; cbn.
      - split; [by intros _ hops ?%elem_of_nil | done].
      - setoid_rewrite elem_of_cons. pose proof (clean_attribute_ok x) as Hx.
        destruct (clean_attribute x) as [a|]; cbn in *; [|naive_solver].
        destruct (try_map clean_attribute l); cbn in *; naive_solver. }
    destruct (try_map clean_attribute (attributes found)) as [l|e] eqn:E; cbn in *.
    + apply try_map_replayed in E. rewrite E. destruct (kind found); naive_solver.
    + destruct (kind found); naive_solver.
  - intros a. cbn. rewrite elem_of_app, list_elem_of_singleton, list_elem_of_omap.
    split; [intros [(x & _ & Hx)|[=]]; [by apply replayed_destination in Hx | done] | intros ->; auto].
  - intros hops hop. cbn. rewrite elem_of_app, list_elem_of_singleton, list_elem_of_omap.
    intros [(x & _ & Hx)|[=]] Hin. destruct x; cbn in Hx; simplify_eq. by apply live_hops_alive in Hin.
Qed.

(** ** A concrete exchange

    A toy codec: the first byte is the length, the second the sequence number
    and the third says whether the message is an error or an acknowledgement. *)
Module NetlinkExamples.
Definition decode (bytes : list byte) : result nl_message io_error :=
  match bytes with
  | l :: s :: k :: _ =>
    Ok (mkNl (Z.to_nat (u8z l)) (u8z s)
          (if bool_decide (k = Byte.x00) then NlError None else OtherPayload))
  | _ => Err (io_other "short")
  end.
Definition message (sequence kind : byte) : list byte :=
  [Byte.x10; sequence; kind] ++ replicate 13 Byte.x00.
Lemma message_frame sequence kind reply :
  decode (message sequence kind) = Ok reply -> nl_frame decode (message sequence kind) reply.
Proof. intros [= <-]. split_and!; [vm_compute; lia.. | done | done]. Qed.
Definition timed_out : io_error := mkIoError OtherKind (Some 11%Z) "timed out".
End NetlinkExamples.
Import NetlinkExamples.

Definition request_route : RouteMessage := mkMessage Inet 32 Static Unicast 0 [] [].
Definition working_socket : socket_calls :=
  mkSocket (Ok tt) (Ok 4711%Z) (Ok tt) (Ok tt) (Ok tt) (fun _ => Ok tt).

(** The acknowledgement is found behind a forged one, an old reply and a
    notification. *)
Lemma transact_finds_answer_witness :
  transact decode (DelRoute request_route) 5 working_socket
    ([(message Byte.x01 Byte.x00, 42%Z)] ++
     (concat [message Byte.x00 Byte.x00; message Byte.x01 Byte.x02] ++
      message Byte.x01 Byte.x00 ++ [Byte.xff], 0%Z) :: []) timed_out = Ok None /\
  transact decode (DelRoute request_route) 5 working_socket
    [(message Byte.x01 Byte.x00, 42%Z)] timed_out = Err timed_out.
Proof.
  apply (transact_finds_answer decode (DelRoute request_route) 5 working_socket
           (mkPacket 5 1 4711 (DelRoute request_route)) [(message Byte.x01 Byte.x00, 42%Z)]
           [message Byte.x00 Byte.x00; message Byte.x01 Byte.x02] (message Byte.x01 Byte.x00)
           (mkNl 16 1 (NlError None)) (Ok None) [Byte.xff] [] timed_out).
  - reflexivity.
  - forall_each ltac:(left; vm_compute; congruence).
  - apply List.Forall_cons; [exists (mkNl 16 0 (NlError None)) |
      apply List.Forall_cons; [exists (mkNl 16 1 OtherPayload) | apply List.Forall_nil]];
      (split; [apply message_frame; reflexivity | reflexivity]).
  - apply message_frame; reflexivity.
  - reflexivity.
Defined.
