(* ===== verification/LinuxRoutes.v ===== *)
(** * platform/linux.rs and endpoint_linux.rs: where a peer's packets go

    Linux consults routing tables in the order of its policy rules; the
    daemon's lookup returns the entry that would be used, and its exception goes
    into the same table, while the tunnel's routes go into the main one. Here
    the requests that a started session makes, those that fail included, act on
    such a set of tables. The theorems: a peer's packets take the exception
    made from their former route as long as the main table does not come before
    the peer's own, which an example shows to be needed; and after a teardown
    that reports success the tables hold what they held before, without the
    entries that the session had displaced, of which there is an example too. *)

From S2P Require Import Prelude RustStd Net Proto IpUtil Validation Os Platform PlatformLinux Session EndpointLinux.
From Stdlib Require Import Lia.

(** ** Entries *)

#[global] Instance AddressFamily_eq_dec : EqDecision AddressFamily.
Proof. solve_decision. Defined.

Definition family_of (ip : IpAddr) : AddressFamily := if is_ipv4 ip then Inet else Inet6.

Definition attribute_ip (a : RouteAttribute) : option IpAddr :=
  match a with
  | Destination (AddrInet o) => Some (V4 o)
  | Destination (AddrInet6 o) => Some (V6 o)
  | _ => None
  end.

(** The destination of an entry; a default route may come without. *)
Definition message_ip (m : RouteMessage) : option IpAddr := head (omap attribute_ip (attributes m)).

Definition fib_covers (m : RouteMessage) (ip : IpAddr) : Prop :=
  address_family m = family_of ip /\
  match message_ip m with
  | Some d => prefix_covers d (Z.to_N (destination_prefix_length m)) ip
  | None => destination_prefix_length m = 0%Z
  end.

#[global] Instance fib_covers_dec m ip : Decision (fib_covers m ip).
Proof. unfold fib_covers. destruct (message_ip m); apply _. Defined.

Definition fib_wf (m : RouteMessage) : Prop := forall d,
  message_ip m = Some d -> ip_wf d /\ (0 <= destination_prefix_length m <= host_prefix d)%Z.

(** What the daemon's code does not look into. *)
Definition opaque (m : RouteMessage) : list (Z * list byte) :=
  omap (fun a => match a with Attribute k v => Some (k, v) | _ => None end) (attributes m).

(** ** The kernel *)

(** Table and priority of an entry, the choice among the entries of a table
    that cover an address, and what the route_manager crate makes of a route and
    takes for it when it deletes. *)
Class Fib (Route : Type) : Type := {
  fib_table : RouteMessage -> N;
  fib_priority : RouteMessage -> N;
  choose : list RouteMessage -> option RouteMessage;
  vpn_message : Route -> RouteMessage;
  vpn_deletes : Route -> RouteMessage -> bool;
}.

Definition MAIN_TABLE : N := 254.

(** The choice is the longest prefix, then the least priority value. *)
Class FibLaws (Route : Type) `{RouteLib Route} `{Fib Route} : Prop := {
  fib_opaque m m' : address_family m = address_family m' -> header_rest m = header_rest m' ->
    opaque m = opaque m' -> fib_table m = fib_table m' /\ fib_priority m = fib_priority m';
  choose_none l : choose l = None <-> l = [];
  choose_best l m : choose l = Some m -> m ∈ l /\ forall m', m' ∈ l ->
    (destination_prefix_length m' <= destination_prefix_length m)%Z /\
    (destination_prefix_length m' = destination_prefix_length m -> (fib_priority m <= fib_priority m')%N);
  vpn_entry r : fib_table (vpn_message r) = MAIN_TABLE /\
    destination_prefix_length (vpn_message r) = Z.of_N (prefix r) /\
    (message_ip (vpn_message r) = Some (destination r) \/ message_ip (vpn_message r) = None);
  vpn_deletes_main r m : vpn_deletes r m = true -> fib_table m = MAIN_TABLE /\
    destination_prefix_length m = Z.of_N (prefix r) /\
    (message_ip m = Some (destination r) \/ message_ip m = None);
  vpn_deletes_own r : vpn_deletes r (vpn_message r) = true;
}.

(** A policy rule that applies to the daemon's packets: the table it sends
    them to, and the entries it accepts (a suppressor or a throw route passes
    on to the next rule). *)
Record rule : Type := mkPolicy { rule_table : N; rule_accepts : RouteMessage -> bool }.

Section LinuxRoutes.
Context {Route : Type} `{FibLaws Route}.
Implicit Types (t : list RouteMessage) (m e : RouteMessage).

Definition candidates (table : N) t (ip : IpAddr) : list RouteMessage :=
  filter (fun m => fib_table m = table /\ fib_covers m ip) t.

Fixpoint fib_lookup (rules : list rule) t (ip : IpAddr) : option RouteMessage :=
  match rules with
  | [] => None
  | r :: rest =>
    match choose (candidates (rule_table r) t ip) with
    | Some m => if rule_accepts r m then Some m else fib_lookup rest t ip
    | None => fib_lookup rest t ip
    end
  end.

(** Entries that cannot stand beside each other in a table. *)
Definition same_entry m m' : bool :=
  bool_decide (fib_table m = fib_table m' /\ address_family m = address_family m' /\
    message_ip m = message_ip m' /\ destination_prefix_length m = destination_prefix_length m' /\
    fib_priority m = fib_priority m').

(** What a request does that succeeds. NLM_F_CREATE with NLM_F_REPLACE puts the entry in
    place of one that is the same. *)
Definition fib_call t (c : call Route RouteMessage) : list RouteMessage :=
  match c with
  | EndpointReplace e => filter (fun m => same_entry e m = false) t ++ [e]
  | EndpointDelete e => filter (fun m => same_entry e m = false) t
  | RouteAdd r => t ++ [vpn_message r]
  | RouteDelete r => filter (fun m => vpn_deletes r m = false) t
  | _ => t
  end.

Definition fib_after t (cs : list (call Route RouteMessage)) : list RouteMessage := foldl fib_call t cs.

(** One request after the other from the history [h]; one that fails changes
    nothing. *)
Fixpoint fib_run (o : os Route RouteMessage) (h : list (call Route RouteMessage)) t
    (cs : list (call Route RouteMessage)) : list RouteMessage :=
  match cs with
  | [] => t
  | c :: r => fib_run o (h ++ [c]) (if failure c (o h c) is None then fib_call t c else t) r
  end.

(** The exceptions of a session whose lookups are answered from [t]. *)
Definition exceptions (rules : list rule) t (peers : list IpAddr) : list RouteMessage :=
  omap (fun ip => found ← fib_lookup rules t ip;
                  match from_route ip found with Ok e => Some e | Err _ => None end) peers.

(** What [lookup] makes of the kernel's answers. *)
Definition kernel_answers (rules : list rule) t (o : os Route RouteMessage) (h : list (call Route RouteMessage))
    : Prop := forall ips ip,
  o (h ++ (EndpointLookup <$> ips)) (EndpointLookup ip) =
  match fib_lookup rules t ip with
  | Some found => from_route ip found
  | None => Err (io_other "no route to endpoint")
  end.

(** ** Exceptions *)

Lemma host_prefix_bits ip : host_prefix ip = Z.of_N (addr_bits ip).
Proof. by destruct ip. Qed.

Lemma exception_ip ip found : message_ip (exception_of ip found) = Some ip.
Proof.
  unfold message_ip, exception_of. cbn [attributes]. rewrite omap_app.
  assert (omap attribute_ip (omap replayed (attributes found)) = []) as ->; [|by destruct ip].
  induction (attributes found) as [|a l IH]; [done|]. cbn.
  destruct a as [[]| | | | | | | |]; cbn; done.
Qed.

Lemma exception_opaque ip found : opaque (exception_of ip found) = opaque found.
Proof.
  unfold opaque, exception_of. cbn [attributes]. rewrite omap_app. cbn. rewrite app_nil_r.
  induction (attributes found) as [|a l IH]; [done|]. cbn. destruct a as [[]| | | | | | | |]; cbn; by rewrite ?IH.
Qed.

Lemma exception_table ip found :
  fib_table (exception_of ip found) = fib_table found /\ fib_priority (exception_of ip found) = fib_priority found.
Proof. apply fib_opaque; [done | done | apply exception_opaque]. Qed.

(** Nothing but a host route to [ip] is the same as its exception. *)
Lemma same_exception ip found m :
  same_entry (exception_of ip found) m = true ->
  message_ip m = Some ip /\ destination_prefix_length m = host_prefix ip.
Proof.
  unfold same_entry. rewrite bool_decide_eq_true, exception_ip. cbn. intros (_ & _ & <- & <- & _). done.
Qed.

(** A host route covers its own address only. *)
Lemma host_covers m ip d :
  ip_wf d -> ip_wf ip -> message_ip m = Some d -> destination_prefix_length m = host_prefix d ->
  fib_covers m ip -> d = ip.
Proof.
  intros Hd Hi Em Ep [_ Hc]. rewrite Em, Ep, host_prefix_bits, N2Z.id in Hc. pose proof Hc as [Hf _].
  assert (addr_bits d = addr_bits ip) as E by (unfold addr_bits; by rewrite Hf).
  rewrite E in Hc. by apply prefix_covers_host.
Qed.

Lemma longest_covers m ip :
  fib_wf m -> ip_wf ip -> fib_covers m ip -> (host_prefix ip <= destination_prefix_length m)%Z ->
  message_ip m = Some ip /\ destination_prefix_length m = host_prefix ip.
Proof.
  intros Hw Hi Hc Hle. pose proof Hc as [_ Hm]. destruct (message_ip m) as [d|] eqn:Em.
  - destruct (Hw d Em) as [Hd [_ Hmax]]. destruct Hm as [Hf _].
    assert (host_prefix d = host_prefix ip) as E by (unfold host_prefix; by rewrite Hf).
    assert (destination_prefix_length m = host_prefix d) as Ep by lia.
    rewrite (host_covers m ip d) in * by done. done.
  - rewrite Hm in Hle. by destruct ip.
Qed.

(** ** The requests of a session *)

(** The requests that take effect. *)
Fixpoint effective (o : os Route RouteMessage) (h cs : list (call Route RouteMessage))
    : list (call Route RouteMessage) :=
  match cs with
  | [] => []
  | c :: r => (if failure c (o h c) is None then [c] else []) ++ effective o (h ++ [c]) r
  end.

Lemma fib_run_effective o h t cs : fib_run o h t cs = fib_after t (effective o h cs).
Proof.
  revert h t. induction cs as [|c cs IH]; intros h t; [done|]. cbn [fib_run effective]. rewrite IH.
  by destruct (failure c (o h c)).
Qed.

Lemma effective_app o h cs ds : effective o h (cs ++ ds) = effective o h cs ++ effective o (h ++ cs) ds.
Proof.
  revert h. induction cs as [|c cs IH]; intros h; cbn [effective app]; [by rewrite app_nil_r|].
  by rewrite IH, <- !app_assoc.
Qed.

Lemma effective_all o h cs : failures cs o h = [] -> effective o h cs = cs.
Proof.
  revert h. induction cs as [|c cs IH]; intros h; [done|]. cbn [failures effective].
  destruct (failure c (o h c)); [done|]. cbn. intros ?. by rewrite IH.
Qed.

Lemma effective_elem o h cs c : c ∈ effective o h cs -> c ∈ cs.
Proof.
  revert h. induction cs as [|c0 cs IH]; intros h; [done|]. cbn [effective].
  rewrite elem_of_app, elem_of_cons. intros [Hc|Hc%IH]; [|by right]. destruct (failure _ _); set_solver.
Qed.

Lemma fib_after_app t cs ds : fib_after t (cs ++ ds) = fib_after (fib_after t cs) ds.
Proof. apply foldl_app. Qed.

(** [e] is in place, and alone under its key. *)
Definition placed e t : Prop := e ∈ t /\ forall m, m ∈ t -> same_entry e m = true -> m = e.

Lemma replace_placed e e' t :
  (same_entry e e' = true -> e' = e) -> e' = e \/ placed e t ->
  placed e (fib_call t (EndpointReplace e')).
Proof.
  intros Huniq Hor. cbn. split.
  - apply elem_of_app. destruct Hor as [->|[He Hone]]; [right; by apply list_elem_of_singleton|].
    destruct (same_entry e' e) eqn:Es; [|left; by apply list_elem_of_filter].
    right. apply list_elem_of_singleton. symmetry. apply Huniq.
    unfold same_entry in *. rewrite bool_decide_eq_true in *. naive_solver.
  - intros m [[Hf Hm]%list_elem_of_filter|Hm%list_elem_of_singleton]%elem_of_app Hs; [|naive_solver].
    destruct Hor as [->|[_ Hone]]; [congruence | by apply Hone].
Qed.

Lemma replace_all_placed e er t :
  (forall e', e' ∈ er -> same_entry e e' = true -> e' = e) -> e ∈ er \/ placed e t ->
  placed e (fib_after t (EndpointReplace <$> er)).
Proof.
  revert t. induction er as [|e0 er IH]; intros t Huniq Hor.
  { destruct Hor as [[]%not_elem_of_nil|]; done. }
  cbn. apply IH; [intros e' He'; apply Huniq; by right|].
  destruct Hor as [[->|?]%elem_of_cons|?]; [right | by left | right];
    (apply (replace_placed _ e0); [apply Huniq; by left | by auto]).
Qed.

(** What a session requests apart from its exceptions. *)
Definition route_or_command (fr : list Route) (c : call Route RouteMessage) : Prop :=
  (exists r, (c = RouteDelete r \/ c = RouteAdd r) /\ r ∈ fr) \/ exists cmd, c = CommandOutput cmd.

Lemma rest_placed e (fr : list Route) rest t :
  (forall r, r ∈ fr -> vpn_deletes r e = false /\ same_entry e (vpn_message r) = false) ->
  Forall (route_or_command fr) rest -> placed e t -> placed e (fib_after t rest).
Proof.
  intros Hfr Hrest. revert t. induction Hrest as [|c rest Hc _ IH]; intros t [He Hone]; [done|].
  cbn [fib_after foldl]. apply IH. destruct Hc as [(r & [->| ->] & Hr)|(cmd & ->)]; cbn; [| |done];
    destruct (Hfr r Hr) as [Hd Hs]; split.
  - by apply list_elem_of_filter.
  - intros m [_ Hm]%list_elem_of_filter. by apply Hone.
  - apply elem_of_app. by left.
  - intros m [Hm|Hm%list_elem_of_singleton]%elem_of_app Hsm; [by apply Hone|]. subst m. congruence.
Qed.

(** Every entry was there before or is the session's. *)
Lemma fib_after_origin t cs m :
  m ∈ fib_after t cs ->
  m ∈ t \/ EndpointReplace m ∈ cs \/ exists r, RouteAdd r ∈ cs /\ m = vpn_message r.
Proof.
  revert t. induction cs as [|c cs IH]; intros t; [by left|]. cbn [fib_after foldl].
  intros [Hm|[Hm|(r & Hr & ->)]]%IH; [|right; left; by right | right; right; exists r; split; [by right|done]].
  destruct c; cbn in Hm; auto;
    try (apply elem_of_app in Hm as [Hm|Hm%list_elem_of_singleton]); subst;
    try (apply list_elem_of_filter in Hm as [_ Hm]); auto.
  - right. right. exists r. split; [by left | done].
  - right. left. by left.
Qed.

(** Requests that do not concern the entries of a table for an address. *)
Definition unrelated_call (table : N) (ip : IpAddr) (c : call Route RouteMessage) : Prop :=
  match c with
  | EndpointReplace e => forall m, m = e \/ same_entry e m = true -> fib_table m <> table \/ ~ fib_covers m ip
  | EndpointDelete _ => False
  | RouteAdd _ | RouteDelete _ => table <> MAIN_TABLE
  | _ => True
  end.

Lemma candidates_unrelated table ip cs t :
  Forall (unrelated_call table ip) cs -> candidates table (fib_after t cs) ip = candidates table t ip.
Proof.
  intros Hcs. revert t. induction Hcs as [|c cs Hc _ IH]; intros t; [done|]. cbn [fib_after foldl].
  unfold fib_after in IH. rewrite IH. clear IH. unfold candidates. destruct c; cbn in *; try done.
  - rewrite filter_app, filter_cons_False, filter_nil, app_nil_r; [done|].
    intros [E _]. rewrite (proj1 (vpn_entry _)) in E. congruence.
  - apply list_filter_filter_l. intros m [E _]. apply not_true_is_false. intros Hd.
    apply vpn_deletes_main in Hd as [Em _]. congruence.
  - rewrite filter_app, filter_cons_False, filter_nil, app_nil_r;
      [|intros [? ?]; by destruct (Hc e ltac:(by left))].
    apply list_filter_filter_l. intros m [? ?]. apply not_true_is_false. intros Hs.
    by destruct (Hc m ltac:(by right)).
Qed.

Lemma fib_lookup_chosen rules t ip m :
  fib_lookup rules t ip = Some m -> choose (candidates (fib_table m) t ip) = Some m.
Proof.
  induction rules as [|r rules IH]; cbn [fib_lookup]; [done|].
  destruct (choose (candidates (rule_table r) t ip)) as [m'|] eqn:E; [|exact IH].
  destruct (rule_accepts r m'); [|exact IH]. intros [= <-].
  pose proof (choose_best _ _ E) as [[[Et _] _]%list_elem_of_filter _]. by rewrite Et.
Qed.

Lemma chosen_candidate table t ip m :
  choose (candidates table t ip) = Some m -> m ∈ t /\ fib_table m = table /\ fib_covers m ip.
Proof. intros [[[??]?]%list_elem_of_filter _]%choose_best. done. Qed.

Lemma exceptions_spec rules t peers e :
  e ∈ exceptions rules t peers <->
  exists ip found, ip ∈ peers /\ fib_lookup rules t ip = Some found /\ from_route ip found = Ok e.
Proof.
  unfold exceptions. rewrite list_elem_of_omap. split.
  - intros (ip & Hip & (found & Hf & He)%bind_Some). destruct (from_route ip found) eqn:E; naive_solver.
  - intros (ip & found & Hip & Hf & He). exists ip. split; [done|]. rewrite Hf. cbn. by rewrite He.
Qed.

(** ** A configured session *)

Section Configured.
Context (config : TunSessionConfig) (name : string) (rules : list rule) (t0 : list RouteMessage).

Definition peers_of : list IpAddr := omap parse_proto_ip (peer_endpoints config).

(** All the exceptions take effect, and then some of the other requests. *)
Context (rest : list (call Route RouteMessage)).
Context (Hrest : Forall (route_or_command (filtered_routes config name)) rest).
Definition session_calls : list (call Route RouteMessage) :=
  (EndpointReplace <$> exceptions rules t0 peers_of) ++ rest.

Lemma session_call_cases c :
  c ∈ session_calls ->
  (exists e', c = EndpointReplace e' /\ e' ∈ exceptions rules t0 peers_of) \/
  route_or_command (filtered_routes config name) c.
Proof.
  rewrite Forall_forall in Hrest.
  intros [(e' & -> & He)%list_elem_of_fmap|Hc%Hrest]%elem_of_app; [left; by exists e' | by right].
Qed.

Context (added : list RouteMessage).

(** The tables once the device has brought its own routes and the session is
    configured. *)
Definition configured_fib : list RouteMessage := fib_after (t0 ++ added) session_calls.

Context (Hv : validate_config Linux config = Ok tt) (Hwf : Forall fib_wf t0).
Context (ip : IpAddr) (found : RouteMessage) (Hip : ip ∈ peers_of).
Context (Hfound : fib_lookup rules t0 ip = Some found) (Husable : usable found).
Context (Hadded : Forall (fun m => fib_covers m ip ->
  fib_table m = MAIN_TABLE /\ (destination_prefix_length m < host_prefix ip)%Z) added).
Abbreviation e := (exception_of ip found).

Lemma peer_wf ip' : ip' ∈ peers_of -> ip_wf ip'.
Proof. intros (a & _ & Ha)%list_elem_of_omap. by eapply parse_proto_ip_wf. Qed.

Lemma exception_member : e ∈ exceptions rules t0 peers_of.
Proof. apply exceptions_spec. exists ip, found. split_and!; [done..|]. by apply from_route_spec. Qed.

(** The other exceptions are host routes to other peers. *)
Lemma exceptions_other e' :
  e' ∈ exceptions rules t0 peers_of ->
  e' = e \/ exists ip' found', ip' <> ip /\ ip' ∈ peers_of /\ e' = exception_of ip' found'.
Proof.
  intros (ip' & found' & Hp & Hf & [_ ->]%from_route_spec)%exceptions_spec.
  destruct (decide (ip' = ip)) as [->|Hne]; [left; congruence | right; eauto].
Qed.

Lemma vpn_not_host (r : Route) m :
  r ∈ filtered_routes config name -> destination_prefix_length m = Z.of_N (prefix r) ->
  message_ip m = Some (destination r) \/ message_ip m = None ->
  ~ (message_ip m = Some ip /\ destination_prefix_length m = host_prefix ip).
Proof.
  intros Hr Ep Hd [Em Eh]. destruct (filtered_host_free Linux config name Hv) as [_ Hfree].
  assert (destination r = ip) as E by (destruct Hd; congruence).
  apply (Hfree r Hr); [|by rewrite E]. rewrite E. rewrite host_prefix_bits in Eh. lia.
Qed.

Lemma exception_placed : placed e configured_fib.
Proof.
  unfold configured_fib, session_calls. rewrite fib_after_app.
  apply (rest_placed _ (filtered_routes config name)); [|done|].
  - intros r Hr. split; apply not_true_is_false; intros Hs.
    + apply vpn_deletes_main in Hs as (_ & Ep & Hd). apply (vpn_not_host r e Hr Ep Hd).
      by rewrite exception_ip.
    + apply same_exception in Hs. destruct (vpn_entry r) as (_ & Ep & Hd).
      by apply (vpn_not_host r (vpn_message r)).
  - apply replace_all_placed; [|left; apply exception_member].
    intros e' [->|(ip' & found' & Hne & _ & ->)]%exceptions_other Hs; [done|].
    apply same_exception in Hs as [E _]. rewrite exception_ip in E. congruence.
Qed.

(** In the table of the former route the exception is the best entry. *)
Lemma exception_chosen : choose (candidates (fib_table found) configured_fib ip) = Some e.
Proof.
  destruct exception_placed as [He Hone]. destruct (exception_table ip found) as [Et Epr].
  pose proof (fib_lookup_chosen _ _ _ _ Hfound) as Hbest. pose proof (peer_wf ip Hip) as Hi.
  destruct (chosen_candidate _ _ _ _ Hbest) as (_ & _ & Hfc).
  assert (e ∈ candidates (fib_table found) configured_fib ip) as Hin.
  { apply list_elem_of_filter. split; [|done]. split; [done|]. split; [by destruct Hfc|].
    rewrite exception_ip. apply prefix_covers_self. }
  destruct (choose (candidates _ configured_fib ip)) as [m|] eqn:E.
  2:{ apply choose_none in E. rewrite E in Hin. by apply not_elem_of_nil in Hin. }
  destruct (chosen_candidate _ _ _ _ E) as (Hm & Hmt & Hmc).
  destruct (proj2 (choose_best _ _ E) e Hin) as [Hlen Hpri]. cbn in Hlen. f_equal.
  pose proof Hm as Hm1. apply fib_after_origin in Hm as [[Hm|Hm]%elem_of_app|[Hm|(r & Hr & ->)]].
  - (* an older host route yields to the exception, which has the best priority *)
    rewrite Forall_forall in Hwf.
    destruct (longest_covers m ip (Hwf m Hm) Hi Hmc Hlen) as [Em El].
    assert (m ∈ candidates (fib_table found) t0 ip) as Hc by by apply list_elem_of_filter.
    destruct (proj2 (choose_best _ _ Hbest) m Hc) as [Hfl Hfp].
    destruct (chosen_candidate _ _ _ _ Hbest) as (Hft & _ & _).
    destruct (longest_covers found ip (Hwf found Hft) Hi Hfc ltac:(lia)) as [_ Efl].
    apply Hone; [done|]. unfold same_entry. rewrite bool_decide_eq_true, exception_ip, Em, El, Et, Hmt.
    specialize (Hpri ltac:(cbn; lia)). specialize (Hfp ltac:(lia)). rewrite Epr in *.
    split_and!; [done | destruct Hfc, Hmc; cbn; congruence | done | done | lia].
  - rewrite Forall_forall in Hadded. destruct (Hadded m Hm Hmc) as [_ ?]. cbn in *. lia.
  - apply session_call_cases in Hm as [(e' & [= <-] & He')|[(r & [?|?] & _)|(cmd & ?)]]; try done.
    destruct (exceptions_other m He') as [->|(ip' & found' & Hne & Hp & ->)]; [done|].
    destruct Hne. apply (host_covers (exception_of ip' found') ip ip'); [by apply peer_wf | done | | done | done].
    apply exception_ip.
  - apply session_call_cases in Hr as [(e' & ? & _)|[(r' & [?|[= <-]] & Hr)|(cmd & ?)]]; try done.
    destruct (vpn_entry r) as (_ & Ep & Hd). destruct (filtered_host_free Linux config name Hv) as [Hfw _].
    rewrite Forall_forall in Hfw. destruct (Hfw r Hr) as [Hrw Hrp].
    exfalso. apply (vpn_not_host r (vpn_message r) Hr Ep Hd), longest_covers; [|done..].
    intros d Ed. destruct Hd as [Hd|Hd]; [|congruence]. assert (d = destination r) as -> by congruence.
    rewrite host_prefix_bits. split; [done|]. lia.
Qed.

(** Tables other than the peer's and the main one are as they were. *)
Lemma other_tables table :
  table <> fib_table found -> table <> MAIN_TABLE ->
  candidates table configured_fib ip = candidates table t0 ip.
Proof.
  intros Hne Hmain. unfold configured_fib. rewrite candidates_unrelated.
  - unfold candidates. rewrite filter_app. rewrite <- (app_nil_r (filter _ t0)) at 2. f_equal.
    apply filter_none. eapply Forall_impl; [exact Hadded|].
    intros m Hm [Et Hc]. destruct (Hm Hc). congruence.
  - apply Forall_forall. intros c [(e' & -> & He)|[(r & [->| ->] & _)|(cmd & ->)]]%session_call_cases; try done.
    cbn. intros m Hm. destruct (exceptions_other e' He) as [->|(ip' & found' & Hip' & Hp & ->)].
    + left. destruct (exception_table ip found) as [Et _].
      destruct Hm as [->|Hs]; [congruence|]. unfold same_entry in Hs. apply bool_decide_eq_true in Hs as [Es _].
      congruence.
    + right. intros Hc. apply Hip'. apply (host_covers m); [by apply peer_wf| |..|done];
        [by apply peer_wf | |]; (destruct Hm as [->|Hs]; [|by apply same_exception in Hs as []]).
      * apply exception_ip.
      * done.
Qed.

Lemma exception_found before r after :
  Forall (fun q => rule_table q <> MAIN_TABLE) before -> fib_lookup before t0 ip = None ->
  rule_table r = fib_table found -> rule_accepts r e = true ->
  fib_lookup (before ++ r :: after) configured_fib ip = Some e.
Proof.
  intros Hmain Hnone Hr Ha. induction Hmain as [|q before Hq _ IH]; cbn [app fib_lookup].
  - by rewrite Hr, exception_chosen, Ha.
  - cbn [fib_lookup] in Hnone. destruct (decide (rule_table q = fib_table found)) as [E|E].
    + rewrite E, exception_chosen. destruct (rule_accepts q e); [done|]. apply IH.
      destruct (choose _) as [m|]; [|done]. by destruct (rule_accepts q m).
    + rewrite (other_tables _ E Hq). destruct (choose _) as [m|]; [|by apply IH].
      destruct (rule_accepts q m); [done | by apply IH].
Qed.
End Configured.

(** ** Starting *)

Lemma resolve_exceptions rules t o h eps ers ips :
  kernel_answers rules t o h -> value (resolve_loop eps) o (h ++ (EndpointLookup <$> ips)) = Ok ers ->
  ers = exceptions rules t (omap parse_proto_ip eps) /\
  forall ip found, ip ∈ omap parse_proto_ip eps -> fib_lookup rules t ip = Some found -> usable found.
Proof.
  intros Hk. revert ips ers. induction eps as [|addr eps IH]; intros ips ers; unfold value; cbn [resolve_loop].
  { intros [= <-]. split; [done|]. by intros ip found ?%elem_of_nil. }
  destruct (parse_proto_ip addr) as [ip|] eqn:Ea; [|done]. unfold pbind, perform. rewrite Hk.
  destruct (fib_lookup rules t ip) as [found|] eqn:Ef; [|done].
  destruct (from_route ip found) as [e|] eqn:Er; [|done].
  rewrite <- app_assoc. change ([EndpointLookup ip] : list (call Route RouteMessage)) with
    ((EndpointLookup <$> [ip]) : list (call Route RouteMessage)). rewrite <- fmap_app. intros (es & Hes & Hret & _)%ptry_ok.
  apply IH in Hes as [-> Hu]. injection Hret as <-. unfold exceptions. cbn [omap list_omap]. rewrite Ea. split.
  - cbn [omap list_omap]. rewrite Ef. cbn. by rewrite Er.
  - intros ip' found' [->|Hip]%elem_of_cons Hf; [|by eapply Hu]. assert (found' = found) as -> by congruence.
    by apply from_route_spec in Er as [? _].
Qed.

Lemma linux_calls_rest fr (er : list RouteMessage) name servers domains :
  exists rest, linux_calls fr er name servers domains = (EndpointReplace <$> er) ++ rest /\
    Forall (route_or_command fr) rest.
Proof.
  exists (route_calls fr ++ linux_dns_calls name servers domains).
  unfold linux_calls. rewrite <- app_assoc. split; [done|]. apply Forall_app. split.
  - unfold route_calls. apply Forall_bind, Forall_forall. intros r Hr.
    repeat apply Forall_cons_2; [left; exists r; by auto .. | constructor].
  - unfold linux_dns_calls, resolvectl. destruct servers; (repeat apply Forall_cons_2; [right; by eexists .. | constructor]).
Qed.

Section Started.
Context (from_utf8_lossy : list byte -> string) (to_lowercase : string -> string).
Abbreviation platform := (linux_platform (Route:=Route) (Endpoint:=RouteMessage) from_utf8_lossy to_lowercase).
Abbreviation start_linux := (start (Platform0:=platform) None).

(** Up to here the session has looked up its peers and made its device. *)
Definition device_ready (config : TunSessionConfig) (h : list (call Route RouteMessage))
    : list (call Route RouteMessage) :=
  h ++ (EndpointLookup <$> peers_of config) ++ [DeviceBuild (expected_device Linux None config)] ++ ready_calls Linux.

Lemma linux_started config rules t0 o h s :
  validate_config Linux config = Ok tt -> kernel_answers rules t0 o h ->
  value (start_linux config) o h = Some (Ok s) ->
  let er := exceptions rules t0 (peers_of config) in
  let fr := filtered_routes config (ts_interface_name s) in
  let h1 := device_ready config h in
  exists cs rest, trace (start_linux config) o h = h1 ++ cs /\ Forall (route_or_command fr) rest /\
    (forall t, fib_run o h1 t cs = fib_after t (session_calls config rules t0 rest)) /\
    s = mkSession (ts_interface_name s) false
          (Some (cleanup_routes fr er (revert_dns from_utf8_lossy to_lowercase (ts_interface_name s)))) /\
    forall ip found, ip ∈ peers_of config -> fib_lookup rules t0 ip = Some found -> usable found.
Proof.
  intros Hv Hk Hok. cbn zeta.
  destruct (start_ok (Platform0:=platform) (PlatformLaws0:=linux_platform_laws _ _) None config o h s Hv Hok)
    as (ers & hook & Hres & _ & Ht & Hc & Hs). cbn [trace pret snd p_target p_prepare_session_start linux_platform] in *.
  destruct (resolve_exceptions rules t0 o h (peer_endpoints config) ers []) as [-> Hu];
    [done | by rewrite app_nil_r|]. fold (peers_of config) in *.
  rewrite <- app_assoc in *. fold (device_ready config h) in *. cbn [p_configure_session] in *.
  destruct (linux_configure_session_ok _ _ _ _ _ _ _ _ Hv Hc) as (servers & Htc & -> & Hf).
  destruct (linux_calls_rest (filtered_routes config (ts_interface_name s)) (exceptions rules t0 (peers_of config))
    (ts_interface_name s) servers (normalize_domains (config_domains config))) as (rest & Er & Hrest).
  rewrite Er in Htc. set (h1 := device_ready config h) in *. set (er := exceptions _ _ _) in *.
  exists (RouteManagerNew :: (EndpointReplace <$> er) ++ rest).
  exists (effective o ((h1 ++ [RouteManagerNew]) ++ (EndpointReplace <$> er)) rest). split_and!; [| | |done..].
  - etrans; [exact Ht|]. etrans; [exact Htc|]. by rewrite <- app_assoc.
  - apply Forall_forall. intros c Hc'%effective_elem. by apply (proj1 (Forall_forall _ _) Hrest).
  - intros t. rewrite fib_run_effective. cbn [effective]. rewrite effective_app, (effective_all _ _ _ Hf).
    by destruct (failure _ _).
Qed.

(** C27: on Linux, when a session was started, with whatever allowed prefixes
    and although the device has brought connected routes of its own, the
    kernel's answer for every peer is the exception made from the route it gave
    before the device existed: in the same table, with the same priority, next
    hops, source and metrics. This needs that no rule before the peer's sends
    the packets to the main table, where the tunnel's routes are, and that
    the peer's rule accepts the exception as it accepted the route. *)
Theorem linux_peers_bypass_tunnel config before r after t0 added o h s ip found :
  let rules := before ++ r :: after in
  let h1 := device_ready config h in
  validate_config Linux config = Ok tt -> Forall fib_wf t0 -> kernel_answers rules t0 o h ->
  value (start_linux config) o h = Some (Ok s) ->
  ip ∈ peers_of config -> fib_lookup rules t0 ip = Some found ->
  Forall (fun q => rule_table q <> MAIN_TABLE) before -> fib_lookup before t0 ip = None ->
  rule_table r = fib_table found -> rule_accepts r (exception_of ip found) = true ->
  Forall (fun m => fib_covers m ip ->
    fib_table m = MAIN_TABLE /\ (destination_prefix_length m < host_prefix ip)%Z) added ->
  let e := exception_of ip found in
  exists cs, trace (start_linux config) o h = h1 ++ cs /\
    fib_lookup rules (fib_run o h1 (t0 ++ added) cs) ip = Some e /\
    from_route ip found = Ok e /\ fib_table e = fib_table found /\ fib_priority e = fib_priority found /\
    (forall a, a ∈ attributes e <-> a = Destination (address ip) \/ a ∈ omap replayed (attributes found)).
Proof.
  intros rules h1 Hv Hwf Hk Hok Hip Hf Hmain Hnone Hr Ha Hadded e. destruct (exception_table ip found).
  destruct (linux_started config rules t0 o h s Hv Hk Hok) as (cs & rest & Ht & Hrest & Hrun & _ & Hu).
  exists cs. fold h1 in Ht, Hrun. split; [done|]. rewrite Hrun. fold (configured_fib config rules t0 rest added).
  specialize (Hu ip found Hip Hf).
  split_and!; [by eapply (exception_found config (ts_interface_name s)) | apply from_route_spec; by split | done | done |].
  intros a. cbn. rewrite elem_of_app, list_elem_of_singleton. tauto.
Qed.

(** ** Teardown *)

(** The entries a request takes away. *)
Definition displaces (c : call Route RouteMessage) m : bool :=
  match c with
  | EndpointReplace e | EndpointDelete e => same_entry e m
  | RouteDelete r => vpn_deletes r m
  | _ => false
  end.

Definition only_removes (c : call Route RouteMessage) : Prop :=
  match c with EndpointReplace _ | RouteAdd _ => False | _ => True end.

Lemma fib_after_survives cs t m :
  (forall c, c ∈ cs -> displaces c m = false) -> m ∈ t -> m ∈ fib_after t cs.
Proof.
  revert t. induction cs as [|c cs IH]; intros t Hcs Hm; [done|]. cbn [fib_after foldl].
  apply IH; [intros c' ?; apply Hcs; by right|]. specialize (Hcs c ltac:(by left)).
  destruct c; cbn in *; rewrite ?elem_of_app, ?list_elem_of_filter; auto.
Qed.

Lemma fib_after_removed cs t m :
  Forall only_removes cs -> m ∈ fib_after t cs -> m ∈ t /\ forall c, c ∈ cs -> displaces c m = false.
Proof.
  intros Hcs. revert t. induction Hcs as [|c cs Hc _ IH]; intros t; cbn [fib_after foldl].
  { intros Hm. split; [done|]. by intros c ?%elem_of_nil. }
  intros [Hm Hd]%IH. assert (m ∈ t /\ displaces c m = false) as [Ht Hc'].
  { destruct c; cbn in *; try done; by apply list_elem_of_filter in Hm as [? ?]. }
  split; [done|]. intros c' [->|Hin]%elem_of_cons; auto.
Qed.

Lemma same_entry_refl m : same_entry m m = true.
Proof. by apply bool_decide_eq_true. Qed.

(** The requests of a session and of a teardown without failures. *)
Lemma teardown_undoes config name rules t0 rest added m :
  let er := exceptions rules t0 (peers_of config) in
  let fr := filtered_routes config name in
  Forall (route_or_command fr) rest ->
  m ∈ fib_after (configured_fib config rules t0 rest added) (cleanup_calls true fr er) <->
  m ∈ t0 ++ added /\ (forall e, e ∈ er -> same_entry e m = false) /\
  (forall r, r ∈ fr -> vpn_deletes r m = false).
Proof.
  cbn zeta. set (er := exceptions _ _ _). set (fr := filtered_routes _ _). intros Hrest.
  assert (Forall only_removes (cleanup_calls true fr er)) as Hrem.
  { unfold cleanup_calls. constructor; [done|]. apply Forall_app. split; by apply Forall_fmap, Forall_forall. }
  split.
  - intros [Hm Hd]%fib_after_removed; [|done].
    assert ((forall e, e ∈ er -> same_entry e m = false) /\ (forall r, r ∈ fr -> vpn_deletes r m = false)) as [He Hr].
    { unfold cleanup_calls in Hd. split; [intros e He; apply (Hd (EndpointDelete e)) | intros r Hr; apply (Hd (RouteDelete r))];
        right; apply elem_of_app; [right | left]; apply list_elem_of_fmap_2; by rewrite elem_of_rev. }
    split; [|done]. apply fib_after_origin in Hm as [Hm|[Hm|(r & Hm & ->)]]; [done| |];
      apply (session_call_cases _ name) in Hm as [(e' & Ee & He')|[(r' & [Er|Er] & Hr')|(cmd & ?)]]; try done; exfalso.
    + injection Ee as <-. specialize (He m He'). by rewrite same_entry_refl in He.
    + injection Er as <-. specialize (Hr r Hr'). by rewrite vpn_deletes_own in Hr.
  - intros (Hm & He & Hr). apply fib_after_survives; [|apply fib_after_survives; [|done]].
    + unfold cleanup_calls. intros c [->|[(r & -> & Hc)%list_elem_of_fmap|(e & -> & Hc)%list_elem_of_fmap]%elem_of_app]%elem_of_cons;
        [done | apply Hr | apply He]; by apply elem_of_rev.
    + intros c [(e' & -> & He')|[(r' & [->| ->] & Hr')|(cmd & ->)]]%(session_call_cases _ name); cbn; auto.
Qed.

(** A hook that reports success has deleted everything. *)
Lemma hook_ok fr (er : list RouteMessage) name o h2 :
  let hook := cleanup_routes fr er (revert_dns from_utf8_lossy to_lowercase name) in
  exists ds, trace hook o h2 = h2 ++ ds /\
    (value hook o h2 = Ok tt -> forall t, fib_run o h2 t ds = fib_after t (cleanup_calls true fr er)).
Proof.
  cbn zeta. pose proof (cleanup_routes_run fr er (revert_dns from_utf8_lossy to_lowercase name) o h2) as Hrun.
  cbn zeta in Hrun. set (calls := cleanup_calls _ _ _) in *.
  pose proof (revert_dns_trace (Route:=Route) (Endpoint:=RouteMessage) from_utf8_lossy to_lowercase name o (h2 ++ calls)) as Ht.
  unfold trace, value in *. destruct (revert_dns _ _ name o (h2 ++ calls)) as [r h']. cbn [snd] in Ht. subst h'.
  rewrite Hrun. cbn [fst snd]. exists (calls ++ [resolvectl ["revert"; name]]). split; [by rewrite app_assoc|].
  intros Hok t. destruct (failures calls o h2) eqn:Ef; [|done].
  rewrite fib_run_effective, effective_app, (effective_all _ _ _ Ef), fib_after_app.
  assert (calls = cleanup_calls true fr er) as ->.
  { unfold calls, cleanup_calls in *. cbn [failures] in Ef. by destruct (o h2 RouteManagerNew). }
  cbn [effective]. by destruct (failure _ _).
Qed.

(** C29: after a session on Linux was started and its hook has reported
    success, the tables hold exactly what they held before, except for entries
    that an exception or a route of the tunnel had taken the place of. *)
Theorem linux_teardown_leaves_nothing config rules t0 added o h s h2 :
  validate_config Linux config = Ok tt -> kernel_answers rules t0 o h ->
  value (start_linux config) o h = Some (Ok s) ->
  let er := exceptions rules t0 (peers_of config) in
  let fr := filtered_routes config (ts_interface_name s) in
  let h1 := device_ready config h in
  exists hook cs ds, ts_cleanup_hook s = Some hook /\ trace (start_linux config) o h = h1 ++ cs /\
    trace hook o h2 = h2 ++ ds /\
    (value hook o h2 = Ok tt -> forall m,
       m ∈ fib_run o h2 (fib_run o h1 (t0 ++ added) cs) ds <->
       m ∈ t0 ++ added /\ (forall e, e ∈ er -> same_entry e m = false) /\
       (forall r, r ∈ fr -> vpn_deletes r m = false)).
Proof.
  intros Hv Hk Hok er fr h1.
  destruct (linux_started config rules t0 o h s Hv Hk Hok) as (cs & rest & Ht & Hrest & Hrun & Hs & _).
  destruct (hook_ok fr er (ts_interface_name s) o h2) as (ds & Hd & Hds).
  apply (f_equal ts_cleanup_hook) in Hs. eexists _, cs, ds. split; [exact Hs|]. split_and!; [done | done|].
  intros Hval m. rewrite (Hds Hval), Hrun. by apply teardown_undoes.
Qed.
End Started.
End LinuxRoutes.

(** ** Concrete tables *)

Module LinuxExamples.
Import PlatformExamples.

(** The table is the first byte of the header's rest, the priority the first
    byte of the attribute RTA_PRIORITY. *)
Definition ex_table (m : RouteMessage) : N :=
  match header_rest m with b :: _ => Z.to_N (u8z b) | [] => 0 end.
Definition ex_priority (m : RouteMessage) : N :=
  match head (List.filter (fun a => (a.1 =? 6)%Z) (opaque m)) with Some (_, b :: _) => Z.to_N (u8z b) | _ => 0 end.

Definition better (m m' : RouteMessage) : bool :=
  (destination_prefix_length m' <? destination_prefix_length m)%Z ||
  (destination_prefix_length m' =? destination_prefix_length m)%Z && (ex_priority m <=? ex_priority m')%N.

Definition ex_choose (l : list RouteMessage) : option RouteMessage :=
  foldr (fun m acc => match acc with
                      | Some m' => if better m m' then Some m else Some m'
                      | None => Some m
                      end) None l.

(** RTA_OIF; the interface is known by its name here. *)
Definition ex_oif (r : route) : Z * list byte := (4%Z, str_bytes (default "" (r_if_name r))).

Definition ex_message (r : route) : RouteMessage :=
  mkMessage (family_of (r_destination r)) (Z.of_N (r_prefix r)) (OtherProtocol 3) Unicast 0 [z_u8 254]
    ((if (r_prefix r =? 0)%N then [] else [Destination (address (r_destination r))]) ++
     [Attribute (ex_oif r).1 (ex_oif r).2]).

#[export] Instance ex_fib : Fib route := {|
  fib_table := ex_table;
  fib_priority := ex_priority;
  choose := ex_choose;
  vpn_message := ex_message;
  vpn_deletes r m := bool_decide (ex_table m = MAIN_TABLE /\
    destination_prefix_length m = Z.of_N (r_prefix r) /\ message_ip m = message_ip (ex_message r) /\
    ex_oif r ∈ opaque m);
|}.

Lemma ex_choose_none l : ex_choose l = None <-> l = [].
Proof.
  split; [|by intros ->]. destruct l as [|m l]; [done|]. cbn [ex_choose foldr].
  destruct (foldr _ _ _) as [m'|]; [destruct (better m m')|]; done.
Qed.

Lemma ex_choose_best l m :
  ex_choose l = Some m -> m ∈ l /\ forall m', m' ∈ l ->
    (destination_prefix_length m' <= destination_prefix_length m)%Z /\
    (destination_prefix_length m' = destination_prefix_length m -> (ex_priority m <= ex_priority m')%N).
Proof.
  revert m. induction l as [|x l IH]; intros m; [done|]. cbn [ex_choose foldr]. fold (ex_choose l).
  destruct (ex_choose l) as [y|] eqn:E.
  - destruct (IH y eq_refl) as [Hy Hbest]. unfold better.
    destruct (Z.ltb_spec (destination_prefix_length y) (destination_prefix_length x)),
      (Z.eqb_spec (destination_prefix_length y) (destination_prefix_length x)),
      (N.leb_spec (ex_priority x) (ex_priority y)); cbn [orb andb]; intros [= <-];
      (split; [set_solver|]); intros m' [->|Hm']%elem_of_cons;
      try (destruct (Hbest _ Hm') as [? Hle]); split; intros; try specialize (Hle ltac:(lia)); lia.
  - apply ex_choose_none in E as ->. intros [= <-]. split; [set_solver|].
    intros m' ->%list_elem_of_singleton. done.
Qed.

Lemma ex_message_ip r : message_ip (ex_message r) = Some (r_destination r) \/ message_ip (ex_message r) = None.
Proof.
  unfold message_ip, ex_message. cbn. destruct (r_prefix r =? 0)%N; [by right|].
  left. cbn. by destruct (r_destination r).
Qed.

#[export] Instance ex_fib_laws : FibLaws route.
Proof.
  split.
  - intros m m' _ Hr Ho. cbn. unfold ex_table, ex_priority. by rewrite Hr, Ho.
  - apply ex_choose_none.
  - apply ex_choose_best.
  - intros r. split_and!; [done | done | apply ex_message_ip].
  - intros r m (Ht & Hp & Hm & _)%bool_decide_eq_true. split_and!; [done | done |]. rewrite Hm. apply ex_message_ip.
  - intros r. apply bool_decide_eq_true. split_and!; [done..|]. unfold opaque. cbn [vpn_message ex_fib]. unfold ex_message. cbn [attributes].
    rewrite omap_app, elem_of_app. right. by apply list_elem_of_singleton.
Qed.

Definition entry (table : Z) (p : Z) (o : list Z) (gateway : Z) (priority : Z) : RouteMessage :=
  mkMessage Inet p (OtherProtocol 16) Unicast 0 [z_u8 table]
    ((if (p =? 0)%Z then [] else [Destination (AddrInet (z_u8 <$> o))]) ++
     [Attribute 5 [z_u8 gateway]; Attribute 6 [z_u8 priority]]).

Definition peer : IpAddr := V4 (z_u8 <$> [198; 51; 100; 1])%Z.
Definition uplink : RouteMessage := entry 254 0 [0; 0; 0; 0]%Z 1 100.
Definition connected : RouteMessage := entry 254 24 [10; 0; 0; 0]%Z 0 0.

(** The local table, the main one without its default routes, a table of the
    administrator's, the main one. *)
Definition accept_all (_ : RouteMessage) : bool := true.
Definition local_rule : rule := mkPolicy 255 accept_all.
Definition main_rule : rule := mkPolicy 254 accept_all.
Definition custom_rule : rule := mkPolicy 100 accept_all.

(** A system that answers lookups from [t], and on which everything works. *)
Definition ex_os (rules : list rule) (t : list RouteMessage) : os route RouteMessage := fun _ c =>
  match c as c return reply c with
  | EndpointLookup ip =>
    match fib_lookup rules t ip with
    | Some found => from_route ip found
    | None => Err (io_other "no route to endpoint")
    end
  | RouteFind _ => Ok None
  | CommandOutput _ => Ok (mkOutput true (Some 0%Z) [] [])
  | DeviceName => Ok "utun4"
  | RouteManagerNew | RouteAdd _ | RouteDelete _ | EndpointReplace _ | EndpointDelete _ | Which _
  | DeviceBuild _ | DeviceSetNonblocking | DeviceDrop | InterruptNew | InterruptTrigger => Ok tt
  end.

Definition ex_start : prog route RouteMessage (option (result TunSession string)) :=
  start (Platform0:=linux_platform (fun _ => "") (fun s => s)) None vpn_config.

(** The tables once the session was started. *)
Definition started_fib (rules : list rule) (t0 : list RouteMessage) : list RouteMessage :=
  let h1 := device_ready vpn_config [] in
  fib_run (ex_os rules t0) h1 (t0 ++ [connected]) (drop (length h1) (trace ex_start (ex_os rules t0) [])).

(** With the administrator's table after the main one, which had no route to
    the peer, the tunnel's default route captures the peer's packets: the
    exception stands in a table that is not reached. *)
Definition custom_uplink : RouteMessage := entry 100 0 [0; 0; 0; 0]%Z 1 0.

Example main_table_first :
  let rules := [local_rule; main_rule; custom_rule] in
  let t := started_fib rules [custom_uplink] in
  fib_lookup rules [custom_uplink] peer = Some custom_uplink /\
  exception_of peer custom_uplink ∈ t /\
  fib_lookup rules t peer = Some (ex_message (mkRoute (V4 (z_u8 <$> [0; 0; 0; 0]%Z)) 0 (Some "utun4"))).
Proof. cbn zeta. split_and!; [done | apply list_elem_of_lookup; exists 2; by vm_compute | by vm_compute]. Qed.

(** A host route to the peer that was there before the session is replaced by
    the exception, which the teardown deletes: it is not there any more. *)
Definition host_route : RouteMessage := entry 254 32 [198; 51; 100; 1]%Z 1 0.

Example host_route_lost :
  let rules := [local_rule; main_rule] in
  let t0 := [host_route; uplink] in
  fib_lookup rules t0 peer = Some host_route /\
  match value ex_start (ex_os rules t0) [] with
  | Some (Ok (mkSession _ _ (Some hook))) =>
    value hook (ex_os rules t0) [] = Ok tt /\
    fib_run (ex_os rules t0) [] (started_fib rules t0) (trace hook (ex_os rules t0) []) = [uplink; connected]
  | _ => False
  end.
Proof. by vm_compute. Qed.
End LinuxExamples.
Import PlatformExamples LinuxExamples.

Lemma linux_peers_bypass_tunnel_witness :
  let rules := [local_rule; main_rule] in
  exists cs, trace ex_start (ex_os rules [uplink]) [] = device_ready vpn_config [] ++ cs /\
    fib_lookup rules (fib_run (ex_os rules [uplink]) (device_ready vpn_config []) [uplink; connected] cs) peer =
      Some (exception_of peer uplink) /\
    fib_table (exception_of peer uplink) = 254%N /\ fib_priority (exception_of peer uplink) = 100%N.
Proof.
  cbn zeta. set (o := ex_os _ _).
  assert ((is_ok <$> value ex_start o []) = Some true) as Hok by (vm_compute; reflexivity).
  destruct (value ex_start o []) as [[s|]|] eqn:Es; [|discriminate Hok..].
  destruct (linux_peers_bypass_tunnel (fun _ => "") (fun s => s) vpn_config [local_rule] main_rule [] [uplink]
    [connected] o [] s peer uplink) as (cs & H1 & H2 & _ & H3 & H4 & _).
  - vm_compute. reflexivity.
  - constructor; [|constructor]. intros d Hd. discriminate Hd.
  - intros ips ip. reflexivity.
  - exact Es.
  - apply list_elem_of_lookup. exists 0. vm_compute. reflexivity.
  - vm_compute. reflexivity.
  - constructor; [vm_compute; discriminate | constructor].
  - vm_compute. reflexivity.
  - vm_compute. reflexivity.
  - vm_compute. reflexivity.
  - constructor; [|constructor]. intros [_ Hc]. exfalso. revert Hc. vm_compute. intros [_ Hc]. discriminate Hc.
  - exists cs. split; [exact H1|]. split; [exact H2|]. split; [exact H3 | exact H4].
Defined.

Lemma linux_teardown_leaves_nothing_witness :
  let rules := [local_rule; main_rule] in
  let o := ex_os rules [uplink] in
  exists s hook cs ds, value ex_start o [] = Some (Ok s) /\ ts_cleanup_hook s = Some hook /\
    trace ex_start o [] = device_ready vpn_config [] ++ cs /\ trace hook o [] = ds /\
    value hook o [] = Ok tt /\
    uplink ∈ fib_run o [] (fib_run o (device_ready vpn_config []) [uplink; connected] cs) ds.
Proof.
  cbn zeta. set (o := ex_os _ _).
  assert ((fun r => ts_interface_name <$> ok r) <$> value ex_start o [] = Some (Some "utun4")) as Hok by (vm_compute; reflexivity).
  assert (match value ex_start o [] with
          | Some (Ok (mkSession _ _ (Some hook))) => value hook o []
          | _ => Err ""
          end = Ok tt) as Hv by (vm_compute; reflexivity).
  destruct (value ex_start o []) as [[s|]|] eqn:Es; [|discriminate Hok..].
  destruct (linux_teardown_leaves_nothing (fun _ => "") (fun s => s) vpn_config [local_rule; main_rule] [uplink]
    [connected] o [] s []) as (hook & cs & ds & H1 & H2 & H3 & H4).
  - vm_compute. reflexivity.
  - intros ips ip. reflexivity.
  - exact Es.
  - exists s, hook, cs, ds. split; [reflexivity|]. split; [exact H1|]. split; [exact H2|]. split; [exact H3|].
    destruct s as [n b [hk|]]; [|discriminate Hv]. injection H1 as ->. split; [exact Hv|]. apply (H4 Hv). cbn in Hok. injection Hok as ->. split; [left|].
    split; intros x Hx; apply list_elem_of_lookup in Hx as [[|[|k]] Hk]; vm_compute in Hk; try discriminate Hk;
      injection Hk as <-; vm_compute; reflexivity.
Defined.
