(* ===== verification/LinuxDns.v ===== *)
(** * platform/linux.rs: the DNS settings of a session's link

    [resolvectl] keeps servers and domains for each network interface. Here its
    commands, as the daemon issues them with addresses and domains as text, act
    on the settings of the session's interface. The theorem says which settings
    a configured session has, and that the teardown and a failed configuration
    revert them. *)

From S2P Require Import Prelude RustStd Net NetText Proto IpUtil Validation Os Platform PlatformLinux.

(** ** Server arguments *)

(** First occurrences. *)
Fixpoint distinct (ips : list IpAddr) : list IpAddr :=
  match ips with
  | [] => []
  | ip :: r => ip :: filter (fun ip' => ip' <> ip) (distinct r)
  end.

Definition addresses (values : list Ip) : list IpAddr := omap parse_proto_ip values.

Lemma addresses_wf values : Forall ip_wf (addresses values).
Proof. apply Forall_forall. intros ip (a & _ & Ha)%list_elem_of_omap. by eapply parse_proto_ip_wf. Qed.

Lemma distinct_elem_of ip ips : ip ∈ distinct ips -> ip ∈ ips.
Proof.
  induction ips as [|ip0 ips IH]; [done|]. cbn [distinct]. rewrite !elem_of_cons, list_elem_of_filter. naive_solver.
Qed.

Lemma contains_text ip seen :
  ip_wf ip -> Forall ip_wf seen ->
  contains (ip_to_string ip) (ip_to_string <$> seen) = bool_decide (ip ∈ seen).
Proof.
  intros Hw Hs. rewrite Forall_forall in Hs. apply eq_true_iff_eq. rewrite contains_true, bool_decide_eq_true. split.
  - intros (ip' & E & Hin)%list_elem_of_fmap. apply ip_to_string_inj in E as ->; auto.
  - apply list_elem_of_fmap_2.
Qed.

Lemma ips_to_args_loop_distinct seen values args :
  Forall ip_wf seen -> ips_to_args_loop (ip_to_string <$> seen) values = Some args ->
  args = ip_to_string <$> seen ++ filter (fun ip => ip ∉ seen) (distinct (addresses values)).
Proof.
  revert seen. induction values as [|v values IH]; intros seen Hs; cbn [ips_to_args_loop].
  { intros [= <-]. cbn. by rewrite app_nil_r. }
  unfold proto_ip_to_string. destruct (parse_proto_ip v) as [ip|] eqn:Ev; [|done]. cbn [mbind option_bind].
  pose proof (parse_proto_ip_wf _ _ Ev) as Hw. rewrite contains_text by done.
  assert (addresses (v :: values) = ip :: addresses values) as ->.
  { unfold addresses. cbn. by rewrite Ev. }
  cbn [distinct]. case_bool_decide as Hin; intros Hr.
  - rewrite filter_cons_False by naive_solver. rewrite (list_filter_filter_l (fun ip => ip ∉ seen)); [by apply IH|].
    by intros ip' Hn ->.
  - change [ip_to_string ip] with (ip_to_string <$> [ip]) in Hr. rewrite <- fmap_app in Hr. apply IH in Hr as ->; [|apply Forall_app; by split; [|apply Forall_singleton]].
    rewrite filter_cons_True, <- app_assoc by done. cbn [app]. do 3 f_equal.
    rewrite list_filter_filter. apply list_filter_iff. intros ip'. set_solver.
Qed.

(** The arguments are the texts of the distinct addresses, in order, and the
    addresses can be read from them. *)
Lemma ips_to_args_distinct values args :
  ips_to_args values = Some args ->
  args = ip_to_string <$> distinct (addresses values) /\
  mapM parse_ip args = Some (distinct (addresses values)).
Proof.
  intros Ha. apply (ips_to_args_loop_distinct []) in Ha as ->; [|done]. cbn [app].
  rewrite filter_every by (apply Forall_forall; intros ip _; apply not_elem_of_nil).
  split; [done|]. apply mapM_Some_2, Forall2_fmap_l, Forall_Forall2_diag, Forall_forall.
  intros ip Hip. apply parse_ip_to_string. pose proof (addresses_wf values) as Hw. rewrite Forall_forall in Hw.
  apply Hw. by apply distinct_elem_of.
Qed.

(** ** The settings of a link *)

(** Its servers, and its domains, each marked if it only routes queries. *)
Record link : Type := mkLink { link_servers : list IpAddr; link_domains : list (bool * string) }.
Definition default_link : link := mkLink [] [].

Definition routing (domain : string) : bool * string := (true, domain).

Section LinkDns.
Context {Route Endpoint : Type} `{RouteLib Route}.
Context (from_utf8_lossy : list byte -> string) (to_lowercase : string -> string).
Implicit Types (o : os Route Endpoint) (h : list (call Route Endpoint)) (world : list (call Route Endpoint) -> link).
Abbreviation revert_dns :=
  (revert_dns (Route:=Route) (Endpoint:=Endpoint) from_utf8_lossy to_lowercase).
Abbreviation linux_setup := (linux_setup (Endpoint:=Endpoint) from_utf8_lossy to_lowercase).

(** [world h] is the link [name] once the requests of [h] have been made. Its
    settings change only by [resolvectl], and a [resolvectl] that reports
    success has done what its manual says: [revert] drops the settings, [dns]
    sets the servers, [domain] the domains, of which those after a tilde are
    used for routing only. *)
Record resolved (name : string) o world : Prop := {
  resolved_quiet h c : quiet_call c -> world (h ++ [c]) = world h;
  resolved_revert h : let c := resolvectl ["revert"; name] in
    completed (o h c) = true -> world (h ++ [c]) = default_link;
  resolved_dns h args ips : let c := resolvectl (["dns"; name] ++ args) in
    mapM parse_ip args = Some ips -> args <> [] -> completed (o h c) = true ->
    world (h ++ [c]) = mkLink ips (link_domains (world h));
  resolved_domain h domains : let c := resolvectl (["domain"; name] ++ ((fun d => "~" +:+ d) <$> domains)) in
    Forall hostname_spec domains -> domains <> [] -> completed (o h c) = true ->
    world (h ++ [c]) = mkLink (link_servers (world h)) (routing <$> domains);
}.

Lemma revert_dns_run name o h :
  trace (revert_dns name) o h = h ++ [resolvectl ["revert"; name]] /\
  is_ok (value (revert_dns name) o h) = completed (o h (resolvectl ["revert"; name])).
Proof.
  split; [apply revert_dns_trace|]. unfold PlatformLinux.revert_dns, pmap, value. rewrite pbind_run. cbn [pret fst].
  unfold resolvectl. rewrite <- (run_command_completed from_utf8_lossy to_lowercase "revert-dns").
  by destruct (value (run_command _ _ _ _ _ _ _ _) o h).
Qed.

(** What a successful set-up has done to the link. *)
Lemma linux_setup_link fr er name servers ips domains o world h :
  resolved name o world -> mapM parse_ip servers = Some ips -> Forall hostname_spec domains ->
  (servers = [] <-> domains = []) ->
  let setup := linux_setup fr er name servers ((fun d => "~" +:+ d) <$> domains) in
  value setup o h = Ok tt ->
  world (trace setup o h) = mkLink ips (routing <$> domains).
Proof.
  intros Hw Hips Hdom Hboth setup. unfold setup, PlatformLinux.linux_setup.
  intros ([] & Ha & Hk & ->)%ptry_ok.
  apply ptry_ok in Hk as ([] & Hrev & Hk & ->). set (h1 := trace (add_routes_with_predelete fr er) o h) in *.
  destruct (revert_dns_run name o h1) as [Ht Hc]. rewrite Hrev in Hc. rewrite Ht in *. clear Ht Hrev.
  pose proof (resolved_revert _ _ _ Hw h1 (eq_sym Hc)) as Hdef. set (h2 := h1 ++ _) in *.
  destruct servers as [|s l].
  - rewrite (proj1 Hboth eq_refl), bool_decide_false by naive_solver. cbn. rewrite Hdef. by injection Hips as <-.
  - rewrite !bool_decide_true in * by (try done; intros E%fmap_nil_inv; naive_solver). cbn [andb] in *.
    apply ptry_ok in Hk as (out & Hdns & Hk & ->). apply ptry_ok in Hk as (out' & Hd & _ & ->).
    unfold trace at 1. cbn [pret snd]. rewrite !run_command_trace in *.
    pose proof (resolved_dns _ _ _ Hw h2 _ _ Hips ltac:(done)) as Eq1.
    unfold resolvectl in Eq1. cbn zeta in Eq1.
    rewrite <- (run_command_completed from_utf8_lossy to_lowercase "set-dns"), Hdns in Eq1. specialize (Eq1 eq_refl).
    set (h3 := h2 ++ _) in *.
    pose proof (resolved_domain _ _ _ Hw h3 _ Hdom ltac:(naive_solver)) as Eq2.
    unfold resolvectl in Eq2. cbn zeta in Eq2.
    rewrite <- (run_command_completed from_utf8_lossy to_lowercase "set-domains"), Hd in Eq2. specialize (Eq2 eq_refl).
    by rewrite Eq2, Eq1.
Qed.

(** The teardown ends with the revert, and reports it. *)
Lemma cleanup_reverts fr er name o world h :
  resolved name o world ->
  let hook := cleanup_routes fr er (revert_dns name) in
  let revert := resolvectl ["revert"; name] in
  exists h1, trace hook o h = h1 ++ [revert] /\
    (completed (o h1 revert) = true -> world (trace hook o h) = default_link) /\
    (value hook o h = Ok tt -> world (trace hook o h) = default_link).
Proof.
  intros Hw hook revert.
  destruct (cleanup_ends fr er (revert_dns name) _ o h (revert_dns_run name o)) as (h1 & Ht & Hv).
  exists h1. fold hook in Ht, Hv. rewrite Ht. pose proof (resolved_revert _ _ _ Hw h1) as Hdef. auto.
Qed.

(** C28: DNS of a Linux session, down to the link. On a machine whose settings
    for the session's interface change only by [resolvectl], an accepted
    configuration that is set up leaves there exactly its distinct server
    addresses, in order, and its domains, for routing only; teardown, at any
    later time, ends by reverting the link, and reports success only if it
    is reverted; and a configuration that fails reverts whatever it had set,
    unless no route manager could be opened and the link was not touched. *)
Theorem linux_session_link config name er o world h :
  validate_config Linux config = Ok tt -> resolved name o world ->
  let p := linux_configure_session from_utf8_lossy to_lowercase config name er in
  let revert := resolvectl ["revert"; name] in
  match value p o h with
  | None => False
  | Some (Ok hook) =>
    world (trace p o h) = mkLink (distinct (addresses (config_servers config)))
                                 (routing <$> normalize_domains (config_domains config)) /\
    (forall h', exists h1, trace hook o h' = h1 ++ [revert] /\
       (completed (o h1 revert) = true -> world (trace hook o h') = default_link) /\
       (value hook o h' = Ok tt -> world (trace hook o h') = default_link))
  | Some (Err _) =>
    world (trace p o h) = world h \/
    exists h1, trace p o h = h1 ++ [revert] /\
      (completed (o h1 revert) = true -> world (trace p o h) = default_link)
  end.
Proof.
  intros Hv Hw p revert. destruct (valid_dns_args _ _ Hv) as (servers & Hs & Hboth).
  destruct (ips_to_args_distinct _ _ Hs) as [_ Hips].
  pose proof (linux_configure_session_run from_utf8_lossy to_lowercase config name er servers o h Hs) as E.
  assert (p o h = (value p o h, trace p o h)) as Ep by (unfold value, trace; by destruct (p o h)).
  cbn zeta in E. fold p in E. rewrite Ep in E. destruct (o h RouteManagerNew) as [[]|e]; injection E as -> ->;
    [|left; by apply (resolved_quiet _ _ _ Hw)].
  clear Ep p. set (domains := normalize_domains _) in *. set (h0 := h ++ _).
  set (setup := linux_setup _ _ _ _ _). unfold value at 1, trace at 1 5 6 7.
  rewrite pbind_run. destruct (value setup o h0) as [[]|e] eqn:Es; cbn [into_cleanup_hook pret fst snd].
  - split; [|intros h'; by apply cleanup_reverts].
    apply linux_setup_link; try done. by apply (valid_domains Linux).
  - rewrite pbind_run.
    destruct (cleanup_reverts (filtered_routes config name) er name o world (trace setup o h0) Hw)
      as (h1 & Ht & Hclear & _).
    destruct (value (cleanup_routes _ _ _) o _); cbn [pret fst snd]; right; exists h1; by rewrite Ht in *.
Qed.
End LinkDns.

(** ** A concrete link *)

Module LinkExamples.
Import PlatformExamples.

Definition ex_domain (s : string) : bool * string :=
  match s with String c d => if decide (String c EmptyString = "~") then (true, d) else (false, s) | _ => (false, s) end.

Definition ex_step (l : link) (c : call route unit) : link :=
  match c with
  | CommandOutput (mkCommand _ args _ _) =>
    match args with
    | verb :: _ :: rest =>
      if decide (verb = "revert") then default_link
      else if decide (verb = "dns") then mkLink (omap parse_ip rest) (link_domains l)
      else mkLink (link_servers l) (ex_domain <$> rest)
    | _ => l
    end
  | _ => l
  end.

(** The link had a server of its own. *)
Definition stale : link := mkLink [V4 (z_u8 <$> [192; 0; 2; 53]%Z)] [].
Definition ex_world (h : list (call route unit)) : link := foldl ex_step stale h.

Lemma mapM_omap {A B} (f : A -> option B) l k : mapM f l = Some k -> omap f l = k.
Proof. intros H%mapM_Some_1. induction H as [|x y l k Hx _ IH]; [done|]. cbn. by rewrite Hx, IH. Qed.

Lemma ex_resolved : resolved "utun4" working ex_world.
Proof.
  unfold ex_world. split; cbn zeta; intros h; setoid_rewrite foldl_app.
  - intros c Hq. destruct c; try done. exfalso. by eapply Hq.
  - done.
  - intros args ips Hips _ _. cbn. by rewrite (mapM_omap _ _ _ Hips).
  - intros domains _ _ _. cbn. f_equal. rewrite <- list_fmap_compose. by apply list_fmap_ext.
Qed.
End LinkExamples.
Import PlatformExamples LinkExamples.

Lemma linux_session_link_witness :
  let p := linux_configure_session (fun _ => "") (fun s => s) vpn_config "utun4" [tt] in
  exists hook, value p working [] = Some (Ok hook) /\
    ex_world (trace p working []) =
      mkLink [V4 (z_u8 <$> [10; 0; 0; 1]%Z)] [(true, "corp.example")] /\
    (value hook working (trace p working []) = Ok tt ->
     ex_world (trace hook working (trace p working [])) = default_link).
Proof.
  cbn zeta.
  pose proof (linux_session_link (fun _ => "") (fun s => s) vpn_config "utun4" [tt] working ex_world []
    ltac:(vm_compute; reflexivity) ex_resolved) as H. cbn zeta in H.
  set (p := linux_configure_session _ _ _ _ _) in *.
  assert (option_map is_ok (value p working []) = Some true) as E by (vm_compute; reflexivity).
  destruct (value p working []) as [[hook|]|]; [|discriminate E|discriminate E].
  exists hook. destruct H as [H1 H2]. split; [reflexivity|]. split; [rewrite H1; vm_compute; reflexivity|].
  destruct (H2 (trace p working [])) as (h1 & _ & _ & H3). exact H3.
Defined.
