(* ===== verification/WindowsRoutes.v ===== *)
(** * platform/windows.rs and endpoint_windows.rs: where a peer's packets go

    On Windows a session's exceptions and routes go into the one table of the
    system, in which the longest prefix wins and then the least metric. Here the
    requests of a whole run of [start], with those of endpoint_windows.rs behind
    its endpoint requests, act on that table; any of them may fail. The theorem:
    once a session is started the kernel's choice for every peer is the
    exception made from the route it chose before the device existed. *)

From S2P Require Import Prelude RustStd Net Proto IpUtil Validation Os Platform PlatformWindows EndpointWindows.
From S2P Require Import Session.
From Stdlib Require Import Lia.

Section WindowsRoutes.
Context {Route : Type} `{WindowsRoute Route}.
Implicit Types (k o : os Route Route) (h cs : list (call Route Route)) (t : list Route) (r e : Route).

(** ** Requests *)

(** The endpoint requests of a session are the functions of endpoint_windows.rs. *)
Definition implement (c : call Route Route) : prog Route Route (reply c) :=
  match c as c return prog Route Route (reply c) with
  | EndpointLookup ip => lookup ip
  | EndpointReplace e => replace e
  | EndpointDelete e => delete e
  | c => perform c
  end.

(** What the system is asked in a run whose requests are [cs]. *)
Definition requests k h cs : list (call Route Route) := foldl (fun h c => trace (implement c) k h) h cs.

(** What a session sees of the system [k]. *)
Definition windows_os k : os Route Route := fun h c => value (implement c) k (requests k [] h).

(** ** The table *)

(** Which routes a deletion takes for its own and an addition for existing, the
    kernel's choice, and the metric it compares. *)
Context (same : Route -> Route -> bool) (find_route : list Route -> IpAddr -> option Route) (rank : Route -> N).

Definition covers (r : Route) (ip : IpAddr) : Prop := prefix_covers (destination r) (prefix r) ip.

(** The choice is the longest prefix, then the least metric, which depends on
    the interface and the route's own metric. *)
Class KernelLaws : Prop := {
  same_prefix r r' : same r r' = true -> destination r' = destination r /\ prefix r' = prefix r;
  rank_fields r r' : f_if_name (fields r) = f_if_name (fields r') ->
    f_if_index (fields r) = f_if_index (fields r') -> f_luid (fields r) = f_luid (fields r') ->
    f_metric (fields r) = f_metric (fields r') -> rank r = rank r';
  find_route_none t ip : find_route t ip = None <-> forall r, r ∈ t -> ~ covers r ip;
  find_route_some t ip r : find_route t ip = Some r ->
    r ∈ t /\ covers r ip /\ forall r', r' ∈ t -> covers r' ip ->
      (prefix r' <= prefix r)%N /\ (prefix r' = prefix r -> (rank r <= rank r')%N);
}.

(** What a request does that succeeds; a new device brings routes of its own. *)
Context (brings : list Route).

Definition table_call t (c : call Route Route) : list Route :=
  match c with
  | RouteAdd r => t ++ [r]
  | RouteDelete r => filter (fun r' => same r r' = false) t
  | DeviceBuild _ => t ++ brings
  | _ => t
  end.

Fixpoint table_run k h t cs : list Route :=
  match cs with
  | [] => t
  | c :: r => table_run k (h ++ [c]) (if failure c (k h c) is None then table_call t c else t) r
  end.

Context (t0 : list Route).

Definition table k h : list Route := table_run k [] t0 h.

(** The kernel answers lookups from its table, if at all, and does not add a
    route that is there already. *)
Record kernel_ok k : Prop := mkKernelOk {
  answers h ip found : k h (RouteFind ip) = Ok found -> found = find_route (table k h) ip;
  refuses h r r' : k h (RouteAdd r) = Ok tt -> r' ∈ table k h -> same r r' = false;
}.

(** The table a session has left after the requests [h]. *)
Definition seen k h : list Route := table k (requests k [] h).

(** *** Lemmas *)

Lemma table_run_snoc k h t cs c :
  table_run k h t (cs ++ [c]) =
    if failure c (k (h ++ cs) c) is None then table_call (table_run k h t cs) c else table_run k h t cs.
Proof.
  revert h t. induction cs as [|d cs IH]; intros h t; cbn [table_run app]; [by rewrite app_nil_r|].
  rewrite IH. by rewrite <- app_assoc.
Qed.

Lemma table_snoc k h c :
  table k (h ++ [c]) = if failure c (k h c) is None then table_call (table k h) c else table k h.
Proof. apply (table_run_snoc k []). Qed.

Lemma requests_snoc k h cs c : requests k h (cs ++ [c]) = trace (implement c) k (requests k h cs).
Proof. unfold requests. by rewrite foldl_app. Qed.

(** What a request may add to the table, and what it may take away. *)
Definition adds (c : call Route Route) (r : Route) : Prop :=
  match c with
  | EndpointReplace e => r = e
  | RouteAdd r' => r = r'
  | DeviceBuild _ => r ∈ brings
  | _ => False
  end.

Definition deletes (c : call Route Route) (r : Route) : Prop :=
  match c with
  | EndpointReplace e | EndpointDelete e => same e r = true
  | RouteDelete r' => same r' r = true
  | _ => False
  end.

Definition moved (c : call Route Route) t t' : Prop :=
  (forall r, r ∈ t' -> r ∈ t \/ adds c r) /\ (forall r, r ∈ t -> r ∈ t' \/ deletes c r).

Lemma table_call_moved t c : moved c t (table_call t c).
Proof.
  split; intros r Hr; destruct c; cbn in *; auto.
  - apply elem_of_app in Hr as [?|?%list_elem_of_singleton]; auto.
  - apply list_elem_of_filter in Hr as [_ ?]. auto.
  - apply elem_of_app in Hr as [?|?]; auto.
  - left. apply elem_of_app. auto.
  - destruct (same r0 r) eqn:E; [by right | left; by apply list_elem_of_filter].
  - left. apply elem_of_app. auto.
Qed.

Lemma moved_refl c t : moved c t t.
Proof. split; auto. Qed.

Lemma table_moved k h c : moved c (table k h) (table k (h ++ [c])).
Proof. rewrite table_snoc. destruct (failure c (k h c)); [apply moved_refl | apply table_call_moved]. Qed.

(** Opening the route manager and looking a route up change nothing. *)
Lemma table_manager k h : table k (h ++ [RouteManagerNew]) = table k h.
Proof. rewrite table_snoc. by destruct (failure _ _). Qed.

Lemma table_find k h ip : table k (h ++ [RouteFind ip]) = table k h.
Proof. rewrite table_snoc. by destruct (failure _ _). Qed.

(** [lookup] changes nothing, and finds the exception made from the kernel's choice. *)
Lemma lookup_table k h ip :
  kernel_ok k ->
  table k (trace (lookup ip) k h) = table k h /\
  (forall e, value (lookup ip) k h = Ok e ->
     exists r0, find_route (table k h) ip = Some r0 /\ e = from_route ip r0).
Proof.
  intros Hk. unfold value, trace, lookup, pbind, perform.
  destruct (k h RouteManagerNew) as [[]|err]; cbn [fst snd pret]; [|by rewrite table_manager].
  assert (table k ((h ++ [RouteManagerNew]) ++ [RouteFind ip]) = table k h) as Ht
    by by rewrite table_find, table_manager.
  destruct (k (h ++ [RouteManagerNew]) (RouteFind ip)) as [[found|]|err] eqn:Ef; cbn [fst snd pret];
    (split; [exact Ht|]); try done.
  intros e [= <-]. apply (answers k Hk) in Ef. rewrite table_manager in Ef. by exists found.
Qed.

(** [replace]: its route is in the table once it has succeeded, alone among
    those that are the same. *)
Lemma replace_table k h e :
  kernel_ok k ->
  moved (EndpointReplace e) (table k h) (table k (trace (replace e) k h)) /\
  (value (replace e) k h = Ok tt ->
   e ∈ table k (trace (replace e) k h) /\
   forall r, r ∈ table k (trace (replace e) k h) -> same e r = true -> r = e).
Proof.
  intros Hk. unfold value, trace, replace, pbind, perform.
  destruct (k h RouteManagerNew) as [[]|err]; cbn [fst snd pret];
    [|rewrite table_manager; split; [apply moved_refl | done]].
  set (h1 := h ++ [RouteManagerNew]). set (h2 := h1 ++ [RouteDelete e]).
  assert (table k h1 = table k h) as E1 by apply table_manager.
  destruct (table_moved k h1 (RouteDelete e)) as [Hd1 Hd2]. fold h2 in Hd1, Hd2. rewrite E1 in Hd1, Hd2.
  destruct (table_moved k h2 (RouteAdd e)) as [Ha1 Ha2]. cbn [adds deletes] in *. split.
  - split; cbn [adds deletes]; [intros r [[?|[]]%Hd1|?]%Ha1; auto|].
    intros r [Hr|?]%Hd2; [|by right]. destruct (Ha2 r Hr) as [?|[]]. by left.
  - intros Hok. rewrite table_snoc, Hok. cbn.
    split; [apply elem_of_app; right; by apply list_elem_of_singleton|].
    intros r [Hr|Hr%list_elem_of_singleton]%elem_of_app Hs; [|done].
    rewrite (refuses k Hk h2 e r Hok Hr) in Hs. done.
Qed.

Lemma delete_table k h e : moved (EndpointDelete e) (table k h) (table k (trace (delete e) k h)).
Proof.
  unfold trace, delete, pbind, perform.
  destruct (k h RouteManagerNew) as [[]|err]; cbn [fst snd pret]; [|rewrite table_manager; apply moved_refl].
  rewrite <- (table_manager k h). apply (table_moved k (h ++ [RouteManagerNew]) (RouteDelete e)).
Qed.

Lemma seen_moved k h c : kernel_ok k -> moved c (seen k h) (seen k (h ++ [c])).
Proof.
  intros Hk. unfold seen. rewrite requests_snoc. destruct c; try apply table_moved.
  - cbn [implement]. rewrite (proj1 (lookup_table _ _ _ Hk)). apply moved_refl.
  - by apply replace_table.
  - apply delete_table.
Qed.

(** A run: where its routes come from, and what it keeps. *)
Lemma seen_origin k h cs r :
  kernel_ok k -> r ∈ seen k (h ++ cs) -> r ∈ seen k h \/ exists c, c ∈ cs /\ adds c r.
Proof.
  intros Hk. revert h. induction cs as [|c cs IH]; intros h; [rewrite app_nil_r; by left|].
  change (c :: cs) with ([c] ++ cs). rewrite app_assoc. intros [Hr|(c' & Hc & Ha)]%IH.
  - apply (seen_moved k h c Hk) in Hr as [?|?]; [by left|]. right. exists c. split; [by left | done].
  - right. exists c'. split; [by right | done].
Qed.

(** [e] is in the table, alone among those that are the same. *)
Definition placed e t : Prop := e ∈ t /\ forall r, r ∈ t -> same e r = true -> r = e.

Definition spares e (c : call Route Route) : Prop :=
  ~ deletes c e /\ forall r, adds c r -> same e r = true -> r = e.

Lemma seen_placed k h cs e :
  kernel_ok k -> Forall (spares e) cs -> placed e (seen k h) -> placed e (seen k (h ++ cs)).
Proof.
  intros Hk Hcs. revert h. induction Hcs as [|c cs [Hd Ha] _ IH]; intros h Hp; [by rewrite app_nil_r|].
  change (c :: cs) with ([c] ++ cs). rewrite app_assoc. apply IH. destruct Hp as [He Hone].
  destruct (seen_moved k h c Hk) as [H1 H2]. split; [by destruct (H2 e He)|].
  intros r Hr Hs. destruct (H1 r Hr); auto.
Qed.

Lemma replace_answered e (x : result unit io_error) :
  option_list (failure (Route:=Route) (EndpointReplace e) x) ++ [] = [] -> x = Ok tt.
Proof. by destruct x as [[]|]. Qed.

(** The exceptions of a session, all of them placed. *)
Lemma replaced_all k h er e :
  kernel_ok k -> failures (EndpointReplace <$> er) (windows_os k) h = [] ->
  (forall e', e' ∈ er -> e' = e \/ spares e (EndpointReplace e')) -> e ∈ er \/ placed e (seen k h) ->
  placed e (seen k (h ++ (EndpointReplace <$> er))).
Proof.
  intros Hk. revert h. induction er as [|e0 er IH]; intros h Hf Hall Hor.
  { rewrite app_nil_r. by destruct Hor as [?%elem_of_nil|?]. }
  change (EndpointReplace <$> e0 :: er) with ([EndpointReplace e0] ++ (EndpointReplace <$> er) : list (call Route Route)) in *.
  rewrite app_assoc. rewrite failures_app in Hf. apply app_nil in Hf as [Hf0 Hf].
  apply IH; [done | intros e' He'; apply Hall; by right |].
  assert (e0 = e -> placed e (seen k (h ++ [EndpointReplace e0]))) as Hnew.
  { intros ->. unfold seen. rewrite requests_snoc. apply (replace_table k (requests k [] h) e Hk).
    exact (replace_answered e _ Hf0). }
  destruct Hor as [[<-|He]%elem_of_cons|Hp]; [right; by apply Hnew | by left | right].
  destruct (Hall e0 ltac:(by left)) as [->|Hs]; [by apply Hnew|].
  apply seen_placed; [done | by apply Forall_singleton | done].
Qed.

(** ** Starting *)

Definition route_wf (r : Route) : Prop := ip_wf (destination r) /\ (prefix r <= addr_bits (destination r))%N.

Definition peers_of (config : TunSessionConfig) : list IpAddr := omap parse_proto_ip (peer_endpoints config).

Lemma seen_lookups k h ips : kernel_ok k -> seen k (h ++ (EndpointLookup <$> ips)) = seen k h.
Proof.
  intros Hk. revert h. induction ips as [|ip ips IH]; intros h; [by rewrite app_nil_r|].
  change (EndpointLookup <$> ip :: ips) with ([EndpointLookup ip] ++ (EndpointLookup <$> ips) : list (call Route Route)).
  rewrite app_assoc, IH. unfold seen. rewrite requests_snoc. apply (lookup_table _ _ _ Hk).
Qed.

(** Every exception of a session is made from the kernel's choice for its peer,
    and every peer has one. *)
Lemma resolve_found k h eps ers :
  kernel_ok k -> value (resolve_loop eps) (windows_os k) h = Ok ers ->
  Forall2 (fun ip e => exists r0, find_route (seen k h) ip = Some r0 /\ e = from_route ip r0)
    (omap parse_proto_ip eps) ers.
Proof.
  intros Hk. revert h ers. induction eps as [|addr eps IH]; intros h ers; unfold value; cbn [resolve_loop].
  { intros [= <-]. constructor. }
  cbn [omap list_omap]. destruct (parse_proto_ip addr) as [ip|] eqn:Ea; [|done]. unfold pbind, perform.
  destruct (windows_os k h (EndpointLookup ip)) as [e|] eqn:El; [|done].
  intros (es & Hes & Hret & _)%ptry_ok. injection Hret as <-. constructor.
  - by apply (lookup_table k (requests k [] h) ip Hk).
  - apply IH in Hes. by rewrite (seen_lookups k h [ip] Hk : seen k (h ++ [EndpointLookup ip]) = _) in Hes.
Qed.

Context `{!KernelLaws}.
Context (from_utf8_lossy : list byte -> string) (to_lowercase : string -> string).
Context (process_id : N) (process_times : result (N * N) string) (cleared : bool).
Abbreviation platform := (windows_platform (Route:=Route) (Endpoint:=Route) from_utf8_lossy to_lowercase
  process_id process_times cleared).
Abbreviation start_windows := (start (Platform0:=platform)).

Lemma from_route_host ip r : destination (from_route ip r) = ip /\ prefix (from_route ip r) = addr_bits ip.
Proof. by rewrite destination_fields, prefix_fields, from_route_fields. Qed.

Lemma from_route_rank ip r : rank (from_route ip r) = rank r.
Proof. by apply rank_fields; rewrite from_route_fields. Qed.

(** A host route covers its own address only. *)
Lemma covers_host r ip :
  route_wf r -> ip_wf ip -> covers r ip -> (addr_bits ip <= prefix r)%N ->
  destination r = ip /\ prefix r = addr_bits ip.
Proof.
  intros [Hd Hle] Hi Hc Hp. assert (addr_bits (destination r) = addr_bits ip) as E
    by (unfold addr_bits; by rewrite (proj1 Hc)).
  assert (prefix r = addr_bits ip) as Ep by lia. split; [|done].
  unfold covers in Hc. rewrite Ep in Hc. by apply prefix_covers_host.
Qed.

(** The requests of a started session: up to the device's own, its exceptions,
    all of which succeeded, and its routes and scripts. *)
Lemma windows_started wintun config k s :
  validate_config Windows config = Ok tt -> kernel_ok k ->
  value (start_windows wintun config) (windows_os k) [] = Some (Ok s) ->
  exists h1 ers rest, trace (start_windows wintun config) (windows_os k) [] = h1 ++ (EndpointReplace <$> ers) ++ rest /\
    (forall r, r ∈ seen k h1 -> r ∈ t0 \/ r ∈ brings) /\
    Forall2 (fun ip e => exists r0, find_route t0 ip = Some r0 /\ e = from_route ip r0) (peers_of config) ers /\
    failures (EndpointReplace <$> ers) (windows_os k) h1 = [] /\
    Forall (fun c => (exists r, (c = RouteDelete r \/ c = RouteAdd r) /\
                        r ∈ filtered_routes config (ts_interface_name s)) \/
                     exists cmd, c = CommandOutput cmd) rest.
Proof.
  intros Hv Hk Hok.
  destruct (start_ok (Platform0:=platform) (PlatformLaws0:=windows_platform_laws _ _ _ _ _)
    wintun config (windows_os k) [] s Hv Hok) as (ers & hook & Hres & _ & Ht & Hc & Hs).
  cbn [p_target p_prepare_session_start p_configure_session windows_platform] in *.
  set (lookups := [] ++ (EndpointLookup <$> _)) in *.
  assert (exists scripts, trace (pmap fst (clear_stale_nrpt_rules_once from_utf8_lossy to_lowercase cleared))
    (windows_os k) lookups = lookups ++ scripts /\ Forall (fun c => exists cmd, c = CommandOutput cmd) scripts)
    as (scripts & Hp & Hscripts).
  { unfold pmap, trace. rewrite pbind_run. cbn [pret snd].
    rewrite (proj1 (clear_stale_once from_utf8_lossy to_lowercase cleared (windows_os k) lookups)).
    destruct cleared; [exists []; by rewrite app_nil_r | eexists; split; [done|]]. constructor; [by eexists | constructor]. }
  rewrite Hp in *. set (h0 := (lookups ++ scripts) ++ _) in *.
  destruct (windows_configure_session_ok _ _ _ _ _ _ _ _ _ _ Hv Hc) as (comment & servers & Htc & _ & Hf).
  set (fr := filtered_routes _ _) in *. eexists (h0 ++ [RouteManagerNew]), ers, _. split_and!.
  - etrans; [exact Ht|]. etrans; [exact Htc|]. unfold windows_calls. by rewrite <- !app_assoc.
  - intros r Hr. unfold h0, lookups in Hr. rewrite <- !app_assoc in Hr.
    apply seen_origin in Hr as [Hr|(c & Hcin & Ha)]; [by left| |done]. right.
    rewrite !elem_of_app in Hcin. destruct Hcin as [(ip & -> & _)%list_elem_of_fmap|[Hcin|[Hcin|[Hcin|Hcin]]]]; [done|..].
    + rewrite Forall_forall in Hscripts. destruct (Hscripts c Hcin) as (cmd & ->). done.
    + apply list_elem_of_singleton in Hcin as ->. done.
    + cbn in Hcin. rewrite !elem_of_cons in Hcin. destruct Hcin as [->|[->|Hcin]]; [done..|]. by apply elem_of_nil in Hcin.
    + apply list_elem_of_singleton in Hcin as ->. done.
  - by apply (resolve_found k []) in Hres.
  - done.
  - apply Forall_app. split.
    + unfold route_calls. apply Forall_bind, Forall_forall. intros r Hr.
      repeat apply Forall_cons_2; [left; exists r; by auto .. | constructor].
    + unfold nrpt_calls, powershell. destruct servers; (repeat apply Forall_cons_2; [right; by eexists .. | constructor]).
Qed.

(** In a table where the exception is placed, and where every other host route to
    the peer was there before, the kernel chooses the exception. *)
Lemma exception_best t1 ip r0 :
  Forall route_wf t0 -> ip_wf ip -> find_route t0 ip = Some r0 ->
  let e := from_route ip r0 in
  placed e t1 ->
  (forall r, r ∈ t1 -> covers r ip -> (addr_bits ip <= prefix r)%N -> r = e \/ r ∈ t0) ->
  (forall r, r ∈ t0 -> destination r = ip -> prefix r = addr_bits ip -> rank r = rank r0 -> same e r = true) ->
  find_route t1 ip = Some e.
Proof.
  intros Hwf Hi Hr0 e [He Hone] Horigin Htie. destruct (from_route_host ip r0) as [Hde Hpe]. fold e in Hde, Hpe.
  assert (covers e ip) as Hce by (rewrite <- Hde; apply prefix_covers_self).
  destruct (find_route t1 ip) as [r|] eqn:Er; [|by destruct (proj1 (find_route_none _ _) Er e He)].
  f_equal. destruct (find_route_some _ _ _ Er) as (Hr & Hc & Hmax). destruct (Hmax e He Hce) as [Hlen Hrank].
  rewrite Hpe in Hlen. destruct (Horigin r Hr Hc Hlen) as [?|Hin]; [done|]. rewrite Forall_forall in Hwf.
  destruct (covers_host r ip (Hwf r Hin) Hi Hc Hlen) as [E1 E2]. apply Hone; [done|]. apply Htie; [done..|].
  destruct (find_route_some _ _ _ Hr0) as (Hr0in & Hc0 & Hmax0). destruct (Hmax0 r Hin Hc) as [Hl0 Hrk0].
  destruct (covers_host r0 ip (Hwf r0 Hr0in) Hi Hc0 ltac:(lia)) as [_ E3].
  specialize (Hrank ltac:(congruence)). unfold e in Hrank. rewrite from_route_rank in Hrank.
  specialize (Hrk0 ltac:(congruence)). lia.
Qed.

(** The exceptions of a session: the peer's own, and those of other peers. *)
Lemma other_exceptions ip r0 peers ers e' :
  Forall2 (fun ip e => exists r0, find_route t0 ip = Some r0 /\ e = from_route ip r0) peers ers ->
  find_route t0 ip = Some r0 -> e' ∈ ers ->
  e' = from_route ip r0 \/ exists ip' r', ip' <> ip /\ ip' ∈ peers /\ e' = from_route ip' r'.
Proof.
  intros Hers Hr0 [i Hi]%list_elem_of_lookup.
  destruct (Forall2_lookup_r _ _ _ _ _ Hers Hi) as (ip' & Hi' & r' & Hr' & ->).
  destruct (decide (ip' = ip)) as [->|Hne]; [left; congruence|]. right. exists ip', r'.
  split_and!; [done | by eapply list_elem_of_lookup_2 | done].
Qed.

(** A route of the tunnel or the exception of another peer spares the exception. *)
Lemma tunnel_spares e (fr : list Route) c :
  (forall r, r ∈ fr -> ~ (destination r = destination e /\ prefix r = prefix e)) ->
  (exists r, (c = RouteDelete r \/ c = RouteAdd r) /\ r ∈ fr) \/ (exists cmd, c = CommandOutput cmd) ->
  spares e c.
Proof.
  intros Hfr [(r & [->| ->] & Hr)|(cmd & ->)]; split; cbn; try (by intros []); try (by intros ? []).
  - intros [E1 E2]%same_prefix. by apply (Hfr r Hr).
  - intros r' -> [E1 E2]%same_prefix. by destruct (Hfr r Hr).
Qed.

Lemma exception_spares ip ip' r r' : ip' <> ip -> spares (from_route ip r) (EndpointReplace (from_route ip' r')).
Proof.
  intros Hne. destruct (from_route_host ip r) as [Hd _], (from_route_host ip' r') as [Hd' _].
  split; cbn; [intros [E _]%same_prefix | intros x -> [E _]%same_prefix]; congruence.
Qed.

(** C16: on Windows, when a session was started, with whatever allowed prefixes
    and although the device has brought connected routes of its own, the kernel
    chooses for every peer the exception made from the route it chose before the
    device existed: the host route to the peer with the same gateway, interface
    and metric. This needs that the device's own routes are no host routes to
    the peer, and that an older host route to the peer that is as good as the
    one chosen is the same route to the system, so that the exception takes its
    place; any other older route loses to the exception. *)
Theorem windows_peers_bypass_tunnel wintun config k s ip :
  validate_config Windows config = Ok tt -> kernel_ok k -> Forall route_wf t0 ->
  value (start_windows wintun config) (windows_os k) [] = Some (Ok s) -> ip ∈ peers_of config ->
  Forall (fun r => covers r ip -> (prefix r < addr_bits ip)%N) brings ->
  exists r0, find_route t0 ip = Some r0 /\
    let e := from_route ip r0 in
    let f := fields r0 in
    fields e = mkFields ip (addr_bits ip) (f_gateway f) (f_if_name f) (f_if_index f) (f_metric f) (f_luid f) /\
    ((forall r, r ∈ t0 -> destination r = ip -> prefix r = addr_bits ip -> rank r = rank r0 -> same e r = true) ->
     find_route (table k (requests k [] (trace (start_windows wintun config) (windows_os k) []))) ip = Some e).
Proof.
  intros Hv Hk Hwf Hok Hip Hbrings.
  destruct (windows_started wintun config k s Hv Hk Hok) as (h1 & ers & rest & Ht & Hh1 & Hers & Hf & Hrest).
  assert (Hpeer : forall ip', ip' ∈ peers_of config -> ip_wf ip').
  { intros ip' (a & _ & Ha)%list_elem_of_omap. by eapply parse_proto_ip_wf. }
  assert (exists r0, find_route t0 ip = Some r0 /\ from_route ip r0 ∈ ers) as (r0 & Hr0 & Hin).
  { apply list_elem_of_lookup in Hip as [i Hi]. destruct (Forall2_lookup_l _ _ _ _ _ Hers Hi) as (e & He & r0 & Hr0 & ->).
    exists r0. split; [done|]. by eapply list_elem_of_lookup_2. }
  exists r0. split; [done|]. cbn zeta. split; [apply from_route_fields|]. destruct (from_route_host ip r0) as [Hde Hpe].
  destruct (filtered_host_free Windows config (ts_interface_name s) Hv) as [Hfw Hhost].
  set (fr := filtered_routes config (ts_interface_name s)) in *.
  assert (Hfr : forall r, r ∈ fr -> ~ (destination r = ip /\ prefix r = addr_bits ip)).
  { intros r Hr [E1 E2]. apply (Hhost r Hr); by rewrite E1. }
  fold (seen k (trace (start_windows wintun config) (windows_os k) [])). rewrite Ht, app_assoc.
  apply exception_best; [done | by apply Hpeer | done | |].
  - apply seen_placed; [done| |apply replaced_all; [done | done | | by left]].
    + eapply Forall_impl; [exact Hrest|]. intros c. apply tunnel_spares. by rewrite Hde, Hpe.
    + intros e' [->|(ip' & r' & Hne & _ & ->)]%(other_exceptions ip r0 _ _ _ Hers Hr0); [by left|].
      right. by apply exception_spares.
  - intros r Hr Hc Hlen. rewrite <- app_assoc in Hr. apply seen_origin in Hr as [[Hr|Hr]%Hh1|(c & Hcin & Ha)]; [by right | | |done].
    { rewrite Forall_forall in Hbrings. specialize (Hbrings r Hr Hc). lia. }
    apply elem_of_app in Hcin as [(e' & -> & He')%list_elem_of_fmap|Hcin].
    + cbn in Ha. subst e'. left. destruct (other_exceptions ip r0 _ _ _ Hers Hr0 He') as [->|(ip' & r' & Hne & Hip' & ->)]; [done|].
      destruct Hne, (from_route_host ip' r') as [Hd' Hp']. rewrite <- Hd'. apply covers_host; [|by apply Hpeer|done..].
      split; [rewrite Hd'; by apply Hpeer | by rewrite Hd', Hp'].
    + rewrite Forall_forall in Hrest. rewrite Forall_forall in Hfw. destruct (Hrest c Hcin) as [(r' & [->| ->] & Hr')|(cmd & ->)]; [done | | done].
      cbn in Ha. subst r'. destruct (Hfr r Hr'). apply covers_host; [by apply Hfw | by apply Hpeer | done | done].
Qed.
End WindowsRoutes.

(** ** A concrete kernel

    Routes are their fields, the same prefix over the same interface is the same
    route, and all requests succeed but additions of what is there. *)
Module WindowsExamples.
Import KernelExamples PlatformExamples.

#[export] Instance covers_dec (r : route_fields) ip : Decision (covers r ip).
Proof. unfold covers. apply _. Defined.

Definition same_route (r r' : route_fields) : bool :=
  bool_decide (f_destination r' = f_destination r /\ f_prefix r' = f_prefix r /\ f_luid r' = f_luid r).

Definition metric (r : route_fields) : N := default 0%N (f_metric r).

(** [r] is at least as good as [b]. *)
Definition better (r b : route_fields) : bool :=
  (f_prefix b <? f_prefix r)%N || ((f_prefix b =? f_prefix r)%N && (metric r <=? metric b)%N).

Fixpoint best_match (t : list route_fields) (ip : IpAddr) : option route_fields :=
  match t with
  | [] => None
  | r :: t' =>
    match best_match t' ip with
    | None => if bool_decide (covers r ip) then Some r else None
    | Some b => if bool_decide (covers r ip) && better r b then Some r else Some b
    end
  end.

Definition as_good (r r' : route_fields) : Prop :=
  (f_prefix r' <= f_prefix r)%N /\ (f_prefix r' = f_prefix r -> (metric r <= metric r')%N).

Lemma better_spec r b : if better r b then as_good r b else as_good b r.
Proof.
  unfold better, as_good. destruct (N.ltb_spec (f_prefix b) (f_prefix r)); cbn [orb]; [split; lia|].
  destruct (N.eqb_spec (f_prefix b) (f_prefix r)), (N.leb_spec (metric r) (metric b)); cbn [andb]; split; lia.
Defined.

Lemma as_good_trans r b r' : as_good r b -> as_good b r' -> as_good r r'.
Proof. unfold as_good. lia. Defined.

Lemma best_match_spec t ip :
  match best_match t ip with
  | None => forall r, r ∈ t -> ~ covers r ip
  | Some r => r ∈ t /\ covers r ip /\ forall r', r' ∈ t -> covers r' ip -> as_good r r'
  end.
Proof.
  induction t as [|r t IH]; cbn; [by intros r ?%elem_of_nil|].
  assert (as_good r r) as Hrefl by (unfold as_good; lia).
  destruct (best_match t ip) as [b|].
  - destruct IH as (Hb & Hc & Hmax). pose proof (better_spec r b) as Hgood.
    case_bool_decide as Hr; cbn [andb].
    + destruct (better r b); (split_and!; [by constructor | done |]);
        intros r' [->|Hin]%elem_of_cons Hc'; try done; [|by apply Hmax].
      eapply as_good_trans; [exact Hgood | by apply Hmax].
    + split_and!; [by right | done |]. intros r' [->|Hin]%elem_of_cons Hc'; [done | by apply Hmax].
  - case_bool_decide as Hr.
    + split_and!; [by left | done |]. intros r' [->|Hin]%elem_of_cons Hc'; [done | by destruct (IH r' Hin)].
    + intros r' [->|Hin]%elem_of_cons; [done | by apply IH].
Qed.

#[export] Instance example_laws : KernelLaws same_route best_match metric.
Proof.
  split.
  - intros r r' E. apply bool_decide_eq_true in E. tauto.
  - intros r r' _ _ _ E. unfold metric. cbn in E. by rewrite E.
  - intros t ip. pose proof (best_match_spec t ip) as Hs. destruct (best_match t ip) as [r|]; [|done].
    split; [done|]. intros Hno. destruct Hs as (Hin & Hc & _). by destruct (Hno r Hin).
  - intros t ip r E. pose proof (best_match_spec t ip) as Hs. rewrite E in Hs. exact Hs.
Qed.

(** The network of the device's address. *)
Definition connected : list route_fields :=
  [mkFields (v4 10 0 0 0) 24 None (Some "utun4") (Some 40%N) (Some 5%N) (Some 9%N)].

(** A home network, in which the peer has a worse host route already. *)
Definition home : list route_fields :=
  [default_route; mkFields (v4 198 51 100 1) 32 (Some (v4 192 168 1 9)) None (Some 12%N) (Some 80%N) (Some 7%N);
   mkFields (v4 198 51 100 1) 32 (Some (v4 192 168 2 1)) None (Some 13%N) (Some 20%N) (Some 8%N)].

Definition home_step (t : list route_fields) (c : call route_fields route_fields) : list route_fields :=
  match c with
  | RouteAdd r => if existsb (same_route r) t then t else t ++ [r]
  | RouteDelete r => filter (fun r' => same_route r r' = false) t
  | DeviceBuild _ => t ++ connected
  | _ => t
  end.

Definition home_table (h : list (call route_fields route_fields)) : list route_fields := foldl home_step home h.

Definition home_kernel : os route_fields route_fields := fun h c =>
  match c as c return reply c with
  | RouteFind ip => Ok (best_match (home_table h) ip)
  | RouteAdd r => if existsb (same_route r) (home_table h) then Err (io_other "exists") else Ok tt
  | EndpointLookup _ => Err (io_other "")
  | CommandOutput _ => Ok (mkOutput true (Some 0%Z) [] [])
  | DeviceName => Ok "utun4"
  | RouteManagerNew | RouteDelete _ | EndpointReplace _ | EndpointDelete _ | Which _ | DeviceBuild _
  | DeviceSetNonblocking | DeviceDrop | InterruptNew | InterruptTrigger => Ok tt
  end.

Lemma home_table_eq h : table same_route connected home home_kernel h = home_table h.
Proof.
  induction h as [|c h IH] using rev_ind; [done|]. rewrite table_snoc, IH.
  assert (home_table (h ++ [c]) = home_step (home_table h) c) as -> by apply foldl_snoc. destruct c; try reflexivity.
  cbn. by destruct (existsb (same_route r) (home_table h)).
Defined.

Lemma home_kernel_ok : kernel_ok same_route best_match connected home home_kernel.
Proof.
  split; intros h; rewrite home_table_eq; cbn.
  - by intros ip found [= <-].
  - intros r r' Hadd Hin. destruct (existsb (same_route r) (home_table h)) eqn:E; [done|].
    apply not_true_is_false. intros Hs. apply not_true_iff_false in E. apply E.
    apply existsb_exists. exists r'. by rewrite <- list_elem_of_In.
Defined.
End WindowsExamples.
Import WindowsExamples KernelExamples PlatformExamples.

(** The better of the two host routes is followed. *)
Lemma windows_peers_bypass_tunnel_witness :
  let p := start (Platform0 := windows_platform (fun _ => "") (fun s => s) 4 (Ok (1%N, 2%N)) false)
             (Some (Some "wintun.dll")) vpn_config in
  let ip := v4 198 51 100 1 in
  exists r, best_match (table same_route connected home home_kernel
      (requests home_kernel [] (trace p (windows_os home_kernel) []))) ip = Some r /\
    f_gateway r = Some (v4 192 168 2 1) /\ f_prefix r = 32%N.
Proof.
  intros p ip. destruct (value p (windows_os home_kernel) []) as [[s|]|] eqn:E.
  2-3: exfalso; assert (is_ok <$> value p (windows_os home_kernel) [] = Some true) as E' by (vm_compute; reflexivity);
    rewrite E in E'; discriminate E'.
  destruct (windows_peers_bypass_tunnel same_route best_match metric connected home (fun _ => "") (fun s => s)
    4 (Ok (1%N, 2%N)) false (Some (Some "wintun.dll")) vpn_config home_kernel s ip) as (r0 & Hr0 & Hf & Hfind).
  - vm_compute. reflexivity.
  - exact home_kernel_ok.
  - forall_each ltac:(split; [reflexivity | vm_compute; congruence]).
  - exact E.
  - left.
  - forall_each ltac:(intros [_ Hc]; vm_compute; reflexivity).
  - vm_compute in Hr0. injection Hr0 as <-. eexists. split; [apply Hfind|split; reflexivity].
    intros r Hr. unfold home in Hr. rewrite !elem_of_cons in Hr.
    destruct Hr as [->|[->|[->|Hr]]]; [intros E1; discriminate E1 | intros _ _ E1; discriminate E1
                                      | intros; reflexivity | by apply elem_of_nil in Hr].
Defined.
