(* ===== verification/Server.v ===== *)
(** * server.rs: the daemon's service

    One connection carries one session. [session_begin] is everything
    [session] decides before it spawns the session's task, [reserve] the entry
    it makes under the mutex; [write_loop] and [read_loop] are the two
    directions of a running session, over the events their [select!] sees;
    [finish] is the teardown. How the tasks of several sessions interleave is
    the subject of the file Service. *)

From S2P Require Import Prelude RustStd Net Proto IpUtil Validation.
From Stdlib Require Import Lia.

(** ** Statuses and messages *)

(** [tonic::Code], the ones the service uses. *)
Inductive Code : Type :=
| InvalidArgument | FailedPrecondition | ResourceExhausted | Unavailable | Internal.

Record Status : Type := mkStatus { st_code : Code; st_message : string }.

Definition MAX_PACKET_FRAME_SIZE : N := 65535.
Definition MAX_ACTIVE_SESSIONS : nat := 16.
Definition PACKET_CHANNEL_CAPACITY : nat := 64.

Definition extract_config (message : ClientMessage) : result TunSessionConfig Status :=
  match client_payload message with
  | Some (Config config) => Ok config
  | Some (OutgoingPacket _) | Some (Shutdown _) =>
    Err (mkStatus InvalidArgument "first session message must contain config")
  | None => Err (mkStatus InvalidArgument "first session message payload is missing")
  end.

(** ** Opening a session *)

(** The macOS spelling of an interface name; [None] is the panic of the slice
    [config.interface_name[4..]]. *)
Definition normalize_interface_name (t : target) (name : string) : option string :=
  match t with
  | Macos =>
    if String.length name <? 4 then None
    else
      let index := trim_start_matches Byte.x30 (bytes_str (drop 4 (str_bytes name))) in
      Some ("utun" +:+ if bool_decide (index = "") then "0" else index)
  | _ => Some name
  end.

Definition with_interface_name (name : string) (c : TunSessionConfig) : TunSessionConfig :=
  mkConfig name (mtu c) (addresses c) (peer_allowed_ips c) (peer_endpoints c) (dns c).

(** The block under the [active_sessions] lock and the two rejections. *)
Definition reserve (active : gset string) (name : string) : result (gset string) Status :=
  if bool_decide (name ∈ active)
  then Err (mkStatus FailedPrecondition ("Session already active for " +:+ name))
  else if MAX_ACTIVE_SESSIONS <=? size active
  then Err (mkStatus ResourceExhausted
              ("Daemon session limit reached (" +:+ pretty (Z.of_nat MAX_ACTIVE_SESSIONS) +:+ ")"))
  else Ok ({[name]} ∪ active).

(** The check at the start of [session]. *)
Definition check_stopping (stopping : bool) : result unit Status :=
  fail_if stopping (mkStatus Unavailable "daemon is shutting down").

(** From there up to [tokio::spawn]: [first] is what [incoming.recv()] gives,
    [None] when the channel is closed, [active] the reservations at the time
    the lock is taken. The result is the configuration the task gets and the new
    reservations; [None] is a panic. *)
Definition decide_session (t : target) (first : option (result ClientMessage Status)) (active : gset string)
    : option (result (TunSessionConfig * gset string) Status) :=
  match first with
  | None => Some (Err (mkStatus InvalidArgument "first session message must contain config"))
  | Some (Err status) => Some (Err status)
  | Some (Ok message) =>
    match extract_config message with
    | Err status => Some (Err status)
    | Ok config =>
      match validate_config t config with
      | Err e => Some (Err (mkStatus InvalidArgument e))
      | Ok _ =>
        name ← normalize_interface_name t (interface_name config);
        Some (rmap (fun active => (with_interface_name name config, active)) (reserve active name))
      end
    end
  end.

(** [session] up to [tokio::spawn]; [stopping] is read first, the rest later. *)
Definition session_begin (t : target) (stopping : bool)
    (first : option (result ClientMessage Status)) (active : gset string)
    : option (result (TunSessionConfig * gset string) Status) :=
  match check_stopping stopping with
  | Err status => Some (Err status)
  | Ok _ => decide_session t first active
  end.

(** ** A running session *)

(** What the [select!] of the write loop finds ready at one wake-up. *)
Record poll : Type := mkPoll {
  p_shutdown : bool;                                   (* the shutdown watch *)
  p_closed : bool;                                     (* tx.closed() *)
  p_read_done : option (option (option string));       (* inner None: sender dropped *)
  p_incoming : option (option (result ClientMessage Status)); (* inner None: channel closed *)
  p_written : result unit io_error;                    (* what write_packet would return *)
}.

(** One iteration: leave the loop, write nothing, or write a packet. *)
Inductive turn : Type :=
| Leave (r : result unit Status)
| Skip
| Wrote (data : list byte)
| WriteFailed (data : list byte) (r : Status).

Definition frame_ok (data : list byte) : bool :=
  negb ((MAX_PACKET_FRAME_SIZE <? len data)%N || bool_decide (data = [])).

Definition handle_message (message : ClientMessage) (written : result unit io_error) : turn :=
  match client_payload message with
  | Some (OutgoingPacket data) =>
    if negb (frame_ok data) then Skip
    else match written with
    | Ok _ => Wrote data
    | Err error =>
      WriteFailed data (mkStatus Internal ("failed writing TUN packet: " +:+ io_message error))
    end
  | Some (Config _) =>
    Leave (Err (mkStatus InvalidArgument "config must be sent only once, at session start"))
  | Some (Shutdown _) =>
    Leave (Err (mkStatus InvalidArgument "shutdown requires a separate control connection"))
  | None => Skip
  end.

(** The biased [select!]; [None] when nothing is ready. *)
Definition write_turn (p : poll) : option turn :=
  if p_shutdown p then Some (Leave (Ok tt))
  else if p_closed p then Some (Leave (Ok tt))
  else match p_read_done p with
  | Some (Some (Some error)) => Some (Leave (Err (mkStatus Internal error)))
  | Some _ => Some (Leave (Ok tt))
  | None =>
    match p_incoming p with
    | None => None
    | Some None => Some (Leave (Ok tt))
    | Some (Some (Err status)) => Some (Leave (Err status))
    | Some (Some (Ok message)) => Some (handle_message message (p_written p))
    end
  end.

(** The loop over successive wake-ups: the packets handed to the device, and
    the result once it has left. *)
Fixpoint write_loop (polls : list poll) : list (list byte) * option (result unit Status) :=
  match polls with
  | [] => ([], None)
  | p :: r =>
    match write_turn p with
    | None | Some Skip => write_loop r
    | Some (Leave res) => ([], Some res)
    | Some (Wrote data) => let '(written, res) := write_loop r in (data :: written, res)
    | Some (WriteFailed data status) => ([data], Some (Err status))
    end
  end.

(** [send_response]: the stop signal wins over the queue. *)
Definition send_response (stopped sent : bool) : bool := if stopped then false else sent.

Section Messages.
(** tonic's description of a code. *)
Context (code_text : Code -> string).

Definition error_message (status : Status) : ServerMessage :=
  mkServer (Some (Error (code_text (st_code status)) (st_message status))).

(** The blocking reader: what the device delivers, with the state of the stop
    signal and of the queue when the message is handed on. The result is
    what [read_done_tx] is sent, once the loop has ended. *)
Fixpoint read_loop (reads : list (result (list byte) io_error * bool * bool))
    : list ServerMessage * option (option string) :=
  match reads with
  | [] => ([], None)
  | (Ok packet, stopped, sent) :: r =>
    if negb (frame_ok packet) then read_loop r
    else if send_response stopped sent then
      let '(forwarded, res) := read_loop r in
      (mkServer (Some (IncomingPacket packet)) :: forwarded, res)
    else ([], Some None)
  | (Err error, stopped, sent) :: _ =>
    if bool_decide (io_kind error = Interrupted) then ([], Some None)
    else
      let message := "failed reading TUN packet: " +:+ io_message error in
      (if send_response stopped sent then [error_message (mkStatus Internal message)] else [],
       Some (Some message))
  end.

(** ** Teardown *)

Inductive action : Type :=
| StopReader
| CloseSession
| JoinReader
| Log (line : string)
| Send (m : ServerMessage)
| TrySend (m : ServerMessage)
| TrySendStatus (s : Status)
| Release (name : string).

(** Everything after the write loop, in order. *)
Definition finish (code_display : Status -> string) (name : string) (duration_ms : N)
    (write_result : result unit Status) (close_result read_join_result : result unit string)
    : list action :=
  [StopReader; CloseSession; JoinReader]
  ++ match write_result with
     | Ok _ => []
     | Err status =>
       [Log ("session failed interface=" +:+ name +:+ ": " +:+ code_display status);
        TrySend (error_message status)]
     end
  ++ match close_result with
     | Ok _ => []
     | Err error =>
       [Log ("session cleanup failed interface=" +:+ name +:+ ": " +:+ error);
        TrySend (error_message (mkStatus Internal ("failed closing TUN session: " +:+ error)))]
     end
  ++ match read_join_result with
     | Ok _ => []
     | Err error => [Log ("session reader failed interface=" +:+ name +:+ ": " +:+ error)]
     end
  ++ [Log ("session stopped interface=" +:+ name +:+ " duration_ms=" +:+ pretty duration_ms);
      Release name].

(** How the parts of a session's task end: [SessionManager::start] (with the
    name of its device), the write loop, the cleanup and the reader. *)
Record outcome : Type := mkOutcome {
  o_start : result string string;
  o_duration_ms : N;
  o_write : result unit Status;
  o_close : result unit string;
  o_join : result unit string;
}.

(** The task [session] spawns for a reserved [name]; [cancelled]: the client has
    left or the daemon is stopping. *)
Definition session_task (code_display : Status -> string) (name : string) (cancelled : bool)
    (o : outcome) : list action :=
  if cancelled then [Release name]
  else match o_start o with
  | Err error =>
    [Log ("session start failed interface=" +:+ name +:+ ": " +:+ error); Release name;
     TrySendStatus (mkStatus FailedPrecondition error)]
  | Ok device =>
    [Send (mkServer (Some (Started device))); Log ("session started interface=" +:+ device)]
    ++ finish code_display device (o_duration_ms o) (o_write o) (o_close o) (o_join o)
  end.
End Messages.

(** [wait_for_sessions], over the reservations it sees every 10 ms: whether it
    has returned. *)
Fixpoint wait_for_sessions (seen : list (gset string)) : bool :=
  match seen with
  | [] => false
  | active :: r => bool_decide (active = ∅) || wait_for_sessions r
  end.

(** ** A connection *)

(** What [serve_connection] does with the first exchange: [greeted] is the
    outcome of writing the ready message, [first] of reading a frame. *)
Inductive opening : Type :=
| Close
| Fail (e : io_error)
| RequestShutdown
| Serve (first : ClientMessage).

Definition serve_first (stopping : bool) (greeted : result unit io_error)
    (first : result (option ClientMessage) io_error) : opening :=
  if stopping then Close
  else match greeted with
  | Err e => Fail e
  | Ok _ =>
    match first with
    | Err e => Fail e
    | Ok None => Close
    | Ok (Some message) =>
      match client_payload message with
      | Some (Shutdown true) => RequestShutdown
      | _ => Serve message
      end
    end
  end.

(** The read half: frames go into the session's channel until the shutdown,
    the end of the stream, an error, or the session hanging up ([accepted] is
    whether the channel still takes the message). *)
Fixpoint read_half (frames : list (bool * result (option ClientMessage) io_error * bool))
    : list (result ClientMessage Status) * option (result unit io_error) :=
  match frames with
  | [] => ([], None)
  | (stopping, frame, accepted) :: r =>
    if (stopping : bool) then ([], Some (Ok tt))
    else match frame with
    | Ok (Some message) =>
      if (accepted : bool) then
        let '(sent, res) := read_half r in (Ok message :: sent, res)
      else ([], Some (Ok tt))
    | Ok None => ([], Some (Ok tt))
    | Err error =>
      (if accepted then [Err (mkStatus InvalidArgument "invalid IPC frame")] else [], Some (Err error))
    end
  end.

(** ** Interface names *)

(** The digits without leading zeros, at least one. *)
Definition canonical (l : list byte) : list byte :=
  match trim_start_matches_bytes Byte.x30 l with [] => [Byte.x30] | l' => l' end.

Lemma dec_value_snoc l b : dec_value (l ++ [b]) = (dec_value l * 10 + (u8z b - 48))%Z.
Proof. unfold dec_value. by rewrite foldl_app. Qed.

Lemma digit_range b : is_ascii_digit b = true -> (0 <= u8z b - 48 <= 9)%Z.
Proof. unfold is_ascii_digit, in_range. rewrite andb_true_iff, !Z.leb_le. lia. Qed.

Lemma dec_value_range l : digits l -> (0 <= dec_value l < 10 ^ Z.of_nat (length l))%Z.
Proof.
  induction l as [|b l IH] using rev_ind; [by cbn; lia|]. rewrite Forall_app, Forall_singleton.
  intros [Hl Hb]. specialize (IH Hl). apply digit_range in Hb.
  rewrite dec_value_snoc, length_app, Nat2Z.inj_add. cbn [length].
  rewrite Z.pow_add_r, Z.pow_1_r by lia. lia.
Qed.

Lemma dec_value_inj l m :
  digits l -> digits m -> length l = length m -> dec_value l = dec_value m -> l = m.
Proof.
  revert m. induction l as [|b l IH] using rev_ind; intros m Hl Hm Hlen Hv.
  { by destruct m. }
  destruct m as [|c m _] using rev_ind; [rewrite length_app in Hlen; cbn in Hlen; lia|].
  rewrite !Forall_app, !Forall_singleton in *. destruct Hl as [Hl Hb], Hm as [Hm Hc].
  rewrite !length_app in Hlen. cbn in Hlen. rewrite !dec_value_snoc in Hv.
  pose proof (digit_range _ Hb). pose proof (digit_range _ Hc).
  assert (dec_value l = dec_value m) as Hlm by lia. rewrite (IH m); [|done..|lia|done]. f_equal.
  assert (u8z b = u8z c) as E by lia. by apply (inj u8z) in E as ->.
Qed.

Lemma dec_value_lower b l :
  digits (b :: l) -> b <> Byte.x30 -> (10 ^ Z.of_nat (length l) <= dec_value (b :: l))%Z.
Proof.
  intros HF Hne. induction l as [|c l IH] using rev_ind.
  - cbn. inversion HF as [|?? Hb _]; subst. apply digit_range in Hb.
    assert (u8z b <> 48)%Z by (intros E; apply Hne, (inj u8z); by rewrite E). lia.
  - change (b :: l ++ [c]) with ((b :: l) ++ [c]) in *. rewrite Forall_app, Forall_singleton in HF.
    destruct HF as [HF Hc]. specialize (IH HF). apply digit_range in Hc.
    rewrite dec_value_snoc, length_app, Nat2Z.inj_add. cbn [length].
    rewrite Z.pow_add_r, Z.pow_1_r by lia. lia.
Qed.

Lemma trim_zeros_value l :
  dec_value (trim_start_matches_bytes Byte.x30 l) = dec_value l.
Proof. induction l as [|b l IH]; [done|]. cbn. case_decide; [by subst | done]. Qed.

Lemma trim_zeros_head l b r :
  trim_start_matches_bytes Byte.x30 l = b :: r -> b <> Byte.x30.
Proof. induction l as [|c l IH]; cbn; [done|]. case_decide; [done|]. by intros [= <- <-]. Qed.

Lemma trim_zeros_digits l : digits l -> digits (trim_start_matches_bytes Byte.x30 l).
Proof. induction 1 as [|b l Hb HF IH]; cbn; [constructor|]. case_decide; [done | by constructor]. Qed.

Lemma trim_zeros_length l : length (trim_start_matches_bytes Byte.x30 l) <= length l.
Proof. induction l as [|b l IH]; cbn; [lia|]. case_decide; cbn; lia. Qed.

Lemma canonical_ok l :
  digits l -> l <> [] ->
  digits (canonical l) /\ canonical l <> [] /\ length (canonical l) <= length l /\
  dec_value (canonical l) = dec_value l.
Proof.
  intros HF Hne. unfold canonical. pose proof (trim_zeros_digits l HF). pose proof (trim_zeros_length l).
  rewrite <- (trim_zeros_value l). destruct (trim_start_matches_bytes Byte.x30 l) as [|b r] eqn:E.
  - split_and!; [by repeat constructor | done | destruct l; cbn; [done | lia] | done].
  - by split_and!.
Qed.

(** Canonical digits of the same value are the same. *)
Lemma canonical_inj l m :
  digits l -> digits m -> l <> [] -> m <> [] ->
  canonical l = canonical m <-> dec_value l = dec_value m.
Proof.
  intros Hl Hm Hln Hmn.
  destruct (canonical_ok l Hl Hln) as (Hcl & _ & _ & Hvl).
  destruct (canonical_ok m Hm Hmn) as (Hcm & _ & _ & Hvm).
  split; [congruence|]. rewrite <- Hvl, <- Hvm. intros Hv. apply dec_value_inj; [done..| |done].
  pose proof (dec_value_range _ Hcl) as Rl. pose proof (dec_value_range _ Hcm) as Rm.
  assert (forall k, canonical k = [Byte.x30] \/ exists b r, canonical k = b :: r /\ b <> Byte.x30) as Hshape.
  { intros k. unfold canonical. destruct (trim_start_matches_bytes Byte.x30 k) as [|b r] eqn:E; [by left|].
    right. exists b, r. split; [done|]. by apply trim_zeros_head in E. }
  assert (forall k j, digits (canonical k) -> digits (canonical j) ->
    dec_value (canonical k) = dec_value (canonical j) ->
    length (canonical k) <= length (canonical j)) as Hle.
  { intros k j Hk Hj E. destruct (Hshape k) as [Ek|(b & r & Ek & Hb)].
    - rewrite Ek. destruct (canonical j) eqn:Ej; [|cbn; lia].
      unfold canonical in Ej. by destruct (trim_start_matches_bytes Byte.x30 j).
    - rewrite Ek in *. pose proof (dec_value_lower b r Hk Hb). pose proof (dec_value_range _ Hj).
      destruct (Nat.le_gt_cases (length (b :: r)) (length (canonical j))) as [|Hgt]; [done|].
      cbn [length] in Hgt. exfalso.
      assert (10 ^ Z.of_nat (length (canonical j)) <= 10 ^ Z.of_nat (length r))%Z
        by (apply Z.pow_le_mono_r; lia). lia. }
  apply Nat.le_antisymm; apply Hle; done.
Qed.

Lemma normalize_macos d :
  normalize_interface_name Macos ("utun" +:+ d) =
  Some ("utun" +:+ bytes_str (canonical (str_bytes d))).
Proof.
  unfold normalize_interface_name. rewrite (proj2 (Nat.ltb_ge _ _)).
  2:{ rewrite <- length_str_bytes, str_bytes_app, length_app. cbn. lia. }
  rewrite str_bytes_app. change (drop 4 (str_bytes "utun" ++ str_bytes d)) with (str_bytes d).
  do 2 f_equal. unfold trim_start_matches, canonical. rewrite str_bytes_str.
  destruct (trim_start_matches_bytes Byte.x30 (str_bytes d)) as [|b r].
  - by rewrite bool_decide_true.
  - rewrite bool_decide_false; [done|]. intros E. apply (f_equal str_bytes) in E.
    by rewrite str_bytes_str in E.
Qed.

(** The name of the interface a [utun] name stands for: on macOS the digits
    select a unit, whose number the kernel writes in decimal. *)
Definition unit_name (t : target) (name : string) : string :=
  match t with
  | Macos => "utun" +:+ pretty (Z.to_N (dec_value (drop 4 (str_bytes name))))
  | _ => name
  end.

Lemma canonical_pretty l :
  digits l -> l <> [] -> canonical l = str_bytes (pretty (Z.to_N (dec_value l))).
Proof.
  intros Hl Hne. pose proof (dec_value_range l Hl) as Hr. set (x := Z.to_N (dec_value l)).
  destruct (pretty_N_digits x) as (Hp & Hd & Hv & Hh).
  transitivity (canonical (str_bytes (pretty x))).
  - apply canonical_inj; [done..|]. rewrite Hv. unfold x. lia.
  - destruct (N.eq_dec x 0) as [->|Hx]; [done|]. specialize (Hh ltac:(lia)).
    unfold canonical. destruct (str_bytes (pretty x)) as [|b r]; [done|]. cbn.
    by rewrite decide_False by (intros ->; by apply Hh).
Qed.

(** A normalised name is the name its interface gets. *)
Lemma normalize_unit t name name' :
  utun_name t name -> normalize_interface_name t name = Some name' -> unit_name t name' = name'.
Proof.
  destruct t; [done| |done]. intros (d & -> & Hne & Hd & _). rewrite normalize_macos. intros [= <-].
  assert (str_bytes d <> []) as Hne' by (by rewrite str_bytes_nil).
  unfold unit_name. rewrite str_bytes_app, str_bytes_str.
  change (drop 4 (str_bytes "utun" ++ ?l)) with l.
  destruct (canonical_ok (str_bytes d) Hd Hne') as (_ & _ & _ & ->).
  by rewrite (canonical_pretty (str_bytes d)), bytes_str_bytes.
Qed.

Lemma normalize_valid t name :
  utun_name t name -> exists name', normalize_interface_name t name = Some name' /\ utun_name t name'.
Proof.
  intros Hn. destruct t; [by exists name| |by exists name].
  destruct Hn as (d & -> & Hne & HF & Hlen & Hidx). eexists. split; [apply normalize_macos|].
  assert (str_bytes d <> []) as Hne' by (by rewrite str_bytes_nil).
  destruct (canonical_ok (str_bytes d) HF Hne') as (Hc & Hcne & Hclen & Hcv).
  exists (bytes_str (canonical (str_bytes d))). rewrite str_bytes_str, Hcv.
  split_and!; [done | | done | | done].
  - intros E. apply Hcne. by rewrite <- (str_bytes_str (canonical _)), E.
  - rewrite <- length_str_bytes, str_bytes_app, length_app, str_bytes_str.
    rewrite <- length_str_bytes, str_bytes_app, length_app in Hlen. lia.
Qed.

(** C39: on macOS, where the index decides which device a name means, the
    normalised names of two [utun<digits>] names are equal exactly when the
    names have the same index, however many zeros they start with. *)
Theorem normalized_names_identify_devices d e :
  let digits_ok s := s <> "" /\ digits (str_bytes s) in
  digits_ok d -> digits_ok e ->
  normalize_interface_name Macos ("utun" +:+ d) = normalize_interface_name Macos ("utun" +:+ e) <->
  dec_value (str_bytes d) = dec_value (str_bytes e).
Proof.
  cbn zeta. intros [Hdn Hd] [Hen He]. rewrite !normalize_macos.
  rewrite <- canonical_inj; [|done..|by rewrite str_bytes_nil|by rewrite str_bytes_nil].
  split; [|by intros ->]. intros E. apply (inj Some), (inj (String.append "utun")) in E.
  apply (f_equal str_bytes) in E. by rewrite !str_bytes_str in E.
Qed.

Lemma normalized_names_identify_devices_witness :
  normalize_interface_name Macos ("utun" +:+ "007") = normalize_interface_name Macos ("utun" +:+ "7").
Proof.
  apply normalized_names_identify_devices;
    [split; [discriminate | apply forallb_Forall; reflexivity]..|]. reflexivity.
Defined.

(** ** Opening a session *)

Lemma with_name_valid t c name : valid_config t c -> utun_name t name -> valid_config t (with_interface_name name c).
Proof. intros [] Hn. by constructor. Qed.

Lemma reserve_ok active name active' :
  reserve active name = Ok active' <->
  (name ∉ active) /\ size active < MAX_ACTIVE_SESSIONS /\ active' = {[name]} ∪ active.
Proof.
  unfold reserve. destruct (bool_decide_reflect (name ∈ active)); [naive_solver|].
  destruct (Nat.leb_spec MAX_ACTIVE_SESSIONS (size active)).
  - split; [done|]. intros (_ & Hs & _). lia.
  - naive_solver.
Qed.

Lemma decide_session_ok t first active c active' :
  decide_session t first active = Some (Ok (c, active')) <->
  exists config name,
    first = Some (Ok (mkClient (Some (Config config)))) /\ valid_config t config /\
    normalize_interface_name t (interface_name config) = Some name /\
    (name ∉ active) /\ size active < MAX_ACTIVE_SESSIONS /\
    c = with_interface_name name config /\ active' = {[name]} ∪ active.
Proof.
  unfold decide_session. destruct first as [[[m]|status]|]; [|naive_solver..]. cbn.
  destruct m as [[config|data|b]|]; [|naive_solver..]. cbn.
  destruct (validate_config t config) as [[]|e] eqn:Ev.
  2:{ split; [done|]. intros (c0 & name & [= <-] & Hv & _).
      apply validate_config_valid in Hv. congruence. }
  apply validate_config_valid in Ev.
  destruct (normalize_interface_name t (interface_name config)) as [name|] eqn:En; cbn; [|naive_solver].
  pose proof (reserve_ok active name) as Hr.
  destruct (reserve active name) as [a|e]; cbn.
  - destruct (proj1 (Hr a) eq_refl) as (Hin & Hs & ->). split.
    + intros [= <- <-]. by exists config, name.
    + intros (c0 & n & [= <-] & _ & Hn & _ & _ & -> & ->). by simplify_eq.
  - split; [done|]. intros (c0 & n & [= <-] & _ & Hn & Hin & Hs & _).
    rewrite En in Hn. injection Hn as <-. by discriminate (proj2 (Hr ({[name]} ∪ active)) (conj Hin (conj Hs eq_refl))).
Qed.

Lemma decide_session_total t first active : decide_session t first active <> None.
Proof.
  unfold decide_session. destruct first as [[[m]|status]|]; [|done..]. cbn.
  destruct m as [[config|data|b]|]; [|done..]. cbn.
  destruct (validate_config t config) as [[]|e] eqn:Ev; [|done].
  by apply validate_config_valid, valid_name, normalize_valid in Ev as (name & -> & _).
Qed.

Lemma decide_session_valid t first active c active' :
  decide_session t first active = Some (Ok (c, active')) ->
  valid_config t c /\ unit_name t (interface_name c) = interface_name c /\
  (interface_name c ∉ active) /\ size active < MAX_ACTIVE_SESSIONS /\
  active' = {[interface_name c]} ∪ active.
Proof.
  intros (config & name & _ & Hv & Hn & Hin & Hs & -> & ->)%decide_session_ok.
  split_and!; try done; [|by apply (normalize_unit t (interface_name config)); [apply Hv|]].
  destruct (normalize_valid t (interface_name config)) as (n & Hn' & Hname); [apply Hv|].
  rewrite Hn in Hn'. injection Hn' as <-. by apply with_name_valid.
Qed.

(** C30: opening a session never panics; it is granted exactly when the daemon
    is not stopping, the first message is an acceptable configuration, no
    active session has its (normalised) interface name and fewer than sixteen
    are active; then exactly that name is reserved, and the configuration the
    session's task gets is acceptable again. *)
Theorem session_begin_spec t stopping first active c active' :
  session_begin t stopping first active <> None /\
  (session_begin t stopping first active = Some (Ok (c, active')) <->
   stopping = false /\ exists config name,
     first = Some (Ok (mkClient (Some (Config config)))) /\ valid_config t config /\
     normalize_interface_name t (interface_name config) = Some name /\
     (name ∉ active) /\ size active < MAX_ACTIVE_SESSIONS /\
     c = with_interface_name name config /\ active' = {[name]} ∪ active) /\
  (session_begin t stopping first active = Some (Ok (c, active')) -> valid_config t c).
Proof.
  unfold session_begin, check_stopping, fail_if. pose proof (decide_session_total t first active) as Htotal.
  destruct stopping; [split_and!; naive_solver|]. split_and!; [done | |].
  - rewrite decide_session_ok. naive_solver.
  - intros [Hv _]%decide_session_valid. exact Hv.
Qed.

(** ** A running session *)

(** The packet a wake-up of the write loop has waiting. *)
Definition received (p : poll) : option (list byte) :=
  match p_incoming p with
  | Some (Some (Ok (mkClient (Some (OutgoingPacket data))))) => Some data
  | _ => None
  end.

(** Nothing but an optional packet is ready, and the device takes it. *)
Definition undisturbed (p : poll) : Prop :=
  p_shutdown p = false /\ p_closed p = false /\ p_read_done p = None /\ p_written p = Ok tt /\
  (p_incoming p = None \/ exists data, received p = Some data).

(** The packet a turn hands to the device. *)
Definition turn_packet (t : turn) : option (list byte) :=
  match t with Wrote data | WriteFailed data _ => Some data | _ => None end.

Lemma handle_message_packet m w data :
  turn_packet (handle_message m w) = Some data ->
  m = mkClient (Some (OutgoingPacket data)) /\ frame_ok data = true.
Proof.
  destruct m as [[[config|data'|b]|]]; cbn; try done. unfold handle_message. cbn.
  destruct (frame_ok data') eqn:E; cbn; [|done]. by destruct w; cbn; intros [= <-].
Qed.

Lemma write_turn_received p t data :
  write_turn p = Some t -> turn_packet t = Some data ->
  received p = Some data /\ frame_ok data = true.
Proof.
  unfold write_turn, received. destruct (p_shutdown p); [by intros [= <-]|].
  destruct (p_closed p); [by intros [= <-]|].
  destruct (p_read_done p) as [[[e|]|]|]; [by intros [= <-]..|].
  destruct (p_incoming p) as [[[m|status]|]|]; [|by intros [= <-]..|done].
  intros [= <-] Hd. by apply handle_message_packet in Hd as [-> Hf].
Qed.

Lemma write_turn_undisturbed p :
  undisturbed p ->
  write_turn p = match received p with
                 | Some data => Some (if frame_ok data then Wrote data else Skip)
                 | None => None
                 end.
Proof.
  intros (H1 & H2 & H3 & H4 & H5). unfold write_turn. rewrite H1, H2, H3.
  destruct H5 as [H5|[data H5]]; unfold received in *.
  - by rewrite H5.
  - destruct (p_incoming p) as [[[[m]|]|]|]; try done. destruct m as [[| |]|]; try done.
    injection H5 as ->. unfold handle_message. cbn. rewrite H4. by destruct (frame_ok data).
Qed.

Lemma write_loop_sub polls :
  (write_loop polls).1 `sublist_of` omap received polls /\
  Forall (fun data => frame_ok data = true) (write_loop polls).1.
Proof.
  induction polls as [|p polls [IH1 IH2]]; cbn; [by split; constructor|].
  destruct (write_turn p) as [[r| |data|data st]|] eqn:Et; cbn.
  - split; [apply sublist_nil_l | constructor].
  - split; [|done]. destruct (received p); [by apply sublist_cons | done].
  - destruct (write_turn_received _ _ data Et eq_refl) as [-> Hf]. destruct (write_loop polls). cbn in *.
    split; [by apply sublist_skip | by constructor].
  - destruct (write_turn_received _ _ data Et eq_refl) as [-> Hf].
    split; [apply sublist_skip, sublist_nil_l | by repeat constructor].
  - split; [|done]. destruct (received p); [by apply sublist_cons | done].
Qed.

Lemma write_loop_undisturbed polls :
  Forall undisturbed polls -> write_loop polls = (List.filter frame_ok (omap received polls), None).
Proof.
  induction 1 as [|p polls Hp _ IH]; [done|]. cbn. rewrite (write_turn_undisturbed p Hp).
  destruct (received p) as [data|] eqn:Er; cbn; [|exact IH].
  destruct (frame_ok data) eqn:Ef; [by rewrite IH | exact IH].
Qed.

(** The packets a session writes to its device are packets the client
    sent, in order, each non-empty and at most 65535 bytes; nothing that
    arrives at or after the wake-up that sees the shutdown or the client's
    departure is written; and as long as nothing interferes every acceptable
    packet is written. *)
Theorem write_loop_spec polls :
  let '(written, res) := write_loop polls in
  written `sublist_of` omap received polls /\
  Forall (fun data => (0 < len data <= MAX_PACKET_FRAME_SIZE)%N) written /\
  (forall pre p post, polls = pre ++ p :: post -> p_shutdown p = true \/ p_closed p = true ->
     written `sublist_of` omap received pre /\ res <> None) /\
  (Forall undisturbed polls -> written = List.filter frame_ok (omap received polls) /\ res = None).
Proof.
  destruct (write_loop polls) as [written res] eqn:E.
  pose proof (write_loop_sub polls) as [Hsub Hok]. rewrite E in Hsub, Hok. cbn in Hsub, Hok.
  split_and!; [done | | |].
  - eapply Forall_impl; [exact Hok|]. intros data Hd. unfold frame_ok in Hd.
    apply negb_true_iff, orb_false_iff in Hd as [H1 H2].
    apply N.ltb_ge in H1. apply bool_decide_eq_false in H2. split; [|done].
    destruct data; [done|]. unfold len. cbn. lia.
  - intros pre p post ->. clear Hsub Hok. revert written res E.
    induction pre as [|q pre IH]; intros written res E Hp; cbn in E.
    + assert (write_turn p = Some (Leave (Ok tt))) as Ht.
      { unfold write_turn. destruct (p_shutdown p); [done|]. by destruct (p_closed p), Hp. }
      rewrite Ht in E. injection E as <- <-. by split; [constructor|].
    + destruct (write_turn q) as [[r| |data|data st]|] eqn:Et; cbn in *.
      * injection E as <- <-. by split; [apply sublist_nil_l|].
      * destruct (IH _ _ E Hp) as [H1 H2]. split; [|done].
        destruct (received q); [by apply sublist_cons | done].
      * destruct (write_turn_received _ _ data Et eq_refl) as [-> _].
        destruct (write_loop (pre ++ p :: post)) as [w rs] eqn:Ew. injection E as <- <-.
        destruct (IH _ _ eq_refl Hp) as [H1 H2]. split; [by apply sublist_skip | done].
      * destruct (write_turn_received _ _ data Et eq_refl) as [-> _]. injection E as <- <-.
        split; [apply sublist_skip, sublist_nil_l | done].
      * destruct (IH _ _ E Hp) as [H1 H2]. split; [|done].
        destruct (received q); [by apply sublist_cons | done].
  - intros HF. rewrite write_loop_undisturbed in E by done. by injection E as <- <-.
Qed.
