(* ===== verification/SessionLoop.v ===== *)
(** * server.rs: the tasks of a running session

    [run_session_loop] runs three activities at once: a blocking thread that
    reads the device and feeds the response channel, the write loop that feeds
    the device, and, once the latter has left, the teardown. They meet in a
    channel of 64 responses, a stop signal, the device's interrupt and the
    message that tells the write loop that the reader is done; the connection
    takes responses at its own pace or drops them. Here every interleaving is a
    run of [step]. The theorems: in every run the activities do what the
    sequential definitions of the file Server say, with the responses in order
    and the channel within its bound; and the teardown never waits for the
    client, however full the channel is: all it can wait for is the device, and
    that only if its interrupt could not be triggered. *)

From S2P Require Import Prelude RustStd Net Proto IpUtil Validation Server.
From Stdlib Require Import Lia.

(** ** The state *)

Inductive reader_state : Type :=
| Reading
| Sending (packet : list byte)                (* in send_response *)
| SendingError (error : io_error)
| ReaderDone (error : option string).         (* sent to read_done_tx *)

Inductive writer_state : Type :=
| Looping
| Stopping (write_result : result unit Status)
| Closing (write_result : result unit Status)      (* session.close() not yet begun *)
| Cleaning (write_result : result unit Status)     (* after interrupt.trigger() *)
| Joining (write_result : result unit Status) (close_result : result unit string)
| Reporting (write_result : result unit Status) (close_result : result unit string) (rest : list action).

(** The channel, its receiver and what it has taken; the two signals; and what
    the activities have met and done so far. *)
Record session_run : Type := mkRun {
  queue : list ServerMessage;
  receiver : bool;
  taken : list ServerMessage;
  stopped : bool;
  interrupted : bool;
  reader : reader_state;
  writer : writer_state;
  reads : list (result (list byte) io_error * bool * bool);
  polls : list poll;
  to_device : list (list byte);
  performed : list action;
}.

Section SessionLoop.
Context (code_text : Code -> string) (code_display : Status -> string).
Context (name : string) (duration_ms : N).

Definition started_message : ServerMessage := mkServer (Some (Started name)).
Definition incoming_packet (data : list byte) : ServerMessage := mkServer (Some (IncomingPacket data)).

Definition read_error (error : io_error) : string := "failed reading TUN packet: " +:+ io_message error.
Definition read_error_message (error : io_error) : ServerMessage :=
  error_message code_text (mkStatus Internal (read_error error)).

(** The task enters [run_session_loop] with the start already in the channel. *)
Definition begun : session_run :=
  mkRun [started_message] true [] false false Reading Looping [] [] [] [].

Definition has_room (s : session_run) : Prop := length (queue s) < PACKET_CHANNEL_CAPACITY.

(** ** The reader *)

(** The reader in a new state, having met [met]. *)
Definition reader_to (s : session_run) (r : reader_state)
    (met : list (result (list byte) io_error * bool * bool)) : session_run :=
  mkRun (queue s) (receiver s) (taken s) (stopped s) (interrupted s) r (writer s)
    (reads s ++ met) (polls s) (to_device s) (performed s).

(** A message enters the channel. *)
Definition enqueue (m : ServerMessage) (s : session_run) : session_run :=
  mkRun (queue s ++ [m]) (receiver s) (taken s) (stopped s) (interrupted s) (reader s) (writer s)
    (reads s) (polls s) (to_device s) (performed s).

(** [recv_intr] returns with [Interrupted] once the event is triggered. Sending
    waits while the channel is full; the stop signal wins over the channel. *)
Inductive reader_step : session_run -> session_run -> Prop :=
| read_ignored s packet :
    reader s = Reading -> interrupted s = false -> frame_ok packet = false ->
    reader_step s (reader_to s Reading [(Ok packet, false, false)])
| read_packet s packet :
    reader s = Reading -> interrupted s = false -> frame_ok packet = true ->
    reader_step s (reader_to s (Sending packet) [])
| read_interrupted s error :
    reader s = Reading -> io_kind error = Interrupted ->
    reader_step s (reader_to s (ReaderDone None) [(Err error, false, false)])
| read_failed s error :
    reader s = Reading -> interrupted s = false -> io_kind error <> Interrupted ->
    reader_step s (reader_to s (SendingError error) [])
| sent_packet s packet :
    reader s = Sending packet -> stopped s = false -> receiver s = true -> has_room s ->
    reader_step s (enqueue (incoming_packet packet) (reader_to s Reading [(Ok packet, false, true)]))
| unsent_packet s packet :
    reader s = Sending packet -> stopped s = true \/ receiver s = false ->
    reader_step s (reader_to s (ReaderDone None) [(Ok packet, stopped s, false)])
| sent_error s error :
    reader s = SendingError error -> stopped s = false -> receiver s = true -> has_room s ->
    reader_step s (enqueue (read_error_message error)
      (reader_to s (ReaderDone (Some (read_error error))) [(Err error, false, true)]))
| unsent_error s error :
    reader s = SendingError error -> stopped s = true \/ receiver s = false ->
    reader_step s (reader_to s (ReaderDone (Some (read_error error))) [(Err error, stopped s, false)]).

(** ** The write loop and the teardown *)

(** The part of a wake-up that the session's own state determines. *)
Definition poll_fits (s : session_run) (p : poll) : Prop :=
  p_closed p = negb (receiver s) /\
  p_read_done p = match reader s with ReaderDone e => Some (Some e) | _ => None end.

(** A wake-up, the packets it gave the device, and where it leads. *)
Definition turned (s : session_run) (p : poll) (packets : list (list byte)) (w : writer_state) : session_run :=
  mkRun (queue s) (receiver s) (taken s) (stopped s) (interrupted s) (reader s) w
    (reads s) (polls s ++ [p]) (to_device s ++ packets) (performed s).

Definition after_turn (t : turn) : list (list byte) * writer_state :=
  match t with
  | Leave r => ([], Stopping r)
  | Skip => ([], Looping)
  | Wrote data => ([data], Looping)
  | WriteFailed data status => ([data], Stopping (Err status))
  end.

(** The writer after a signal, with what it has performed. *)
Definition signalled (s : session_run) (stop interrupt : bool) (w : writer_state) (done : list action) : session_run :=
  mkRun (queue s) (receiver s) (taken s) (stopped s || stop) (interrupted s || interrupt) (reader s) w
    (reads s) (polls s) (to_device s) (performed s ++ done).

(** [try_send]: never waits. *)
Definition try_send (m : ServerMessage) (s : session_run) : session_run :=
  if receiver s && (length (queue s) <? PACKET_CHANNEL_CAPACITY) then enqueue m s else s.

Definition perform_action (a : action) (s : session_run) : session_run :=
  match a with TrySend m => try_send m s | _ => s end.

Inductive writer_step : session_run -> session_run -> Prop :=
| write_poll s p t :
    writer s = Looping -> poll_fits s p -> write_turn p = Some t ->
    writer_step s (turned s p (after_turn t).1 (after_turn t).2)
| write_stop s w :
    writer s = Stopping w -> writer_step s (signalled s true false (Closing w) [StopReader])
| write_interrupt s w (triggered : bool) :
    (* close(): a trigger that fails is ignored; the cleanup hook runs next *)
    writer s = Closing w -> writer_step s (signalled s false triggered (Cleaning w) [])
| write_closed s w c :
    writer s = Cleaning w -> writer_step s (signalled s false false (Joining w c) [CloseSession])
| write_joined s w c e :
    writer s = Joining w c -> reader s = ReaderDone e ->
    writer_step s (signalled s false false
      (Reporting w c (drop 3 (finish code_text code_display name duration_ms w c (Ok tt)))) [JoinReader])
| write_report s w c a rest :
    writer s = Reporting w c (a :: rest) ->
    writer_step s (perform_action a (signalled s false false (Reporting w c rest) [a])).

(** ** The connection *)

Inductive client_step : session_run -> session_run -> Prop :=
| client_takes s m rest :
    receiver s = true -> queue s = m :: rest ->
    client_step s (mkRun rest true (taken s ++ [m]) (stopped s) (interrupted s) (reader s) (writer s)
      (reads s) (polls s) (to_device s) (performed s))
| client_drops s :
    client_step s (mkRun (queue s) false (taken s) (stopped s) (interrupted s) (reader s) (writer s)
      (reads s) (polls s) (to_device s) (performed s)).

Definition step (s s' : session_run) : Prop := reader_step s s' \/ writer_step s s' \/ client_step s s'.

(** ** The activities refine their sequential definitions *)

Lemma write_loop_snoc ps p written :
  write_loop ps = (written, None) ->
  write_loop (ps ++ [p]) =
    match write_turn p with
    | None | Some Skip => (written, None)
    | Some (Leave r) => (written, Some r)
    | Some (Wrote data) => (written ++ [data], None)
    | Some (WriteFailed data status) => (written ++ [data], Some (Err status))
    end.
Proof.
  revert written. induction ps as [|q ps IH]; intros written; cbn [write_loop app].
  - intros [= <-]. by destruct (write_turn p) as [[]|].
  - destruct (write_turn q) as [[r| |data|data status]|]; try done; [by apply IH| |by apply IH].
    destruct (write_loop ps) as [w [r|]]; [done|]. intros [= <-]. rewrite (IH w eq_refl).
    by destruct (write_turn p) as [[]|].
Qed.

(** What one read adds. *)
Definition read_adds (x : result (list byte) io_error * bool * bool) : list ServerMessage * option (option string) :=
  match x with
  | (Ok packet, stopped, sent) =>
    if negb (frame_ok packet) then ([], None)
    else if send_response stopped sent then ([incoming_packet packet], None) else ([], Some None)
  | (Err error, stopped, sent) =>
    if bool_decide (io_kind error = Interrupted) then ([], Some None)
    else (if send_response stopped sent then [read_error_message error] else [], Some (Some (read_error error)))
  end.

Lemma read_loop_snoc xs x forwarded :
  read_loop code_text xs = (forwarded, None) ->
  read_loop code_text (xs ++ [x]) = (forwarded ++ (read_adds x).1, (read_adds x).2).
Proof.
  revert forwarded. induction xs as [|[[[packet|error] stop] sent] xs IH]; intros forwarded; cbn [read_loop app].
  - intros [= <-]. destruct x as [[[packet|error] stop] sent]; cbn [read_loop read_adds].
    + destruct (frame_ok packet); [|done]. cbn [negb]. by destruct (send_response stop sent).
    + by destruct (bool_decide _).
  - destruct (frame_ok packet); cbn [negb]; [|by apply IH].
    destruct (send_response stop sent); [|done].
    destruct (read_loop code_text xs) as [f [r|]]; [done|]. intros [= <-]. by rewrite (IH f eq_refl).
  - by destruct (bool_decide _).
Qed.

(** The result of the write loop, once it has left. *)
Definition left_with (w : writer_state) : option (result unit Status) :=
  match w with
  | Looping => None
  | Stopping r | Closing r | Cleaning r | Joining r _ | Reporting r _ _ => Some r
  end.

Definition reader_result (r : reader_state) : option (option string) :=
  match r with ReaderDone e => Some e | _ => None end.

Definition try_sent (a : action) : option ServerMessage :=
  match a with TrySend m => Some m | _ => None end.

(** How far the teardown has come: what it has performed, and the signals. *)
Definition teardown_ok (s : session_run) : Prop :=
  match writer s with
  | Looping | Stopping _ => performed s = [] /\ stopped s = false /\ interrupted s = false
  | Closing _ => performed s = [StopReader] /\ stopped s = true /\ interrupted s = false
  | Cleaning _ => performed s = [StopReader] /\ stopped s = true
  | Joining _ _ => performed s = [StopReader; CloseSession] /\ stopped s = true
  | Reporting w c rest =>
    performed s ++ rest = finish code_text code_display name duration_ms w c (Ok tt) /\
    stopped s = true /\ is_Some (reader_result (reader s))
  end.

(** The responses: what the reader forwarded, in order, then reports. *)
Definition responses_ok (s : session_run) : Prop :=
  exists forwarded reported,
    read_loop code_text (reads s) = (forwarded, reader_result (reader s)) /\
    taken s ++ queue s = started_message :: forwarded ++ reported /\
    reported `sublist_of` omap try_sent (performed s) /\
    (reported = [] \/ is_Some (reader_result (reader s))).

(** What the reader is sending is worth it. *)
Definition reader_ok (r : reader_state) : Prop :=
  match r with
  | Sending packet => frame_ok packet = true
  | SendingError error => io_kind error <> Interrupted
  | _ => True
  end.

Record run_ok (s : session_run) : Prop := mkRunOk {
  ok_bound : length (queue s) <= PACKET_CHANNEL_CAPACITY;
  ok_write : write_loop (polls s) = (to_device s, left_with (writer s));
  ok_reader : reader_ok (reader s);
  ok_teardown : teardown_ok s;
  ok_responses : responses_ok s;
}.

Lemma begun_ok : run_ok begun.
Proof.
  constructor; cbn; [unfold PACKET_CHANNEL_CAPACITY; lia | done | done | done |].
  exists [], []. split_and!; auto.
Qed.

(** The reader's steps: one more read, with what it adds. *)
Lemma reader_reads s r x :
  reader_result (reader s) = None -> responses_ok s -> (read_adds x).2 = reader_result r -> (read_adds x).1 = [] ->
  responses_ok (reader_to s r [x]).
Proof.
  intros Hn (f & rep & Hr & Hq & Hsub & Hor) E2 E1. rewrite Hn in Hr. exists f, rep.
  cbn. rewrite (read_loop_snoc _ x f Hr), E1, E2, app_nil_r. split_and!; [done..|].
  rewrite Hn in Hor. destruct Hor as [->|[? ?]]; [by left | done].
Qed.

Lemma reader_sends s r x m :
  reader_result (reader s) = None -> responses_ok s -> read_adds x = ([m], reader_result r) ->
  responses_ok (enqueue m (reader_to s r [x])).
Proof.
  intros Hn (f & rep & Hr & Hq & Hsub & Hor) E. rewrite Hn in Hr, Hor.
  destruct Hor as [->|[? ?]]; [|done]. rewrite app_nil_r in Hq. exists (f ++ [m]), [].
  cbn. rewrite (read_loop_snoc _ x f Hr), E. cbn.
  split_and!; [done | by rewrite app_assoc, Hq, app_nil_r | apply sublist_nil_l | by left].
Qed.

Lemma reader_moves s r : reader_result (reader s) = None -> reader_result r = None -> responses_ok s ->
  responses_ok (reader_to s r []).
Proof.
  intros Hn Hr (f & rep & ? & ? & ? & ?). exists f, rep. cbn. rewrite app_nil_r, Hr. by rewrite <- Hn.
Qed.

(** What a reader step keeps of the rest of the state. *)
Lemma reader_teardown s s' :
  reader_result (reader s) = None -> teardown_ok s ->
  writer s' = writer s -> performed s' = performed s -> stopped s' = stopped s -> interrupted s' = interrupted s ->
  teardown_ok s'.
Proof.
  intros Hn Ht Ew Ep Es Ei. unfold teardown_ok in *. rewrite Ew, Ep, Es, Ei.
  destruct (writer s); try done. destruct Ht as (_ & _ & [? Hd]). by rewrite Hn in Hd.
Qed.

Lemma send_response_stopped stop : send_response stop false = false.
Proof. by destruct stop. Qed.

Lemma reader_step_ok s s' : run_ok s -> reader_step s s' -> run_ok s'.
Proof.
  intros [Hb Hw Hd Ht Hr] Hs.
  assert (reader_result (reader s) = None) as Hn by (by destruct Hs as [?? E|?? E|?? E|?? E|?? E|?? E|?? E|?? E]; rewrite E).
  constructor.
  - destruct Hs as [| | | |? ? ? ? ? Hroom| |? ? ? ? ? Hroom|]; cbn; try done;
      unfold has_room in Hroom; rewrite length_app; cbn; lia.
  - by destruct Hs.
  - by destruct Hs.
  - destruct Hs; by eapply reader_teardown.
  - destruct Hs as [s packet _ _ Hok|s packet|s error _ Hk|s error|s packet E _ _ _|s packet E Hor|s error E _ _ _|s error E Hor];
      try (by apply reader_moves); try rewrite E in Hd; cbn in Hd.
    + apply reader_reads; cbn; rewrite ?Hok; done.
    + apply reader_reads; cbn; rewrite ?bool_decide_eq_true_2 by done; done.
    + apply reader_sends; [done | done |]. cbn. by rewrite Hd.
    + apply reader_reads; cbn; rewrite ?Hd, ?send_response_stopped; done.
    + apply reader_sends; [done | done |]. cbn. by rewrite bool_decide_eq_false_2.
    + apply reader_reads; cbn; rewrite ?bool_decide_eq_false_2, ?send_response_stopped by done; done.
Qed.

(** A writer step that leaves the channel alone. *)
Lemma signalled_responses s stop interrupt w done :
  responses_ok s -> responses_ok (signalled s stop interrupt w done).
Proof.
  intros (f & rep & ? & ? & ? & ?). exists f, rep. cbn. split_and!; try done.
  rewrite omap_app. by apply sublist_inserts_r.
Qed.

(** Reporting puts at most its message into the channel. *)
Lemma performed_responses s a w :
  responses_ok s -> is_Some (reader_result (reader s)) ->
  responses_ok (perform_action a (signalled s false false w [a])).
Proof.
  intros Hr Hd. pose proof (signalled_responses s false false w [a] Hr) as Hs.
  destruct a as [| | | |m|m| |]; cbn [perform_action]; try done. unfold try_send.
  destruct (receiver _ && _); [|done]. destruct Hr as (f & rep & Hf & Hq & Hsub & _).
  exists f, (rep ++ [m]). cbn. rewrite omap_app, (app_assoc (taken s)), Hq. cbn.
  split_and!; [done | by rewrite <- !app_assoc | by apply sublist_app | by right].
Qed.

Lemma performed_bound s a w :
  length (queue s) <= PACKET_CHANNEL_CAPACITY ->
  length (queue (perform_action a (signalled s false false w [a]))) <= PACKET_CHANNEL_CAPACITY.
Proof.
  intros Hb. destruct a; cbn [perform_action]; try done. unfold try_send. cbn [receiver queue signalled].
  destruct (receiver s); [|done]. destruct (Nat.ltb_spec (length (queue s)) PACKET_CHANNEL_CAPACITY); [|done].
  cbn [queue enqueue andb signalled]. rewrite length_app. cbn. lia.
Qed.

(** Everything but the channel is as [signalled] says. *)
Lemma performed_rest a s :
  let s' := perform_action a s in
  writer s' = writer s /\ reader s' = reader s /\ polls s' = polls s /\ to_device s' = to_device s /\
  performed s' = performed s /\ stopped s' = stopped s /\ interrupted s' = interrupted s.
Proof. destruct a; cbn; try done. unfold try_send. by destruct (_ && _). Qed.

Lemma writer_step_ok s s' : run_ok s -> writer_step s s' -> run_ok s'.
Proof.
  intros [Hb Hw Hd Ht Hr] Hs.
  destruct Hs as [s p t E [Hc Hrd] Htu|s w E|s w b E|s w c E|s w c e E Er|s w c a rest E];
    unfold teardown_ok in Ht; rewrite E in Ht, Hw; cbn in Hw.
  - constructor; cbn; try done.
    + rewrite (write_loop_snoc _ p _ Hw), Htu. destruct t; cbn; by rewrite ?app_nil_r.
    + unfold teardown_ok. cbn. by destruct t.
  - destruct Ht as (Hp & _ & Hi). constructor; cbn; try done; [|by apply signalled_responses].
    unfold teardown_ok. cbn. by rewrite Hp, Hi, orb_true_r.
  - destruct Ht as (Hp & Hst & _). constructor; cbn; try done; [|by apply signalled_responses].
    unfold teardown_ok. cbn. by rewrite Hp, Hst.
  - destruct Ht as (Hp & Hst). constructor; cbn; try done; [|by apply signalled_responses].
    unfold teardown_ok. cbn. by rewrite Hp, Hst.
  - destruct Ht as (Hp & Hst). constructor; cbn; try done; [|by apply signalled_responses].
    unfold teardown_ok. cbn [writer signalled performed stopped reader]. rewrite Hp, Hst, Er. by cbn.
  - destruct Ht as (Hp & Hst & Hdone).
    destruct (performed_rest a (signalled s false false (Reporting w c rest) [a])) as (H1 & H2 & H3 & H4 & H5 & H6 & H7).
    constructor; [by apply performed_bound | by rewrite H3, H4, H1 | by rewrite H2 | | by apply performed_responses].
    unfold teardown_ok. rewrite H1, H2, H5, H6. cbn. rewrite <- app_assoc, Hst. by cbn.
Qed.

Lemma client_step_ok s s' : run_ok s -> client_step s s' -> run_ok s'.
Proof.
  intros [Hb Hw Hd Ht (f & rep & Hf & Hq & Hsub & Hor)] Hs.
  destruct Hs as [s m rest Hrx E|s]; constructor; try done.
  - cbn. rewrite E in Hb. cbn in Hb. lia.
  - exists f, rep. cbn. split_and!; [done | | done | done]. by rewrite <- app_assoc, <- Hq, E.
  - by exists f, rep.
Qed.

Lemma reachable_ok s : rtc step begun s -> run_ok s.
Proof.
  intros Hr. pose proof begun_ok as H0. revert H0. induction Hr as [|x y z [Hs|[Hs|Hs]] _ IH]; [done| | |]; intros Hx; apply IH.
  - by eapply reader_step_ok.
  - by eapply writer_step_ok.
  - by eapply client_step_ok.
Qed.
(** ** Correctness *)

(** The teardown has performed everything. *)
Definition ended (s : session_run) : Prop := exists w c, writer s = Reporting w c [].

(** C21: however the reader, the write loop, the teardown and the client
    interleave: the channel never holds more than 64 responses; the packets
    given to the device and the result of the write loop are those of
    [write_loop] on the wake-ups it had, the reader's are those of [read_loop]
    on what it read; what the client has taken and the channel still holds is
    the start, then what the reader forwarded, each once and in order, then
    reports of the teardown, and these only once the reader has ended; and the
    teardown performs the actions of [finish] in order, all of them when it
    ends. *)
Theorem session_refines_loops s :
  rtc step begun s ->
  length (queue s) <= PACKET_CHANNEL_CAPACITY /\
  write_loop (polls s) = (to_device s, left_with (writer s)) /\
  (exists forwarded reported,
     read_loop code_text (reads s) = (forwarded, reader_result (reader s)) /\
     taken s ++ queue s = started_message :: forwarded ++ reported /\
     reported `sublist_of` omap try_sent (performed s) /\
     (reported <> [] -> is_Some (reader_result (reader s)))) /\
  (exists w c, performed s `prefix_of` finish code_text code_display name duration_ms w c (Ok tt)) /\
  (forall w c, writer s = Reporting w c [] ->
     performed s = finish code_text code_display name duration_ms w c (Ok tt)).
Proof.
  intros [Hb Hw _ Ht (f & rep & Hf & Hq & Hsub & Hor)]%reachable_ok. split_and!; [done | done | | |].
  - exists f, rep. split_and!; try done. by destruct Hor.
  - unfold teardown_ok in Ht.
    destruct (writer s) as [|w|w|w|w c|w c rest]; destruct Ht as [Hp _];
      first [ exists w, c | exists (Ok tt), (Ok tt) ]; try rewrite Hp; try (apply prefix_nil).
    1,2: by eexists.
    + by eexists.
    + rewrite <- Hp. by eexists.
  - intros w c E. unfold teardown_ok in Ht. rewrite E in Ht. destruct Ht as [Hp _]. by rewrite app_nil_r in Hp.
Qed.

(** Runs with the activity that makes each step. *)
Inductive activity : Type := TheReader | TheWriter | TheClient.

#[global] Instance activity_eq_dec : EqDecision activity.
Proof. solve_decision. Defined.

Inductive exec : session_run -> list activity -> session_run -> Prop :=
| exec_nil s : exec s [] s
| exec_reader s s' tr s'' : reader_step s s' -> exec s' tr s'' -> exec s (TheReader :: tr) s''
| exec_writer s s' tr s'' : writer_step s s' -> exec s' tr s'' -> exec s (TheWriter :: tr) s''
| exec_client s s' tr s'' : client_step s s' -> exec s' tr s'' -> exec s (TheClient :: tr) s''.

Definition steps_of (a : activity) (tr : list activity) : nat := length (List.filter (fun b => bool_decide (b = a)) tr).

(** How many steps the teardown has left. *)
Definition teardown_rank (w : writer_state) : nat :=
  match w with
  | Looping => 0
  | Stopping _ => 10
  | Closing _ => 9
  | Cleaning _ => 8
  | Joining _ _ => 7
  | Reporting _ _ rest => length rest
  end.

Lemma reports_length w c : length (drop 3 (finish code_text code_display name duration_ms w c (Ok tt))) <= 6.
Proof. destruct w, c; cbn; lia. Qed.

Lemma teardown_advances s s' :
  writer s <> Looping -> writer_step s s' ->
  teardown_rank (writer s') < teardown_rank (writer s) /\ writer s' <> Looping /\
  (interrupted s = true -> interrupted s' = true) /\ (stopped s = true -> stopped s' = true) /\
  reader s' = reader s.
Proof.
  intros Hl Hs. destruct Hs as [s p t E|s w E|s w b E|s w c E|s w c e E _|s w c a rest E]; rewrite E; [done|..].
  1-4: cbn [writer signalled teardown_rank interrupted stopped reader].
  1-3: split_and!; [lia | done | by intros -> | by intros -> | done].
  - pose proof (reports_length w c). split_and!; [cbn [teardown_rank]; lia | done | by intros -> | by intros -> | done].
  - destruct (performed_rest a (signalled s false false (Reporting w c rest) [a])) as (H1 & H2 & _ & _ & _ & H6 & H7).
    rewrite H1, H2, H6, H7. cbn. split_and!; [lia | done | by intros -> | by intros -> | done].
Qed.

Lemma reader_keeps s s' :
  reader_step s s' -> writer s' = writer s /\ interrupted s' = interrupted s /\ stopped s' = stopped s.
Proof. by intros []. Qed.

(** Nothing holds the reader any more: the device is interrupted, or the reader
    is not waiting for it and has been told to stop. *)
Definition reader_released (s : session_run) : Prop :=
  interrupted s = true \/ (stopped s = true /\ reader s <> Reading).

Lemma interrupted_stopped s : run_ok s -> interrupted s = true -> stopped s = true.
Proof.
  intros Hok Hi. pose proof (ok_teardown s Hok) as Ht. unfold teardown_ok in Ht.
  destruct (writer s); naive_solver congruence.
Qed.

(** Then its next step is its last. *)
Lemma reader_ends s s' :
  run_ok s -> reader_released s -> reader_step s s' ->
  is_Some (reader_result (reader s')) /\ reader_released s'.
Proof.
  intros Hok Hrel Hs.
  assert (stopped s = true) as Hst by (destruct Hrel as [Hi|[? _]]; [by apply interrupted_stopped | done]).
  assert (is_Some (reader_result (reader s'))) as Hd
    by (destruct Hrel as [Hi|[_ Hn]]; destruct Hs; cbn; first [congruence | by eexists]).
  split; [done|]. destruct (reader_keeps _ _ Hs) as (_ & _ & Es).
  right. rewrite Es. split; [done|]. intros E. rewrite E in Hd. by destruct Hd.
Qed.

(** The reader's steps once it is released. *)
Definition reader_rank (r : reader_state) : nat := match r with ReaderDone _ => 0 | _ => 1 end.

Lemma reader_done_stuck s s' e : reader s = ReaderDone e -> ~ reader_step s s'.
Proof. intros E Hs. destruct Hs; congruence. Qed.

Lemma exec_ok s tr s' : run_ok s -> exec s tr s' -> run_ok s'.
Proof.
  intros Hok He. induction He as [|s s1 tr s' Hs _ IH|s s1 tr s' Hs _ IH|s s1 tr s' Hs _ IH]; [done|..]; apply IH.
  - by eapply reader_step_ok.
  - by eapply writer_step_ok.
  - by eapply client_step_ok.
Qed.

Lemma exec_bounds s tr s' :
  run_ok s -> writer s <> Looping -> exec s tr s' ->
  writer s' <> Looping /\ steps_of TheWriter tr + teardown_rank (writer s') <= teardown_rank (writer s) /\
  (reader_released s -> steps_of TheReader tr <= reader_rank (reader s)).
Proof.
  intros Hok Hl He. revert Hok Hl.
  induction He as [s|s s1 tr s' Hs He IH|s s1 tr s' Hs He IH|s s1 tr s' Hs He IH]; intros Hok Hl.
  - split_and!; [done | unfold steps_of; cbn; lia | cbn; lia].
  - destruct (reader_keeps _ _ Hs) as [Ew _].
    destruct IH as (H1 & H2 & H3); [by eapply reader_step_ok | by rewrite Ew |].
    rewrite Ew in H2. split_and!; [done | exact H2 |]. intros Hrel.
    destruct (reader_ends _ _ Hok Hrel Hs) as [[e He'] Hrel']. specialize (H3 Hrel').
    assert (reader_rank (reader s) = 1) as ->.
    { destruct (reader s) as [| | |e0] eqn:E; [done..|]. by destruct (reader_done_stuck s s1 e0 E). }
    assert (reader_rank (reader s1) = 0) as E0 by by destruct (reader s1). rewrite E0 in H3.
    change (steps_of TheReader (TheReader :: tr)) with (S (steps_of TheReader tr)). lia.
  - destruct (teardown_advances _ _ Hl Hs) as (Hr & Hl' & Hi & Hst & Er).
    destruct IH as (H1 & H2 & H3); [by eapply writer_step_ok | done |].
    split_and!; [done | change (steps_of TheWriter (TheWriter :: tr)) with (S (steps_of TheWriter tr)); lia |].
    intros Hrel. rewrite <- Er. apply H3. unfold reader_released in *. rewrite Er. tauto.
  - assert (writer s1 = writer s /\ interrupted s1 = interrupted s /\ stopped s1 = stopped s /\ reader s1 = reader s)
      as (Ew & Ei & Est & Er) by by destruct Hs.
    destruct IH as (H1 & H2 & H3); [by eapply client_step_ok | by rewrite Ew |].
    unfold reader_released in *. rewrite Ew in H2. rewrite Ei, Est, Er in H3. by split_and!.
Qed.

(** The teardown waits for a reader that waits for the device, whose interrupt
    was not triggered. *)
Definition waits_for_device (s : session_run) : Prop :=
  (exists w c, writer s = Joining w c) /\ reader s = Reading /\ stopped s = true /\ interrupted s = false.

(** But for that somebody can always move, and it is never the client who has
    to. *)
Lemma teardown_enabled s :
  run_ok s -> writer s <> Looping ->
  ended s \/ (exists s', writer_step s s') \/ (reader_released s /\ exists s', reader_step s s') \/
  waits_for_device s.
Proof.
  intros Hok Hl. pose proof (ok_teardown s Hok) as Ht. unfold teardown_ok in Ht.
  destruct (writer s) as [|w|w|w|w c|w c [|a rest]] eqn:E; [done|..|by left; exists w, c|].
  - right; left. eexists. by apply write_stop.
  - right; left. eexists. by apply (write_interrupt _ w true).
  - right; left. eexists. by apply (write_closed _ w (Ok tt)).
  - destruct Ht as (_ & Hst). destruct (reader s) as [|packet|error|e] eqn:Er.
    + destruct (interrupted s) eqn:Ei.
      * right; right; left. split; [by left|]. eexists. by apply (read_interrupted _ (io_new Interrupted "")).
      * right; right; right. split; [by exists w, c | done].
    + right; right; left. split; [right; by rewrite Er|]. eexists. apply (unsent_packet _ packet Er). by left.
    + right; right; left. split; [right; by rewrite Er|]. eexists. apply (unsent_error _ error Er). by left.
    + right; left. eexists. by eapply write_joined.
  - right; left. eexists. by eapply write_report.
Qed.

(** What the device then delivers releases the reader, unless it is a packet
    that is not forwarded. *)
Lemma device_releases s s' :
  waits_for_device s -> reader_step s s' ->
  reader_released s' \/ (reader s' = Reading /\ exists packet, frame_ok packet = false /\
    reads s' = reads s ++ [(Ok packet, false, false)]).
Proof.
  intros (_ & Hr & Hst & _) Hs. unfold reader_released.
  destruct Hs as [s packet _ _ Hf| | | |s p E|s p E|s e E|s e E]; cbn; try congruence; [|left; by right..].
  right. by split; [|exists packet].
Qed.

Lemma finish_reports w c :
  exists reports, finish code_text code_display name duration_ms w c (Ok tt) =
    [StopReader; CloseSession; JoinReader] ++ reports ++ [Release name] /\
    Forall (fun a => match a with Log _ | TrySend _ => True | _ => False end) reports.
Proof.
  unfold finish. destruct w as [[]|], c as [[]|];
    [eexists [_] | eexists [_; _; _] | eexists [_; _; _] | eexists [_; _; _; _; _]];
    (split; [reflexivity|]); repeat (apply Forall_cons; split; [done|]); apply Forall_nil_2.
Qed.

End SessionLoop.

(** ** A concrete session: one packet arrives, the daemon stops *)
Module SessionLoopExamples.
Definition no_code (_ : Code) : string := "".
Definition no_status (_ : Status) : string := "".
Definition one : list byte := [Byte.x45].

Definition forwarded : session_run :=
  mkRun [incoming_packet one] true [started_message "utun4"] false false Reading Looping
    [(Ok one, false, true)] [] [] [].

Definition daemon_stops : poll := mkPoll true false None None (Ok tt).

Definition leaving : session_run :=
  mkRun [incoming_packet one] true [started_message "utun4"] false false Reading (Stopping (Ok tt))
    [(Ok one, false, true)] [daemon_stops] [] [].

Lemma reach_forwarded : rtc (step no_code no_status "utun4" 5) (begun "utun4") forwarded.
Proof.
  eapply rtc_l; [left; by apply (read_packet _ _ one)|].
  eapply rtc_l; [left; apply (sent_packet _ _ one); try done; unfold has_room, PACKET_CHANNEL_CAPACITY; cbn; lia|].
  eapply rtc_l; [right; right; by eapply client_takes|]. apply rtc_refl.
Defined.

Lemma reach_leaving : rtc (step no_code no_status "utun4" 5) (begun "utun4") leaving.
Proof.
  eapply rtc_r; [apply reach_forwarded|]. right; left.
  by apply (write_poll _ _ _ _ forwarded daemon_stops (Leave (Ok tt))).
Defined.

(** The teardown stops the reader and interrupts the device. *)
Definition interrupted_run : session_run :=
  mkRun [incoming_packet one] true [started_message "utun4"] true true Reading (Cleaning (Ok tt))
    [(Ok one, false, true)] [daemon_stops] [] [StopReader].

Lemma exec_interrupted : exec no_code no_status "utun4" 5 leaving [TheWriter; TheWriter] interrupted_run.
Proof.
  eapply exec_writer; [by apply write_stop|]. eapply exec_writer; [by apply (write_interrupt _ _ _ _ _ (Ok tt) true)|]. apply exec_nil.
Defined.
End SessionLoopExamples.
Import SessionLoopExamples.

Lemma session_refines_loops_witness :
  length (queue forwarded) <= PACKET_CHANNEL_CAPACITY /\
  exists fw reported, read_loop no_code (reads forwarded) = (fw, None) /\
    [started_message "utun4"; incoming_packet one] = started_message "utun4" :: fw ++ reported.
Proof.
  destruct (session_refines_loops no_code no_status "utun4" 5 forwarded reach_forwarded)
    as (Hb & _ & (fw & reported & Hr & Hq & _) & _).
  split; [exact Hb|]. exists fw, reported. split; [exact Hr | exact Hq].
Defined.

