(* ===== verification/Connection.v ===== *)
(** * server.rs: a connection from end to end

    [serve_connection] greets the client, reads its first message and then runs
    a read half, which feeds the session's channel, and a write half, which
    turns the session's responses into frames. Here the halves meet the frame
    transport of the file Ipc: a socket may fail, time out or be abandoned
    after any byte. The theorems: what is on the wire is always whole frames of
    the responses in order with at most a part of one more; packets of the
    client reach the device, and packets of the device reach the client. *)

From S2P Require Import Prelude RustStd Net Proto IpUtil Validation Ipc Server.
From Stdlib Require Import Lia.

(** ** The socket *)

(** The bytes sent, and after how many more bytes a write ends with an error
    (a broken socket, the five-second timeout, or the shutdown that abandons the
    write), if it does. *)
Record socket : Type := mkSocket { wire : list byte; limit : option (nat * io_error) }.

#[global] Instance socket_writer : Writer socket := {
  write_all bs s :=
    match limit s with
    | None => (Ok tt, mkSocket (wire s ++ bs) None)
    | Some (n, e) =>
      if length bs <=? n then (Ok tt, mkSocket (wire s ++ bs) (Some (n - length bs, e)))
      else (Err e, mkSocket (wire s ++ take n bs) (Some (0, e)))
    end;
  flush s := match limit s with None => (Ok tt, s) | Some (_, e) => (Err e, s) end;
}.

Section Connection.
Context `{Message ServerMessage} `{Message ClientMessage}.
Context (code_text : Code -> string).

(** [timeout(5 s, write_frame(...))]. *)
Definition write_message (m : ServerMessage) (lim : option (nat * io_error)) (w : list byte)
    : result unit io_error * list byte :=
  let '(r, s) := write_frame m (mkSocket w lim) in (r, wire s).

(** ** The greeting *)

Definition ready (pid : N) : ServerMessage := mkServer (Some (Ready PROTOCOL_VERSION pid)).

Definition greet (pid : N) (lim : option (nat * io_error)) : result unit io_error * list byte :=
  write_message (ready pid) lim [].

(** ** The write half *)

(** One wake-up of the [select!]: whether the daemon is stopping, what the
    session's channel delivers ([Some None]: it is closed), and how writing it
    ends; [r_stopped]: it ends because the daemon stops meanwhile. *)
Record response_poll : Type := mkResponse {
  r_stopping : bool;
  r_message : option (option (result ServerMessage Status));
  r_limit : option (nat * io_error);
  r_stopped : bool;
}.

(** [message.unwrap_or_else(|status| error_message(&status))]. *)
Definition response (m : result ServerMessage Status) : ServerMessage :=
  match m with Ok m => m | Err status => error_message code_text status end.

Definition write_outcome (p : response_poll) (e : io_error) : result unit io_error :=
  if r_stopped p then Ok tt else Err e.

Fixpoint write_responses (polls : list response_poll) (w : list byte)
    : list byte * option (result unit io_error) :=
  match polls with
  | [] => (w, None)
  | p :: r =>
    if r_stopping p then (w, Some (Ok tt))
    else match r_message p with
    | None => write_responses r w
    | Some None => (w, Some (Ok tt))
    | Some (Some m) =>
      match write_message (response m) (r_limit p) w with
      | (Ok _, w') => write_responses r w'
      | (Err e, w') => (w', Some (write_outcome p e))
      end
    end
  end.

(** [session] is what [service.session(...)] returned. *)
Definition write_half (session : result unit Status) (polls : list response_poll) (w : list byte)
    : list byte * option (result unit io_error) :=
  match session with
  | Ok _ => write_responses polls w
  | Err status =>
    match polls with
    | [] => (w, None)
    | p :: _ =>
      if r_stopping p then (w, Some (Ok tt))
      else match write_message (error_message code_text status) (r_limit p) w with
      | (Ok _, w') => (w', Some (Ok tt))
      | (Err e, w') => (w', Some (write_outcome p e))
      end
    end
  end.

(** ** The read half *)

(** The frames the read half sees: each is read from what the previous one
    left. A turn says whether the daemon is stopping and whether the channel
    takes the message. *)
Fixpoint read_turns (turns : list (bool * bool)) (s : stream)
    : list (bool * result (option ClientMessage) io_error * bool) :=
  match turns with
  | [] => []
  | (stopping, takes) :: r =>
    let '(frame, s') := read_frame s in (stopping, frame, takes) :: read_turns r s'
  end.

(** [try_join!(read, write)]: the first error, or both are done. *)
Definition join_halves (read write : option (result unit io_error)) : option (result unit io_error) :=
  match read, write with
  | Some (Err e), _ => Some (Err e)
  | _, Some (Err e) => Some (Err e)
  | Some (Ok _), Some (Ok _) => Some (Ok tt)
  | _, _ => None
  end.

(** ** What is on the wire *)

(** Writing one message: the whole frame, or a part of it and an error. *)
Lemma write_message_spec m lim w :
  match write_message m lim w with
  | (Ok _, w') => frame_fits m /\ w' = w ++ frame_bytes m
  | (Err _, w') => exists partial, w' = w ++ partial /\ partial `prefix_of` frame_bytes m
  end.
Proof.
  unfold write_message, write_frame, frame_bytes, frame_fits. set (bs := encode_to_vec m).
  set (h := be_bytes 4 (Z.of_nat (length bs))).
  destruct (bool_decide_reflect (bs = [])) as [|Hne]; cbn [orb].
  { exists []. rewrite app_nil_r. split; [done | apply prefix_nil]. }
  destruct (Z.ltb_spec MAX_FRAME_SIZE (Z.of_nat (length bs))) as [|Hmax].
  { exists []. rewrite app_nil_r. split; [done | apply prefix_nil]. }
  destruct lim as [[n e]|]; cbn [write_all flush socket_writer limit wire].
  2:{ rewrite <- app_assoc. done. }
  destruct (length h <=? n).
  2:{ exists (take n h). split; [done|]. apply prefix_app_r, prefix_take. }
  cbn [limit wire]. destruct (length bs <=? n - length h); cbn [limit wire].
  - exists (h ++ bs). rewrite app_assoc. done.
  - exists (h ++ take (n - length h) bs). rewrite app_assoc. split; [done|].
    apply prefix_app, prefix_take.
Qed.

Lemma write_message_whole m w : frame_fits m -> write_message m None w = (Ok tt, w ++ frame_bytes m).
Proof.
  intros [Hne Hmax]. unfold write_message, write_frame, frame_bytes.
  rewrite bool_decide_eq_false_2 by done. rewrite (proj2 (Z.ltb_ge _ _)) by done.
  cbn [orb write_all flush socket_writer limit wire]. by rewrite <- app_assoc.
Qed.

(** [partial] is part of the frame of the message after [ms] in [all], if any. *)
Definition cut_off (all ms : list ServerMessage) (partial : list byte) : Prop :=
  partial = [] \/ exists m, all !! length ms = Some m /\ partial `prefix_of` frame_bytes m.

(** [w'] extends [w] by whole frames of a prefix of [all] and at most a part of
    the next. *)
Definition extends (all : list ServerMessage) (w w' : list byte) : Prop :=
  exists ms partial, w' = w ++ frames_bytes ms ++ partial /\ ms `prefix_of` all /\
    Forall frame_fits ms /\ cut_off all ms partial.

Lemma extends_refl all w : extends all w w.
Proof.
  exists [], []. cbn [frames_bytes fmap list_fmap concat app]. rewrite app_nil_r.
  split_and!; [done | apply prefix_nil | constructor | by left].
Qed.

Lemma extends_partial m all w partial :
  partial `prefix_of` frame_bytes m -> extends (m :: all) w (w ++ partial).
Proof.
  intros Hp. exists [], partial.
  split_and!; [done | apply prefix_nil | constructor | right; by exists m].
Qed.

Lemma extends_cons m all w w' :
  frame_fits m -> extends all (w ++ frame_bytes m) w' -> extends (m :: all) w w'.
Proof.
  intros Hfit (ms & partial & -> & Hp & Hf & Hc). exists (m :: ms), partial.
  unfold frames_bytes. cbn [fmap list_fmap concat].
  split_and!; [by rewrite <- !app_assoc | by apply prefix_cons | by constructor | exact Hc].
Qed.

(** The responses the channel delivers. *)
Definition responses (polls : list response_poll) : list ServerMessage :=
  omap (fun p => response <$> mjoin (r_message p)) polls.

Lemma write_responses_extends polls w : extends (responses polls) w (write_responses polls w).1.
Proof.
  revert w. induction polls as [|p r IH]; intros w; [apply extends_refl|].
  assert (responses (p :: r) = match mjoin (r_message p) with
    | Some m => response m :: responses r | None => responses r end) as Er
    by (unfold responses; cbn; by destruct (mjoin (r_message p))).
  cbn [write_responses]. destruct (r_stopping p); [apply extends_refl|].
  destruct (r_message p) as [[m|]|]; rewrite Er; cbn [mjoin option_join]; [|apply extends_refl | apply IH].
  pose proof (write_message_spec (response m) (r_limit p) w) as Hw.
  destruct (write_message (response m) (r_limit p) w) as [[[]|e] w'].
  - destruct Hw as [Hfit ->]. by apply extends_cons.
  - destruct Hw as (partial & -> & Hp). by apply extends_partial.
Qed.

(** The messages a connection is to carry after the greeting. *)
Definition to_send (session : result unit Status) (polls : list response_poll) : list ServerMessage :=
  match session with Ok _ => responses polls | Err status => [error_message code_text status] end.

Lemma write_half_extends session polls w :
  extends (to_send session polls) w (write_half session polls w).1.
Proof.
  destruct session as [u|status]; [apply write_responses_extends|]. cbn [write_half to_send].
  destruct polls as [|p r]; [apply extends_refl|]. destruct (r_stopping p); [apply extends_refl|].
  pose proof (write_message_spec (error_message code_text status) (r_limit p) w) as Hw.
  destruct (write_message _ (r_limit p) w) as [[[]|e] w'].
  - destruct Hw as [Hfit ->]. apply extends_cons; [done | apply extends_refl].
  - destruct Hw as (partial & -> & Hp). by apply extends_partial.
Qed.

(** Everything the daemon sends on a connection: the greeting, and the write
    half when the greeting was sent. *)
Definition sent (pid : N) (lim : option (nat * io_error)) (session : result unit Status)
    (polls : list response_poll) : list byte :=
  match greet pid lim with
  | (Ok _, w) => (write_half session polls w).1
  | (Err _, w) => w
  end.

Context {sdom : ServerMessage -> Prop} `{!MessageLaws ServerMessage sdom}.

(** C13: whenever and however a connection ends, what the daemon has put on the
    wire is whole frames, the greeting first and then the session's responses in
    order (statuses as error messages), followed at most by a part of the next
    one; so a client reads back exactly those messages, however the bytes
    reach it. *)
Theorem wire_carries_responses pid lim session polls s :
  let all := ready pid :: to_send session polls in
  Forall sdom all -> pending s = sent pid lim session polls ->
  exists ms partial s', ms `prefix_of` all /\ cut_off all ms partial /\
    read_frames (length ms) s = (Ok ms, s') /\ pending s' = partial.
Proof.
  cbn zeta. set (all := ready pid :: to_send session polls). intros Hd Hp.
  assert (extends all [] (sent pid lim session polls)) as (ms & partial & E & Hpre & Hf & Hc).
  { unfold sent, greet. pose proof (write_message_spec (ready pid) lim []) as Hw.
    destruct (write_message (ready pid) lim []) as [[[]|e] w'].
    - destruct Hw as [Hfit ->]. apply extends_cons; [done | apply write_half_extends].
    - destruct Hw as (partial & -> & Hpre). by apply extends_partial. }
  rewrite E in Hp. cbn [app] in Hp.
  assert (Forall sdom ms) as Hdm by (destruct Hpre as [k Hk]; rewrite Hk in Hd; apply Forall_app in Hd as [Hd _]; exact Hd).
  destruct (read_frames_bytes ms partial s Hdm Hf Hp) as (s' & Hs & Hp' & _).
  by exists ms, partial, s'.
Qed.

(** ** From the device to the client *)

Definition started (name : string) : ServerMessage := mkServer (Some (Started name)).
Definition incoming (data : list byte) : ServerMessage := mkServer (Some (IncomingPacket data)).

(** A wake-up at which nothing interferes. *)
Definition quiet_response (p : response_poll) : Prop := r_stopping p = false /\ r_limit p = None.

Lemma read_loop_forwards packets :
  (read_loop code_text ((fun d => (Ok d, false, true)) <$> packets)).1 =
  incoming <$> List.filter frame_ok packets.
Proof.
  induction packets as [|d r IH]; [done|]. cbn. destruct (frame_ok d); cbn; [|exact IH].
  destruct (read_loop _ _). cbn in *. by rewrite IH.
Qed.

Lemma write_responses_quiet polls ms w :
  Forall quiet_response polls -> omap r_message polls = (fun m => Some (Ok m)) <$> ms ->
  Forall frame_fits ms -> write_responses polls w = (w ++ frames_bytes ms, None).
Proof.
  intros Hq. revert ms w. induction Hq as [|p r [Hs Hl] _ IH]; intros ms w Em Hf; cbn in Em.
  { destruct ms; [|done]. cbn. by rewrite app_nil_r. }
  cbn [write_responses]. rewrite Hs. destruct (r_message p) as [m|].
  - destruct ms as [|m0 ms]; [done|]. cbn in Em. injection Em as -> Em.
    inversion_clear Hf as [|?? Hf0 Hfs]. cbn [response]. rewrite Hl, write_message_whole by done.
    rewrite (IH ms) by done. unfold frames_bytes. cbn [fmap list_fmap concat]. by rewrite <- app_assoc.
  - by apply IH.
Qed.

(** C14: while nothing interferes, a client reads the greeting, the name of its
    interface and then every acceptable packet the device delivers, in order and
    unchanged, however the bytes reach it. *)
Theorem device_packets_reach_client pid name packets polls s :
  let forwarded := (read_loop code_text ((fun d => (Ok d, false, true)) <$> packets)).1 in
  let expected := ready pid :: started name :: (incoming <$> List.filter frame_ok packets) in
  Forall quiet_response polls ->
  omap r_message polls = (fun m => Some (Ok m)) <$> (started name :: forwarded) ->
  Forall sdom expected -> Forall frame_fits expected ->
  pending s = sent pid None (Ok tt) polls ->
  exists s', read_frames (length expected) s = (Ok expected, s') /\ pending s' = [].
Proof.
  cbn zeta. rewrite read_loop_forwards. set (ms := started name :: _). intros Hq Em Hd Hf Hp.
  inversion_clear Hf as [|?? Hf0 Hfs]. unfold sent, greet in Hp. rewrite write_message_whole in Hp by done.
  cbn [write_half app] in Hp. rewrite (write_responses_quiet polls ms) in Hp by done. cbn [fst] in Hp.
  destruct (read_frames_bytes (ready pid :: ms) [] s) as (s' & Hs & Hp' & _); [done | by constructor | |].
  { rewrite app_nil_r, Hp. done. }
  by exists s'.
Qed.

(** ** From the client to the device *)

Context {cdom : ClientMessage -> Prop} `{!MessageLaws ClientMessage cdom}.

Definition packet (data : list byte) : ClientMessage := mkClient (Some (OutgoingPacket data)).

Lemma read_turns_frames ms rest s :
  Forall cdom ms -> Forall frame_fits ms -> pending s = frames_bytes ms ++ rest ->
  read_turns (replicate (length ms) (false, true)) s = (fun m => (false, Ok (Some m), true)) <$> ms.
Proof.
  intros Hd. revert s. induction Hd as [|m ms Hm _ IH]; intros s Hf Hp; [done|].
  inversion_clear Hf as [|?? Hf0 Hfs]. unfold frames_bytes in Hp. cbn [fmap list_fmap concat] in Hp.
  rewrite <- app_assoc in Hp. destruct (read_frame_bytes m _ s Hm Hf0 Hp) as (s' & Hs & Hp' & _).
  cbn [length replicate read_turns]. rewrite Hs. cbn [fmap list_fmap]. f_equal. by apply IH.
Qed.

Lemma read_half_frames ms :
  read_half ((fun m => (false, Ok (Some m), true)) <$> ms) = (Ok <$> ms, None).
Proof. induction ms as [|m ms IH]; [done|]. cbn. by rewrite IH. Qed.

(** A wake-up of the session at which only the channel may have something. *)
Definition quiet (p : poll) : Prop :=
  p_shutdown p = false /\ p_closed p = false /\ p_read_done p = None /\ p_written p = Ok tt.

Lemma write_loop_quiet polls datas :
  Forall quiet polls -> omap p_incoming polls = (fun m => Some (Ok m)) <$> (packet <$> datas) ->
  write_loop polls = (List.filter frame_ok datas, None).
Proof.
  intros Hq Em.
  assert (Forall undisturbed polls /\ omap received polls = datas) as [Hu <-]; [|by apply write_loop_undisturbed].
  revert datas Em. induction Hq as [|p r (H1 & H2 & H3 & H4) _ IH]; intros datas Em; cbn in Em.
  { destruct datas; [|done]. by split. }
  unfold undisturbed, received. destruct (p_incoming p) as [m|] eqn:Ei.
  - destruct datas as [|data datas]; [done|]. cbn in Em. injection Em as -> Em.
    destruct (IH datas Em) as [Hu Hr]. cbn. rewrite Ei. cbn. split; [|by f_equal].
    constructor; [|exact Hu]. unfold undisturbed, received. rewrite Ei. split_and!; eauto.
  - destruct (IH datas Em) as [Hu Hr]. cbn. rewrite Ei. split; [|exact Hr].
    constructor; [|exact Hu]. unfold undisturbed. split_and!; auto.
Qed.

(** C15: while nothing interferes, of what a client writes (its configuration
    and then packets), however the bytes reach the daemon, the configuration
    opens the session and exactly the acceptable packets are written to the
    device, in order and unchanged. *)
Theorem client_packets_reach_device config datas rest s polls :
  let first := mkClient (Some (Config config)) in
  let all := first :: (packet <$> datas) in
  Forall cdom all -> Forall frame_fits all -> pending s = frames_bytes all ++ rest ->
  let '(opening, s1) := read_frame s in
  let '(forwarded, _) := read_half (read_turns (replicate (length datas) (false, true)) s1) in
  serve_first false (Ok tt) opening = Serve first /\
  (Forall quiet polls -> omap p_incoming polls = (fun m => Some m) <$> forwarded ->
   write_loop polls = (List.filter frame_ok datas, None)).
Proof.
  cbn zeta. intros Hd Hf Hp. inversion_clear Hd as [|?? Hd0 Hds]. inversion_clear Hf as [|?? Hf0 Hfs].
  unfold frames_bytes in Hp. cbn [fmap list_fmap concat] in Hp. rewrite <- app_assoc in Hp.
  destruct (read_frame_bytes _ _ s Hd0 Hf0 Hp) as (s1 & -> & Hp1 & _).
  pose proof (read_turns_frames (packet <$> datas) rest s1 Hds Hfs Hp1) as Ht.
  rewrite length_fmap in Ht. rewrite Ht, read_half_frames. split; [done|]. intros Hq Em.
  apply write_loop_quiet; [done|]. rewrite Em. by rewrite <- list_fmap_compose.
Qed.
End Connection.

(** ** A concrete codec

    A tag byte and the payload; it reads back the messages used below. *)
Module ConnectionExamples.
Definition vpn : TunSessionConfig := mkConfig "utun4" 0 [] [] [] None.

#[export] Instance toy_client : Message ClientMessage := {|
  encode_to_vec m :=
    match client_payload m with
    | Some (Config _) => [Byte.x01]
    | Some (OutgoingPacket d) => Byte.x02 :: d
    | _ => [Byte.x00]
    end;
  decode bs :=
    match bs with
    | [Byte.x01] => Ok (mkClient (Some (Config vpn)))
    | Byte.x02 :: d => Ok (mkClient (Some (OutgoingPacket d)))
    | _ => Err "unknown"
    end;
|}.

Definition client_dom (m : ClientMessage) : Prop :=
  m = mkClient (Some (Config vpn)) \/ exists d, m = mkClient (Some (OutgoingPacket d)).

#[export] Instance toy_client_laws : MessageLaws ClientMessage client_dom.
Proof. intros m [->|[d ->]]; reflexivity. Defined.

#[export] Instance toy_server : Message ServerMessage := {|
  encode_to_vec m :=
    match server_payload m with
    | Some (Ready _ pid) => [Byte.x01; z_u8 (Z.of_N pid)]
    | Some (Started name) => Byte.x02 :: str_bytes name
    | Some (IncomingPacket d) => Byte.x03 :: d
    | _ => [Byte.x00]
    end;
  decode bs :=
    match bs with
    | [Byte.x01; pid] => Ok (ready (Z.to_N (u8z pid)))
    | Byte.x02 :: name => Ok (started (bytes_str name))
    | Byte.x03 :: d => Ok (incoming d)
    | _ => Err "unknown"
    end;
|}.

Definition server_dom (m : ServerMessage) : Prop :=
  m = ready 7 \/ (exists name, m = started name) \/ exists d, m = incoming d.

#[export] Instance toy_server_laws : MessageLaws ServerMessage server_dom.
Proof.
  intros m [->|[[name ->]|[d ->]]]; cbn; [reflexivity| |reflexivity]. by rewrite bytes_str_bytes.
Defined.

Definition no_code (_ : Code) : string := "".
Definition one : list byte := [Byte.x45].

(** The device delivers an empty read and a packet. *)
Definition out_polls : list response_poll :=
  [mkResponse false (Some (Some (Ok (started "utun4")))) None false;
   mkResponse false None None false;
   mkResponse false (Some (Some (Ok (incoming one)))) None false].

(** Everything the daemon sends, in two chunks. *)
Definition out_stream (bs : list byte) : stream := mkStream [take 3 bs; drop 3 bs] Eof.

(** The client sends its configuration, an empty packet and a packet. *)
Definition in_bytes : list byte :=
  frames_bytes [mkClient (Some (Config vpn)); packet []; packet one].
Definition in_polls : list poll :=
  [mkPoll false false None (Some (Some (Ok (packet [])))) (Ok tt);
   mkPoll false false None (Some (Some (Ok (packet one)))) (Ok tt)].
End ConnectionExamples.
Import ConnectionExamples.

Lemma fits_small {M} `{Message M} (m : M) :
  (length (encode_to_vec m) =? 0) = false -> length (encode_to_vec m) <= 100 -> frame_fits m.
Proof.
  intros Hne Hle. split; [intros E; by rewrite E in Hne | unfold MAX_FRAME_SIZE; lia].
Qed.

Lemma out_stream_pending bs : pending (out_stream bs) = bs.
Proof. unfold out_stream, pending. cbn [chunks concat]. by rewrite app_nil_r, take_drop. Qed.

(** The socket breaks in the middle of the second message. *)
Lemma wire_carries_responses_witness :
  let polls := [mkResponse false (Some (Some (Ok (started "utun4")))) (Some (5, io_other "broken")) false] in
  exists ms partial s', ms `prefix_of` [ready 7; started "utun4"] /\
    read_frames (length ms) (out_stream (sent no_code 7 None (Ok tt) polls)) = (Ok ms, s') /\
    pending s' = partial.
Proof.
  intros polls.
  destruct (wire_carries_responses no_code (sdom:=server_dom) 7 None (Ok tt) polls
              (out_stream (sent no_code 7 None (Ok tt) polls))) as (ms & partial & s' & H1 & _ & H2 & H3).
  - forall_each ltac:(unfold server_dom; eauto).
  - apply out_stream_pending.
  - exists ms, partial, s'. split; [exact H1|]. split; [exact H2 | exact H3].
Defined.

Lemma device_packets_reach_client_witness :
  exists s', read_frames 3 (out_stream (sent no_code 7 None (Ok tt) out_polls)) =
    (Ok [ready 7; started "utun4"; incoming one], s') /\ pending s' = [].
Proof.
  apply (device_packets_reach_client no_code (sdom:=server_dom) 7 "utun4" [[]; one] out_polls).
  - forall_each ltac:(split; reflexivity).
  - reflexivity.
  - forall_each ltac:(unfold server_dom; eauto).
  - forall_each ltac:(apply fits_small; [reflexivity | vm_compute; lia]).
  - apply out_stream_pending.
Defined.

Lemma client_packets_reach_device_witness :
  write_loop in_polls = ([one], None).
Proof.
  pose proof (client_packets_reach_device (cdom:=client_dom) vpn [[]; one] [] (out_stream in_bytes) in_polls) as H.
  cbn zeta in H.
  assert (Forall client_dom (mkClient (Some (Config vpn)) :: (packet <$> [[]; one]))) as H1
    by (forall_each ltac:(unfold client_dom; eauto)).
  assert (Forall frame_fits (mkClient (Some (Config vpn)) :: (packet <$> [[]; one]))) as H2
    by (forall_each ltac:(apply fits_small; [reflexivity | vm_compute; lia])).
  assert (pending (out_stream in_bytes) = in_bytes ++ []) as H3
    by (rewrite app_nil_r; apply out_stream_pending).
  specialize (H H1 H2 H3). vm_compute in H. destruct H as [_ H]. apply H; [|reflexivity].
  forall_each ltac:(split_and!; reflexivity).
Defined.
