(* ===== verification/Service.v ===== *)
(** * server.rs: the service as a transition system

    Sessions are opened, started, run and torn down by independent tasks that
    share the set of active interface names. A step is one thing one task does
    between two awaits; steps of different tasks interleave freely, so that a
    call of [session] that saw no shutdown may reserve its name after one.
    The invariant ties the reservations to the tasks that hold them; from it
    follow the limit of sixteen, the exclusive use of an interface, and that a
    stopping daemon drains, so that [wait_for_sessions] returns. *)

From S2P Require Import Prelude RustStd Net Proto IpUtil Validation Os Platform Server.
From Stdlib Require Import Lia.

(** Where a spawned task is: about to check for cancellation, inside
    [SessionManager::start], or running a session on a device. *)
Inductive phase : Type :=
| Reserved
| Starting
| Running (device : string).

Record task : Type := mkTask { t_name : string; t_phase : phase }.

Record service : Type := mkService {
  active : gset string;
  tasks : gmap N task;
  calls : nat;   (* calls of session() that passed the check, not yet decided *)
  stopping : bool;
}.

(** The names the teardown of a session gives back. *)
Fixpoint released (actions : list action) (names : gset string) : gset string :=
  match actions with
  | [] => names
  | Release name :: r => released r (names ∖ {[name]})
  | _ :: r => released r names
  end.

Section Service.
Context (t : target).
(** What tun_rs calls a device that it created under a name. *)
Context (device_name : string -> option string).
Context (code_text : Code -> string) (status_text : Status -> string).

Implicit Types (s : service) (id : N).

Inductive step : service -> service -> Prop :=
| step_call s :
    (* session() passes its check and awaits the first message and the lock *)
    check_stopping (stopping s) = Ok tt ->
    step s (mkService (active s) (tasks s) (S (calls s)) (stopping s))
| step_abandoned s n :
    (* the connection fails meanwhile and the call is dropped *)
    calls s = S n ->
    step s (mkService (active s) (tasks s) n (stopping s))
| step_refused s n first status :
    calls s = S n -> decide_session t first (active s) = Some (Err status) ->
    step s (mkService (active s) (tasks s) n (stopping s))
| step_session s n id first config names :
    (* the name is reserved and the task spawned *)
    calls s = S n -> tasks s !! id = None ->
    decide_session t first (active s) = Some (Ok (config, names)) ->
    step s (mkService names (<[id := mkTask (interface_name config) Reserved]> (tasks s)) n (stopping s))
| step_cancelled s id name o :
    (* tx.is_closed() || *shutdown.borrow(): the client may leave at any time *)
    tasks s !! id = Some (mkTask name Reserved) ->
    step s (mkService (released (session_task code_text status_text name true o) (active s))
              (delete id (tasks s)) (calls s) (stopping s))
| step_starting s id name :
    tasks s !! id = Some (mkTask name Reserved) -> stopping s = false ->
    step s (mkService (active s) (<[id := mkTask name Starting]> (tasks s)) (calls s) (stopping s))
| step_start_failed s id name o error :
    tasks s !! id = Some (mkTask name Starting) -> o_start o = Err error ->
    step s (mkService (released (session_task code_text status_text name false o) (active s))
              (delete id (tasks s)) (calls s) (stopping s))
| step_started s id name device :
    (* the device's own name, or the configured one when it cannot be read *)
    tasks s !! id = Some (mkTask name Starting) -> device_name name = Some device \/ device = name ->
    step s (mkService (active s) (<[id := mkTask name (Running device)]> (tasks s))
              (calls s) (stopping s))
| step_finished s id name device o :
    (* run_session_loop, with whatever results *)
    tasks s !! id = Some (mkTask name (Running device)) -> o_start o = Ok device ->
    step s (mkService (released (session_task code_text status_text name false o) (active s))
              (delete id (tasks s)) (calls s) (stopping s))
| step_stop s :
    stopping s = false ->
    step s (mkService (active s) (tasks s) (calls s) true).

Definition initial : service := mkService ∅ ∅ 0 false.

Definition reachable s : Prop := rtc step initial s.

(** ** The invariant *)

Record invariant s : Prop := mkInvariant {
  inv_reserved id x : tasks s !! id = Some x -> t_name x ∈ active s;
  inv_owned name : name ∈ active s -> exists id x, tasks s !! id = Some x /\ t_name x = name;
  inv_unique id id' x x' :
    tasks s !! id = Some x -> tasks s !! id' = Some x' -> t_name x = t_name x' -> id = id';
  inv_limit : size (active s) <= MAX_ACTIVE_SESSIONS;
  inv_names name : name ∈ active s -> utun_name t name;
  inv_unit name : name ∈ active s -> unit_name t name = name;
  inv_device id x device : tasks s !! id = Some x -> t_phase x = Running device -> device = t_name x;
}.

(** On macOS a device is called after its unit's number, whatever zeros the
    name it was created under has; elsewhere it keeps that name. *)
Context (device_named : forall name device,
  utun_name t name -> device_name name = Some device -> device = unit_name t name).

(** Whichever way a task ends, it gives back one name: the reserved one, or the
    name of the device it was given. *)
Lemma released_task name cancelled o names :
  released (session_task code_text status_text name cancelled o) names =
  names ∖ {[if cancelled then name else default name (ok (o_start o))]}.
Proof.
  unfold session_task. destruct cancelled; [done|]. destruct (o_start o); [|done].
  unfold finish. by destruct (o_write o), (o_close o), (o_join o).
Qed.

(** Ending the task that holds a name. *)
Lemma invariant_remove s id x :
  invariant s -> tasks s !! id = Some x ->
  invariant (mkService (active s ∖ {[t_name x]}) (delete id (tasks s)) (calls s) (stopping s)).
Proof.
  intros [Hr Ho Hu Hl Hn Hun Hd] Hx. split; cbn.
  - intros id' x' [Hne Hx']%lookup_delete_Some. apply elem_of_difference.
    split; [exact (Hr _ _ Hx')|]. rewrite elem_of_singleton. intros E. apply Hne. symmetry. by apply (Hu id' id x' x).
  - intros name [Hin Hne]%elem_of_difference. rewrite elem_of_singleton in Hne.
    destruct (Ho name Hin) as (id' & x' & Hx' & <-). exists id', x'.
    split; [|done]. apply lookup_delete_Some. split; [|done]. intros ->. by simplify_eq.
  - intros i i' y y' [_ Hy]%lookup_delete_Some [_ Hy']%lookup_delete_Some. by apply Hu.
  - etrans; [|exact Hl]. apply subseteq_size. set_solver.
  - intros name [Hin _]%elem_of_difference. auto.
  - intros name [Hin _]%elem_of_difference. auto.
  - intros i y device [_ Hy]%lookup_delete_Some Hrun. exact (Hd _ _ _ Hy Hrun).
Qed.

(** Moving a task to another phase. *)
Lemma invariant_phase s id x ph :
  invariant s -> tasks s !! id = Some x ->
  (forall device, ph = Running device -> device = t_name x) ->
  invariant (mkService (active s) (<[id := mkTask (t_name x) ph]> (tasks s)) (calls s) (stopping s)).
Proof.
  intros [Hr Ho Hu Hl Hn Hun Hd] Hx Hph.
  assert (forall i y, <[id := mkTask (t_name x) ph]> (tasks s) !! i = Some y ->
    exists y', tasks s !! i = Some y' /\ t_name y' = t_name y) as Hold.
  { intros i y [[<- <-]|[_ Hy]]%lookup_insert_Some; eauto. }
  split; cbn; [| | | done | done | done |].
  - intros i y Hy. destruct (Hold i y Hy) as (y' & Hy' & <-). exact (Hr _ _ Hy').
  - intros name Hin. destruct (Ho name Hin) as (i & y & Hy & <-).
    destruct (decide (i = id)) as [->|Hne].
    + simplify_eq. exists id, (mkTask (t_name x) ph). by rewrite lookup_insert_eq.
    + exists i, y. by rewrite lookup_insert_ne.
  - intros i i' y y' Hy Hy' E. destruct (Hold _ _ Hy) as (z & Hz & Ez), (Hold _ _ Hy') as (z' & Hz' & Ez').
    eapply Hu; [exact Hz | exact Hz' | congruence].
  - intros i y device [[<- <-]|[_ Hy]]%lookup_insert_Some Hrun; [by apply Hph | exact (Hd _ _ _ Hy Hrun)].
Qed.

Lemma invariant_session s n id first config names :
  invariant s -> tasks s !! id = None ->
  decide_session t first (active s) = Some (Ok (config, names)) ->
  invariant (mkService names (<[id := mkTask (interface_name config) Reserved]> (tasks s)) n (stopping s)).
Proof.
  intros [Hr Ho Hu Hl Hn Hun Hd] Hid (Hv & Hunit & Hin & Hs & ->)%decide_session_valid.
  pose proof (valid_name _ _ Hv) as Hname. set (name := interface_name config) in *. split; cbn.
  - intros i x [[<- <-]|[_ Hx]]%lookup_insert_Some; cbn; [set_solver|].
    apply elem_of_union_r. exact (Hr _ _ Hx).
  - intros m [->%elem_of_singleton|Hm]%elem_of_union.
    + exists id, (mkTask name Reserved). by rewrite lookup_insert_eq.
    + destruct (Ho m Hm) as (i & x & Hx & <-). exists i, x. split; [|done].
      rewrite lookup_insert_ne; [done|]. intros ->. congruence.
  - intros i i' x x' [[<- <-]|[Hi Hx]]%lookup_insert_Some [[<- <-]|[Hi' Hx']]%lookup_insert_Some E;
      cbn in E; [done | | | exact (Hu _ _ _ _ Hx Hx' E)].
    + rewrite E in Hin. destruct (Hin (Hr _ _ Hx')).
    + rewrite <- E in Hin. destruct (Hin (Hr _ _ Hx)).
  - rewrite size_union by set_solver. rewrite size_singleton. lia.
  - intros m [->%elem_of_singleton|Hm]%elem_of_union; auto.
  - intros m [->%elem_of_singleton|Hm]%elem_of_union; auto.
  - intros i x device [[<- <-]|[_ Hx]]%lookup_insert_Some Hrun; [done | exact (Hd _ _ _ Hx Hrun)].
Qed.

Lemma step_invariant s s' : invariant s -> step s s' -> invariant s'.
Proof.
  intros Hi Hs. destruct Hs.
  - destruct Hi. by split.
  - destruct Hi. by split.
  - destruct Hi. by split.
  - by eapply invariant_session.
  - rewrite released_task. by eapply (invariant_remove s id (mkTask name Reserved)).
  - by eapply (invariant_phase s id (mkTask name Reserved) Starting).
  - rewrite released_task, H0. by eapply (invariant_remove s id (mkTask name Starting)).
  - eapply (invariant_phase s id (mkTask name Starting)); [done..|]. intros ? [= <-]. cbn.
    pose proof (inv_reserved _ Hi id _ H) as Hin. destruct H0 as [E| ->]; [|done].
    apply device_named in E as ->; [|by apply (inv_names _ Hi)]. by apply (inv_unit _ Hi).
  - rewrite released_task, H0. cbn [ok default].
    rewrite (inv_device _ Hi id _ device H eq_refl).
    by eapply (invariant_remove s id (mkTask name (Running device))).
  - destruct Hi. by split.
Qed.

Lemma reachable_invariant s : reachable s -> invariant s.
Proof.
  intros Hr. assert (invariant initial) as Hi.
  { split; cbn; intros; try (by rewrite lookup_empty in *); try set_solver.
    rewrite size_empty. lia. }
  unfold reachable in Hr. revert Hi. induction Hr as [|s1 s2 s3 Hst _ IH]; [done|].
  intros Hi. apply IH. by eapply step_invariant.
Qed.

(** C3: however sessions interleave, at most sixteen interface names are
    reserved, no two live sessions hold the same one, every live session
    holds its own, a running one under the name of its device, and no name stays
    reserved without a live session: although a session gives back the name of
    its device, which on macOS is the unit's number without leading zeros. *)
Theorem active_sessions_exact s :
  reachable s ->
  size (active s) <= MAX_ACTIVE_SESSIONS /\ size (tasks s) = size (active s) /\
  (forall name, name ∈ active s <-> exists id x, tasks s !! id = Some x /\ t_name x = name) /\
  (forall id id' x x', tasks s !! id = Some x -> tasks s !! id' = Some x' ->
     t_name x = t_name x' -> id = id') /\
  (forall id name device, tasks s !! id = Some (mkTask name (Running device)) -> device = name).
Proof.
  intros Hr. destruct (reachable_invariant s Hr) as [H1 H2 H3 H4 _ _ H5].
  split_and!; [done | | | done | by intros id name device Hx; apply (H5 id _ _ Hx)].
  - set (names := (fun p => t_name p.2) <$> map_to_list (tasks s)).
    assert (NoDup names) as Hnd.
    { apply NoDup_fmap_2_strong; [|apply NoDup_map_to_list].
      intros [id x] [id' x'] Hx Hx' E. apply elem_of_map_to_list in Hx, Hx'. cbn in *.
      assert (id = id') as -> by (exact (H3 _ _ _ _ Hx Hx' E)). by simplify_eq. }
    assert (active s = list_to_set names) as ->.
    { apply set_eq. intros name. rewrite elem_of_list_to_set. unfold names.
      rewrite list_elem_of_fmap. split.
      - intros (id & x & Hx & <-)%H2. exists (id, x). by rewrite elem_of_map_to_list.
      - intros ([id x] & -> & Hx%elem_of_map_to_list). exact (H1 _ _ Hx). }
    rewrite size_list_to_set by done. unfold names. by rewrite length_fmap, length_map_to_list.
  - intros name. split; [apply H2|]. intros (id & x & Hx & <-). exact (H1 _ _ Hx).
Qed.

(** ** Draining *)

(** The steps a task, and an undecided call, still has to take when the daemon
    is stopping. *)
Definition remaining (x : task) : nat :=
  match t_phase x with Reserved => 1 | Starting => 2 | Running _ => 1 end.

Definition total (m : gmap N task) : nat := map_fold (fun _ x n => remaining x + n) 0 m.
Definition work s : nat := total (tasks s) + 2 * calls s.

Lemma total_delete m id x : m !! id = Some x -> total m = remaining x + total (delete id m).
Proof. intros Hm. unfold total. apply (map_fold_delete_L (fun _ x n => remaining x + n)); [|done]. intros. lia. Qed.

Lemma total_replace m id x x' :
  m !! id = Some x -> total (<[id := x']> m) + remaining x = total m + remaining x'.
Proof.
  intros Hm. rewrite (total_delete m id x Hm), (total_delete _ id x') by apply lookup_insert_eq.
  rewrite delete_insert_eq. lia.
Qed.

Lemma total_insert m id x : m !! id = None -> total (<[id := x]> m) = remaining x + total m.
Proof.
  intros Hm. rewrite (total_delete _ id x) by apply lookup_insert_eq. by rewrite delete_insert_id.
Qed.

Lemma total_bound m : total m <= 2 * size m.
Proof.
  induction m as [|id x m Hm IH] using map_ind; [done|].
  rewrite map_size_insert_None, total_insert by done. unfold remaining. destruct (t_phase x); lia.
Qed.

(** Once the daemon is stopping, every step brings it nearer to the end, and
    no task enters [SessionManager::start]. *)
Lemma stopping_step s s' :
  stopping s = true -> step s s' ->
  stopping s' = true /\ work s' < work s /\
  (forall id name, tasks s' !! id = Some (mkTask name Starting) ->
     tasks s !! id = Some (mkTask name Starting)).
Proof.
  intros Hst Hs. unfold work. destruct Hs as
    [s Hc | s n Hc | s n first status Hc _ | s n id first config names Hc Hid _ | s id name o H
    | s id name H Hno | s id name o error H _ | s id name device H _ | s id name device o H _ | s Hno]; cbn in *.
  - by rewrite Hst in Hc.
  - split_and!; [done | lia | done].
  - split_and!; [done | lia | done].
  - split_and!; [done | rewrite total_insert by done; cbn; lia |].
    by intros i m [[_ ?]|[_ Hx]]%lookup_insert_Some.
  - split_and!; [done | rewrite (total_delete (tasks s) id _ H); cbn; lia |].
    by intros i m [_ Hx]%lookup_delete_Some.
  - congruence.
  - split_and!; [done | rewrite (total_delete (tasks s) id _ H); cbn; lia |].
    by intros i m [_ Hx]%lookup_delete_Some.
  - pose proof (total_replace (tasks s) id _ (mkTask name (Running device)) H).
    split_and!; [done | cbn in *; lia |]. by intros i m [[_ ?]|[_ Hx]]%lookup_insert_Some.
  - split_and!; [done | rewrite (total_delete (tasks s) id _ H); cbn; lia |].
    by intros i m [_ Hx]%lookup_delete_Some.
  - congruence.
Qed.

Lemma stopping_steps n s s' :
  stopping s = true -> nsteps step n s s' -> stopping s' = true /\ n + work s' <= work s /\
  (forall id name, tasks s' !! id = Some (mkTask name Starting) ->
     tasks s !! id = Some (mkTask name Starting)).
Proof.
  intros Hst Hn. induction Hn as [|n s1 s2 s3 Hs _ IH]; [auto|].
  destruct (stopping_step _ _ Hst Hs) as (Hst' & Hw & Ht).
  destruct (IH Hst') as (? & ? & Ht'). split_and!; [done | lia | auto].
Qed.

(** A call that is not decided, or a task that has not ended, can take a step. *)
Lemma work_can_step s : calls s <> 0 \/ tasks s <> ∅ -> exists s', step s s'.
Proof.
  intros [Hc|(id & [name ph] & Hx)%map_choose].
  - destruct (calls s) as [|n] eqn:E; [done|]. eexists. by eapply step_abandoned.
  - destruct ph.
    + eexists. by eapply (step_cancelled _ _ _ (mkOutcome (Err "") 0 (Ok tt) (Ok tt) (Ok tt))).
    + eexists. by eapply (step_start_failed _ _ _ (mkOutcome (Err "") 0 (Ok tt) (Ok tt) (Ok tt))).
    + eexists. by eapply (step_finished _ _ _ _ (mkOutcome (Ok device) 0 (Ok tt) (Ok tt) (Ok tt))).
Qed.

(** C4: once shutdown is requested, further calls are refused, no session is
    started any more and the service drains: at most two steps for each
    undecided call and each live session remain, in whatever order they are
    taken, and when none is left to take no call is pending and no name
    reserved, which is what [wait_for_sessions] waits for. *)
Theorem stopping_service_drains s :
  reachable s -> stopping s = true ->
  (forall n s', nsteps step n s s' -> n <= 2 * (calls s + size (tasks s)) /\
     (forall id name, tasks s' !! id = Some (mkTask name Starting) ->
        tasks s !! id = Some (mkTask name Starting)) /\
     ((forall s'', ~ step s' s'') -> calls s' = 0 /\ active s' = ∅)) /\
  (forall first, exists status, session_begin t (stopping s) first (active s) = Some (Err status)).
Proof.
  intros Hr Hst. split; [|intros first; rewrite Hst; by eexists].
  intros n s' Hn. destruct (stopping_steps n s s' Hst Hn) as (_ & Hw & Ht).
  split_and!; [unfold work in Hw; pose proof (total_bound (tasks s)); lia | exact Ht |].
  intros Hend. assert (reachable s') as Hr'.
  { unfold reachable in *. etrans; [exact Hr|]. apply rtc_nsteps. by exists n. }
  destruct (reachable_invariant s' Hr') as [_ Ho _ _ _ _ _].
  assert (calls s' = 0 /\ tasks s' = ∅) as [-> Htasks].
  { destruct (decide (calls s' = 0)), (decide (tasks s' = ∅)); try (by split);
      destruct (work_can_step s') as [s'' Hs]; auto; by destruct (Hend s''). }
  split; [done|]. apply set_eq. intros name. split; [|set_solver].
  intros (id & x & Hx & _)%Ho. by rewrite Htasks, lookup_empty in Hx.
Qed.
End Service.

(** ** A concrete run *)
Import PlatformExamples.

(** On macOS, with a name that has leading zeros. *)
Definition zeros_config : TunSessionConfig := with_interface_name "utun007" vpn_config.
Definition first_message : option (result ClientMessage Status) :=
  Some (Ok (mkClient (Some (Config zeros_config)))).

(** Devices of a kernel that has room for a thousand units. *)
Definition mac_device (name : string) : option string :=
  if (dec_value (drop 4 (str_bytes name)) <? 1000)%Z then Some (unit_name Macos name) else None.

Lemma mac_device_named name device :
  utun_name Macos name -> mac_device name = Some device -> device = unit_name Macos name.
Proof. intros _. unfold mac_device. case_match; congruence. Qed.

(** One session running and another call under way, then the shutdown request. *)
Definition opened : service :=
  mkService ({["utun7"]} ∪ ∅) (<[0%N := mkTask "utun7" Reserved]> ∅) 1 false.
Definition starting : service :=
  mkService (active opened) (<[0%N := mkTask "utun7" Starting]> (tasks opened)) 1 false.
Definition running : service :=
  mkService (active starting) (<[0%N := mkTask "utun7" (Running "utun7")]> (tasks starting)) 1 false.
Definition stopped : service := mkService (active running) (tasks running) 1 true.

Abbreviation example_step := (step Macos mac_device (fun _ => "") (fun _ => "")).

Lemma running_reachable : rtc example_step initial running.
Proof.
  eapply rtc_l; [by apply step_call|]. eapply rtc_l; [by apply step_call|].
  eapply rtc_l.
  { apply (step_session Macos _ _ _ (mkService ∅ ∅ 2 false) 1 0 first_message
             (with_interface_name "utun7" vpn_config) ({["utun7"]} ∪ ∅)); [reflexivity | reflexivity |].
    vm_compute. reflexivity. }
  eapply rtc_l; [apply (step_starting _ _ _ _ opened 0%N "utun7"); reflexivity|].
  eapply rtc_l; [|apply rtc_refl].
  apply (step_started _ _ _ _ starting 0%N "utun7" "utun7"); [reflexivity | left; vm_compute; reflexivity].
Defined.

Lemma active_sessions_exact_witness :
  size (active running) <= MAX_ACTIVE_SESSIONS /\ size (tasks running) = size (active running).
Proof.
  destruct (active_sessions_exact Macos mac_device (fun _ => "") (fun _ => "")
    mac_device_named running running_reachable) as (H1 & H2 & _).
  split; [exact H1 | exact H2].
Defined.

Lemma stopping_service_drains_witness :
  stopping stopped = true /\
  (forall n s', nsteps example_step n stopped s' -> n <= 2 * (calls stopped + size (tasks stopped))).
Proof.
  destruct (stopping_service_drains Macos mac_device (fun _ => "") (fun _ => "")
    mac_device_named stopped) as [H1 _].
  - eapply rtc_r; [exact running_reachable|]. by apply step_stop.
  - reflexivity.
  - split; [reflexivity|]. intros n s' Hn. apply (H1 n s' Hn).
Defined.
