(* ===== verification/Owner.v ===== *)
(** * owner.rs: the application instance that owns the daemon

    [open] identifies the owning process by its PID and its creation time, so
    that a reused PID is not taken for it, and [authorizes] admits connections
    of that process only, while it lives. On Linux the creation time is read
    from /proc/<pid>/stat, whose second field is the process's own name, which
    may contain anything. What the kernel answers is given to the functions. *)

From S2P Require Import Prelude RustStd Validation.
From Stdlib Require Import Lia.

(** ** Text helpers of std *)

(** [rsplit_once(c)] for an ASCII character. *)
Fixpoint rsplit_once_bytes (c : byte) (l : list byte) : option (list byte * list byte) :=
  match l with
  | [] => None
  | b :: r =>
    match rsplit_once_bytes c r with
    | Some (x, y) => Some (b :: x, y)
    | None => if decide (b = c) then Some ([], r) else None
    end
  end.

(** One whitespace character at the front, and what follows it. *)
Definition skip_ws (l : list byte) : option (list byte) :=
  match l with
  | a :: r =>
    if ws1 a then Some r
    else match r with
    | b :: r' =>
      if ws2 a b then Some r'
      else match r' with
      | c :: r'' => if ws3 a b c then Some r'' else None
      | [] => None
      end
    | [] => None
    end
  | [] => None
  end.

Definition push_word (cur : list byte) (words : list (list byte)) : list (list byte) :=
  match cur with [] => words | _ => cur :: words end.

(** [split_whitespace]; [fuel] = the length is enough. *)
Fixpoint words_go (fuel : nat) (cur l : list byte) : list (list byte) :=
  match fuel, l with
  | _, [] => push_word cur []
  | O, _ => push_word cur []
  | S fuel', b :: r =>
    match skip_ws l with
    | Some r' => push_word cur (words_go fuel' [] r')
    | None => words_go fuel' (cur ++ [b]) r
    end
  end.

Definition split_whitespace (s : string) : list string :=
  bytes_str <$> words_go (length (str_bytes s)) [] (str_bytes s).

(** [lines]: a final empty line and a carriage return before the end do not
    count. *)
Definition strip_cr (l : list byte) : list byte :=
  match last l with
  | Some b => if decide (b = Byte.x0d) then take (length l - 1) l else l
  | None => l
  end.

Definition lines (s : string) : list string :=
  let parts := split_bytes Byte.x0a (str_bytes s) in
  let parts := match last parts with Some [] => take (length parts - 1) parts | _ => parts end in
  (fun l => bytes_str (strip_cr l)) <$> parts.

Fixpoint find_map {A B} (f : A -> option B) (l : list A) : option B :=
  match l with
  | [] => None
  | x :: r => match f x with Some y => Some y | None => find_map f r end
  end.

(** ** The owner *)

(** [identity] is what pins the instance: the pidfd or handle, or the birth
    time on macOS. The UID exists on Unix, the SID on Windows. *)
Record OwnerProcess : Type := mkOwner {
  o_pid : N; o_uid : Z; o_identity : Z * Z; o_sid : string;
}.

Definition u32_parse (s : string) : result Z string :=
  ok_or (parse_uint u32_max s) "invalid number".
Definition u64_parse (s : string) : result Z string :=
  ok_or (parse_uint u64_max s) "invalid number".

(** The real UID of /proc/<pid>/status. *)
Definition status_uid (status : string) : result Z string :=
  let? field := ok_or (find_map (strip_prefix "Uid:") (lines status)) "missing owner UID" in
  let? uid := ok_or (head (split_whitespace field)) "missing real UID" in
  u32_parse uid.

(** The start time, field 22 of /proc/<pid>/stat. *)
Definition stat_ticks (stat : string) : result Z string :=
  let? after := ok_or (snd <$> rsplit_once_bytes Byte.x29 (str_bytes stat)) "invalid proc stat" in
  let? field := ok_or (split_whitespace (bytes_str after) !! 19) "missing process start time" in
  u64_parse field.

Definition check_pid (unix : bool) (pid : N) : result unit string :=
  if (pid =? 0)%N then Err "invalid owner PID"
  else if unix && (Z.to_N i32_max <? pid)%N then Err "invalid owner PID"
  else Ok tt.

(** What Linux answers about a process. *)
Record linux_process : Type := mkLinuxProcess {
  lp_pidfd : result Z string;
  lp_status : result string string;
  lp_stat : result string string;
  lp_alive : bool; (* poll of the pidfd returns 0 *)
}.

Definition open_linux (pid : N) (start_time : Z) (p : linux_process) : result OwnerProcess string :=
  check_pid true pid ;?
  let? fd := lp_pidfd p in
  let? status := lp_status p in
  let? uid := status_uid status in
  let? stat := lp_stat p in
  let? ticks := stat_ticks stat in
  fail_if (negb (ticks =? start_time)%Z) "owner process creation time mismatch" ;?
  fail_if (negb (lp_alive p)) "owner has exited" ;?
  Ok (mkOwner pid uid (fd, 0%Z) "").

(** [proc_bsdinfo], with the number of bytes read and expected. *)
Record bsdinfo : Type := mkBsd {
  pbi_start_tvsec : Z; pbi_start_tvusec : Z; pbi_ruid : Z; pbi_status : Z;
}.

Definition macos_info (reply : option bsdinfo) : option bsdinfo :=
  info ← reply; if negb (pbi_status info =? 5)%Z then Some info else None.

Definition open_macos (pid : N) (start_time : Z) (reply : option bsdinfo)
    : result OwnerProcess string :=
  check_pid true pid ;?
  let? info := ok_or (macos_info reply) "read owner process identity" in
  fail_if (negb ((pbi_start_tvsec info * 1000 + pbi_start_tvusec info / 1000) mod 2 ^ 64 =? start_time)%Z)
    "owner process creation time mismatch" ;?
  Ok (mkOwner pid (pbi_ruid info) (pbi_start_tvsec info, pbi_start_tvusec info) "").

(** [windows_sid]: opening the token, sizing (whose error is ignored) and
    reading its user, converting the SID, and decoding the text. *)
Definition windows_sid (token user : result unit string) (text : result (result string string) string)
    : result string string :=
  let? _ := token in
  let? _ := user in
  let? sid := text in
  sid.

(** Windows: the handle, the creation [FILETIME] as its two words, the SID
    lookup and whether waiting for the process times out. *)
Definition open_windows (pid : N) (start_time : Z) (handle : result Z string)
    (creation : result (Z * Z) string) (sid : result string string) (alive : bool)
    : result OwnerProcess string :=
  check_pid false pid ;?
  let? h := handle in
  let? times := creation in
  let ticks := Z.lor (Z.shiftl times.1 32) times.2 in
  fail_if (negb ((ticks / 10000 - 11644473600000) mod 2 ^ 64 =? start_time)%Z)
    "owner process creation time mismatch" ;?
  let? sid := sid in
  fail_if (negb alive) "owner has exited" ;?
  Ok (mkOwner pid 0 (h, 0%Z) sid).

(** [is_alive] on macOS asks for the process again. *)
Definition is_alive_macos (owner : OwnerProcess) (reply : option bsdinfo) : bool :=
  match macos_info reply with
  | Some info => bool_decide ((pbi_start_tvsec info, pbi_start_tvusec info) = o_identity owner)
  | None => false
  end.

(** On Linux the pidfd is polled without waiting, on Windows the handle is
    waited for: neither is ready while the process lives. *)
Definition is_alive_linux (poll_result : Z) : bool := (poll_result =? 0)%Z.

Definition WAIT_TIMEOUT : Z := 258.
Definition is_alive_windows (wait_result : Z) : bool := (wait_result =? WAIT_TIMEOUT)%Z.

(** [authorizes]; [alive] is [is_alive] at that moment. *)
Definition authorizes (owner : OwnerProcess) (peer_pid : N) (alive : bool) : bool :=
  (peer_pid =? o_pid owner)%N && alive.

(** [allow_owner_signals], and [prepare_owner] on Unix: root is required, the
    owner opened, then the real UID given away. *)
Definition allow_owner_signals (owner_uid : Z) (setreuid : result unit string) (uid euid : Z)
    : result unit string :=
  let? _ := setreuid in
  fail_if (negb ((uid =? owner_uid) && (euid =? 0))%Z) "invalid daemon UIDs".

Definition ensure_root (effective_uid : Z) : result unit string :=
  fail_if (negb (effective_uid =? 0)%Z)
    ("wg-kotlin-daemon requires root privileges on Unix (effective uid = "
       +:+ pretty effective_uid +:+ ")").

(** On Windows: the token of the process, its elevation and closing it. *)
Definition ensure_root_windows (token : result unit string) (elevation : result Z string)
    (closed : result unit string) : result unit string :=
  let? _ := token in
  let? elevated := elevation in
  let? _ := closed in
  fail_if (elevated =? 0)%Z "wg-kotlin-daemon requires Administrator privileges on Windows".

(** [prepare_owner] there. *)
Definition prepare_owner_windows (token : result unit string) (elevation : result Z string)
    (closed : result unit string) (opened : result OwnerProcess string) : result OwnerProcess string :=
  ensure_root_windows token elevation closed ;? opened.

Definition prepare_owner (effective_uid : Z) (opened : result OwnerProcess string)
    (setreuid : Z -> result unit string) (uids : Z -> Z * Z) : result OwnerProcess string :=
  ensure_root effective_uid ;?
  let? owner := opened in
  let '(uid, euid) := uids (o_uid owner) in
  allow_owner_signals (o_uid owner) (setreuid (o_uid owner)) uid euid ;?
  Ok owner.

(** ** Reading /proc/<pid>/stat *)

(** A printable ASCII byte other than the space and the closing parenthesis. *)
Definition plain (b : byte) : Prop := (33 <= u8z b <= 126)%Z /\ b <> Byte.x29.

Lemma skip_ws_plain b r : plain b -> skip_ws (b :: r) = None.
Proof.
  intros [Hb _]. unfold skip_ws, ws1, in_range.
  assert (forall z, (z < 33 \/ 126 < z)%Z -> (u8z b =? z)%Z = false) as Hne
    by (intros z Hz; apply Z.eqb_neq; lia).
  rewrite (proj2 (Z.leb_gt (u8z b) 13)), andb_false_r, (Hne 32%Z) by lia. cbn [orb].
  destruct r as [|c [|d r]]; [done| |]; unfold ws2; rewrite (Hne 194%Z) by lia; [done|]. cbn [andb].
  unfold ws3. destruct (u8z b) as [|p|p]; [done| |done].
  by repeat (destruct p as [p|p|]; try lia; try done).
Qed.

Lemma words_go_word n cur w l :
  Forall plain w -> length w + S (length l) <= n ->
  words_go n cur (w ++ Byte.x20 :: l) = push_word (cur ++ w) (words_go (n - length w - 1) [] l).
Proof.
  intros Hw. revert n cur. induction Hw as [|b w Hb _ IH]; intros n cur Hn; cbn [app length].
  - destruct n as [|n]; [cbn in Hn; lia|]. cbn. by rewrite app_nil_r, Nat.sub_0_r.
  - destruct n as [|n]; [cbn in Hn; lia|]. cbn [words_go]. rewrite skip_ws_plain by done.
    rewrite IH by (cbn in Hn; lia). cbn. by rewrite <- app_assoc.
Qed.

Lemma words_go_last n cur w : Forall plain w -> length w <= n -> words_go n cur w = push_word (cur ++ w) [].
Proof.
  intros Hw. revert n cur. induction Hw as [|b w Hb _ IH]; intros n cur Hn.
  - rewrite app_nil_r. by destruct n.
  - destruct n as [|n]; [cbn in Hn; lia|]. cbn [words_go]. rewrite skip_ws_plain by done.
    rewrite IH by (cbn in Hn; lia). by rewrite <- app_assoc.
Qed.

Definition word (w : list byte) : Prop := w <> [] /\ Forall plain w.

Lemma words_go_join n ws :
  Forall word ws -> length (join_bytes Byte.x20 ws) <= n -> words_go n [] (join_bytes Byte.x20 ws) = ws.
Proof.
  intros Hws. revert n. induction Hws as [|w ws [Hne Hw] Hws IH]; intros n Hn; [by destruct n|].
  assert (forall l, push_word w l = w :: l) as Hpush by by destruct w.
  destruct ws as [|v ws].
  - cbn in *. rewrite words_go_last by done. cbn. by rewrite Hpush.
  - rewrite join_bytes_cons in * by done. rewrite length_app in Hn. cbn [length] in Hn.
    rewrite words_go_word by (done || lia). cbn [app]. rewrite Hpush. f_equal. apply IH. lia.
Qed.

Lemma rsplit_once_last c x y : c ∉ y -> rsplit_once_bytes c (x ++ c :: y) = Some (x, y).
Proof.
  intros Hy. assert (rsplit_once_bytes c y = None) as Hn.
  { induction y as [|b y IH]; [done|]. apply not_elem_of_cons in Hy as [Hb Hy]. cbn.
    rewrite IH by done. by rewrite decide_False. }
  induction x as [|b x IH]; cbn.
  - rewrite Hn. by rewrite decide_True.
  - by rewrite IH.
Qed.

Lemma join_bytes_lacks c d ws :
  d <> c -> Forall (fun w => d ∉ w) ws -> d ∉ join_bytes c ws.
Proof.
  intros Hd Hws. induction Hws as [|w ws Hw Hws IH]; [apply not_elem_of_nil|].
  destruct ws as [|v ws]; [done|]. rewrite join_bytes_cons by done.
  rewrite elem_of_app, elem_of_cons. naive_solver.
Qed.

(** A line of /proc/<pid>/stat: what comes before the name, the name, and the
    fields after it. *)
Definition stat_line (before name : list byte) (fields : list (list byte)) : string :=
  bytes_str (before ++ Byte.x28 :: name ++ Byte.x29 :: Byte.x20 :: join_bytes Byte.x20 fields).

(** The owner's creation time is read from its field whatever the process
    is called: a name with spaces, parentheses or forged fields cannot shift it. *)
Theorem stat_ticks_ignores_name before name fields field :
  Forall word fields -> fields !! 19 = Some field ->
  stat_ticks (stat_line before name fields) = u64_parse (bytes_str field).
Proof.
  intros Hf H19. unfold stat_ticks, stat_line. rewrite str_bytes_str.
  assert (before ++ Byte.x28 :: name ++ Byte.x29 :: Byte.x20 :: join_bytes Byte.x20 fields =
    (before ++ Byte.x28 :: name) ++ Byte.x29 :: Byte.x20 :: join_bytes Byte.x20 fields) as ->
    by (by rewrite <- app_assoc).
  rewrite rsplit_once_last.
  2:{ rewrite not_elem_of_cons. split; [done|]. apply join_bytes_lacks; [done|].
      eapply Forall_impl; [exact Hf|]. intros w [_ Hw] Hin.
      rewrite Forall_forall in Hw. by destruct (Hw _ Hin). }
  cbn [fmap option_fmap option_map snd ok_or rbind].
  unfold split_whitespace. rewrite str_bytes_str. cbn [length words_go skip_ws].
  change (ws1 Byte.x20) with true. cbn [push_word]. rewrite words_go_join by done.
  rewrite list_lookup_fmap, H19. done.
Qed.

(** ** Opening and authorizing *)

Lemma check_pid_ok unix pid :
  check_pid unix pid = Ok tt <-> pid <> 0%N /\ (unix = true -> (pid <= Z.to_N i32_max)%N).
Proof.
  unfold check_pid. destruct (N.eqb_spec pid 0); [naive_solver|].
  destruct unix; cbn; [|naive_solver].
  destruct (N.ltb_spec (Z.to_N i32_max) pid); [split; [done | intros [_ Hle]; specialize (Hle eq_refl); lia] | naive_solver].
Qed.

(** An equivalence whose left side fails and whose right side contradicts it. *)
Ltac refute := split; [done | intros (? & ? & ? & ? & ?); destruct_and!; simplify_eq; congruence].

Lemma open_linux_ok pid start_time p owner :
  open_linux pid start_time p = Ok owner <->
  exists fd status stat uid, (0 < pid <= Z.to_N i32_max)%N /\
    lp_pidfd p = Ok fd /\ lp_status p = Ok status /\ status_uid status = Ok uid /\
    lp_stat p = Ok stat /\ stat_ticks stat = Ok start_time /\ lp_alive p = true /\
    owner = mkOwner pid uid (fd, 0%Z) "".
Proof.
  unfold open_linux. pose proof (check_pid_ok true pid) as Hc.
  destruct (check_pid true pid) as [[]|e]; cbn [rbind].
  2:{ split; [done|]. intros (fd & status & stat & uid & Hp & _).
      assert (@Err unit string e = Ok tt) by (apply Hc; split; [lia|]; lia). done. }
  destruct (proj1 Hc eq_refl) as [Hp1 Hp2]. specialize (Hp2 eq_refl).
  destruct (lp_pidfd p) as [fd|]; [|refute]. cbn [rbind].
  destruct (lp_status p) as [status|]; [|refute]. cbn [rbind].
  destruct (status_uid status) as [uid|] eqn:Eu; [|refute]. cbn [rbind].
  destruct (lp_stat p) as [stat|]; [|refute]. cbn [rbind].
  destruct (stat_ticks stat) as [ticks|] eqn:Et; [|refute]. cbn [rbind].
  unfold fail_if. destruct (Z.eqb_spec ticks start_time) as [->|]; cbn [negb rbind]; [|refute].
  destruct (lp_alive p); cbn [negb rbind]; [|refute]. split.
  - intros [= <-]. exists fd, status, stat, uid. split_and!; first [done | lia].
  - intros (fd' & status' & stat' & uid' & _ & [= <-] & [= <-] & Hu & _ & _ & _ & ->). congruence.
Qed.

(** On Linux an owner is accepted exactly when its PID is a positive
    [i32], the kernel has it, its status names its user, its creation time is
    the announced one and it is still alive; connections are then admitted exactly for that PID while it
    lives, so a peer the kernel could not identify (PID 0) never is. *)
Theorem owner_opened_linux pid start_time p owner :
  (open_linux pid start_time p = Ok owner <->
   exists fd status stat uid, (0 < pid <= Z.to_N i32_max)%N /\
     lp_pidfd p = Ok fd /\ lp_status p = Ok status /\ status_uid status = Ok uid /\
     lp_stat p = Ok stat /\ stat_ticks stat = Ok start_time /\ lp_alive p = true /\
     owner = mkOwner pid uid (fd, 0%Z) "") /\
  (open_linux pid start_time p = Ok owner -> forall peer alive,
     authorizes owner peer alive = true <-> peer = pid /\ alive = true /\ peer <> 0%N).
Proof.
  split; [apply open_linux_ok|].
  intros (fd & status & stat & uid & Hp & _ & _ & _ & _ & _ & _ & ->)%open_linux_ok peer alive.
  unfold authorizes. cbn. rewrite andb_true_iff, N.eqb_eq. split; [intros [-> ->]; split_and!; [done..|lia] | naive_solver].
Qed.

(** A process that calls itself [x) R 1 2]. *)
Lemma stat_ticks_ignores_name_witness :
  stat_ticks (stat_line (str_bytes "4242 ") (str_bytes "x) R 1 2")
    (replicate 19 [Byte.x30] ++ [str_bytes "987654"; [Byte.x30]])) = Ok 987654%Z.
Proof.
  rewrite (stat_ticks_ignores_name _ _ _ (str_bytes "987654")).
  - vm_compute. reflexivity.
  - assert (forall b, is_ascii_digit b = true -> plain b) as Hd.
    { intros b Hb. split; [|intros ->; discriminate Hb].
      unfold is_ascii_digit, in_range in Hb. apply andb_true_iff in Hb as [H1 H2].
      apply Z.leb_le in H1, H2. lia. }
    assert (forall w, w <> [] -> forallb is_ascii_digit w = true -> word w) as Hw.
    { intros w Hne Hw. split; [exact Hne|]. apply forallb_Forall in Hw.
      eapply Forall_impl; [exact Hw | exact Hd]. }
    apply Forall_app. split; [apply Forall_replicate | forall_each idtac];
      apply Hw; (discriminate || reflexivity).
  - reflexivity.
Defined.
