(* ===== verification/OwnerIdentity.v ===== *)
(** * owner.rs against a process table that changes

    A PID is a number the system uses again once a process is gone; what
    [OwnerProcess] pins is the process. Here the calls of [open] and [is_alive]
    are made at successive moments against a process table that other
    processes may enter and leave at any time, between any two calls. The
    theorem: [open] succeeds only for the process the launcher described, and
    every peer the daemon authorizes afterwards is that process. *)

From S2P Require Import Prelude RustStd Owner.
From Stdlib Require Import Lia.

(** ** The process table *)

(** Who holds a PID at each moment. A process that has left its PID does not
    come back: it holds it for an interval. *)
Class ProcessTable (proc : Type) : Type := holder : nat -> N -> option proc.

Class ProcessTableLaws (proc : Type) `{ProcessTable proc} : Prop :=
  holder_convex pid p t0 t t1 : t0 <= t <= t1 ->
    holder t0 pid = Some p -> holder t1 pid = Some p -> holder t pid = Some p.

(** Linux: descriptors of processes (pidfd_open, poll) and /proc. A descriptor
    refers to the process that held the PID; polling it finds nothing to read
    only while that process runs, so that it still holds its PID. *)
Class LinuxCalls (proc : Type) : Type := {
  pidfd_open : nat -> N -> result Z string;
  poll : Z -> nat -> Z;
  read_status : nat -> N -> result string string;
  read_stat : nat -> N -> result string string;
  status_of : proc -> nat -> string;
  stat_of : proc -> nat -> string;
}.

Class LinuxLaws (proc : Type) `{ProcessTable proc} `{LinuxCalls proc} : Prop := {
  pidfd_refers t pid fd : pidfd_open t pid = Ok fd ->
    exists p, holder t pid = Some p /\
      forall t', t <= t' -> poll fd t' = 0%Z -> holder t' pid = Some p;
  status_read t pid s : read_status t pid = Ok s ->
    exists p, holder t pid = Some p /\ s = status_of p t;
  stat_read t pid s : read_stat t pid = Ok s ->
    exists p, holder t pid = Some p /\ s = stat_of p t;
}.

(** macOS: [proc_pidinfo] describes the holder, and two processes that use a
    PID one after the other are not born in the same microsecond. *)
Class MacosCalls (proc : Type) : Type := {
  pidinfo : nat -> N -> option bsdinfo;
  birth_of : proc -> Z * Z;
}.

Class MacosLaws (proc : Type) `{ProcessTable proc} `{MacosCalls proc} : Prop := {
  pidinfo_describes t pid info : pidinfo t pid = Some info ->
    exists p, holder t pid = Some p /\ birth_of p = (pbi_start_tvsec info, pbi_start_tvusec info);
  births_differ t t' pid p p' : holder t pid = Some p -> holder t' pid = Some p' ->
    birth_of p = birth_of p' -> p = p';
}.

(** Windows: a handle refers to the process that held the PID; its times and its
    account are read through it, and waiting for it times out only while that
    process runs, so that it still holds its PID. *)
Class WindowsCalls (proc : Type) : Type := {
  open_process : nat -> N -> result Z string;
  creation_of : Z -> result (Z * Z) string;
  sid_of : Z -> result string string;
  wait : Z -> nat -> Z;
  creation_time : proc -> Z * Z;
  account : proc -> string;
}.

Class WindowsLaws (proc : Type) `{ProcessTable proc} `{WindowsCalls proc} : Prop :=
  handle_refers t pid handle : open_process t pid = Ok handle ->
    exists p, holder t pid = Some p /\
      (forall times, creation_of handle = Ok times -> times = creation_time p) /\
      (forall sid, sid_of handle = Ok sid -> sid = account p) /\
      forall t', t <= t' -> wait handle t' = WAIT_TIMEOUT -> holder t' pid = Some p.

(** ** The calls in their order *)

Section Calls.
Context {proc : Type} `{ProcessTable proc}.

(** [open] on Linux: the descriptor at [t0], the files at [t1] and [t2], and
    [is_alive] at [t3]. *)
Definition observe_linux `{LinuxCalls proc} (pid : N) (t0 t1 t2 t3 : nat) : linux_process :=
  let fd := pidfd_open t0 pid in
  mkLinuxProcess fd (read_status t1 pid) (read_stat t2 pid)
    (match fd with Ok fd => is_alive_linux (poll fd t3) | Err _ => false end).

(** [authorizes] at [t], for a peer whose PID the kernel recorded earlier. *)
Definition authorizes_linux `{LinuxCalls proc} (owner : OwnerProcess) (peer : N) (t : nat) : bool :=
  authorizes owner peer (is_alive_linux (poll (o_identity owner).1 t)).

Definition authorizes_macos `{MacosCalls proc} (owner : OwnerProcess) (peer : N) (t : nat) : bool :=
  authorizes owner peer (is_alive_macos owner (pidinfo t (o_pid owner))).

Definition observe_windows `{WindowsCalls proc} (pid : N) (start_time : Z) (t0 t1 : nat)
    : result OwnerProcess string :=
  let handle := open_process t0 pid in
  let at_handle {A} (f : Z -> result A string) := rbind handle f in
  open_windows pid start_time handle (at_handle creation_of) (at_handle sid_of)
    (match handle with Ok h => is_alive_windows (wait h t1) | Err _ => false end).

Definition authorizes_windows_at `{WindowsCalls proc} (owner : OwnerProcess) (peer : N) (t : nat) : bool :=
  authorizes owner peer (is_alive_windows (wait (o_identity owner).1 t)).

(** ** Correctness *)

(** [p] held the PID from [t0] to [t1]. *)
Definition holds (pid : N) (p : proc) (t0 t1 : nat) : Prop :=
  forall t, t0 <= t <= t1 -> holder t pid = Some p.

Lemma holds_between `{!ProcessTableLaws proc} pid p t0 t1 :
  holder t0 pid = Some p -> holder t1 pid = Some p -> holds pid p t0 t1.
Proof. intros H0 H1 t Ht. exact (holder_convex pid p t0 t t1 Ht H0 H1). Qed.

Lemma authorizes_true owner peer alive :
  authorizes owner peer alive = true <-> peer = o_pid owner /\ alive = true.
Proof. unfold authorizes. by rewrite andb_true_iff, N.eqb_eq. Qed.

(** A peer that is authorized at [t'], having held its PID at [t], is [p], and
    [p] has held the owner's PID from [t0] on. *)
Definition admits_only_from (authorized : N -> nat -> bool) (pid : N) (p : proc) (t0 : nat) : Prop :=
  forall peer q t t', t0 <= t <= t' -> holder t peer = Some q -> authorized peer t' = true ->
    q = p /\ holds pid p t0 t'.

(** Linux: whoever answers while the descriptor is not ready is the process it
    refers to. The final check of [open] is what excludes that the files
    described a successor. *)
Lemma linux_identified `{!ProcessTableLaws proc, LinuxCalls proc, !LinuxLaws proc}
    pid start_time t0 t1 t2 t3 owner :
  t0 <= t1 -> t1 <= t2 -> t2 <= t3 ->
  open_linux pid start_time (observe_linux pid t0 t1 t2 t3) = Ok owner ->
  exists p, holds pid p t0 t3 /\
    stat_ticks (stat_of p t2) = Ok start_time /\ status_uid (status_of p t1) = Ok (o_uid owner) /\
    admits_only_from (authorizes_linux owner) pid p t0.
Proof.
  intros H01 H12 H23 (fd & status & stat & uid & _ & Hfd & Hstatus & Huid & Hstat & Hticks & Halive & ->)%open_linux_ok.
  cbn in Hfd, Hstatus, Hstat, Halive. rewrite Hfd in Halive. apply Z.eqb_eq in Halive.
  destruct (pidfd_refers t0 pid fd Hfd) as (p & Hp & Hpoll).
  pose proof (holds_between pid p t0 t3 Hp (Hpoll t3 ltac:(lia) Halive)) as Hh.
  destruct (status_read t1 pid status Hstatus) as (p1 & Hp1 & ->).
  destruct (stat_read t2 pid stat Hstat) as (p2 & Hp2 & ->).
  assert (p1 = p) as -> by (pose proof (Hh t1 ltac:(lia)); congruence).
  assert (p2 = p) as -> by (pose proof (Hh t2 ltac:(lia)); congruence).
  exists p. split_and!; [done..|]. intros peer q t t' Ht Hq [-> Ha%Z.eqb_eq]%authorizes_true. cbn in *.
  pose proof (holds_between pid p t0 t' Hp (Hpoll t' ltac:(lia) Ha)) as Hh'.
  split; [|done]. pose proof (Hh' t Ht). congruence.
Qed.

Lemma macos_info_some reply info : macos_info reply = Some info -> reply = Some info.
Proof. unfold macos_info. destruct reply as [i|]; [|done]. cbn. by case_match. Qed.

(** macOS: the PID alone is kept, with the birth of its holder, which every
    check compares. *)
Lemma macos_identified `{!ProcessTableLaws proc, MacosCalls proc, !MacosLaws proc} pid start_time t0 owner :
  open_macos pid start_time (pidinfo t0 pid) = Ok owner ->
  exists p, holder t0 pid = Some p /\
    (((birth_of p).1 * 1000 + (birth_of p).2 / 1000) mod 2 ^ 64 = start_time)%Z /\
    admits_only_from (authorizes_macos owner) pid p t0.
Proof.
  unfold open_macos. destruct (check_pid true pid) as [[]|e]; [|done]. cbn [rbind].
  destruct (macos_info (pidinfo t0 pid)) as [info|] eqn:Ei; [|done]. cbn [ok_or rbind fail_if].
  destruct (Z.eqb_spec ((pbi_start_tvsec info * 1000 + pbi_start_tvusec info / 1000) mod 2 ^ 64) start_time) as [Es|];
    [|done]. cbn [negb rbind]. intros Ho. apply Ok_inj in Ho. subst owner.
  destruct (pidinfo_describes t0 pid info (macos_info_some _ _ Ei)) as (p & Hp & Hb).
  exists p. split_and!; [done | by rewrite Hb |]. intros peer q t t' Ht Hq [-> Ha]%authorizes_true.
  cbn [o_pid] in *. unfold is_alive_macos in Ha. cbn [o_pid o_identity] in Ha.
  destruct (macos_info (pidinfo t' pid)) as [info'|] eqn:Ei'; [|done]. apply bool_decide_eq_true in Ha.
  destruct (pidinfo_describes t' pid info' (macos_info_some _ _ Ei')) as (p' & Hp' & Hb').
  assert (p' = p) as -> by (eapply births_differ; [exact Hp' | exact Hp | congruence]).
  pose proof (holds_between pid p t0 t' Hp Hp') as Hh. split; [|done]. pose proof (Hh t Ht). congruence.
Qed.

(** The creation time of a process in milliseconds since 1970, from the two
    words of its [FILETIME]. *)
Definition epoch_millis (times : Z * Z) : Z :=
  ((Z.lor (Z.shiftl times.1 32) times.2 / 10000 - 11644473600000) mod 2 ^ 64)%Z.

(** Windows: everything is read through the handle. *)
Lemma windows_identified `{!ProcessTableLaws proc, WindowsCalls proc, !WindowsLaws proc} pid start_time t0 t1 owner :
  t0 <= t1 -> observe_windows pid start_time t0 t1 = Ok owner ->
  exists p, holds pid p t0 t1 /\ epoch_millis (creation_time p) = start_time /\ account p = o_sid owner /\
    admits_only_from (authorizes_windows_at owner) pid p t0.
Proof.
  intros H01. unfold observe_windows, open_windows. destruct (check_pid false pid) as [[]|e]; [|done]. cbn [rbind].
  destruct (open_process t0 pid) as [handle|] eqn:Eh; [|done]. cbn [rbind].
  destruct (handle_refers t0 pid handle Eh) as (p & Hp & Htimes & Hsid & Hwait).
  destruct (creation_of handle) as [times|] eqn:Ec; [|done]. cbn [rbind fail_if].
  destruct (Z.eqb_spec ((Z.lor (Z.shiftl times.1 32) times.2 / 10000 - 11644473600000) mod 2 ^ 64) start_time) as [Es|];
    [|done]. cbn [negb rbind].
  destruct (sid_of handle) as [sid|] eqn:Esid; [|done]. cbn [rbind fail_if].
  destruct (is_alive_windows (wait handle t1)) eqn:Ea; [|done]. cbn [negb rbind]. apply Z.eqb_eq in Ea.
  intros Ho. apply Ok_inj in Ho. subst owner.
  exists p. split_and!; [by apply holds_between; [|apply Hwait] | by rewrite <- (Htimes times) | by rewrite <- (Hsid sid) |].
  intros peer q t t' Ht Hq [-> Ha%Z.eqb_eq]%authorizes_true. cbn in *.
  pose proof (holds_between pid p t0 t' Hp (Hwait t' ltac:(lia) Ha)) as Hh.
  split; [|done]. pose proof (Hh t Ht). congruence.
Qed.
End Calls.

(** C20: whoever enters and leaves the process table between any two calls of
    the daemon, [open] succeeds only for the process that holds the owner's PID
    from its first call to its last and whose creation time is the one the
    launcher gave, and reads the account of that process; and every peer
    authorized later is that very process, which has held the PID ever since.
    This holds on Linux, where /proc is read by PID but the descriptor is
    checked afterwards, on macOS, where one call reads everything and the birth
    time is compared again at every check, and on Windows, where everything is
    read through the handle. *)
Theorem authorized_peer_is_owner {proc : Type} `{ProcessTable proc, !ProcessTableLaws proc}
    `{LinuxCalls proc, !LinuxLaws proc, MacosCalls proc, !MacosLaws proc, WindowsCalls proc, !WindowsLaws proc}
    pid start_time owner t0 t1 t2 t3 :
  t0 <= t1 -> t1 <= t2 -> t2 <= t3 ->
  (open_linux pid start_time (observe_linux pid t0 t1 t2 t3) = Ok owner ->
   exists p, holds pid p t0 t3 /\
     stat_ticks (stat_of p t2) = Ok start_time /\ status_uid (status_of p t1) = Ok (o_uid owner) /\
     admits_only_from (authorizes_linux owner) pid p t0) /\
  (open_macos pid start_time (pidinfo t0 pid) = Ok owner ->
   exists p, holder t0 pid = Some p /\
     (((birth_of p).1 * 1000 + (birth_of p).2 / 1000) mod 2 ^ 64 = start_time)%Z /\
     admits_only_from (authorizes_macos owner) pid p t0) /\
  (observe_windows pid start_time t0 t1 = Ok owner ->
   exists p, holds pid p t0 t1 /\ epoch_millis (creation_time p) = start_time /\ account p = o_sid owner /\
     admits_only_from (authorizes_windows_at owner) pid p t0).
Proof.
  intros H01 H12 H23. split_and!.
  - by apply linux_identified.
  - apply macos_identified.
  - by apply windows_identified.
Qed.

(** ** A PID that is used again

    Process 1 holds PID 42 until moment 10, process 2 from 12 on. *)
Module IdentityExamples.
Definition alive_at (n : nat) (t : nat) : bool := if n =? 1 then t <? 10 else 12 <=? t.

#[export] Instance table : ProcessTable nat := fun t pid =>
  if (pid =? 42)%N then
    if alive_at 1 t then Some 1 else if alive_at 2 t then Some 2 else None
  else None.

#[export] Instance table_laws : ProcessTableLaws nat.
Proof.
  intros pid p t0 t t1 Ht. unfold holder, table, alive_at. destruct (pid =? 42)%N; [|done]. cbn [Nat.eqb].
  destruct (Nat.ltb_spec t0 10), (Nat.ltb_spec t1 10), (Nat.ltb_spec t 10), (Nat.leb_spec 12 t0),
    (Nat.leb_spec 12 t1), (Nat.leb_spec 12 t); intros; simplify_eq; first [reflexivity | lia].
Defined.

Definition ticks_of (n : nat) : string := if n =? 1 then "500" else "900".

#[export] Instance linux_calls : LinuxCalls nat := {|
  pidfd_open t pid := match holder (proc:=nat) t pid with Some n => Ok (Z.of_nat n) | None => Err "ESRCH" end;
  poll fd t := if alive_at (Z.to_nat fd) t then 0%Z else 1%Z;
  read_status t pid :=
    match holder (proc:=nat) t pid with Some _ => Ok "Uid: 1000 1000 1000 1000" | None => Err "ENOENT" end;
  read_stat t pid :=
    match holder (proc:=nat) t pid with
    | Some n => Ok ("42 (app) S 1 1 1 0 0 0 0 0 0 0 0 0 0 0 0 0 0 0 " +:+ ticks_of n +:+ " 0")
    | None => Err "ENOENT"
    end;
  status_of _ _ := "Uid: 1000 1000 1000 1000";
  stat_of n _ := "42 (app) S 1 1 1 0 0 0 0 0 0 0 0 0 0 0 0 0 0 0 " +:+ ticks_of n +:+ " 0";
|}.

Lemma holder_alive t pid n : holder (proc:=nat) t pid = Some n ->
  pid = 42%N /\ alive_at n t = true /\ (n = 1 \/ n = 2).
Proof.
  unfold holder, table. destruct (N.eqb_spec pid 42); [|done].
  destruct (alive_at 1 t) eqn:E1; [intros [= <-]; auto|]. destruct (alive_at 2 t) eqn:E2; [intros [= <-]; auto | done].
Defined.

Lemma alive_holder t n : n = 1 \/ n = 2 -> alive_at n t = true -> holder (proc:=nat) t 42 = Some n.
Proof.
  unfold holder, table, alive_at. cbn [N.eqb Pos.eqb]. intros [-> | ->]; cbn [Nat.eqb].
  - by intros ->.
  - intros Ht%Nat.leb_le. destruct (Nat.ltb_spec t 10); [lia|]. by destruct (Nat.leb_spec 12 t); [|lia].
Defined.

#[export] Instance linux_laws : LinuxLaws nat.
Proof.
  constructor; intros t pid; cbn.
  - intros fd. destruct (holder t pid) as [n|] eqn:E; [|done]. intros [= <-]. exists n. split; [done|].
    destruct (holder_alive _ _ _ E) as (-> & _ & Hn). intros t' _ Hp. apply alive_holder; [done|].
    rewrite Nat2Z.id in Hp. by destruct (alive_at n t').
  - intros s. destruct (holder t pid) as [n|] eqn:E; [|done]. intros [= <-]. by exists n.
  - intros s. destruct (holder t pid) as [n|] eqn:E; [|done]. intros [= <-]. by exists n.
Defined.

#[export] Instance macos_calls : MacosCalls nat := {|
  pidinfo t pid := match holder (proc:=nat) t pid with Some n => Some (mkBsd (Z.of_nat n) 0 1000 2) | None => None end;
  birth_of n := (Z.of_nat n, 0%Z);
|}.

#[export] Instance macos_laws : MacosLaws nat.
Proof.
  constructor; cbn.
  - intros t pid info. destruct (holder t pid) as [n|] eqn:E; [|done]. intros [= <-]. by exists n.
  - intros t t' pid p p' _ _ [= E]. lia.
Defined.

(** Here only process 2 can be opened. *)
#[export] Instance windows_calls : WindowsCalls nat := {|
  open_process t pid := if (pid =? 42)%N && (12 <=? t) then Ok 2%Z else Err "ERROR_INVALID_PARAMETER";
  creation_of _ := Ok (27111902%Z, 3577643008%Z);
  sid_of _ := Ok "S-1-5-21-1";
  wait _ _ := WAIT_TIMEOUT;
  creation_time _ := (27111902%Z, 3577643008%Z);
  account _ := "S-1-5-21-1";
|}.

#[export] Instance windows_laws : WindowsLaws nat.
Proof.
  intros t pid handle. cbn [open_process windows_calls]. destruct (N.eqb_spec pid 42) as [->|]; [|done]. cbn [andb].
  destruct (Nat.leb_spec 12 t) as [Ht|]; [|done]. intros _.
  assert (forall t', t <= t' -> holder t' 42%N = Some 2) as Hh
    by (intros t' Ht'; apply alive_holder; [by right | apply Nat.leb_le; lia]).
  exists 2. split; [by apply Hh|]. split; [by intros ? [= <-]|]. split; [by intros ? [= <-]|]. auto.
Defined.

(** The PID changes hands while the owner is opened: refused. *)
Example reused_while_opening : open_linux 42 900 (observe_linux 42 5 13 14 15) = Err "owner has exited".
Proof. vm_compute. reflexivity. Qed.
(** Afterwards: the newcomer is not authorized. *)
Example reused_afterwards : authorizes_linux (mkOwner 42 1000 (1, 0)%Z "") 42 15 = false.
Proof. vm_compute. reflexivity. Qed.
End IdentityExamples.
Import IdentityExamples.

Lemma authorized_peer_is_owner_witness :
  let owner := mkOwner 42 1000 (1, 0)%Z "" in
  open_linux 42 500 (observe_linux 42 1 2 3 4) = Ok owner /\ authorizes_linux owner 42 7 = true /\
  holds 42 1 1 7 /\ stat_ticks (stat_of 1 3) = Ok 500%Z.
Proof.
  intros owner.
  assert (open_linux 42 500 (observe_linux 42 1 2 3 4) = Ok owner) as Ho by (vm_compute; reflexivity).
  assert (authorizes_linux owner 42 7 = true) as Ha by (vm_compute; reflexivity).
  destruct (authorized_peer_is_owner 42 500 owner 1 2 3 4 ltac:(lia) ltac:(lia) ltac:(lia)) as (Hl & _).
  destruct (Hl Ho) as (p & Hh & Hs & _ & Hp).
  destruct (Hp 42%N 1 6 7 ltac:(lia) ltac:(reflexivity) Ha) as [<- Hh'].
  split; [exact Ho|]. split; [exact Ha|]. split; [exact Hh' | exact Hs].
Defined.
