(* ===== verification/Logging.v ===== *)
(** * logging.rs: the log worker and its bounded queue

    Callers only ever try to put a line into a queue of 256 messages; one
    worker thread writes them. The theorem: whatever callers log and however
    the worker and the output behave, the output is a sequence of whole lines,
    one per message and in order, and nothing a message contains can forge a
    line; logging never waits and the queue never exceeds its bound. *)

From S2P Require Import Prelude RustStd.
From Stdlib Require Import Lia Ascii.

Definition LF : byte := Byte.x0a.
Definition CR : byte := Byte.x0d.

(** [replace('\r', "\\r").replace('\n', "\\n")]. *)
Definition escape (b : byte) : list byte :=
  if decide (b = CR) then [Byte.x5c; Byte.x72]
  else if decide (b = LF) then [Byte.x5c; Byte.x6e]
  else [b].

Definition sanitize (message : string) : string := bytes_str (str_bytes message ≫= escape).

(** [format!("{timestamp} pid={} {message}", ...)]. *)
Definition log_line (timestamp pid : N) (message : string) : string :=
  pretty timestamp +:+ " pid=" +:+ pretty pid +:+ " " +:+ sanitize message.

(** [enum Message]. *)
Inductive Message : Type :=
| Line (line : string)
| Flush.

Definition QUEUE_CAPACITY : nat := 256.

(** The queue, what was written, and whether the worker still receives. *)
Record logger : Type := mkLogger {
  queue : list Message;
  output : list byte;
  worker : bool;
}.

Definition logger_new : logger := mkLogger [] [] true.

(** What opening the log does to the system. *)
Inductive open_action : Type :=
| CreateDirAll (directory : string)
| OpenAppend (file : string)
| SpawnWorker.

#[global] Instance open_action_eq_dec : EqDecision open_action.
Proof. solve_decision. Defined.

(** [Logger::new] and [with_writer]: a path comes with its parent, if it has
    one; without a path the log goes to standard output. *)
Definition new (path : option (option string * string)) (mkdir open spawn : result unit io_error)
    : result logger io_error * list open_action :=
  let with_writer actions := (rmap (fun _ => logger_new) spawn, actions ++ [SpawnWorker]) in
  match path with
  | None => with_writer []
  | Some (parent, file) =>
    let directories :=
      match parent with
      | Some d => if bool_decide (d = "") then [] else [CreateDirAll d]
      | None => []
      end in
    match (if bool_decide (directories = []) then Ok tt else mkdir) with
    | Err e => (Err e, directories)
    | Ok _ =>
      match open with
      | Err e => (Err e, directories ++ [OpenAppend file])
      | Ok _ => with_writer (directories ++ [OpenAppend file])
      end
    end
  end.

(** [SyncSender::try_send]: fails when the queue is full or nobody receives. *)
Definition try_send (m : Message) (l : logger) : bool * logger :=
  if worker l && (length (queue l) <? QUEUE_CAPACITY)
  then (true, mkLogger (queue l ++ [m]) (output l) (worker l))
  else (false, l).

Definition log (timestamp pid : N) (message : string) (l : logger) : logger :=
  snd (try_send (Line (log_line timestamp pid message)) l).

Definition flush (l : logger) : logger := snd (try_send Flush l).

Definition line_bytes (line : string) : list byte := str_bytes line ++ [LF].

(** One message handled by the worker; [failed] is how many bytes of the line
    reached the output when [writeln!] fails, which ends the worker. *)
Definition work (failed : option nat) (l : logger) : logger :=
  if negb (worker l) then l
  else match queue l with
  | [] => l
  | Flush :: q => mkLogger q (output l) true
  | Line line :: q =>
    match failed with
    | None => mkLogger q (output l ++ line_bytes line) true
    | Some n => mkLogger [] (output l ++ take n (line_bytes line)) false
    end
  end.

Inductive log_op : Type :=
| DoLog (timestamp pid : N) (message : string)
| DoFlush
| DoWork (failed : option nat).

Definition log_step (l : logger) (op : log_op) : logger :=
  match op with
  | DoLog timestamp pid message => log timestamp pid message l
  | DoFlush => flush l
  | DoWork failed => work failed l
  end.

Definition log_run (ops : list log_op) : logger := foldl log_step logger_new ops.

(** ** Correctness *)

Definition logged (op : log_op) : option string :=
  match op with DoLog ts pid m => Some (log_line ts pid m) | _ => None end.

Definition queued (m : Message) : option string :=
  match m with Line line => Some line | Flush => None end.

Definition one_line (line : string) : Prop := (LF ∉ str_bytes line) /\ (CR ∉ str_bytes line).

Lemma lacks_bytes b s : lacks (ascii_of_byte b) s -> b ∉ str_bytes s.
Proof.
  induction s as [|a s IH]; [intros _; apply not_elem_of_nil|]. intros [Ha Hs].
  rewrite str_bytes_cons, not_elem_of_cons. split; [|by apply IH].
  intros ->. apply Ha. by rewrite ascii_of_byte_of_ascii.
Qed.

Lemma pretty_N_one_line (n : N) : one_line (pretty n).
Proof. split; apply lacks_bytes, pretty_N_lacks; intros [|p]; [done| |done|]; cbn; by repeat case_match. Qed.

Lemma escape_clean b c : c ∈ escape b -> c <> LF /\ c <> CR.
Proof.
  unfold escape. repeat case_decide; set_solver.
Qed.

Lemma log_line_one_line timestamp pid message : one_line (log_line timestamp pid message).
Proof.
  unfold one_line, log_line. rewrite !str_bytes_app, !not_elem_of_app.
  destruct (pretty_N_one_line timestamp), (pretty_N_one_line pid).
  assert ((LF ∉ str_bytes (sanitize message)) /\ (CR ∉ str_bytes (sanitize message))) as [H5 H6].
  { unfold sanitize. rewrite str_bytes_str.
    split; intros (b & Hb & _)%list_elem_of_bind; by destruct (escape_clean _ _ Hb). }
  split_and!; try done; clear; vm_compute; set_solver.
Qed.

(** What the output holds: whole lines, and after a failed write a part of one
    more. *)
Definition log_ok (lines : list string) (l : logger) : Prop :=
  length (queue l) <= QUEUE_CAPACITY /\
  exists written partial,
    output l = concat (line_bytes <$> written) ++ partial /\
    (worker l = true -> partial = []) /\
    (partial = [] \/ exists line, one_line line /\ partial `prefix_of` line_bytes line) /\
    written ++ omap queued (queue l) `sublist_of` lines /\ Forall one_line (written ++ omap queued (queue l)).

Lemma sublist_snoc_r {A} (l m : list A) x : l `sublist_of` m -> l `sublist_of` m ++ [x].
Proof. intros H. by apply sublist_inserts_r. Qed.

Lemma log_step_ok lines l op :
  log_ok lines l -> log_ok (lines ++ option_list (logged op)) (log_step l op).
Proof.
  intros (Hq & written & partial & Ho & Hw & Hp & Hs & Hf). destruct op as [ts pid m| |failed]; cbn.
  - unfold log, try_send. destruct (worker l && (length (queue l) <? QUEUE_CAPACITY)) eqn:E; cbn.
    + apply andb_true_iff in E as [Ew El%Nat.ltb_lt]. split; [cbn [queue]; rewrite length_app; cbn; lia|].
      exists written, partial. cbn [queue output worker]. rewrite omap_app, app_assoc. cbn.
      split_and!; [done..| by apply sublist_app |].
      apply Forall_app. split; [done|]. repeat constructor; apply log_line_one_line.
    + split; [done|]. exists written, partial. split_and!; try done. by apply sublist_snoc_r.
  - rewrite app_nil_r. unfold flush, try_send.
    destruct (worker l && (length (queue l) <? QUEUE_CAPACITY)) eqn:E; cbn; [|by split; eauto 10].
    apply andb_true_iff in E as [Ew El%Nat.ltb_lt]. split; [cbn [queue]; rewrite length_app; cbn; lia|].
    exists written, partial. cbn [queue output worker]. rewrite omap_app. cbn. by rewrite app_nil_r.
  - rewrite app_nil_r. unfold work. destruct (worker l) eqn:Ew; cbn [negb]; [|by split; eauto 10].
    destruct (queue l) as [|[line|] q] eqn:Eq; cbn in *.
    + split; [by rewrite Eq|]. exists written, partial. rewrite Eq. by rewrite Ew.
    + rewrite (Hw eq_refl), app_nil_r in Ho. destruct failed as [n|]; cbn.
      * split; [cbn; lia|]. apply Forall_app in Hf as [Hf1 Hf2]. inversion Hf2 as [|?? Hl _]; subst.
        exists written, (take n (line_bytes line)). cbn. rewrite Ho, app_nil_r. split_and!; [done | done | | |done].
        -- right. exists line. split; [done|]. apply prefix_take.
        -- etrans; [|exact Hs]. by apply sublist_inserts_r.
      * split; [cbn; lia|]. exists (written ++ [line]), []. rewrite fmap_app, concat_app, Ho. cbn.
        rewrite !app_nil_r, <- app_assoc. split_and!; auto.
    + split; [cbn; lia|]. by exists written, partial.
Qed.

(** Opening the log appends to the file that was asked for, and to no other. *)
Lemma new_opens path mkdir open spawn l actions :
  new path mkdir open spawn = (Ok l, actions) ->
  l = logger_new /\
  (forall file, OpenAppend file ∈ actions <-> exists parent, path = Some (parent, file)) /\
  last actions = Some SpawnWorker.
Proof.
  unfold new. destruct path as [[parent file]|].
  - set (directories := match parent with Some d => _ | None => _ end).
    assert (forall f, OpenAppend f ∉ directories) as Hd
      by (intros f; subst directories; destruct parent; [case_match|]; set_solver).
    destruct (if bool_decide (directories = []) then Ok tt else mkdir); [|done].
    destruct open as [[]|]; [|done]. destruct spawn as [[]|]; [|done]. intros [= <- <-].
    split_and!; [done | | by rewrite last_app].
    intros f. specialize (Hd f). set_solver.
  - destruct spawn as [[]|]; [|done]. intros [= <- <-]. split_and!; [done | | done]. set_solver.
Qed.

(** C37: whatever is logged, whenever the worker runs and however the output
    fails: the queue holds at most 256 messages; the output is the whole lines
    of some of the logged messages, in order and each once, followed only
    after a failed write by a part of one more; and no message contains a line
    break of its own. *)
Theorem log_run_ok ops :
  let l := log_run ops in
  length (queue l) <= QUEUE_CAPACITY /\
  exists written partial,
    output l = concat (line_bytes <$> written) ++ partial /\
    (worker l = true -> partial = []) /\
    (partial = [] \/ exists line, one_line line /\ partial `prefix_of` line_bytes line) /\
    written `sublist_of` omap logged ops /\ Forall one_line written.
Proof.
  cbn zeta. assert (log_ok (omap logged ops) (log_run ops)) as (Hq & written & partial & H1 & H2 & H3 & H4 & H5).
  { unfold log_run. induction ops as [|op ops IH] using rev_ind.
    - split; [cbn; lia|]. exists [], []. split_and!; auto; constructor.
    - rewrite foldl_app, omap_app. cbn.
      assert (match logged op with Some y => [y] | None => [] end = option_list (logged op)) as -> by done.
      by apply log_step_ok. }
  split; [done|]. exists written, partial. apply Forall_app in H5 as [H5 _].
  split_and!; try done. etrans; [|exact H4]. by apply sublist_inserts_r.
Qed.
