(* ===== verification/Listener.v ===== *)
(** * ipc/unix.rs: the Unix socket listener

    [bind] checks the endpoint's path, creates a private directory, the socket
    in it, and only then opens both to the owner. The files are a small state
    the actions change; any action can fail, and the destructors try to remove
    what was created, which the system may refuse and does refuse for a
    directory that is not empty. The theorem covers every intermediate state. *)

From S2P Require Import Prelude RustStd Owner.

(** ** Paths *)

(** [Path]: absolute or not, and its components; empty components and [.] are
    dropped, as [Path::components] does (a leading [.] only matters for
    relative paths, which are refused). *)
Record path : Type := mkPath { absolute : bool; components : list string }.

Definition slash : byte := Byte.x2f.

Definition parse_path (s : string) : path :=
  mkPath (starts_with "/" s)
    (List.filter (fun c => negb (bool_decide (c = "")) && negb (bool_decide (c = "."))) (split slash s)).

Definition parent (p : path) : option path :=
  match components p with
  | [] => None
  | cs => Some (mkPath (absolute p) (take (length cs - 1) cs))
  end.

(** [file_name().unwrap_or_default()]. *)
Definition file_name (p : path) : string :=
  match last (components p) with
  | Some c => if bool_decide (c = "..") then "" else c
  | None => ""
  end.

Definition is_tmp (p : option path) : bool :=
  match p with Some q => absolute q && bool_decide (components q = ["tmp"]) | None => false end.

Definition check_endpoint (endpoint : string) : result path io_error :=
  let? parent_ := ok_or (parent (parse_path endpoint)) (io_other "missing socket directory") in
  if negb (is_tmp (parent parent_)) || negb (starts_with "wg-kotlin-" (file_name parent_))
  then Err (io_other "IPC socket requires its own /tmp/wg-kotlin-* directory")
  else Ok parent_.

(** ** The file system *)

Inductive fs_action : Type :=
| CreateDir (mode : Z)
| BindSocket
| ChmodSocket (mode : Z)
| ChownSocket (uid : Z)
| ChmodDir (mode : Z)
| RemoveSocket (permitted : bool)   (* whether the system lets it happen *)
| RemoveDir (permitted : bool).

(** A mode written in octal. *)
Definition octal (u g o : Z) : Z := (64 * u + 8 * g + o)%Z.

(** Mode of the directory; mode and owner of the socket. *)
Record fs : Type := mkFs { dir : option Z; sock : option (Z * Z) }.

(** [umask_mode] is the mode a new socket gets from the umask; the daemon
    creates it as root. *)
Definition fs_step (umask_mode : Z) (s : fs) (a : fs_action) : fs :=
  match a with
  | CreateDir mode => mkFs (Some mode) (sock s)
  | BindSocket => mkFs (dir s) (Some (umask_mode, 0%Z))
  | ChmodSocket mode => mkFs (dir s) ((fun x => (mode, x.2)) <$> sock s)
  | ChownSocket uid => mkFs (dir s) ((fun x => (x.1, uid)) <$> sock s)
  | ChmodDir mode => mkFs ((fun _ => mode) <$> dir s) (sock s)
  | RemoveSocket permitted => if permitted then mkFs (dir s) None else s
  | RemoveDir permitted =>
    (* a directory that still holds the socket is not removed *)
    if permitted && bool_decide (sock s = None) then mkFs None None else s
  end.

(** ** [LocalListener::bind] *)

(** What the calls of [bind] return, in order; whether a [UnixListener::bind]
    that fails has made the socket before (its [listen] or its registration with
    the runtime failed); and whether the destructors' removals, whose errors are
    discarded, are permitted. *)
Record bind_outcomes : Type := mkOutcomes {
  b_step : nat -> result unit io_error;
  b_bound : bool;
  b_unlink : bool;
  b_rmdir : bool;
}.

(** Do the actions until one fails; [outcome i] is the result of the [i]th. *)
Fixpoint attempt (outcome : nat -> result unit io_error) (i : nat)
    (actions : list (fs_action * list fs_action)) : result unit io_error * list fs_action :=
  match actions with
  | [] => (Ok tt, [])
  | (a, on_failure) :: r =>
    match outcome i with
    | Err e => (Err e, on_failure)
    | Ok _ => let '(res, done) := attempt outcome (S i) r in (res, a :: done)
    end
  end.

(** [Drop for SocketDirectory]. *)
Definition drop_directory (o : bind_outcomes) : list fs_action := [RemoveDir (b_rmdir o)].

(** [Drop for LocalListener], then its fields, of which the directory is last. *)
Definition drop_listener (o : bind_outcomes) : list fs_action :=
  [RemoveSocket (b_unlink o)] ++ drop_directory o.

(** Each action with what happens instead if it fails. *)
Definition bind_actions (root : bool) (owner : OwnerProcess) (o : bind_outcomes)
    : list (fs_action * list fs_action) :=
  [(CreateDir (octal 7 0 0), []);
   (BindSocket, (if b_bound o then [BindSocket] else []) ++ drop_directory o);
   (ChmodSocket (octal 6 0 0), drop_listener o)]
  ++ (if root then [(ChownSocket (o_uid owner), drop_listener o)] else [])
  ++ [(ChmodDir (octal 7 1 1), drop_listener o)].

(** [geteuid() == 0] is [root]; the result and the changes made. *)
Definition bind (endpoint : string) (owner : OwnerProcess) (root : bool) (o : bind_outcomes)
    : result unit io_error * list fs_action :=
  match check_endpoint endpoint with
  | Err e => (Err e, [])
  | Ok _ => attempt (b_step o) 0 (bind_actions root owner o)
  end.

(** [accept] on Linux: 0 stands for a peer the kernel does not identify. *)
Definition accept_pid (peer_cred : option (option Z)) : N :=
  match peer_cred with
  | Some (Some pid) => if (0 <? pid)%Z then Z.to_N pid else 0%N
  | _ => 0%N
  end.

(** On macOS: what [getsockopt] returns, the size it wrote and the PID. *)
Definition accept_pid_macos (result size pid : Z) : N :=
  if (result =? 0)%Z && (size =? 4)%Z && (0 <? pid)%Z then Z.to_N pid else 0%N.

(** ** Correctness *)

Definition states (umask_mode : Z) (actions : list fs_action) : list fs :=
  (fun n => foldl (fs_step umask_mode) (mkFs None None) (take n actions)) <$> seq 0 (S (length actions)).

Definition final (umask_mode : Z) (actions : list fs_action) : fs :=
  foldl (fs_step umask_mode) (mkFs None None) actions.

(** Others can reach into the directory only when the socket is ready. *)
Definition guarded (owner : OwnerProcess) (s : fs) : Prop :=
  dir s = None \/ dir s = Some (octal 7 0 0) \/
  dir s = Some (octal 7 1 1) /\ (sock s = Some (octal 6 0 0, o_uid owner) \/ sock s = None).

(** The system permits the removals, and no socket was made by a failing
    [UnixListener::bind]. *)
Definition removable (o : bind_outcomes) : Prop :=
  b_bound o = false /\ b_unlink o = true /\ b_rmdir o = true.

(** A failed bind leaves nothing, a successful one what its destructor removes. *)
Lemma bind_leaves endpoint owner root o umask_mode :
  removable o ->
  let '(res, actions) := bind endpoint owner root o in
  final umask_mode (actions ++ (if is_ok res then drop_listener o else [])) = mkFs None None.
Proof.
  intros (Hb & Hu & Hr). unfold bind. destruct (check_endpoint endpoint) as [p|e]; [|done].
  unfold bind_actions, drop_listener, drop_directory. rewrite Hb, Hu, Hr.
  destruct root; cbn [app attempt]; repeat (case_match; simplify_eq); done.
Qed.

(** C36: the daemon, running as root, binds only inside its own directory
    /tmp/wg-kotlin-*; whichever step fails and whatever removals the system
    refuses, at no moment can another user reach a socket that is not yet
    restricted to its owner. A successful bind leaves exactly the socket with
    mode 600 for the owner in a directory others may only traverse, and dropping
    the listener removes both if the system lets it; a failed one leaves
    neither, unless a removal is refused or [UnixListener::bind] fails after it
    made the socket: then what is left is in a directory closed to others. *)
Theorem bind_is_guarded endpoint owner o umask_mode :
  let '(res, actions) := bind endpoint owner true o in
  (actions <> [] -> exists p, check_endpoint endpoint = Ok p /\ absolute p = true /\
     exists name, components p = ["tmp"; name] /\ starts_with "wg-kotlin-" name = true) /\
  Forall (guarded owner) (states umask_mode (actions ++ if is_ok res then drop_listener o else [])) /\
  (is_ok res = true ->
     final umask_mode actions = mkFs (Some (octal 7 1 1)) (Some (octal 6 0 0, o_uid owner)) /\
     sock (final umask_mode (actions ++ drop_listener o)) =
       (if b_unlink o then None else Some (octal 6 0 0, o_uid owner)) /\
     (final umask_mode (actions ++ drop_listener o) = mkFs None None <-> b_unlink o && b_rmdir o = true)) /\
  (is_ok res = false ->
     (dir (final umask_mode actions) = None \/ dir (final umask_mode actions) = Some (octal 7 0 0)) /\
     (b_bound o = false -> b_unlink o = true -> b_rmdir o = true ->
        final umask_mode actions = mkFs None None)).
Proof.
  unfold bind. destruct (check_endpoint endpoint) as [p|e] eqn:Ec.
  2:{ split_and!; [done | forall_each ltac:(by left) | done |]. intros _. split; [by left | done]. }
  assert (absolute p = true /\ exists name, components p = ["tmp"; name] /\
    starts_with "wg-kotlin-" name = true) as Hp.
  { unfold check_endpoint in Ec. destruct (parent (parse_path endpoint)) as [q|]; [|done].
    cbn [ok_or rbind] in Ec. destruct (is_tmp (parent q)) eqn:Et; cbn in Ec; [|done].
    destruct (starts_with "wg-kotlin-" (file_name q)) eqn:Ew; cbn in Ec; [|done].
    injection Ec as <-. unfold is_tmp, parent in Et. destruct q as [ab cs]. cbn in *.
    destruct cs as [|c cs]; [done|]. cbn [absolute components] in Et.
    apply andb_true_iff in Et as [-> Et%bool_decide_eq_true]. split; [done|].
    destruct cs as [|d [|x cs]]; cbn in Et; simplify_eq.
    exists d. split; [done|]. unfold file_name in Ew. cbn in Ew.
    destruct (bool_decide_reflect (d = "..")); [by subst|done]. }
  unfold bind_actions, drop_listener, drop_directory. destruct o as [outcome bound unlink rmdir].
  cbn [b_step b_bound b_unlink b_rmdir app attempt].
  destruct (outcome 0) as [[]|]; [|split_and!; [done | forall_each ltac:(by left) | done |];
    intros _; split; [by left | done]].
  destruct bound, unlink, rmdir; destruct (outcome 1) as [[]|]; destruct (outcome 2) as [[]|];
    destruct (outcome 3) as [[]|]; destruct (outcome 4) as [[]|]; cbn;
    (split_and!; [eauto 6 | forall_each ltac:(unfold guarded; cbn; auto 6) | |]); (intros H; try discriminate H);
    split_and?; try done; auto.
Qed.
