(* ===== verification/ListenerWindows.v ===== *)
(** * ipc/windows.rs: the named pipe listener

    [bind] creates the first instance of the pipe, [accept] waits for a client
    on the pending instance and replaces it. Each instance is created with a
    security descriptor, given as text in Windows' descriptor language; the
    descriptor is memory to be freed. The theorem follows every sequence of
    accepts through every intermediate state: the daemon never lets go of the
    pipe's name, and whom each instance admits is read off its descriptor. *)

From S2P Require Import Prelude RustStd Owner.
From Stdlib Require Import Lia.

Inductive pipe_action : Type :=
| AllocDescriptor (sddl : string)
| CreatePipe (endpoint sddl : string) (first reject_remote : bool)
| FreeDescriptor
| ClosePending    (* the old pending instance is dropped *)
| HandOver.       (* the connected instance goes to the server *)

(** A byte that cannot be written in a string literal here. *)
Definition backslash : string := bytes_str [Byte.x5c].
Definition pipe_prefix : string :=
  backslash +:+ backslash +:+ "." +:+ backslash +:+ "pipe" +:+ backslash +:+ "wg-kotlin-".

Definition sddl (sid : string) : string :=
  "D:P(A;;GA;;;SY)(A;;GA;;;BA)(A;;GRGW;;;" +:+ sid +:+ ")S:(ML;;NW;;;ME)".

(** The outcomes of the two calls of [create]. *)
Abbreviation create_outcome := (result unit io_error * result unit io_error)%type.

Definition create (endpoint sid : string) (first : bool) (outcome : create_outcome)
    : result unit io_error * list pipe_action :=
  match outcome.1 with
  | Err e => (Err e, [])
  | Ok _ =>
    match outcome.2 with
    | Err e => (Err e, [AllocDescriptor (sddl sid); FreeDescriptor])
    | Ok _ =>
      (Ok tt, [AllocDescriptor (sddl sid); CreatePipe endpoint (sddl sid) first true; FreeDescriptor])
    end
  end.

(** The listener: the pipe's name and the account it is for. *)
Record LocalListener : Type := mkListener { l_endpoint : string; l_sid : string }.

Definition bind (endpoint : string) (owner : OwnerProcess) (outcome : create_outcome)
    : result LocalListener io_error * list pipe_action :=
  if negb (starts_with pipe_prefix endpoint)
  then (Err (io_other "invalid local named pipe endpoint"), [])
  else
    let '(pending, actions) := create endpoint (o_sid owner) true outcome in
    (rmap (fun _ => mkListener endpoint (o_sid owner)) pending, actions).

(** ERROR_BROKEN_PIPE, ERROR_NO_DATA and ERROR_PIPE_NOT_CONNECTED. *)
Definition client_left (e : io_error) : bool :=
  bool_decide (raw_os_error e ∈ [Some 109%Z; Some 232%Z; Some 233%Z]).

(** The loop of [accept]: the results of successive [connect]s, each with the
    outcome of the [create] that follows a client that left. *)
Fixpoint connect_loop (l : LocalListener) (connects : list (result unit io_error * create_outcome))
    : option (result unit io_error) * list pipe_action :=
  match connects with
  | [] => (None, [])
  | (Ok _, _) :: _ => (Some (Ok tt), [])
  | (Err error, outcome) :: r =>
    if client_left error then
      let '(created, actions) := create (l_endpoint l) (l_sid l) false outcome in
      match created with
      | Err e => (Some (Err e), actions)
      | Ok _ => let '(res, more) := connect_loop l r in (res, actions ++ [ClosePending] ++ more)
      end
    else (Some (Err error), [])
  end.

(** What [accept] meets: the connects, the next instance, and what
    [GetNamedPipeClientProcessId] says. *)
Record accept_input : Type := mkAccept {
  a_connects : list (result unit io_error * create_outcome);
  a_next : create_outcome;
  a_client : result N io_error;
}.

Definition accept (l : LocalListener) (i : accept_input)
    : option (result N io_error) * list pipe_action :=
  let '(connected, actions) := connect_loop l (a_connects i) in
  match connected with
  | None => (None, actions)
  | Some (Err e) => (Some (Err e), actions)
  | Some (Ok _) =>
    let '(next, more) := create (l_endpoint l) (l_sid l) false (a_next i) in
    match next with
    | Err e => (Some (Err e), actions ++ more)
    | Ok _ =>
      (Some (Ok (match a_client i with Ok pid => pid | Err _ => 0%N end)), actions ++ more ++ [HandOver])
    end
  end.

(** ** Correctness *)

(** The instances the listener owns, those handed over, and the descriptors
    that are not freed. *)
Record pipes : Type := mkPipes { instances : nat; handed : nat; descriptors : nat }.

Definition pipe_step (p : pipes) (a : pipe_action) : pipes :=
  match a with
  | AllocDescriptor _ => mkPipes (instances p) (handed p) (S (descriptors p))
  | CreatePipe _ _ _ _ => mkPipes (S (instances p)) (handed p) (descriptors p)
  | FreeDescriptor => mkPipes (instances p) (handed p) (descriptors p - 1)
  | ClosePending => mkPipes (instances p - 1) (handed p) (descriptors p)
  | HandOver => mkPipes (instances p - 1) (S (handed p)) (descriptors p)
  end.

Definition pipes_after (p : pipes) (actions : list pipe_action) : pipes := foldl pipe_step p actions.

(** All the states on the way. *)
Fixpoint pipe_states (p : pipes) (actions : list pipe_action) : list pipes :=
  p :: match actions with [] => [] | a :: r => pipe_states (pipe_step p a) r end.

(** Any number of accepts, and what they did. *)
Definition accept_all (l : LocalListener) (inputs : list accept_input) : list pipe_action :=
  inputs ≫= fun i => (accept l i).2.

(** *** Security descriptors *)

(** An access-control entry: its kind, flags, rights and the account. *)
Record ace : Type := mkAce { ace_kind : string; ace_flags : string; ace_rights : string; ace_account : string }.

(** The discretionary list with its flags, and the system list. *)
Record descriptor : Type := mkDescriptor { d_flags : string; d_access : list ace; d_system : list ace }.

(** [kind;flags;rights;object;inherited object;account]; entries for objects
    are not read. *)
Definition read_ace (l : list byte) : option ace :=
  match split_bytes Byte.x3b l with
  | [kind; flags; rights; []; []; account] =>
    Some (mkAce (bytes_str kind) (bytes_str flags) (bytes_str rights) (bytes_str account))
  | _ => None
  end.

(** The text up to each closing parenthesis: an entry, before which a list may
    begin with [D:] and its flags, or [S:]. *)
Fixpoint read_entries (system : bool) (d : descriptor) (pieces : list (list byte)) : option descriptor :=
  match pieces with
  | [] => None
  | [[]] => Some d
  | piece :: r =>
    match split_bytes Byte.x28 piece with
    | [prefix; body] =>
      a ← read_ace body;
      '(system, flags) ←
        match prefix with
        | [] => Some (system, d_flags d)
        | _ => match strip_prefix_bytes (str_bytes "D:") prefix with
               | Some flags => Some (false, bytes_str flags)
               | None => if decide (prefix = str_bytes "S:") then Some (true, d_flags d) else None
               end
        end;
      read_entries system
        (if (system : bool) then mkDescriptor flags (d_access d) (d_system d ++ [a])
         else mkDescriptor flags (d_access d ++ [a]) (d_system d)) r
    | _ => None
    end
  end.

Definition read_sddl (s : string) : option descriptor :=
  read_entries false (mkDescriptor "" [] []) (split_bytes Byte.x29 (str_bytes s)).

(** The text of an account: [S-], numbers and hyphens. *)
Definition sid_text (sid : string) : Prop :=
  Forall (fun b => is_ascii_digit b = true \/ b = Byte.x2d \/ b = Byte.x53) (str_bytes sid).

(** Only the system, the administrators and [sid] are let in, [sid] to read and
    write; nothing is inherited; and a process of medium integrity, as the
    owner's, may write. *)
Definition admits_only (sid s : string) : Prop :=
  exists d, read_sddl s = Some d /\ d_flags d = "P" /\
    (forall a, a ∈ d_access d -> ace_kind a = "A" /\ ace_flags a = "" /\
       (ace_account a = "SY" \/ ace_account a = "BA" \/ ace_account a = sid /\ ace_rights a = "GRGW")) /\
    (exists a, a ∈ d_access d /\ ace_account a = sid) /\
    d_system d = [mkAce "ML" "" "NW" "ME"].

(** Instances after the first are created without [first_pipe_instance], all
    under the listener's name, closed to other machines and to others than its
    account. *)
Definition for_owner (l : LocalListener) (a : pipe_action) : Prop :=
  match a with
  | AllocDescriptor d => admits_only (l_sid l) d
  | CreatePipe endpoint d first reject_remote =>
    endpoint = l_endpoint l /\ admits_only (l_sid l) d /\ first = false /\ reject_remote = true
  | _ => True
  end.

Lemma sid_lacks sid c :
  sid_text sid -> is_ascii_digit c = false -> c <> Byte.x2d -> c <> Byte.x53 -> c ∉ str_bytes sid.
Proof. intros Hs Hd H1 H2 Hin. unfold sid_text in Hs. rewrite Forall_forall in Hs. destruct (Hs c Hin) as [?|[?|?]]; congruence. Qed.

Lemma sddl_admits sid : sid_text sid -> admits_only sid (sddl sid).
Proof.
  intros Hs. pose proof (sid_lacks sid) as Hl.
  set (pieces := [str_bytes "D:P(A;;GA;;;SY"; str_bytes "(A;;GA;;;BA"; str_bytes "(A;;GRGW;;;" ++ str_bytes sid;
                  str_bytes "S:(ML;;NW;;;ME"; []]).
  assert (str_bytes (sddl sid) = join_bytes Byte.x29 pieces) as E.
  { unfold sddl, pieces. by rewrite !str_bytes_app. }
  assert (split_bytes Byte.x29 (str_bytes (sddl sid)) = pieces) as Hsplit.
  { rewrite E. apply split_join_bytes; [done|].
    forall_each ltac:(try (apply (bool_decide_unpack _); vm_compute; exact I)).
    apply not_elem_of_app. split; [apply (bool_decide_unpack _); vm_compute; exact I | by apply Hl]. }
  assert (split_bytes Byte.x28 (str_bytes "(A;;GRGW;;;" ++ str_bytes sid) = [[]; str_bytes "A;;GRGW;;;" ++ str_bytes sid])
    as Hparen.
  { change (str_bytes "(A;;GRGW;;;" ++ str_bytes sid) with ([] ++ Byte.x28 :: (str_bytes "A;;GRGW;;;" ++ str_bytes sid)).
    rewrite split_bytes_app by apply not_elem_of_nil. rewrite split_bytes_nosep; [done|].
    apply not_elem_of_app. split; [apply (bool_decide_unpack _); vm_compute; exact I | by apply Hl]. }
  assert (read_ace (str_bytes "A;;GRGW;;;" ++ str_bytes sid) = Some (mkAce "A" "" "GRGW" sid)) as Hace.
  { unfold read_ace.
    assert (str_bytes "A;;GRGW;;;" ++ str_bytes sid =
      join_bytes Byte.x3b [str_bytes "A"; []; str_bytes "GRGW"; []; []; str_bytes sid]) as -> by done.
    rewrite split_join_bytes; [|done|].
    - by rewrite !bytes_str_bytes.
    - forall_each ltac:(first [by apply Hl | apply (bool_decide_unpack _); vm_compute; exact I]). }
  assert (read_sddl (sddl sid) = Some (mkDescriptor "P"
    [mkAce "A" "" "GA" "SY"; mkAce "A" "" "GA" "BA"; mkAce "A" "" "GRGW" sid] [mkAce "ML" "" "NW" "ME"])) as Hread.
  { unfold read_sddl. rewrite Hsplit. unfold pieces. cbn [read_entries].
    change (split_bytes Byte.x28 (str_bytes "D:P(A;;GA;;;SY")) with [str_bytes "D:P"; str_bytes "A;;GA;;;SY"].
    change (split_bytes Byte.x28 (str_bytes "(A;;GA;;;BA")) with [[]; str_bytes "A;;GA;;;BA"].
    change (split_bytes Byte.x28 (str_bytes "S:(ML;;NW;;;ME")) with [str_bytes "S:"; str_bytes "ML;;NW;;;ME"].
    rewrite Hparen. change (str_bytes "(A;;GRGW;;;" ++ str_bytes sid) with (Byte.x28 :: (str_bytes "A;;GRGW;;;" ++ str_bytes sid)).
    cbv iota. rewrite Hace. done. }
  eexists. split; [exact Hread|]. cbn. split_and!; [done| | |done].
  - intros a. rewrite !elem_of_cons, elem_of_nil. naive_solver.
  - exists (mkAce "A" "" "GRGW" sid). set_solver.
Qed.

(** [settles p acts n]: from [p], the actions never give up the last instance
    and end in [p] with [n] more instances handed over. *)
Definition settles (p : pipes) (actions : list pipe_action) (n : nat) : Prop :=
  Forall (fun q => 1 <= instances q) (pipe_states p actions) /\
  pipes_after p actions = mkPipes (instances p) (handed p + n) (descriptors p).

Lemma pipe_states_app p actions more :
  Forall (fun q => 1 <= instances q) (pipe_states p actions) ->
  Forall (fun q => 1 <= instances q) (pipe_states (pipes_after p actions) more) ->
  Forall (fun q => 1 <= instances q) (pipe_states p (actions ++ more)).
Proof.
  revert p; induction actions as [|a r IH]; intros p H1 H2; [done|]. cbn in *.
  inversion_clear H1. constructor; [done|]. by apply IH.
Qed.

Lemma settles_app p actions more n m :
  settles p actions n -> settles (pipes_after p actions) more m -> settles p (actions ++ more) (n + m).
Proof.
  intros [Hs He] [Hs' He']. split; [by apply pipe_states_app|].
  unfold pipes_after in *. rewrite foldl_app, He', He. cbn. f_equal. lia.
Qed.

Lemma settles_nil p : 1 <= instances p -> settles p [] 0.
Proof. intros Hp. split; [by repeat constructor|]. destruct p; cbn. f_equal. lia. Qed.

(** [create] by itself adds at most one instance and leaks no descriptor; with
    the step that gives an instance away the number is as before. *)
Lemma create_settles endpoint sid first outcome p :
  1 <= instances p ->
  match create endpoint sid first outcome with
  | (Err _, actions) => settles p actions 0
  | (Ok _, actions) => settles p (actions ++ [ClosePending]) 0 /\ settles p (actions ++ [HandOver]) 1
  end.
Proof.
  intros Hp. unfold create. destruct outcome as [[[]|e1] [[]|e2]]; cbn [fst snd];
    try (by apply settles_nil);
    lazymatch goal with |- _ /\ settles _ _ _ => split | _ => idtac end;
    (split; [cbn; forall_each ltac:(cbn; lia)|]);
    destruct p as [i n d]; cbn in *; f_equal; lia.
Qed.

Lemma create_for_owner l outcome :
  sid_text (l_sid l) -> Forall (for_owner l) (create (l_endpoint l) (l_sid l) false outcome).2.
Proof.
  intros Hs. pose proof (sddl_admits _ Hs) as Ha. unfold create.
  destruct outcome as [[[]|e1] [[]|e2]]; cbn [fst snd]; forall_each ltac:(cbn [for_owner]; try done).
Qed.

Lemma connect_loop_settles l connects : forall p, 1 <= instances p ->
  settles p (connect_loop l connects).2 0 /\
  (sid_text (l_sid l) -> Forall (for_owner l) (connect_loop l connects).2).
Proof.
  induction connects as [|[[[]|error] outcome] r IH]; intros p Hp; cbn [connect_loop];
    [split; [by apply settles_nil | done].. |].
  destruct (client_left error); [|split; [by apply settles_nil | done]].
  pose proof (create_settles (l_endpoint l) (l_sid l) false outcome p Hp) as Hc.
  pose proof (create_for_owner l outcome) as Hf.
  destruct (create (l_endpoint l) (l_sid l) false outcome) as [[[]|e] actions]; [|done].
  destruct Hc as [Hc _].
  destruct (IH (pipes_after p (actions ++ [ClosePending]))) as [IH1 IH2].
  { destruct Hc as [_ ->]. done. }
  destruct (connect_loop l r) as [res more]. cbn [snd] in *. rewrite app_assoc. split.
  - by apply (settles_app _ _ _ 0 0).
  - intros Hsid. repeat apply Forall_app_2; [by apply Hf | by repeat constructor | by apply IH2].
Qed.

(** The PID an accept reports, if it reports one. *)
Definition accepted (l : LocalListener) (i : accept_input) : option N := (accept l i).1 ≫= ok.

Lemma accept_settles l i p : 1 <= instances p ->
  settles p (accept l i).2 (length (option_list (accepted l i))) /\
  (sid_text (l_sid l) -> Forall (for_owner l) (accept l i).2).
Proof.
  intros Hp. unfold accepted, accept. destruct (connect_loop_settles l (a_connects i) p Hp) as [Hs Hf].
  destruct (connect_loop l (a_connects i)) as [[[[]|e]|] actions]; cbn [fst snd] in *; [|done..].
  assert (1 <= instances (pipes_after p actions)) as Hp' by (by destruct Hs as [_ ->]).
  pose proof (create_settles (l_endpoint l) (l_sid l) false (a_next i) _ Hp') as Hc.
  pose proof (create_for_owner l (a_next i)) as Hf'.
  destruct (create (l_endpoint l) (l_sid l) false (a_next i)) as [[[]|e] more]; cbn [fst snd] in *.
  - destruct Hc as [_ Hc]. split; [by apply (settles_app _ _ _ 0 1)|]. intros Hsid.
    repeat apply Forall_app_2; [by apply Hf | by apply Hf' | by repeat constructor].
  - split; [by apply (settles_app _ _ _ 0 0)|]. intros Hsid. apply Forall_app_2; auto.
Qed.

Lemma accept_all_settles l inputs : forall p, 1 <= instances p ->
  settles p (accept_all l inputs) (length (omap (accepted l) inputs)) /\
  (sid_text (l_sid l) -> Forall (for_owner l) (accept_all l inputs)).
Proof.
  induction inputs as [|i r IH]; intros p Hp; [split; [by apply settles_nil | constructor]|].
  change (accept_all l (i :: r)) with ((accept l i).2 ++ accept_all l r).
  destruct (accept_settles l i p Hp) as [Hs Hf].
  destruct (IH (pipes_after p (accept l i).2)) as [IH1 IH2]; [by destruct Hs as [_ ->]|].
  split; [|intros Hsid; apply Forall_app_2; auto].
  assert (length (omap (accepted l) (i :: r)) =
    length (option_list (accepted l i)) + length (omap (accepted l) r)) as ->
    by (cbn; by destruct (accepted l i)).
  by apply settles_app.
Qed.

(** C19: the pipe is created only under the daemon's own prefix, its first
    instance exclusively, so that a squatted name is noticed. From then on,
    whatever clients connect or leave and whichever calls fail, the daemon holds
    an instance at every moment, so nobody else can claim the name; exactly one
    is left pending, the others were handed over, and no descriptor leaks. Every
    instance, the first included, has the same name, refuses other machines and
    has a descriptor that lets in the owner's account, the system and the
    administrators and nobody else. A client that cannot be identified is
    reported as PID 0. *)
Theorem pipe_name_stays_claimed endpoint owner outcome inputs :
  sid_text (o_sid owner) ->
  let '(res, actions) := bind endpoint owner outcome in
  let p0 := pipes_after (mkPipes 0 0 0) actions in
  match res with
  | Err _ => p0 = mkPipes 0 0 0
  | Ok l =>
    starts_with pipe_prefix endpoint = true /\ l = mkListener endpoint (o_sid owner) /\
    (exists d, actions = [AllocDescriptor d; CreatePipe endpoint d true true; FreeDescriptor] /\
       admits_only (o_sid owner) d) /\
    Forall (fun p => 1 <= instances p) (pipe_states p0 (accept_all l inputs)) /\
    pipes_after p0 (accept_all l inputs) = mkPipes 1 (length (omap (accepted l) inputs)) 0 /\
    Forall (for_owner l) (accept_all l inputs) /\
    (forall i pid, accepted l i = Some pid -> a_client i = Ok pid \/ pid = 0%N)
  end.
Proof.
  intros Hsid. unfold bind. destruct (starts_with pipe_prefix endpoint); cbn [negb]; [|done].
  unfold create. destruct outcome as [[[]|e1] [[]|e2]]; cbn [fst snd rmap]; try done. cbn zeta.
  destruct (accept_all_settles (mkListener endpoint (o_sid owner)) inputs (mkPipes 1 0 0)) as [[Hs He] Hf];
    [cbn; lia|].
  specialize (Hf Hsid). split_and!; try done; [eexists; split; [done | by apply sddl_admits]|]. intros i pid. unfold accepted, accept.
  destruct (connect_loop _ _) as [[[[]|e]|] a]; [|done..].
  destruct (create _ _ _ _) as [[[]|e] more]; cbn; [|done]. destruct (a_client i); intros [= <-]; auto.
Qed.

Definition example_owner : OwnerProcess := mkOwner 42 0 (1, 0)%Z "S-1-5-21-1004".

Lemma pipe_name_stays_claimed_witness :
  let ok2 := (Ok tt, Ok tt) : create_outcome in
  let inputs := [mkAccept [(Ok tt, ok2)] ok2 (Ok 42%N)] in
  let endpoint := pipe_prefix +:+ "1" in
  let l := mkListener endpoint (o_sid example_owner) in
  (bind endpoint example_owner ok2).1 = Ok l /\
  pipes_after (mkPipes 1 0 0) (accept_all l inputs) = mkPipes 1 1 0 /\
  Forall (for_owner l) (accept_all l inputs).
Proof.
  intros ok2 inputs endpoint l.
  assert (sid_text (o_sid example_owner)) as Hs.
  { unfold sid_text. cbn. repeat (constructor; [auto|]). constructor. }
  pose proof (pipe_name_stays_claimed endpoint example_owner ok2 inputs Hs) as H.
  assert ((bind endpoint example_owner ok2).1 = Ok l) as E by reflexivity.
  assert (pipes_after (mkPipes 0 0 0) (bind endpoint example_owner ok2).2 = mkPipes 1 0 0) as Ep by reflexivity.
  destruct (bind endpoint example_owner ok2) as [r acts]. cbn [fst snd] in E, Ep. subst r. rewrite Ep in H.
  destruct H as (_ & _ & _ & _ & H1 & H2 & _). split; [reflexivity|]. split; [exact H1 | exact H2].
Defined.

(** A client that leaves before it is served, then one that is. *)
Example accept_example :
  let l := mkListener (pipe_prefix +:+ "1") "S-1-5-21" in
  let left := mkIoError OtherKind (Some 109%Z) "" in
  let ok2 := (Ok tt, Ok tt) : create_outcome in
  (accept l (mkAccept [(Err left, ok2); (Ok tt, ok2)] ok2 (Ok 42%N))).1 = Some (Ok 42%N).
Proof. vm_compute. reflexivity. Qed.
