(* ===== verification/Daemon.v ===== *)
(** * main.rs: the daemon's main loop

    [run_loop] is the [select!] of [run] over the events it sees: signals, a
    client's shutdown request, the owner's disappearance, finished connection
    tasks and accepted connections. [run] puts the setup of each target, the
    loop and the shutdown together as a sequence of effects, [main] adds the log
    and the exit status. The theorems: which connections are served, and that
    every run ends in order, and what it leaves behind. *)

From S2P Require Import Prelude RustStd Owner.
From S2P Require Import Wintun.
From S2P Require Import Listener.
From S2P Require Import ListenerWindows.

(** What [listener.accept()] meets on Unix and on Windows. *)
Inductive accepting : Type :=
| UnixAccept (connection : result N io_error)
| PipeAccept (i : accept_input).

(** [listener.accept()] with what it does to the pipe; [None] when another
    branch of the [select!] was ready first and the call is dropped. *)
Definition accept_on (l : option LocalListener) (a : accepting) : option (result N io_error) * list pipe_action :=
  match l, a with
  | None, UnixAccept connection => (Some connection, [])
  | Some l, PipeAccept i => ListenerWindows.accept l i
  | _, _ => (None, [])       (* the other target's *)
  end.

(** What wakes the loop; [alive] is what [owner.is_alive()] says at that moment. *)
Inductive event : Type :=
| Signal
| ShutdownChanged
| Tick (alive : bool)
| ConnectionJoined
| Accepted (a : accepting) (alive : bool).

(** What the loop does with an accepted connection. *)
Inductive served : Type :=
| Served (peer_pid : N)
| Rejected (peer_pid : N).

(** A turn in which [accept] ran: what it did, and what became of it. *)
Record turn : Type := mkTurn { turn_pipe : list pipe_action; turn_served : option served }.

(** The loop: its turns and, once it has ended, its result. *)
Fixpoint run_loop (l : option LocalListener) (owner : OwnerProcess) (events : list event)
    : list turn * option (result unit io_error) :=
  match events with
  | [] => ([], None)
  | Signal :: _ => ([], Some (Ok tt))
  | ShutdownChanged :: _ => ([], Some (Ok tt))
  | Tick alive :: r => if negb alive then ([], Some (Ok tt)) else run_loop l owner r
  | ConnectionJoined :: r => run_loop l owner r
  | Accepted a alive :: r =>
    match accept_on l a with
    | (Some (Err error), actions) => ([mkTurn actions None], Some (Err error))
    | (None, actions) => let '(turns, res) := run_loop l owner r in (mkTurn actions None :: turns, res)
    | (Some (Ok peer_pid), actions) =>
      let '(turns, res) := run_loop l owner r in
      (mkTurn actions (Some (if negb (authorizes owner peer_pid alive) then Rejected peer_pid else Served peer_pid))
         :: turns, res)
    end
  end.

(** ** [run] *)

(** What the daemon does to its surroundings, in order: the files of the
    extracted library, of the Unix socket, the instances of the named pipe, the
    log, the connections, the shutdown broadcast and the wait for its end. *)
Inductive effect : Type :=
| Library (a : dll_action)
| Socket (a : fs_action)
| Pipe (a : pipe_action)
| Log (message : string)
| FlushLog
| Spawn (peer_pid : N)     (* a task serves the connection *)
| Hangup (peer_pid : N)    (* its stream is dropped *)
| Broadcast                (* [shutdown_tx.send(true)] *)
| Drain.                   (* connections and sessions are awaited *)

(** How [run] ends: with a result, or with [std::process::exit(1)]. *)
Inductive ending : Type :=
| Returned (r : result unit string)
| Exited (code : Z).

(** The target and what its calls return while the daemon is set up. *)
Inductive host : Type :=
| UnixHost (root : bool) (outcomes : bind_outcomes)
| WindowsHost (program_files guid : result string string) (x : extraction) (registered : bool)
    (created : result unit io_error * result unit io_error).

(** What the setup leaves [run] with: the library and the pipe's listener on
    Windows, nothing to keep track of on Unix. *)
Record ready : Type := mkReady { r_wintun : option WintunDll; r_listener : option LocalListener }.

Section Run.
Context (DLL_BYTES : list byte).

(** Up to the bound listener; [binaries] is the outcome of
    [ensure_required_binaries]. An error drops the library, whose only
    reference [run] holds. *)
Definition setup (h : host) (endpoint : string) (owner : OwnerProcess) (binaries : result unit string)
    : result ready string * list effect :=
  match binaries with
  | Err e => (Err e, [])
  | Ok _ =>
    match h with
    | UnixHost root outcomes =>
      let '(bound, actions) := Listener.bind endpoint owner root outcomes in
      (rmap (fun _ => mkReady None None) (map_err io_message bound), Socket <$> actions)
    | WindowsHost program_files guid x registered created =>
      let '(prepared, actions) := Wintun.prepare DLL_BYTES program_files guid x in
      match prepared with
      | Err e => (Err e, Library <$> actions)
      | Ok wintun =>
        match (set_wintun_dll registered).1 with
        | Err e => (Err e, Library <$> actions ++ drop_dll wintun)
        | Ok _ =>
          let '(bound, pipe_actions) := ListenerWindows.bind endpoint owner created in
          match bound with
          | Err e =>
            (Err (io_message e),
             (Library <$> actions) ++ (Pipe <$> pipe_actions) ++ (Library <$> drop_dll wintun))
          | Ok listener =>
            (Ok (mkReady (Some wintun) (Some listener)), (Library <$> actions) ++ (Pipe <$> pipe_actions))
          end
        end
      end
    end
  end.

(** What the loop does in a turn with [accept]. *)
Definition serve (t : turn) : list effect :=
  (Pipe <$> turn_pipe t) ++
  match turn_served t with
  | Some (Rejected pid) => [Log ("connection rejected peer_pid=" +:+ pretty pid); Hangup pid]
  | Some (Served pid) => [Log ("connection accepted peer_pid=" +:+ pretty pid); Spawn pid]
  | None => []
  end.

(** The task that serves a connection logs why it failed. *)
Definition connection_task (peer_pid : N) (r : result unit io_error) : list effect :=
  match r with
  | Ok _ => []
  | Err e => [Log ("connection failed peer_pid=" +:+ pretty peer_pid +:+ ": " +:+ io_message e)]
  end.

(** [drop(listener)]. *)
Definition drop_local_listener (h : host) : list effect :=
  match h with
  | UnixHost _ outcomes => Socket <$> drop_listener outcomes
  | WindowsHost _ _ _ _ _ => [Pipe ClosePending]
  end.

Definition bool_text (b : bool) : string := if b then "true" else "false".

(** From the end of the loop on; [drained] is whether connections and sessions
    ended within four seconds. *)
Definition shut_down (h : host) (result : result unit io_error) (drained : bool) : list effect :=
  [Broadcast]
  ++ match result with Ok _ => [] | Err e => [Log ("listener failed: " +:+ io_message e)] end
  ++ drop_local_listener h
  ++ [Drain; Log ("daemon stopped sessions_drained=" +:+ bool_text drained)]
  ++ (if negb drained then [FlushLog] else []).

(** Returning drops [run]'s reference to the library; [references] are the ones
    sessions still hold. *)
Definition release_library (wintun : option WintunDll) (references : nat) : list effect :=
  match wintun with
  | Some w => if references =? 0 then Library <$> drop_dll w else []
  | None => []
  end.

(** [None] is a loop that has not ended. *)
Definition run (h : host) (endpoint : string) (owner : OwnerProcess) (binaries : result unit string)
    (events : list event) (drained : bool) (references : nat) : option ending * list effect :=
  let '(ready, effects) := setup h endpoint owner binaries in
  match ready with
  | Err e => (Some (Returned (Err e)), effects)
  | Ok w =>
    let '(turns, result) := run_loop (r_listener w) owner events in
    let running := effects
      ++ [Log ("daemon started endpoint=" +:+ endpoint +:+ " owner_pid=" +:+ pretty (o_pid owner))]
      ++ (turns ≫= serve) in
    match result with
    | None => (None, running)
    | Some r =>
      if negb drained then (Some (Exited 1), running ++ shut_down h r drained)
      else (Some (Returned (map_err io_message r)),
            running ++ shut_down h r drained ++ release_library (r_wintun w) references)
    end
  end.
End Run.

(** ** [main] *)

Definition EXIT_SUCCESS : Z := 0.
Definition EXIT_FAILURE : Z := 1.

(** The owner is prepared first, then the logger, then the runtime; [fallback]
    is whether standard output takes the message about a log that cannot be
    opened. *)
Definition main (owner : result OwnerProcess string) (logger fallback runtime : result unit string)
    (running : OwnerProcess -> option ending * list effect) : option Z * list effect :=
  match logger with
  | Err error =>
    (Some EXIT_FAILURE,
     if is_ok fallback then [Log ("cannot open log output: " +:+ error); FlushLog] else [])
  | Ok _ =>
    let '(result, effects) :=
      match owner with
      | Err e => (Some (Returned (Err e)), [])
      | Ok owner =>
        match runtime with
        | Err e => (Some (Returned (Err e)), [])
        | Ok _ => running owner
        end
      end in
    match result with
    | None => (None, effects)
    | Some (Exited code) => (Some code, effects)
    | Some (Returned (Err error)) => (Some EXIT_FAILURE, effects ++ [Log ("daemon failed: " +:+ error); FlushLog])
    | Some (Returned (Ok _)) => (Some EXIT_SUCCESS, effects ++ [FlushLog])
    end
  end.

(** ** Correctness *)

Definition connection (l : option LocalListener) (e : event) : option (N * bool) :=
  match e with
  | Accepted a alive => match (accept_on l a).1 with Some (Ok pid) => Some (pid, alive) | _ => None end
  | _ => None
  end.

(** An event that ends the loop, and with which result. *)
Definition ends (l : option LocalListener) (e : event) : option (result unit io_error) :=
  match e with
  | Signal | ShutdownChanged => Some (Ok tt)
  | Tick alive => if alive then None else Some (Ok tt)
  | ConnectionJoined => None
  | Accepted a _ => match (accept_on l a).1 with Some (Err error) => Some (Err error) | _ => None end
  end.

Definition decide_peer (owner : OwnerProcess) (c : N * bool) : served :=
  if authorizes owner c.1 c.2 then Served c.1 else Rejected c.1.

Lemma decisions_authorized l owner events pid :
  Served pid ∈ omap turn_served (run_loop l owner events).1 -> pid = o_pid owner.
Proof.
  induction events as [|e events IH]; [set_solver|].
  destruct e as [| |[|]| |a alive]; cbn [run_loop negb]; try done; try set_solver.
  destruct (accept_on l a) as [[[p|err]|] actions]; [| cbn; set_solver |];
    destruct (run_loop l owner events) as [ds res] eqn:E; cbn in *; [|done].
  destruct (authorizes owner p alive) eqn:Ha; cbn; rewrite elem_of_cons; intros [?|?]; simplify_eq; auto.
  unfold authorizes in Ha. apply andb_true_iff in Ha as [Ha%N.eqb_eq _]. done.
Qed.

(** The loop handles every connection that arrives before the first
    signal, shutdown request, listener failure or check that finds the owner
    gone, in order, and none after it; it serves exactly those whose peer is
    the living owner; it ends at that event and not before, with an error only
    for a listener failure. *)
Lemma run_loop_spec l owner before rest :
  Forall (fun e => ends l e = None) before ->
  (forall e r, rest = e :: r -> is_Some (ends l e)) ->
  let '(turns, res) := run_loop l owner (before ++ rest) in
  omap turn_served turns = decide_peer owner <$> omap (connection l) before /\
  res = head rest ≫= ends l.
Proof.
  intros Hb Hr. induction Hb as [|e before He _ IH]; cbn [app].
  - destruct rest as [|e r]; [done|]. specialize (Hr e r eq_refl).
    destruct e as [| |[|]| |a alive]; cbn in *; try done; try (by destruct Hr).
    destruct (accept_on l a) as [[[pid|err]|] actions]; cbn in *; try done; by destruct Hr.
  - destruct (run_loop l owner (before ++ rest)) as [turns res] eqn:E. destruct IH as [IH ->].
    destruct e as [| |[|]| |a alive]; cbn [run_loop negb ends] in *; try done; try (rewrite E; by split).
    cbn [omap list_omap connection]. destruct (accept_on l a) as [[[pid|err]|] actions]; cbn [fst] in *; try done;
      rewrite E; cbn; [|done].
    split; [|done]. cbn. rewrite IH. unfold decide_peer at 2. cbn. by destruct (authorizes owner pid alive).
Qed.

Example run_loop_example :
  let '(turns, res) := run_loop None (mkOwner 42 1000 (3, 0)%Z "")
    [Accepted (UnixAccept (Ok 42%N)) true; Tick true; Accepted (UnixAccept (Ok 7%N)) true;
     Accepted (UnixAccept (Ok 42%N)) false; Tick false; Accepted (UnixAccept (Ok 42%N)) true] in
  omap turn_served turns = [Served 42; Rejected 7; Rejected 42] /\ res = Some (Ok tt).
Proof. done. Qed.

(** The parts of a run's effects. *)
Definition socket_action (e : effect) : option fs_action := match e with Socket a => Some a | _ => None end.
Definition library_action (e : effect) : option dll_action := match e with Library a => Some a | _ => None end.
Definition pipe_change (e : effect) : option pipe_action := match e with Pipe a => Some a | _ => None end.
Definition spawned (e : effect) : option N := match e with Spawn pid => Some pid | _ => None end.

(** Projecting a mapped list. *)
Lemma omap_fmap_all {A B C} (f : A -> B) (g : B -> option C) (h : A -> C) (l : list A) :
  (forall a, g (f a) = Some (h a)) -> omap g (f <$> l) = h <$> l.
Proof. intros H. induction l as [|a l IH]; [done|]. cbn. rewrite H. cbn. by rewrite IH. Qed.

Lemma omap_fmap_none {A B C} (f : A -> B) (g : B -> option C) (l : list A) :
  (forall a, g (f a) = None) -> omap g (f <$> l) = [].
Proof. intros H. induction l as [|a l IH]; [done|]. cbn. by rewrite H. Qed.

Lemma socket_sockets (l : list fs_action) : omap socket_action (Socket <$> l) = l.
Proof. by rewrite (omap_fmap_all _ _ id), list_fmap_id. Qed.
Lemma library_libraries (l : list dll_action) : omap library_action (Library <$> l) = l.
Proof. by rewrite (omap_fmap_all _ _ id), list_fmap_id. Qed.
Lemma socket_libraries (l : list dll_action) : omap socket_action (Library <$> l) = [].
Proof. by apply omap_fmap_none. Qed.
Lemma socket_pipes (l : list pipe_action) : omap socket_action (Pipe <$> l) = [].
Proof. by apply omap_fmap_none. Qed.
Lemma library_sockets (l : list fs_action) : omap library_action (Socket <$> l) = [].
Proof. by apply omap_fmap_none. Qed.
Lemma library_pipes (l : list pipe_action) : omap library_action (Pipe <$> l) = [].
Proof. by apply omap_fmap_none. Qed.
Lemma pipe_pipes (l : list pipe_action) : omap pipe_change (Pipe <$> l) = l.
Proof. by rewrite (omap_fmap_all _ _ id), list_fmap_id. Qed.
Lemma pipe_sockets (l : list fs_action) : omap pipe_change (Socket <$> l) = [].
Proof. by apply omap_fmap_none. Qed.
Lemma pipe_libraries (l : list dll_action) : omap pipe_change (Library <$> l) = [].
Proof. by apply omap_fmap_none. Qed.

Lemma socket_serves (ts : list turn) : omap socket_action (ts ≫= serve) = [].
Proof.
  induction ts as [|[p [[]|]] ts IH]; [done|..]; cbn; rewrite !omap_app, IH, socket_pipes; done.
Qed.
Lemma library_serves (ts : list turn) : omap library_action (ts ≫= serve) = [].
Proof.
  induction ts as [|[p [[]|]] ts IH]; [done|..]; cbn; rewrite !omap_app, IH, library_pipes; done.
Qed.
Lemma pipe_serves (ts : list turn) : omap pipe_change (ts ≫= serve) = ts ≫= turn_pipe.
Proof.
  induction ts as [|[p [[]|]] ts IH]; [done|..]; cbn; rewrite !omap_app, IH, pipe_pipes; cbn;
    by rewrite app_nil_r.
Qed.

Create Rewrite HintDb effects.
Create HintDb effects.
#[local] Hint Rewrite @omap_app socket_sockets library_libraries socket_libraries socket_pipes
  library_sockets library_pipes socket_serves library_serves pipe_pipes pipe_sockets pipe_libraries pipe_serves
  app_nil_r : effects.

(** The effects that only set up or clean up. *)
Definition quiet (e : effect) : bool :=
  match e with Library _ | Socket _ | Pipe _ => true | _ => false end.

Lemma quiet_libraries (l : list dll_action) : Forall (fun e => quiet e = true) (Library <$> l).
Proof. by apply Forall_fmap, Forall_true. Qed.
Lemma quiet_sockets (l : list fs_action) : Forall (fun e => quiet e = true) (Socket <$> l).
Proof. by apply Forall_fmap, Forall_true. Qed.
Lemma quiet_pipes (l : list pipe_action) : Forall (fun e => quiet e = true) (Pipe <$> l).
Proof. by apply Forall_fmap, Forall_true. Qed.
#[local] Hint Resolve quiet_libraries quiet_sockets quiet_pipes Forall_app_2 : effects.

(** The system lets the listener's destructors remove what they should. *)
Definition removals (h : host) : Prop :=
  match h with UnixHost _ outcomes => removable outcomes | WindowsHost _ _ _ _ _ => True end.

(** The accepts of a loop. *)
Lemma loop_pipes l owner events :
  match l with
  | None => (run_loop l owner events).1 ≫= turn_pipe = []
  | Some l' => exists inputs, (run_loop l owner events).1 ≫= turn_pipe = accept_all l' inputs
  end.
Proof.
  induction events as [|e events IH]; [destruct l; [by exists [] | done]|].
  assert (match l with
          | None => True
          | Some l' => exists inputs, (@nil pipe_action) = accept_all l' inputs
          end) as Hnil by (destruct l; [by exists [] | done]).
  destruct e as [| |[|]| |a alive]; cbn [run_loop negb]; try done; try (by destruct l).
  destruct l as [l|], a as [c|i]; cbn [accept_on].
  - destruct IH as [inputs IH]. destruct (run_loop (Some l) owner events) as [ts res]. by exists inputs.
  - destruct IH as [inputs IH]. pose proof (bind_cons (fun i => (ListenerWindows.accept l i).2) i inputs) as Hc.
    destruct (ListenerWindows.accept l i) as [[[pid|err]|] actions] eqn:Ea;
      try destruct (run_loop (Some l) owner events) as [ts res]; cbn [fst] in *.
    + exists (i :: inputs). unfold accept_all. rewrite Hc, Ea. cbn. by rewrite IH.
    + exists [i]. unfold accept_all. cbn. rewrite Ea. done.
    + exists (i :: inputs). unfold accept_all. rewrite Hc, Ea. cbn. by rewrite IH.
  - destruct c; [|done]. by destruct (run_loop None owner events).
  - by destruct (run_loop None owner events).
Qed.

Section RunFacts.
Context (DLL_BYTES : list byte) (umask_mode : Z).

Abbreviation files effects := (final umask_mode (omap socket_action effects)).
Abbreviation library effects := (folder_after no_folder (omap library_action effects)).
Abbreviation pipe effects := (pipes_after (mkPipes 0 0 0) (omap pipe_change effects)).

Lemma folder_app f a b : folder_after f (a ++ b) = folder_after (folder_after f a) b.
Proof. apply foldl_app. Qed.
Lemma pipes_app p a b : pipes_after p (a ++ b) = pipes_after (pipes_after p a) b.
Proof. apply foldl_app. Qed.

(** A listener and the target it belongs to. *)
Definition listens (h : host) (l : option LocalListener) : Prop :=
  match h, l with UnixHost _ _, None | WindowsHost _ _ _ _ _, Some _ => True | _, _ => False end.

(** The setup only touches the library and the listener; a failed one leaves
    neither, and a successful one what shutting down removes. *)
Lemma setup_leaves h endpoint owner binaries :
  let '(ready, effects) := setup DLL_BYTES h endpoint owner binaries in
  Forall (fun e => quiet e = true) effects /\
  match ready with
  | Err _ => (removals h -> files effects = mkFs None None) /\ library effects = no_folder /\
             pipe effects = mkPipes 0 0 0
  | Ok w =>
    (removals h -> files (effects ++ drop_local_listener h) = mkFs None None) /\
    library (effects ++ release_library (r_wintun w) 0) = no_folder /\
    listens h (r_listener w) /\
    pipe effects = mkPipes (if r_listener w is Some _ then 1 else 0) 0 0
  end.
Proof.
  unfold setup. destruct binaries as [[]|e]; [|by split_and!]. destruct h as [root outcome|pf guid x registered created].
  - pose proof (bind_leaves endpoint owner root outcome umask_mode) as Hb.
    destruct (Listener.bind endpoint owner root outcome) as [[[]|e] actions]; cbn in *;
      autorewrite with effects in *; auto 6 with effects.
  - unfold prepare. destruct pf as [root|]; [|by split_and!]. destruct guid as [instance|]; [|by split_and!].
    pose proof (extract_at_leaves DLL_BYTES (root +:+ "\wg-kotlin-wintun-" +:+ instance) x) as Hx.
    destruct (extract_at _ _ x) as [[w|e] actions]; [|cbn; autorewrite with effects; auto 6 with effects].
    destruct Hx as [Hx Hd].
    assert (folder_after no_folder (actions ++ drop_dll w) = no_folder) as He by by rewrite folder_app, Hx.
    destruct registered; cbn [set_wintun_dll fst]; [autorewrite with effects; auto 6 with effects|].
    unfold ListenerWindows.bind. destruct (starts_with pipe_prefix endpoint); cbn [negb].
    2:{ cbn. autorewrite with effects. auto 6 with effects. }
    unfold create. destruct created as [[[]|e1] [[]|e2]]; cbn [fst snd rmap];
      cbn [release_library drop_local_listener Nat.eqb r_wintun r_listener];
      autorewrite with effects; cbn; autorewrite with effects; split_and!; auto with effects;
      repeat constructor; auto with effects.
Qed.

(** A list without the effects that matter to the order of the shutdown. *)
Lemma quiet_without effects e :
  Forall (fun e => quiet e = true) effects -> quiet e = false -> e ∉ effects.
Proof. intros Hq He Hin. rewrite Forall_forall in Hq. specialize (Hq e Hin). congruence. Qed.

(** What a turn leaves among the effects. *)
Lemma elem_of_serve (ts : list turn) e :
  e ∈ ts ≫= serve -> quiet e = true \/ (exists line, e = Log line) \/ (exists pid, e = Hangup pid) \/
    exists pid, e = Spawn pid /\ Served pid ∈ omap turn_served ts.
Proof.
  intros (t & He & Ht)%list_elem_of_bind. unfold serve in He.
  apply elem_of_app in He as [(a & -> & _)%list_elem_of_fmap|He]; [by left|].
  destruct (turn_served t) as [[pid|pid]|] eqn:E; rewrite ?elem_of_cons, ?elem_of_nil in He; [|naive_solver|done].
  destruct He as [->|[->|[]]]; [eauto|]. right. right. right. exists pid. split; [done|].
  apply list_elem_of_omap. by exists t.
Qed.

Lemma spawn_served l owner events pid :
  Spawn pid ∈ (run_loop l owner events).1 ≫= serve -> pid = o_pid owner.
Proof.
  intros [?|[[? ?]|[[? ?]|(? & [= <-] & Hs)]]]%elem_of_serve; try done. by apply decisions_authorized in Hs.
Qed.

(** The lines between the broadcast and the listener's end. *)
Definition failure_line (r : result unit io_error) : list effect :=
  match r with Ok _ => [] | Err e => [Log ("listener failed: " +:+ io_message e)] end.

(** An orderly end: one broadcast, one wait; no connection is taken after the
    broadcast, and the listener is dropped before the wait. *)
Definition orderly (h : host) (effects : list effect) : Prop :=
  exists before lines rest,
    effects = before ++ [Broadcast] ++ lines ++ drop_local_listener h ++ [Drain] ++ rest /\
    Forall (fun e => e <> Broadcast /\ e <> Drain) (before ++ lines ++ rest) /\
    Forall (fun e => spawned e = None) (lines ++ rest) /\
    (removals h -> files (before ++ lines ++ drop_local_listener h) = mkFs None None) /\
    instances (pipe (before ++ lines ++ drop_local_listener h)) = 0 /\
    omap socket_action rest = [] /\ omap pipe_change rest = [].

Lemma quiet_plain effects :
  Forall (fun e => quiet e = true) effects ->
  Forall (fun e => e <> Broadcast /\ e <> Drain /\ spawned e = None) effects.
Proof. intros H. eapply Forall_impl; [exact H|]. by intros []. Qed.

Lemma serves_plain (ts : list turn) : Forall (fun e => e <> Broadcast /\ e <> Drain) (ts ≫= serve).
Proof.
  apply Forall_forall. intros e [Hq|[[? ->]|[[? ->]|(? & -> & _)]]]%elem_of_serve; try done. by destruct e.
Qed.

Lemma orderly_leaves h effects :
  orderly h effects -> (removals h -> files effects = mkFs None None) /\ instances (pipe effects) = 0.
Proof.
  intros (before & lines & rest & -> & _ & _ & Hf & Hp & Hs & Hr). rewrite !omap_app in *. cbn.
  rewrite Hs, Hr, !app_nil_r. auto.
Qed.

Lemma release_quiet w references : Forall (fun e => quiet e = true) (release_library w references).
Proof. unfold release_library. repeat case_match; auto with effects. Qed.

(** Releasing the library touches nothing else. *)
Lemma release_sockets w references :
  omap socket_action (release_library w references) = [] /\ omap pipe_change (release_library w references) = [].
Proof. unfold release_library. repeat case_match; autorewrite with effects; done. Qed.

(** Once the setup has succeeded and the loop has ended. *)
Lemma run_orderly h w owner events r drained started more line :
  Forall (fun e => quiet e = true) started ->
  (removals h -> files (started ++ drop_local_listener h) = mkFs None None) ->
  listens h (r_listener w) -> pipe started = mkPipes (if r_listener w is Some _ then 1 else 0) 0 0 ->
  Forall (fun e => quiet e = true) more -> omap socket_action more = [] -> omap pipe_change more = [] ->
  let ts := (run_loop (r_listener w) owner events).1 in
  orderly h ((started ++ [Log line] ++ (ts ≫= serve)) ++ shut_down h r drained ++ more).
Proof.
  intros Hs Hf Hl Hp Hm Hn Hn' ts.
  exists (started ++ [Log line] ++ (ts ≫= serve)), (failure_line r),
    (([Log ("daemon stopped sessions_drained=" +:+ bool_text drained)] ++ (if negb drained then [FlushLog] else [])) ++ more).
  apply quiet_plain in Hs, Hm. split_and!.
  - unfold shut_down, failure_line. by rewrite <- !app_assoc.
  - repeat apply Forall_app_2; try (eapply Forall_impl; [eassumption|]; cbn; naive_solver).
    + by repeat constructor.
    + apply serves_plain.
    + by destruct r; repeat constructor.
    + by repeat constructor.
    + by destruct drained; repeat constructor.
  - repeat apply Forall_app_2; try (eapply Forall_impl; [eassumption|]; cbn; naive_solver).
    + by destruct r; repeat constructor.
    + by repeat constructor.
    + by destruct drained; repeat constructor.
  - intros Hr. revert Hf. rewrite !omap_app, socket_serves. cbn. rewrite !app_nil_r. intros <-; [|done].
    by destruct r.
  - rewrite !omap_app, pipe_serves. cbn. rewrite app_assoc, !pipes_app, Hp.
    pose proof (loop_pipes (r_listener w) owner events) as Ht. fold ts in Ht.
    assert (omap pipe_change (failure_line r) = []) as -> by by destruct r. cbn.
    destruct h, (r_listener w) as [l|]; try done; cbn [drop_local_listener].
    + rewrite Ht. autorewrite with effects. done.
    + destruct Ht as [inputs ->].
      destruct (accept_all_settles l inputs (mkPipes 1 0 0)) as [[_ ->] _]; [done|]. done.
  - rewrite !omap_app, Hn. by destruct drained.
  - rewrite !omap_app, Hn'. by destruct drained.
Qed.

Lemma running_library h r drained started (ts : list turn) more line :
  library ((started ++ [Log line] ++ (ts ≫= serve)) ++ shut_down h r drained ++ more) = library (started ++ more).
Proof.
  assert (omap library_action (shut_down h r drained) = []) as E.
  { unfold shut_down. rewrite !omap_app. destruct r, h, drained; cbn; autorewrite with effects; done. }
  rewrite !omap_app, library_serves, E. cbn. by rewrite app_nil_r.
Qed.

Lemma spawn_ended h r drained effects line (ts : list turn) more pid :
  Forall (fun e => quiet e = true) effects -> Forall (fun e => quiet e = true) more ->
  Spawn pid ∈ (effects ++ [Log line] ++ (ts ≫= serve)) ++ shut_down h r drained ++ more -> Spawn pid ∈ ts ≫= serve.
Proof.
  intros Hq Hm. assert (Spawn pid ∉ shut_down h r drained) as Hs.
  { unfold shut_down. destruct r, h, drained; cbn; set_solver. }
  pose proof (quiet_without effects (Spawn pid) Hq eq_refl). pose proof (quiet_without more (Spawn pid) Hm eq_refl).
  rewrite !elem_of_app, list_elem_of_singleton. naive_solver.
Qed.

End RunFacts.

(** The process succeeds exactly when it is privileged, can log, starts and ends
    in order; every failure but that of the log itself is written to the log,
    which is flushed last. *)
Lemma main_succeeds owner logger fallback runtime running :
  (main owner logger fallback runtime running).1 = Some EXIT_SUCCESS <->
  is_ok logger = true /\ is_ok runtime = true /\
  exists o, owner = Ok o /\
    ((running o).1 = Some (Returned (Ok tt)) \/ (running o).1 = Some (Exited EXIT_SUCCESS)).
Proof.
  unfold main, EXIT_SUCCESS, EXIT_FAILURE.
  destruct logger; [|by split; [|intros (? & _)]].
  destruct owner as [o|]; [|by split; [destruct runtime | intros (_ & _ & ? & ? & _)]].
  destruct runtime; [|by split; [|intros (_ & ? & _)]].
  destruct (running o) as [[[[[]|e]|c]|] effects] eqn:E; cbn; split; intros H; simplify_eq.
  all: try (split_and!; [done..|]; exists o; rewrite E; cbn; auto).
  all: by destruct H as (_ & _ & o' & [= <-] & [H|H]); rewrite E in H; cbn in H; simplify_eq.
Qed.

Lemma main_flushes owner logger runtime running code effects :
  main owner (Ok logger) (Ok tt) runtime running = (Some code, effects) ->
  (forall o, owner = Ok o -> runtime = Ok tt -> forall c, (running o).1 <> Some (Exited c)) ->
  last effects = Some FlushLog.
Proof.
  unfold main. destruct owner as [o|e]; [destruct runtime as [[]|e]|]; cbn.
  - destruct (running o) as [[[[[]|e]|c]|] more] eqn:E; cbn; intros Heq Hn; simplify_eq.
    + by rewrite last_app.
    + by rewrite last_app.
    + specialize (Hn o eq_refl eq_refl code). by rewrite E in Hn.
  - by intros [= <- <-].
  - by intros [= <- <-].
Qed.
