(* ===== verification/TestDaemon.v ===== *)
(** * examples/ipc_test_daemon.rs: the transport fixture

    A stand-in for the daemon that never touches the network: it accepts its
    owner, greets, and answers a configuration with a start and a packet with
    the same packet. Its modes imitate daemons a client has to cope with. The
    loop over a connection reads until its stream ends; [fixture_fuel] bounds
    the turns by the bytes that are left. *)

From S2P Require Import Prelude RustStd Net Proto IpUtil Validation Ipc Server.
From S2P Require Import Connection.
From S2P Require Import Owner.
From S2P Require Import ListenerWindows.
From S2P Require Import Daemon.
From Stdlib Require Import Lia.

Section Fixture.
Context `{Message ServerMessage} `{Message ClientMessage}.

(** Mode "foreign-client": a client that must be turned away; [None] is a read
    that took longer than two seconds. *)
Definition foreign_client (read : option (result (option ServerMessage) io_error)) : result unit string :=
  match read with
  | Some (Ok None) | Some (Err _) => Ok tt
  | _ => Err "foreign process was accepted or not promptly rejected"
  end.

(** [std::process::id() + u32::from(mode == "wrong-pid")]. *)
Definition fixture_ready (mode : string) (process_id : N) : ServerMessage :=
  mkServer (Some (Ready PROTOCOL_VERSION
    ((process_id + (if bool_decide (mode = "wrong-pid") then 1 else 0)) mod 2 ^ 32)%N)).

(** What a message is answered with. *)
Inductive reaction : Type :=
| Reply (payload : ServerPayload)
| Stop
| Skip.

Definition react (mode : string) (message : ClientMessage) : reaction :=
  match client_payload message with
  | Some (Config config) => Reply (Started (interface_name config))
  | Some (OutgoingPacket data) => Reply (IncomingPacket data)
  | Some (Shutdown true) => if negb (bool_decide (mode = "stubborn")) then Stop else Skip
  | _ => Skip
  end.

(** The loop over a connection: what it wrote, and whether it asked the daemon
    to stop. [limits] are the outcomes of successive writes. [None] is a loop
    that ran out of fuel. *)
Fixpoint echo (fuel : nat) (mode : string) (limits : list (option (nat * io_error))) (s : stream) (w : list byte)
    : option (list byte * bool) :=
  match fuel with
  | O => None
  | S fuel =>
    match read_frame s with
    | (Ok (Some message), s) =>
      match react mode message with
      | Stop => Some (w, true)
      | Skip => echo fuel mode limits s w
      | Reply payload =>
        match write_message (mkServer (Some payload)) (default None (head limits)) w with
        | (Err _, w) => Some (w, false)
        | (Ok _, w) => echo fuel mode (tail limits) s w
        end
      end
    | _ => Some (w, false)
    end
  end.

Definition fixture_fuel (s : stream) : nat := S (length (pending s)).

(** A spawned task; [None] when it serves the connection as the daemon does
    ("normal"), or waits for ever ("no-ready"). *)
Definition fixture_task (mode : string) (process_id : N) (limits : list (option (nat * io_error))) (s : stream)
    : option (list byte * bool) :=
  if bool_decide (mode = "normal") || bool_decide (mode = "no-ready") then None
  else match write_message (fixture_ready mode process_id) (default None (head limits)) [] with
  | (Err _, w) => Some (w, false)
  | (Ok _, w) => echo (fixture_fuel s) mode (tail limits) s w
  end.

(** The main loop: the connections it serves and, once it ends, its result. *)
Fixpoint fixture_loop (l : option LocalListener) (owner : OwnerProcess) (events : list event)
    : list N * option (result unit io_error) :=
  match events with
  | [] => ([], None)
  | ShutdownChanged :: _ => ([], Some (Ok tt))
  | Tick alive :: r => if negb alive then ([], Some (Ok tt)) else fixture_loop l owner r
  | Accepted a alive :: r =>
    match (accept_on l a).1 with
    | Some (Err error) => ([], Some (Err error))
    | None => fixture_loop l owner r
    | Some (Ok pid) =>
      if negb (authorizes owner pid alive) then fixture_loop l owner r
      else let '(served, res) := fixture_loop l owner r in (pid :: served, res)
    end
  | Signal :: r | ConnectionJoined :: r => fixture_loop l owner r
  end.

(** ** Correctness *)

(** The replies to a sequence of messages, up to a shutdown. *)
Fixpoint replies (mode : string) (ms : list ClientMessage) : list ServerMessage * bool :=
  match ms with
  | [] => ([], false)
  | m :: r =>
    match react mode m with
    | Stop => ([], true)
    | Skip => replies mode r
    | Reply payload => let '(out, stop) := replies mode r in (mkServer (Some payload) :: out, stop)
    end
  end.

Lemma frame_bytes_length `{Message M} (m : M) : 4 <= length (frame_bytes m).
Proof. unfold frame_bytes. rewrite length_app, length_be_bytes. lia. Qed.

Lemma frames_bytes_length `{Message M} (ms : list M) : length ms <= length (frames_bytes ms).
Proof.
  unfold frames_bytes. induction ms as [|m ms IH]; [done|]. cbn [fmap list_fmap concat length].
  rewrite length_app. pose proof (frame_bytes_length m). lia.
Qed.

(** The fuel is enough for any stream and any outcome of the writes: every
    turn that goes on has consumed a frame. *)
Lemma echo_terminates mode fuel limits s w : length (pending s) < fuel -> is_Some (echo fuel mode limits s w).
Proof.
  revert limits s w. induction fuel as [|fuel IH]; intros limits s w Hl; [lia|]. cbn [echo].
  destruct (read_frame s) as [[[m|]|e] s'] eqn:E; [|by eexists..].
  destruct (read_frame_consumes s s' m E) as (body & Hp & _).
  assert (length (pending s') < fuel) as Hs' by (rewrite Hp, !length_app, length_be_bytes in Hl; lia).
  destruct (react mode m); [|by eexists|by apply IH].
  destruct (write_message _ _ w) as [[[]|e] w']; [by apply IH | by eexists].
Qed.

Lemma fixture_task_terminates mode pid limits s :
  mode <> "normal" -> mode <> "no-ready" -> is_Some (fixture_task mode pid limits s).
Proof.
  intros H1 H2. unfold fixture_task. rewrite !bool_decide_eq_false_2 by done. cbn [orb].
  destruct (write_message _ _ []) as [[[]|e] w]; [|by eexists]. apply echo_terminates. unfold fixture_fuel. lia.
Qed.

Section Echo.
Context {cdom : ClientMessage -> Prop} `{!MessageLaws ClientMessage cdom}.

(** At the end of the stream there is no frame. *)
Lemma read_frame_end s : pending s = [] -> Ipc.ending s = Eof -> (read_frame (M:=ClientMessage) s).1 = Ok None.
Proof.
  intros Hp He. destruct (read_frame_flat (M:=ClientMessage) s) as (s' & Hs & _).
  rewrite Hp, He in Hs. rewrite Hs. reflexivity.
Qed.

Lemma echo_replies mode ms fuel s w :
  Forall cdom ms -> Forall frame_fits ms -> Forall frame_fits (replies mode ms).1 ->
  pending s = frames_bytes ms -> Ipc.ending s = Eof -> length ms < fuel ->
  echo fuel mode [] s w = Some (w ++ frames_bytes (replies mode ms).1, (replies mode ms).2).
Proof.
  intros Hd. revert fuel s w. induction Hd as [|m ms Hm _ IH]; intros fuel s w Hf Hr Hp He Hl.
  { destruct fuel as [|fuel]; [cbn in Hl; lia|]. cbn [echo].
    pose proof (read_frame_end s Hp He) as E. destruct (read_frame s) as [r s']. cbn in E. rewrite E.
    cbn. by rewrite app_nil_r. }
  inversion_clear Hf as [|?? Hf0 Hfs]. destruct fuel as [|fuel]; [cbn in Hl; lia|].
  destruct (read_frame_bytes m (frames_bytes ms) s Hm Hf0 Hp) as (s' & Hs & Hp' & He').
  cbn [echo replies] in *. rewrite Hs. cbn [length] in Hl.
  destruct (react mode m) as [payload| |].
  - destruct (replies mode ms) as [out stop]. cbn [fst snd] in *. inversion_clear Hr as [|?? Hr0 Hrs].
    cbn [head default tail]. rewrite (write_message_whole (mkServer (Some payload)) w Hr0).
    rewrite IH; [|done..|congruence|lia]. unfold frames_bytes. cbn [fmap list_fmap concat]. by rewrite <- app_assoc.
  - cbn. by rewrite app_nil_r.
  - apply IH; [done..|congruence|lia].
Qed.

(** On a working connection the fixture greets, answers every message in order
    up to a request to stop, and ends when its client does. *)
Lemma fixture_answers {sdom : ServerMessage -> Prop} `{!MessageLaws ServerMessage sdom} mode pid ms s t :
  mode <> "normal" -> mode <> "no-ready" ->
  Forall cdom ms -> Forall frame_fits ms -> pending s = frames_bytes ms -> Ipc.ending s = Eof ->
  let all := fixture_ready mode pid :: (replies mode ms).1 in
  Forall sdom all -> Forall frame_fits all ->
  exists w, fixture_task mode pid [] s = Some (w, (replies mode ms).2) /\
    (pending t = w -> exists t', read_frames (length all) t = (Ok all, t') /\ pending t' = []).
Proof.
  intros Hn1 Hn2 Hd Hf Hp He all Hsd Hsf. exists (frames_bytes all). split.
  - unfold fixture_task. rewrite !bool_decide_eq_false_2 by done. cbn [orb head default tail].
    inversion_clear Hsf as [|?? Hf0 Hfs]. rewrite write_message_whole by done.
    apply echo_replies; try done. unfold fixture_fuel. rewrite Hp. pose proof (frames_bytes_length ms). lia.
  - intros Ht. destruct (read_frames_bytes all [] t Hsd Hsf) as (t' & H1 & H2 & _); [by rewrite app_nil_r|eauto].
Qed.
End Echo.

(** The fixture takes the same connections as the daemon, which also ends on a
    signal. *)
Lemma fixture_loop_run_loop l owner events :
  Signal ∉ events ->
  fixture_loop l owner events =
    (omap (fun s => match s with Served pid => Some pid | Rejected _ => None end)
       (omap turn_served (run_loop l owner events).1),
     (run_loop l owner events).2).
Proof.
  induction events as [|e events IH]; [done|]. rewrite not_elem_of_cons. intros [He Hs].
  specialize (IH Hs). destruct e as [| |[|]| |a alive]; cbn; try done.
  destruct (accept_on l a) as [[[pid|err]|] actions]; cbn; [| done |]; rewrite IH;
    destruct (run_loop l owner events) as [ds res]; [by destruct (authorizes owner pid alive) | done].
Qed.
End Fixture.
